(** * ai-tool-report: reconciliation and aggregation engine

    A shallow embedding of the JavaScript sources
      - src/common/name-variations.js, src/common/org.js, src/common/prompt.js,
        src/common/fs.js
      - src/reporting/ReportingService.js
      - src/github/services/GitHubDiagnosticService.js (GitHubAnalysisService)
      - src/cursor/util.js, src/cursor/aggregate.js
    together with the properties the specification states about them and
    further properties of the code.

    Conventions.
    - Integer counters and millisecond time values are [Z].  JavaScript
      Numbers are IEEE-754 binary64: the sum of two Numbers that are
      non-negative integers is their sum as integers exactly when that sum
      is at most 2^53.  The running sums of counters are sums in [Z]; the
      properties that speak of such a sum take as a hypothesis that the
      summands are non-negative and that their sum is at most 2^53
      ([exactSum]), so that every partial sum, in any order, is exact.
    - Quotients and products that are not integers are rationals rounded to
      the nearest binary64 value ([fl], ties to even), so that
      [(23/40)*100] is 57.49999999999999 and not 57.5, as in the engine.
    - [undefined]/[null]/absent fields are [None].
    - Thrown exceptions are the [Throw] case of [Result]. *)

From Stdlib Require Import ZArith QArith Qround Qpower Qabs Lqa Lia Floats.
From Stdlib Require Import Strings.String Strings.Ascii.
From Stdlib Require OrderedTypeEx.
From Stdlib Require Import Sorting.Sorted.
From stdpp Require Import base option list gmap strings pretty.

Open Scope Z_scope.

(* ===================================================================== *)
(** ** JavaScript Number arithmetic                                        *)
(* ===================================================================== *)

(** [pow2 e] is 2^e for any integer exponent. *)
Definition pow2 (e : Z) : Q := Qpower 2 e.

(** [ilog2 q], for [0 < q], is the exponent [e] with [2^e <= q < 2^(e+1)]. *)
Definition ilog2 (q : Q) : Z :=
  let g := Z.log2 (Qnum q) - Z.log2 (Zpos (Qden q)) in
  if Qle_bool (pow2 g) q then g else g - 1.

(** Round to the nearest integer, ties to the even one. *)
Definition rne (x : Q) : Z :=
  let f := Qfloor x in
  match Qcompare (x - inject_Z f) (1 # 2) with
  | Lt => f
  | Gt => f + 1
  | Eq => if Z.even f then f else f + 1
  end.

(** Round a positive rational to 53 significant bits. *)
Definition fl_pos (q : Q) : Q :=
  let u := pow2 (ilog2 q - 52) in
  Qred (inject_Z (rne (q / u)) * u).

(** [fl q]: the binary64 value nearest to [q] (normal range). *)
Definition fl (q : Q) : Q :=
  match Qcompare q 0 with
  | Eq => 0%Q
  | Gt => fl_pos q
  | Lt => Qopp (fl_pos (Qopp q))
  end.

(** [a / b] and [a * b] on Numbers, for a non-zero divisor. *)
Definition jsdiv (a b : Q) : Q := fl (a / b).
Definition jsmul (a b : Q) : Q := fl (a * b).

(** [Math.round(x)]: the integer nearest to [x], a tie going to +infinity. *)
Definition Math_round (x : Q) : Z := Qfloor (x + (1 # 2)).

(** [Math.floor(a / b)] for integers [a], [b] with [b > 0]. *)
Definition Math_floor_div (a b : Z) : Z := a / b.

(** The rational a finite kernel float stands for; used to compare [fl]
    with the kernel's binary64 arithmetic. *)
Definition SF2Q (s : SpecFloat.spec_float) : option Q :=
  match s with
  | SpecFloat.S754_zero _ => Some 0%Q
  | SpecFloat.S754_finite sg m e =>
      Some (Qred ((if sg then -1 else 1) * inject_Z (Zpos m) * pow2 e))
  | _ => None
  end.

(** Thrown exceptions. *)
Inductive JsError : Type :=
  | RangeError (msg : string)
  | TypeError (msg : string)
  | Error (msg : string).

Inductive Result (A : Type) : Type :=
  | Ok (a : A)
  | Throw (e : JsError).
Arguments Ok {A} a.
Arguments Throw {A} e.

Definition bind {A B} (r : Result A) (k : A -> Result B) : Result B :=
  match r with
  | Ok a => k a
  | Throw e => Throw e
  end.

(** [x || 0] on an optional counter. *)
Definition or0 (v : option Z) : Z := default 0 v.

(** [x || null] on an optional string: the empty string is falsy. *)
Definition orNull (v : option string) : option string :=
  match v with
  | Some s => if String.eqb s "" then None else Some s
  | None => None
  end.

(** 2^53: up to it every non-negative integer is a Number. *)
Definition MAX_EXACT : Z := 9007199254740992.

(* ===================================================================== *)
(** ** GitHubAnalysisService.calculateAcceptanceMetrics                    *)
(* ===================================================================== *)

Record Language := {
  total_code_lines_suggested : option Z;
  total_code_lines_accepted : option Z;
  total_code_suggestions : option Z;
  total_code_acceptances : option Z
}.

Record Model := { languages : option (list Language) }.
Record Editor := { models : option (list Model) }.
Record Completions := { editors : option (list Editor) }.
Record DayData := { copilot_ide_code_completions : option Completions }.

Record MetricsMeta := {
  since : option string;
  until : option string
}.

(** [data = None] stands for a missing [data] key or one that is not an
    array. *)
Record MetricsData := {
  data : option (list DayData);
  meta : option MetricsMeta
}.

(** The four running totals of the loop. *)
Record Totals := {
  totalLinesSuggested : Z;
  totalLinesAccepted : Z;
  totalSuggestions : Z;
  totalAcceptances : Z
}.

Definition zeroTotals : Totals :=
  {| totalLinesSuggested := 0; totalLinesAccepted := 0;
     totalSuggestions := 0; totalAcceptances := 0 |}.

(** [totalX += language.x || 0] for the four counters.  The sums are sums
    of integers: they are the Number sums of the code for counters that are
    non-negative integers adding up to at most 2^53 ([countersExact],
    below). *)
Definition addLanguage (t : Totals) (l : Language) : Totals :=
  {| totalLinesSuggested := totalLinesSuggested t + or0 (total_code_lines_suggested l);
     totalLinesAccepted := totalLinesAccepted t + or0 (total_code_lines_accepted l);
     totalSuggestions := totalSuggestions t + or0 (total_code_suggestions l);
     totalAcceptances := totalAcceptances t + or0 (total_code_acceptances l) |}.

Definition addModel (t : Totals) (m : Model) : Totals :=
  match languages m with
  | Some ls => fold_left addLanguage ls t
  | None => t
  end.

Definition addEditor (t : Totals) (e : Editor) : Totals :=
  match models e with
  | Some ms => fold_left addModel ms t
  | None => t
  end.

Definition addDay (t : Totals) (d : DayData) : Totals :=
  match copilot_ide_code_completions d with
  | Some c =>
      match editors c with
      | Some es => fold_left addEditor es t
      | None => t
      end
  | None => t
  end.

Record AcceptanceMetrics := {
  am_totals : Totals;
  acceptanceRate : Q;
  lineAcceptanceRate : Q;
  periodStart : option string;
  periodEnd : option string;
  daysCovered : nat
}.

(** [total > 0 ? (part / total) * 100 : 0] *)
Definition rawRate (part total : Z) : Q :=
  if 0 <? total then jsmul (jsdiv (inject_Z part) (inject_Z total)) 100 else 0%Q.

(** [Math.round(rate * 100) / 100] *)
Definition round2 (rate : Q) : Q :=
  jsdiv (inject_Z (Math_round (jsmul rate 100))) 100.

Definition calculateAcceptanceMetrics (metricsData : MetricsData) : AcceptanceMetrics :=
  match data metricsData with
  | None =>
      {| am_totals := zeroTotals; acceptanceRate := 0; lineAcceptanceRate := 0;
         periodStart := None; periodEnd := None; daysCovered := 0 |}
  | Some days =>
      let t := fold_left addDay days zeroTotals in
      {| am_totals := t;
         acceptanceRate := round2 (rawRate (totalAcceptances t) (totalSuggestions t));
         lineAcceptanceRate := round2 (rawRate (totalLinesAccepted t) (totalLinesSuggested t));
         periodStart := orNull (meta metricsData ≫= since);
         periodEnd := orNull (meta metricsData ≫= until);
         daysCovered := length days |}
  end.

(** All language entries of a payload, days, editors and models flattened. *)
Definition languagesOfModel (m : Model) : list Language := default [] (languages m).
Definition languagesOfEditor (e : Editor) : list Language :=
  concat (map languagesOfModel (default [] (models e))).
Definition languagesOfDay (d : DayData) : list Language :=
  concat (map languagesOfEditor (default [] (copilot_ide_code_completions d ≫= editors))).
Definition allLanguages (metricsData : MetricsData) : list Language :=
  concat (map languagesOfDay (default [] (data metricsData))).

Definition sumZ (l : list Z) : Z := fold_right Z.add 0 l.

(** Numbers that [+=] adds up without rounding, in whatever order: they
    are non-negative integers and their sum is at most 2^53, so every
    partial sum is an integer in that range. *)
Definition exactSum (l : list Z) : Prop :=
  Forall (fun n => 0 <= n) l /\ sumZ l <= MAX_EXACT.

(** The sum of one counter over a list of language entries. *)
Definition sumField (f : Language -> option Z) (ls : list Language) : Z :=
  sumZ (map (fun l => or0 (f l)) ls).

(** The values of one counter over a list of language entries add up
    without rounding. *)
Definition countersExact (f : Language -> option Z) (ls : list Language) : Prop :=
  exactSum (map (fun l => or0 (f l)) ls).

Definition plusLanguages (t : Totals) (ls : list Language) : Totals :=
  {| totalLinesSuggested := totalLinesSuggested t + sumField total_code_lines_suggested ls;
     totalLinesAccepted := totalLinesAccepted t + sumField total_code_lines_accepted ls;
     totalSuggestions := totalSuggestions t + sumField total_code_suggestions ls;
     totalAcceptances := totalAcceptances t + sumField total_code_acceptances ls |}.

(** A payload of one day, one editor, one model and the given entries. *)
Definition payloadOf (ls : list Language) : MetricsData :=
  {| data := Some [ {| copilot_ide_code_completions :=
                         Some {| editors := Some [ {| models :=
                           Some [ {| languages := Some ls |} ] |} ] |} |} ];
     meta := None |}.

Definition counters (suggested accepted : Z) : Language :=
  {| total_code_lines_suggested := None; total_code_lines_accepted := None;
     total_code_suggestions := Some suggested;
     total_code_acceptances := Some accepted |}.

(* ===================================================================== *)
(** ** JavaScript strings                                                  *)
(* ===================================================================== *)

(** Strings are sequences of 8-bit characters; the text the functions below
    see in this model is ASCII. *)

Definition charCode (c : ascii) : Z := Z.of_nat (nat_of_ascii c).

Definition lowerChar (c : ascii) : ascii :=
  if (65 <=? charCode c) && (charCode c <=? 90)
  then ascii_of_nat (nat_of_ascii c + 32)
  else c.

(** [s.toLowerCase()] *)
Fixpoint toLowerCase (s : string) : string :=
  match s with
  | EmptyString => EmptyString
  | String c r => String (lowerChar c) (toLowerCase r)
  end.

(** White space and line terminators of the ASCII range. *)
Definition isWhiteSpace (c : ascii) : bool :=
  let n := charCode c in
  (n =? 32) || ((9 <=? n) && (n <=? 13)).

Fixpoint trimStart (s : string) : string :=
  match s with
  | EmptyString => EmptyString
  | String c r => if isWhiteSpace c then trimStart r else s
  end.

(** [s.trim()] *)
Definition trim (s : string) : string :=
  String.rev (trimStart (String.rev (trimStart s))).

(** [s.split(' ')]: the pieces between single space characters; never the
    empty list, and empty pieces are kept. *)
Fixpoint split_space (s : string) : list string :=
  match s with
  | EmptyString => [EmptyString]
  | String c r =>
      if Ascii.eqb c " "
      then EmptyString :: split_space r
      else match split_space r with
           | h :: t => String c h :: t
           | [] => [String c EmptyString]
           end
  end.

(** [!s] for a string: only the empty string is falsy. *)
Definition falsy (s : string) : bool := String.eqb s "".

(** [s.includes(t)] on strings. *)
Fixpoint str_includes (t s : string) : bool :=
  String.prefix t s ||
  match s with
  | EmptyString => false
  | String _ r => str_includes t r
  end.

(** [s.endsWith(t)] *)
Definition endsWith (s t : string) : bool :=
  String.prefix (String.rev t) (String.rev s).

(* ===================================================================== *)
(** ** JavaScript arrays                                                   *)
(* ===================================================================== *)

(** [Array.prototype.sort(compare)]: stable, ascending in [compare]; a NaN
    from the comparator counts as 0. *)
Fixpoint insertSorted {A} (compare : A -> A -> Z) (x : A) (l : list A) : list A :=
  match l with
  | [] => [x]
  | y :: rest =>
      if compare x y <=? 0 then x :: y :: rest
      else y :: insertSorted compare x rest
  end.

Definition sortBy {A} (compare : A -> A -> Z) (l : list A) : list A :=
  fold_right (insertSorted compare) [] l.

(** The order of strings by code units, as a comparator. *)
Definition compareStrings (a b : string) : Z :=
  match String.compare a b with
  | Lt => -1
  | Eq => 0
  | Gt => 1
  end.

(* ===================================================================== *)
(** ** JavaScript Date                                                     *)
(* ===================================================================== *)

Definition msPerDay : Z := 86400000.

(** A Date object holds a time value (milliseconds since the epoch, UTC) or
    NaN ("Invalid Date"). *)
Inductive Date : Type :=
  | InvalidDate
  | DateOf (t : Z).

(** Time values beyond 8.64e15 ms are clipped to NaN. *)
Definition TimeClip (t : Z) : Date :=
  if Z.abs t <=? 8640000000000000 then DateOf t else InvalidDate.

(** Days since the epoch of a proleptic Gregorian calendar date. *)
Definition days_from_civil (y m d : Z) : Z :=
  let y' := if m <=? 2 then y - 1 else y in
  let era := y' / 400 in
  let yoe := y' - era * 400 in
  let doy := (153 * (if 2 <? m then m - 3 else m + 9) + 2) / 5 + d - 1 in
  let doe := yoe * 365 + yoe / 4 - yoe / 100 + doy in
  era * 146097 + doe - 719468.

(** The calendar date (year, month, day) of a day number. *)
Definition civil_from_days (z : Z) : Z * Z * Z :=
  let z := z + 719468 in
  let era := z / 146097 in
  let doe := z - era * 146097 in
  let yoe := (doe - doe / 1460 + doe / 36524 - doe / 146096) / 365 in
  let doy := doe - (365 * yoe + yoe / 4 - yoe / 100) in
  let mp := (5 * doy + 2) / 153 in
  let d := doy - (153 * mp + 2) / 5 + 1 in
  let m := if mp <? 10 then mp + 3 else mp - 9 in
  ((yoe + era * 400 + (if m <=? 2 then 1 else 0)), m, d).

Definition digitVal (c : ascii) : option Z :=
  let n := charCode c in
  if (48 <=? n) && (n <=? 57) then Some (n - 48) else None.

Fixpoint digitsVal (acc : Z) (s : string) : option Z :=
  match s with
  | EmptyString => Some acc
  | String c r =>
      match digitVal c with
      | Some d => digitsVal (10 * acc + d) r
      | None => None
      end
  end.

(** The value of a non-empty string of decimal digits ([/^\d+$/]). *)
Definition allDigits (s : string) : option Z :=
  match s with
  | EmptyString => None
  | _ => digitsVal 0 s
  end.

(** [n] digits of [s] from position [i], as a number. *)
Definition field (i n : nat) (s : string) : option Z :=
  let sub := String.substring i n s in
  if (String.length sub =? n)%nat then allDigits sub else None.

Definition charAt (i : nat) (s : string) : option ascii := String.get i s.

(** The date part [YYYY-MM-DD] at the start of [s], as a day number. *)
Definition parseDay (s : string) : option Z :=
  y ← field 0 4 s; m ← field 5 2 s; d ← field 8 2 s;
  if decide (charAt 4 s = Some "-"%char /\ charAt 7 s = Some "-"%char
             /\ civil_from_days (days_from_civil y m d) = (y, m, d))
  then Some (days_from_civil y m d) else None.

(** The time part [HH:mm], [HH:mm:ss] or [HH:mm:ss.sss]: milliseconds into
    the day and the number of characters read. *)
Definition parseClock (s : string) : option (Z * nat) :=
  h ← field 0 2 s; mi ← field 3 2 s;
  if decide (charAt 2 s = Some ":"%char /\ h <= 24 /\ mi <= 59) then
    if decide (charAt 5 s = Some ":"%char) then
      sec ← field 6 2 s;
      if decide (sec <= 59) then
        if decide (charAt 8 s = Some "."%char) then
          ms ← field 9 3 s;
          Some (((h * 60 + mi) * 60 + sec) * 1000 + ms, 12%nat)
        else Some (((h * 60 + mi) * 60 + sec) * 1000, 8%nat)
      else None
    else Some ((h * 60 + mi) * 60000, 5%nat)
  else None.

(** The offset suffix: [Z], [+HH:mm], [-HH:mm], or none (local time, [tz]
    milliseconds east of UTC).  The result is the offset from UTC in ms. *)
Definition parseOffset (tz : Z) (s : string) : option Z :=
  if String.eqb s "" then Some tz
  else if String.eqb s "Z" then Some 0
  else
    h ← field 1 2 s; mi ← field 4 2 s;
    if decide ((String.length s = 6)%nat /\ charAt 3 s = Some ":"%char
               /\ h <= 23 /\ mi <= 59) then
      if decide (charAt 0 s = Some "+"%char) then Some ((h * 60 + mi) * 60000)
      else if decide (charAt 0 s = Some "-"%char) then Some (- ((h * 60 + mi) * 60000))
      else None
    else None.

(** [Date.parse(s)] on the ECMAScript date-time string format: the time
    value, or [None] for NaN.  Strings in any other format are unparseable
    here. *)
Definition Date_parse (tz : Z) (s : string) : option Z :=
  day ← parseDay s;
  if (String.length s =? 10)%nat then Some (day * msPerDay)
  else if decide (charAt 10 s = Some "T"%char) then
    '(ms, n) ← parseClock (String.substring 11 (String.length s - 11) s);
    off ← parseOffset tz (String.substring (11 + n) (String.length s - (11 + n)) s);
    Some (day * msPerDay + ms - off)
  else None.

(** [new Date(s)] for a string. *)
Definition Date_of_string (tz : Z) (s : string) : Date :=
  match Date_parse tz s with
  | Some t => TimeClip t
  | None => InvalidDate
  end.

(** Decimal digits of [n >= 0], left-padded with zeros to [width]. *)
Definition pad (width : nat) (n : Z) : string :=
  let digits := pretty n in
  String.app (String.string_of_list_ascii (repeat "0"%char (width - String.length digits)))
             digits.

(** The year of [toISOString]: four digits, or a sign and six digits outside
    0..9999. *)
Definition isoYear (y : Z) : string :=
  if (0 <=? y) && (y <=? 9999) then pad 4 y
  else if y <? 0 then String.app "-" (pad 6 (- y))
  else String.app "+" (pad 6 y).

Definition isoOfTime (t : Z) : string :=
  let '(y, m, d) := civil_from_days (t / msPerDay) in
  let r := t mod msPerDay in
  String.concat ""
    [ isoYear y; "-"; pad 2 m; "-"; pad 2 d; "T";
      pad 2 (r / 3600000); ":"; pad 2 (r / 60000 mod 60); ":";
      pad 2 (r / 1000 mod 60); "."; pad 3 (r mod 1000); "Z" ].

(** [d.toISOString()] throws a RangeError on an invalid Date. *)
Definition toISOString (d : Date) : Result string :=
  match d with
  | InvalidDate => Throw (RangeError "Invalid time value")
  | DateOf t => Ok (isoOfTime t)
  end.

(** [a >= b] on Dates: false when either is invalid. *)
Definition date_ge (a b : Date) : bool :=
  match a, b with
  | DateOf x, DateOf y => y <=? x
  | _, _ => false
  end.

(** [a > b] on Dates. *)
Definition date_gt (a b : Date) : bool :=
  match a, b with
  | DateOf x, DateOf y => y <? x
  | _, _ => false
  end.

(** A Number that is an integer, NaN or Infinity. *)
Inductive Num : Type :=
  | NaN
  | Infinity
  | Int (n : Z).

(** [a - b] on Dates. *)
Definition date_sub (a b : Date) : Num :=
  match a, b with
  | DateOf x, DateOf y => Int (x - y)
  | _, _ => NaN
  end.

(** [Math.floor(x / (1000 * 60 * 60 * 24))] *)
Definition floorDays (x : Num) : Num :=
  match x with
  | Int n => Int (Math_floor_div n msPerDay)
  | other => other
  end.

(** The calendar day of a valid time value in the zone [tz] ms east of UTC
    (the day [toDateString] prints). *)
Definition localDay (tz t : Z) : Z := (t + tz) / msPerDay.

(* ===================================================================== *)
(** ** Snapshot files and the world a report run acts on                   *)
(* ===================================================================== *)

(** A JSON value in the position of a date. *)
Inductive JsValue : Type :=
  | JUndefined
  | JNull
  | JNumber (n : Z)
  | JString (s : string).

(** Seat snapshot: [{meta, seats: [{assignee, last_activity_at,
    last_activity_editor, assigning_team}]}]. *)
Record Assignee := {
  login : option string;
  enriched_name : option string
}.

Record AssigningTeam := {
  slug : string;
  team_name : string;
  description : option string
}.

Record Seat := {
  assignee : option Assignee;
  last_activity_at : option string;
  last_activity_editor : option string;
  assigning_team : option AssigningTeam
}.

(** Activity snapshot: [{meta, data: [{date, userId, email, isActive,
    ...numeric counters}]}].  The numeric fields of a record are the keys of
    [numbers]. *)
Record ActivityRecord := {
  date : JsValue;
  userId : option string;
  ar_email : option string;
  isActive : bool;
  numbers : gmap string Z
}.

(** A parsed JSON document, by its shape. *)
Inductive JsonDoc : Type :=
  | SeatsDoc (seats : option (list Seat))
  | ActivityDoc (rows : option (list ActivityRecord))
  | MetricsDoc (metrics : MetricsData)
  | OtherDoc.

(** A file holds text, which [JSON.parse] rejects unless it is a JSON
    document. *)
Inductive FileContent : Type :=
  | Text (s : string)
  | Json (doc : JsonDoc).

(** The file system: a tree of directories; the names within one directory
    are distinct.  Paths are lists of components. *)
#[warnings="-register-all"]
Inductive FsNode : Type :=
  | File (content : FileContent)
  | Dir (entries : list (string * FsNode)).

Definition Path : Type := list string.

(** The world: the file system, the wall clock (the successive values
    [Date.now()] and [new Date()] return, and how many have been read), the
    lines the user will type at the prompts, and the prompts shown. *)
Record World := {
  fs : FsNode;
  readings : nat -> Z;
  reads : nat;
  answers : list string;
  prompts : list string
}.

(** Computations that read and change the world and may throw. *)
Definition IO (A : Type) : Type := World -> Result A * World.

Definition ret {A} (a : A) : IO A := fun w => (Ok a, w).
Definition throw {A} (e : JsError) : IO A := fun w => (Throw e, w).
Definition iobind {A B} (m : IO A) (k : A -> IO B) : IO B :=
  fun w =>
    match m w with
    | (Ok a, w') => k a w'
    | (Throw e, w') => (Throw e, w')
    end.

(** The notation [x ← m; k] is [iobind m (fun x => k)]. *)
#[global] Instance IO_bind : MBind IO := fun A B k m => iobind m k.
#[global] Instance IO_ret : MRet IO := fun A a => ret a.

(** [try { m } catch { handler }] *)
Definition try_catch {A} (m : IO A) (handler : JsError -> IO A) : IO A :=
  fun w =>
    match m w with
    | (Ok a, w') => (Ok a, w')
    | (Throw e, w') => handler e w'
    end.

(** Lift a pure result. *)
Definition liftR {A} (r : Result A) : IO A := fun w => (r, w).

(** [Date.now()]; [new Date()] is [DateOf] of it. *)
Definition Date_now : IO Z :=
  fun w => (Ok (readings w (reads w)),
            {| fs := fs w; readings := readings w; reads := S (reads w);
               answers := answers w; prompts := prompts w |}).

(** *** node:fs *)

Definition entry (c : string) (es : list (string * FsNode)) : option FsNode :=
  snd <$> List.find (fun e => String.eqb (fst e) c) es.

Fixpoint lookupPath (p : Path) (n : FsNode) : option FsNode :=
  match p with
  | [] => Some n
  | c :: rest =>
      match n with
      | Dir es =>
          match entry c es with
          | Some child => lookupPath rest child
          | None => None
          end
      | File _ => None
      end
  end.

Definition existsSync (p : Path) : IO bool :=
  fun w => (Ok (bool_decide (is_Some (lookupPath p (fs w)))), w).

Definition readdirSync (dir : Path) : IO (list string) :=
  fun w =>
    match lookupPath dir (fs w) with
    | Some (Dir es) => (Ok (map fst es), w)
    | Some (File _) => (Throw (Error "ENOTDIR"), w)
    | None => (Throw (Error "ENOENT"), w)
    end.

Definition readFileSync (p : Path) : IO FileContent :=
  fun w =>
    match lookupPath p (fs w) with
    | Some (File c) => (Ok c, w)
    | Some (Dir _) => (Throw (Error "EISDIR"), w)
    | None => (Throw (Error "ENOENT"), w)
    end.

(** [statSync(p)]: throws when nothing is at [p]. *)
Definition statSync (p : Path) : IO FsNode :=
  fun w =>
    match lookupPath p (fs w) with
    | Some n => (Ok n, w)
    | None => (Throw (Error "ENOENT"), w)
    end.

(** [JSON.parse] *)
Definition JSON_parse (c : FileContent) : Result JsonDoc :=
  match c with
  | Json doc => Ok doc
  | Text _ => Throw (Error "SyntaxError")
  end.

(** Replace the entry [c], or append it. *)
Fixpoint setEntry (c : string) (n : FsNode) (es : list (string * FsNode))
  : list (string * FsNode) :=
  match es with
  | [] => [(c, n)]
  | (c', n') :: rest =>
      if String.eqb c' c then (c, n) :: rest else (c', n') :: setEntry c n rest
  end.

(** The tree after writing a file at [p]; [None] when a parent directory is
    missing or the target is a directory. *)
Fixpoint writeAt (p : Path) (content : FileContent) (n : FsNode) : option FsNode :=
  match p, n with
  | [], _ => None
  | [c], Dir es =>
      match entry c es with
      | Some (Dir _) => None
      | _ => Some (Dir (setEntry c (File content) es))
      end
  | c :: rest, Dir es =>
      match entry c es with
      | Some child =>
          match writeAt rest content child with
          | Some child' => Some (Dir (setEntry c child' es))
          | None => None
          end
      | None => None
      end
  | _ :: _, File _ => None
  end.

Definition setFs (n : FsNode) (w : World) : World :=
  {| fs := n; readings := readings w; reads := reads w;
     answers := answers w; prompts := prompts w |}.

Definition writeFileSync (p : Path) (content : FileContent) : IO unit :=
  fun w =>
    match writeAt p content (fs w) with
    | Some n => (Ok tt, setFs n w)
    | None => (Throw (Error "ENOENT"), w)
    end.

(** The tree after [mkdir -p]; [None] when a component is a file. *)
Fixpoint mkdirAt (p : Path) (n : FsNode) : option FsNode :=
  match n with
  | File _ => None
  | Dir es =>
      match p with
      | [] => Some n
      | c :: rest =>
          match mkdirAt rest (default (Dir []) (entry c es)) with
          | Some child' => Some (Dir (setEntry c child' es))
          | None => None
          end
      end
  end.

(** [mkdirSync(p, { recursive: true })] *)
Definition mkdirSync (p : Path) : IO unit :=
  fun w =>
    match mkdirAt p (fs w) with
    | Some n => (Ok tt, setFs n w)
    | None => (Throw (Error "EEXIST"), w)
    end.

(** [seatData.seats || []] *)
Definition seatsOfDoc (doc : JsonDoc) : list Seat :=
  match doc with
  | SeatsDoc (Some seats) => seats
  | _ => []
  end.

(** [data.data], when it is an array. *)
Definition rowsOfDoc (doc : JsonDoc) : option (list ActivityRecord) :=
  match doc with
  | ActivityDoc rows => rows
  | _ => None
  end.

(** [path.join] of the components with "/" between them. *)
Definition pathString (p : Path) : string := String.concat "/" p.

(** [files.sort()] on path strings. *)
Definition sortPaths (files : list Path) : list Path :=
  sortBy (fun a b => compareStrings (pathString a) (pathString b)) files.

(* ===================================================================== *)
(** ** src/common/org.js                                                  *)
(* ===================================================================== *)

(** [text.normalize('NFD')]: canonical decomposition leaves ASCII text
    unchanged. *)
Definition normalize_NFD (text : string) : string := text.

(** [.replace(/[U+0300-U+036F]/g, '')]: the combining marks U+0300..U+036F
    lie outside the 8-bit range, so no character is removed. *)
Definition stripCombiningMarks (text : string) : string := text.

Definition normalizeText (text : string) : string :=
  toLowerCase (stripCombiningMarks (normalize_NFD text)).

(* ===================================================================== *)
(** ** src/common/name-variations.js                                      *)
(* ===================================================================== *)


(** [group.filter(n => n.toLowerCase() !== name.toLowerCase()).map(n => n.toLowerCase())] *)
Definition variationsFor (group : list string) (key : string) : list string :=
  map toLowerCase
    (List.filter (fun n => negb (String.eqb (toLowerCase n) key)) group).

Definition variationsIn (group : list string) (name : string) : list string :=
  variationsFor group (toLowerCase name).

Definition addGroup (variations : gmap string (list string)) (group : list string)
  : gmap string (list string) :=
  fold_left (fun vs name => <[toLowerCase name := variationsIn group name]> vs)
            group variations.

Definition generateNameVariations (NAME_GROUPS : list (list string))
  : gmap string (list string) :=
  fold_left addGroup NAME_GROUPS ∅.

(** [variations && variations.includes(n)] *)
Definition listed (variations : option (list string)) (n : string) : bool :=
  match variations with
  | Some vs => existsb (String.eqb n) vs
  | None => false
  end.

Definition areNameVariations (NAME_VARIATIONS : gmap string (list string))
    (name1 name2 : string) : bool :=
  if falsy name1 || falsy name2 then false
  else
    let normalizedName1 := trim (toLowerCase name1) in
    let normalizedName2 := trim (toLowerCase name2) in
    if String.eqb normalizedName1 normalizedName2 then true
    else if listed (NAME_VARIATIONS !! normalizedName1) normalizedName2 then true
    else if listed (NAME_VARIATIONS !! normalizedName2) normalizedName1 then true
    else false.

Definition getNameVariations (NAME_VARIATIONS : gmap string (list string))
    (name : string) : list string :=
  if falsy name then []
  else default [] (NAME_VARIATIONS !! trim (toLowerCase name)).

(** The table is a plain object, and [NAME_VARIATIONS[key]] finds what the
    object inherits from [Object.prototype] when it has no own property
    [key].  The keys looked up are in lower case, and two inherited names
    are: [constructor] and [__proto__] (the others, [toString], [valueOf],
    [hasOwnProperty], ..., have an upper-case letter).  For these two the
    lookup yields a function or an object where the maps of this model
    yield nothing, so that [variations.includes] throws a TypeError in
    [areNameVariations] and [getNameVariations] returns what is not an
    array. *)
Definition inheritedKey (key : string) : bool :=
  String.eqb key "constructor" || String.eqb key "__proto__".

(** A name whose normalized form is none of the inherited names: its
    lookup in the table is the lookup in the map of the own properties. *)
Definition plainName (name : string) : Prop :=
  inheritedKey (trim (toLowerCase name)) = false.

(** Groups whose members all give own properties of the table: the
    assignment [variations['__proto__'] = [...]] sets the prototype of the
    table instead. *)
Definition plainGroups (NAME_GROUPS : list (list string)) : Prop :=
  Forall (fun group => Forall (fun n => toLowerCase n <> "__proto__") group) NAME_GROUPS.

(** [group.some(n => n.toLowerCase() === normalizedName)] *)
Definition groupHas (normalizedName : string) (group : list string) : bool :=
  existsb (fun n => String.eqb (toLowerCase n) normalizedName) group.

Fixpoint canonicalIn (NAME_GROUPS : list (list string)) (normalizedName name : string)
  : string :=
  match NAME_GROUPS with
  | [] => name
  | group :: rest =>
      if groupHas normalizedName group then List.hd name group
      else canonicalIn rest normalizedName name
  end.

Definition getCanonicalName (NAME_GROUPS : list (list string)) (name : string) : string :=
  if falsy name then name
  else canonicalIn NAME_GROUPS (trim (toLowerCase name)) name.

(** A name belongs to a group when its lower-cased form is the lower-cased
    form of a member. *)
Definition inGroup (key : string) (group : list string) : Prop :=
  key ∈ map toLowerCase group.

(** No name belongs to two groups. *)
Definition groupsDisjoint (NAME_GROUPS : list (list string)) : Prop :=
  forall (i j : nat) (g1 g2 : list string) (key : string),
    NAME_GROUPS !! i = Some g1 -> NAME_GROUPS !! j = Some g2 ->
    inGroup key g1 -> inGroup key g2 -> i = j.

(* ===================================================================== *)
(** ** ReportingService: roster inclusion                                  *)
(* ===================================================================== *)

Record LookupUser := {
  name : string;
  email : string;
  githubLogin : string;
  role : string;
  hasCopilot : bool;
  hasCursor : bool
}.

Definition firstPart (parts : list string) : string := List.hd "" parts.
Definition lastPart (parts : list string) : string := List.last parts "".

(** The body of the [for (const orgName of orgUsers)] loop; [orgUsers] is
    the roster's set of normalized names in insertion order. *)
Fixpoint matchAgainst (NAME_VARIATIONS : gmap string (list string))
    (userFirst userLast : string) (orgUsers : list string) : bool :=
  match orgUsers with
  | [] => false
  | orgName :: rest =>
      let orgParts := split_space orgName in
      if (length orgParts <? 2)%nat
      then matchAgainst NAME_VARIATIONS userFirst userLast rest
      else
        let orgLast := lastPart orgParts in
        let orgFirst := firstPart orgParts in
        if String.eqb userLast orgLast
           && (String.eqb userFirst orgFirst
               || areNameVariations NAME_VARIATIONS userFirst orgFirst)
        then true
        else matchAgainst NAME_VARIATIONS userFirst userLast rest
  end.

Definition matchUserByNameVariations (NAME_VARIATIONS : gmap string (list string))
    (user : LookupUser) (orgUsers : list string) : bool :=
  let userParts := split_space (normalizeText (name user)) in
  if (length userParts <? 2)%nat then false
  else matchAgainst NAME_VARIATIONS (firstPart userParts) (lastPart userParts) orgUsers.

Definition filterUsersToOrg (NAME_VARIATIONS : gmap string (list string))
    (allUsers : list LookupUser) (orgUsers : list string) : list LookupUser :=
  List.filter
    (fun user =>
       existsb (String.eqb (normalizeText (name user))) orgUsers
       || matchUserByNameVariations NAME_VARIATIONS user orgUsers)
    allUsers.

(** *** Tokens, in the words of the specification *)

(** The pieces of [s] between the characters that satisfy [sep]; empty
    pieces are kept. *)
Fixpoint splitWhere (sep : ascii -> bool) (s : string) : list string :=
  match s with
  | EmptyString => [EmptyString]
  | String c r =>
      if sep c then EmptyString :: splitWhere sep r
      else match splitWhere sep r with
           | h :: t => String c h :: t
           | [] => [String c EmptyString]
           end
  end.

(** The whitespace-delimited tokens of a name: the non-empty pieces between
    white-space characters. *)
Definition whitespaceTokens (s : string) : list string :=
  List.filter (fun piece => negb (falsy piece)) (splitWhere isWhiteSpace s).

Definition startsWithWhiteSpace (s : string) : bool :=
  match s with
  | EmptyString => false
  | String c _ => isWhiteSpace c
  end.

Fixpoint endsWithWhiteSpace (s : string) : bool :=
  match s with
  | EmptyString => false
  | String c r =>
      match r with
      | EmptyString => isWhiteSpace c
      | String _ _ => endsWithWhiteSpace r
      end
  end.

(** A name as [.trim()] leaves it, which is how [loadUserLookupData] stores the
    names of the lookup table. *)
Definition trimmed (s : string) : Prop :=
  startsWithWhiteSpace s = false /\ endsWithWhiteSpace s = false.

(** [normalizeBool(v)]; [None] is a field the line does not have. *)
Definition normalizeBool (v : option string) : bool :=
  match v with
  | None => false
  | Some v =>
      let t := toLowerCase (trim v) in
      String.eqb t "true" || String.eqb t "1" || String.eqb t "yes" || String.eqb t "y"
  end.

(** [(values[i] || '').trim()] *)
Definition fieldOf (values : list string) (i : nat) : string :=
  trim (default EmptyString (values !! i)).

(** The user [loadUserLookupData] makes of the fields of one line of the
    lookup table. *)
Definition userOfValues (values : list string) : LookupUser :=
  {| name := fieldOf values 0; email := fieldOf values 1;
     githubLogin := fieldOf values 2; role := fieldOf values 3;
     hasCopilot := normalizeBool (values !! 4%nat);
     hasCursor := normalizeBool (values !! 5%nat) |}.

Definition userNamed (n : string) : LookupUser :=
  {| name := n; email := ""; githubLogin := ""; role := "";
     hasCopilot := false; hasCursor := false |}.

Definition nicknames : list (list string) :=
  [ ["michael"; "mike"; "mikey"]; ["robert"; "rob"; "bob"] ].

Definition overlappingGroups : list (list string) :=
  [ ["Robert"; "Bob"]; ["Barbara"; "Bob"] ].

(** A roster name with a tab before the space: two pieces for
    [split(' ')], one whitespace-delimited token. *)
Definition tabSmith : string := String (ascii_of_nat 9) " smith".

(* ===================================================================== *)
(** ** GitHubAnalysisService: seats, teams and activity                    *)
(* ===================================================================== *)

(** A string that is neither absent nor empty. *)
Definition truthy (o : option string) : option string :=
  match o with
  | Some s => if falsy s then None else Some s
  | None => None
  end.

(** [userLookup] maps a login to the full name of the lookup table. *)
Definition getDisplayName (userLookup : gmap string string)
    (assignee : option Assignee) : string :=
  match assignee with
  | None => "Unknown"
  | Some a =>
      match truthy (login a) with
      | None => "Unknown"
      | Some l =>
          match truthy (userLookup !! l) with
          | Some fullName => fullName
          | None =>
              match truthy (enriched_name a) with
              | Some enriched => enriched
              | None => l
              end
          end
      end
  end.

Record TeamUser := {
  tu_login : option string;
  tu_name : string;
  tu_lastActivity : option string;
  tu_lastActivityEditor : option string
}.

Record TeamData := {
  td_slug : string;
  td_name : string;
  td_description : string;
  td_totalSeats : nat;
  td_users : list TeamUser
}.

(** A [Map] keyed by string, in insertion order. *)
Definition mapHas {A} (k : string) (m : list (string * A)) : bool :=
  existsb (fun e => String.eqb (fst e) k) m.


Definition mapAlter {A} (f : A -> A) (k : string) (m : list (string * A))
  : list (string * A) :=
  map (fun e => if String.eqb (fst e) k then (fst e, f (snd e)) else e) m.

Definition teamUserOf (userLookup : gmap string string) (seat : Seat) : TeamUser :=
  {| tu_login := assignee seat ≫= login;
     tu_name := getDisplayName userLookup (assignee seat);
     tu_lastActivity := last_activity_at seat;
     tu_lastActivityEditor := last_activity_editor seat |}.

Definition addSeat (userLookup : gmap string string)
    (teamStats : list (string * TeamData)) (seat : Seat) : list (string * TeamData) :=
  match assigning_team seat with
  | None => teamStats
  | Some assigningTeam =>
      let teamSlug := slug assigningTeam in
      let teamStats' :=
        if mapHas teamSlug teamStats then teamStats
        else teamStats ++
             [(teamSlug, {| td_slug := teamSlug; td_name := team_name assigningTeam;
                            td_description := default "" (truthy (description assigningTeam));
                            td_totalSeats := 0; td_users := [] |})] in
      mapAlter
        (fun team => {| td_slug := td_slug team; td_name := td_name team;
                        td_description := td_description team;
                        td_totalSeats := S (td_totalSeats team);
                        td_users := td_users team ++ [teamUserOf userLookup seat] |})
        teamSlug teamStats'
  end.

(** The team rollup, one entry per slug in order of first appearance. *)
Definition getTeamBreakdown (userLookup : gmap string string) (seats : list Seat)
  : list (string * TeamData) :=
  fold_left (addSeat userLookup) seats [].

Record UserInfo := {
  ui_login : option string;
  ui_name : string;
  ui_lastActivity : option string;
  ui_daysSinceActivity : option Num;
  ui_lastActivityEditor : string
}.

Record TeamUserInfo := {
  tui_login : option string;
  tui_name : string;
  tui_lastActivity : option string;
  tui_lastActivityEditor : option string;
  tui_daysSinceActivity : option Num
}.

Record Bucket (A : Type) := {
  count : nat;
  percentage : Num;
  users : list A
}.
Arguments count {A} _.
Arguments percentage {A} _.
Arguments users {A} _.

Record TeamAnalysis := {
  ta_name : string;
  ta_slug : string;
  ta_description : string;
  ta_totalSeats : nat;
  ta_activeUsers : Bucket TeamUserInfo;
  ta_inactiveUsers : Bucket TeamUserInfo
}.

Record AnalysisConfig := {
  daysLookback : Z;
  cutoffDateISO : string;
  analyzedAt : string
}.

Record ActiveUsersAnalysis := {
  totalSeats : nat;
  activeUsers : Bucket UserInfo;
  inactiveUsers : Bucket UserInfo;
  teamAnalysis : list (string * TeamAnalysis);
  analysisConfig : AnalysisConfig
}.

(** [Math.round((count / total) * 100)] *)
Definition percentageOf (count total : nat) : Num :=
  match total, count with
  | O, O => NaN
  | O, S _ => Infinity
  | S _, _ =>
      Int (Math_round (jsmul (jsdiv (inject_Z (Z.of_nat count))
                                    (inject_Z (Z.of_nat total))) 100))
  end.

(** [d = new Date(now); d.setDate(d.getDate() - days); d.setHours(0, 0, 0, 0)]
    in the zone [tz] ms east of UTC: the start of the local day [days] days
    before [now]. *)
Definition cutoffOf (tz now days : Z) : Date :=
  TimeClip (((now + tz - days * msPerDay) / msPerDay) * msPerDay - tz).

(** [new Date(x)] for a string or [null]. *)
Definition Date_of_field (tz : Z) (x : option string) : Date :=
  match x with
  | Some s => Date_of_string tz s
  | None => TimeClip 0
  end.

Definition numOr0 (n : Num) : Z :=
  match n with
  | Int z => z
  | _ => 0
  end.

(** [(a, b) => new Date(b.lastActivity) - new Date(a.lastActivity)] *)
Definition byRecency (tz : Z) (a b : option string) : Z :=
  numOr0 (date_sub (Date_of_field tz b) (Date_of_field tz a)).

(** The comparator of the inactive lists: entries without a last activity
    go to the end. *)
Definition byRecencyNullsLast (tz : Z) (a b : option string) : Z :=
  match truthy a, truthy b with
  | None, None => 0
  | None, Some _ => 1
  | Some _, None => -1
  | Some _, Some _ => byRecency tz a b
  end.

(** The first loop of [getActiveUsersInPastDays]. *)
Fixpoint classifySeats (tz : Z) (userLookup : gmap string string) (cutoffDate : Date)
    (seats : list Seat) (activeUsers inactiveUsers : list UserInfo)
  : IO (list UserInfo * list UserInfo) :=
  match seats with
  | [] => ret (activeUsers, inactiveUsers)
  | seat :: rest =>
      let lastActivity := last_activity_at seat in
      let userInfo :=
        {| ui_login := assignee seat ≫= login;
           ui_name := getDisplayName userLookup (assignee seat);
           ui_lastActivity := truthy lastActivity;
           ui_daysSinceActivity := None;
           ui_lastActivityEditor := default "Unknown" (truthy (last_activity_editor seat)) |} in
      match truthy lastActivity with
      | None =>
          classifySeats tz userLookup cutoffDate rest activeUsers (inactiveUsers ++ [userInfo])
      | Some text =>
          (* [try { activityDate = new Date(lastActivity) } catch { ... }]:
             the constructor returns an invalid Date and does not throw *)
          let activityDate := Date_of_string tz text in
          now ← Date_now;
          let daysSinceActivity := floorDays (date_sub (TimeClip now) activityDate) in
          iso ← liftR (toISOString activityDate);
          let userInfo' :=
            {| ui_login := ui_login userInfo; ui_name := ui_name userInfo;
               ui_lastActivity := Some iso;
               ui_daysSinceActivity := Some daysSinceActivity;
               ui_lastActivityEditor := ui_lastActivityEditor userInfo |} in
          if date_ge activityDate cutoffDate
          then classifySeats tz userLookup cutoffDate rest (activeUsers ++ [userInfo']) inactiveUsers
          else classifySeats tz userLookup cutoffDate rest activeUsers (inactiveUsers ++ [userInfo'])
      end
  end.

Definition withDays (user : TeamUser) (lastActivity : option string)
    (daysSinceActivity : option Num) : TeamUserInfo :=
  {| tui_login := tu_login user; tui_name := tu_name user;
     tui_lastActivity := lastActivity;
     tui_lastActivityEditor := tu_lastActivityEditor user;
     tui_daysSinceActivity := daysSinceActivity |}.

(** The loop over the users of one team. *)
Fixpoint classifyTeamUsers (tz : Z) (cutoffDate : Date) (teamUsers : list TeamUser)
    (teamActiveUsers teamInactiveUsers : list TeamUserInfo)
  : IO (list TeamUserInfo * list TeamUserInfo) :=
  match teamUsers with
  | [] => ret (teamActiveUsers, teamInactiveUsers)
  | user :: rest =>
      match truthy (tu_lastActivity user) with
      | None =>
          classifyTeamUsers tz cutoffDate rest teamActiveUsers
            (teamInactiveUsers ++ [withDays user (tu_lastActivity user) None])
      | Some text =>
          let activityDate := Date_of_string tz text in
          now ← Date_now;
          let daysSinceActivity := floorDays (date_sub (TimeClip now) activityDate) in
          iso ← liftR (toISOString activityDate);
          let userInfo := withDays user (Some iso) (Some daysSinceActivity) in
          if date_ge activityDate cutoffDate
          then classifyTeamUsers tz cutoffDate rest (teamActiveUsers ++ [userInfo]) teamInactiveUsers
          else classifyTeamUsers tz cutoffDate rest teamActiveUsers (teamInactiveUsers ++ [userInfo])
      end
  end.

Definition bucketOf {A} (total : nat) (l : list A) : Bucket A :=
  {| count := length l; percentage := percentageOf (length l) total; users := l |}.

Definition analyzeTeam (tz : Z) (cutoffDate : Date) (teamSlug : string) (teamData : TeamData)
  : IO TeamAnalysis :=
  '(teamActiveUsers, teamInactiveUsers) ← classifyTeamUsers tz cutoffDate (td_users teamData) [] [];
  let teamActiveUsers :=
    sortBy (fun a b => byRecency tz (tui_lastActivity a) (tui_lastActivity b)) teamActiveUsers in
  let teamInactiveUsers :=
    sortBy (fun a b => byRecencyNullsLast tz (tui_lastActivity a) (tui_lastActivity b))
           teamInactiveUsers in
  ret {| ta_name := td_name teamData; ta_slug := teamSlug;
         ta_description := td_description teamData;
         ta_totalSeats := td_totalSeats teamData;
         ta_activeUsers := bucketOf (td_totalSeats teamData) teamActiveUsers;
         ta_inactiveUsers := bucketOf (td_totalSeats teamData) teamInactiveUsers |}.

(** The loop over [Object.entries(teamBreakdown)]. *)
Fixpoint analyzeTeams (tz : Z) (cutoffDate : Date) (teamBreakdown : list (string * TeamData))
  : IO (list (string * TeamAnalysis)) :=
  match teamBreakdown with
  | [] => ret []
  | (teamSlug, teamData) :: rest =>
      analysis ← analyzeTeam tz cutoffDate teamSlug teamData;
      others ← analyzeTeams tz cutoffDate rest;
      ret ((teamSlug, analysis) :: others)
  end.

Definition getActiveUsersInPastDays (tz : Z) (userLookup : gmap string string)
    (seats : list Seat) (days : Z) : IO ActiveUsersAnalysis :=
  now ← Date_now;
  let cutoffDate := cutoffOf tz now days in
  '(activeUsers, inactiveUsers) ← classifySeats tz userLookup cutoffDate seats [] [];
  let activeUsers :=
    sortBy (fun a b => byRecency tz (ui_lastActivity a) (ui_lastActivity b)) activeUsers in
  let inactiveUsers :=
    sortBy (fun a b => byRecencyNullsLast tz (ui_lastActivity a) (ui_lastActivity b))
           inactiveUsers in
  let teamBreakdown := getTeamBreakdown userLookup seats in
  teamAnalysis ← analyzeTeams tz cutoffDate teamBreakdown;
  cutoffISO ← liftR (toISOString cutoffDate);
  analyzed ← Date_now;
  analyzedISO ← liftR (toISOString (TimeClip analyzed));
  ret {| totalSeats := length seats;
         activeUsers := bucketOf (length seats) activeUsers;
         inactiveUsers := bucketOf (length seats) inactiveUsers;
         teamAnalysis := teamAnalysis;
         analysisConfig := {| daysLookback := days; cutoffDateISO := cutoffISO;
                              analyzedAt := analyzedISO |} |}.

(** A world with an empty file system whose clock always reads [now]. *)
Definition frozenWorld (now : Z) : World :=
  {| fs := Dir []; readings := fun _ => now; reads := 0; answers := []; prompts := [] |}.

Definition seatOf (l : string) (lastActivity : option string) (team : option string) : Seat :=
  {| assignee := Some {| login := Some l; enriched_name := None |};
     last_activity_at := lastActivity;
     last_activity_editor := None;
     assigning_team :=
       (fun t => {| slug := t; team_name := t; description := None |}) <$> team |}.

(** [isActive = lastActivity && new Date(lastActivity) >= cutoffDate] *)
Definition activeAt (tz : Z) (cutoffDate : Date) (lastActivity : option string) : bool :=
  match truthy lastActivity with
  | Some text => date_ge (Date_of_string tz text) cutoffDate
  | None => false
  end.

Definition seatActive (tz : Z) (cutoffDate : Date) (seat : Seat) : bool :=
  activeAt tz cutoffDate (last_activity_at seat).




(** A last-activity timestamp that is absent or parses to a valid Date. *)
Definition parses (tz : Z) (lastActivity : option string) : Prop :=
  forall text, truthy lastActivity = Some text -> Date_of_string tz text <> InvalidDate.

(** The first reading of the clock in a world. *)
Definition nextReading (w : World) : Z := readings w (reads w).

Definition tick (w : World) : World :=
  {| fs := fs w; readings := readings w; reads := S (reads w);
     answers := answers w; prompts := prompts w |}.

(** 2025-08-11T10:00:00Z *)
Definition monday10am : Z := 1754906400000.


(** One active seat of the team "core" and one seat without a team. *)
Definition seats2 : list Seat :=
  [ seatOf "octocat" (Some "2025-08-08T09:00:00Z") (Some "core");
    seatOf "hubot" None None ].

(* ===================================================================== *)
(** ** src/cursor/util.js and src/cursor/aggregate.js                      *)
(* ===================================================================== *)

(** [new Date(v)] for a JSON value. *)
Definition Date_of_value (tz : Z) (v : JsValue) : Date :=
  match v with
  | JUndefined => InvalidDate
  | JNull => TimeClip 0
  | JNumber n => TimeClip n
  | JString s => Date_of_string tz s
  end.

(** [parseDate(v)]: [None] is [null]. *)
Definition parseDate (tz : Z) (v : JsValue) : option Date :=
  match v with
  | JNumber n => Some (TimeClip n)
  | JString s =>
      match allDigits s with
      | Some n => Some (TimeClip n)
      | None => Some (Date_of_string tz (String.app s "T00:00:00Z"))
      end
  | _ => None
  end.

(** [iso(d) = d.toISOString().slice(0, 10)] *)
Definition iso (d : Date) : Result string :=
  bind (toISOString d) (fun text => Ok (String.substring 0 10 text)).

Definition NUMERIC_FIELDS : list string :=
  [ "totalLinesAdded"; "totalLinesDeleted"; "acceptedLinesAdded"; "acceptedLinesDeleted";
    "totalApplies"; "totalAccepts"; "totalRejects"; "totalTabsShown"; "totalTabsAccepted";
    "composerRequests"; "chatRequests"; "agentRequests"; "cmdkUsages";
    "subscriptionIncludedReqs"; "apiKeyReqs"; "usageBasedReqs"; "bugbotUsages" ].

(** The test [key === 'date' || /date$/i.test(key) || /At$/.test(key) ||
    /timestamp/i.test(key)]. *)
Definition isDateKey (key : string) : bool :=
  String.eqb key "date" || endsWith (toLowerCase key) "date" || endsWith key "At"
  || str_includes "timestamp" (toLowerCase key).

(** [/^\d{10,}$/] *)
Definition tenDigits (s : string) : option Z :=
  if (10 <=? String.length s)%nat then allDigits s else None.

(** One step of the loop of [normalizeDates]: the new value of the field. *)
Definition normalizeField (key : string) (value : JsValue) : Result JsValue :=
  if isDateKey key then
    let timestamp :=
      match value with
      | JNumber n => Some n
      | JString text => tenDigits text
      | _ => None
      end in
    match timestamp with
    | Some t =>
        if t =? 0 then Ok value
        else
          (* values below 1e12 are taken as seconds *)
          let ms := if t <? 1000000000000 then t * 1000 else t in
          bind (toISOString (TimeClip ms)) (fun text =>
            if String.eqb (toLowerCase key) "date" || endsWith (toLowerCase key) "date"
            then Ok (JString (String.substring 0 10 text))
            else Ok (JString text))
    | None => Ok value
    end
  else Ok value.

(** [normalizeDates(obj)] on an object given by its entries in key order. *)
Fixpoint normalizeDates (obj : list (string * JsValue)) : Result (list (string * JsValue)) :=
  match obj with
  | [] => Ok []
  | (key, value) :: rest =>
      bind (normalizeField key value) (fun value' =>
      bind (normalizeDates rest) (fun rest' => Ok ((key, value') :: rest')))
  end.

(** *** Number formatting *)

Definition pow10 (f : nat) : Z := 10 ^ Z.of_nat f.

(** [x.toFixed(f)] for a finite [x] below 1e21: the digits of the integer
    [n] nearest to [|x| * 10^f], the larger one on a tie. *)
Definition toFixed (f : nat) (x : Q) : string :=
  let n := Qfloor (Qabs x * inject_Z (pow10 f) + (1 # 2)) in
  let whole := pretty (n / pow10 f) in
  let frac := pad f (n mod pow10 f) in
  let sign := if Qle_bool 0 x then "" else "-" in
  String.concat "" [sign; whole; if (f =? 0)%nat then "" else "."; if (f =? 0)%nat then "" else frac].

(** [(a / b).toFixed(f)] for integers [a] and [b]. *)
Definition ratioFixed (f : nat) (a b : Z) : string :=
  if b =? 0 then
    if a =? 0 then "NaN" else if 0 <? a then "Infinity" else "-Infinity"
  else toFixed f (jsdiv (inject_Z a) (inject_Z b)).

(** *** aggregateWindow *)

(** The running record of one user. *)
Record UserRecord := {
  ur_userId : string;
  ur_email : string;
  _present : gset (option Z);
  _active : gset (option Z);
  ur_numbers : gmap string Z
}.

(** The key [date.toDateString()] adds to [_present] and [_active]: the
    local calendar day, or [None] for "Invalid Date". *)
Definition toDateString (tz : Z) (d : Date) : option Z :=
  match d with
  | DateOf t => Some (localDay tz t)
  | InvalidDate => None
  end.

(** [date.getTime()]: [None] is NaN. *)
Definition getTime (d : Date) : option Z :=
  match d with
  | DateOf t => Some t
  | InvalidDate => None
  end.

(** [set.add(x)] on a [Set] kept in insertion order. *)
Definition setAdd {A} `{EqDecision A} (x : A) (l : list A) : list A :=
  if bool_decide (x ∈ l) then l else l ++ [x].

(** The loop [for (const field of NUMERIC_FIELDS)] adding the record's
    numbers to the user's.  The sums are sums of integers: the Number sums
    of the code for non-negative values adding up to at most 2^53
    ([exactSum]). *)
Definition addNumbers (fields : list string) (acc rec : gmap string Z) : gmap string Z :=
  fold_left
    (fun acc field =>
       match rec !! field with
       | Some n => <[field := default 0 (acc !! field) + n]> acc
       | None => acc
       end)
    fields acc.

(** The state of the first loop: the users in order of first appearance and
    the set of time values seen. *)
Definition processRecord (tz : Z) (st : list (string * UserRecord) * list (option Z))
    (record : ActivityRecord) : list (string * UserRecord) * list (option Z) :=
  let '(byUser, allDates) := st in
  let date := parseDate tz (date record) in
  let allDates :=
    match date with
    | Some d => setAdd (getTime d) allDates
    | None => allDates
    end in
  let userId := default "UNKNOWN" (truthy (userId record)) in
  let byUser :=
    if mapHas userId byUser then byUser
    else byUser ++ [(userId, {| ur_userId := userId;
                                ur_email := default "" (truthy (ar_email record));
                                _present := ∅; _active := ∅; ur_numbers := ∅ |})] in
  let update (u : UserRecord) : UserRecord :=
    let numbers' := addNumbers NUMERIC_FIELDS (ur_numbers u) (numbers record) in
    match date with
    | Some d =>
        {| ur_userId := ur_userId u; ur_email := ur_email u;
           _present := {[toDateString tz d]} ∪ _present u;
           _active := if isActive record then {[toDateString tz d]} ∪ _active u else _active u;
           ur_numbers := numbers' |}
    | None =>
        {| ur_userId := ur_userId u; ur_email := ur_email u;
           _present := _present u; _active := _active u; ur_numbers := numbers' |}
    end in
  (mapAlter update userId byUser, allDates).

(** [String(x)] for a time value or NaN. *)
Definition numberToString (x : option Z) : string :=
  match x with
  | Some n => pretty n
  | None => "NaN"
  end.

(** [[...allDates].sort()]: without a comparator the elements are ordered
    by their string forms. *)
Definition sortDefault (l : list (option Z)) : list (option Z) :=
  sortBy (fun a b => compareStrings (numberToString a) (numberToString b)) l.

(** [new Date(dates[i])]: an index out of range gives [undefined]. *)
Definition Date_of_element (x : option (option Z)) : Date :=
  match x with
  | Some (Some t) => TimeClip t
  | _ => InvalidDate
  end.

(** [Math.floor((windowEnd - windowStart) / 86400000) + 1] *)
Definition windowDaysOf (windowStart windowEnd : Date) : Num :=
  match floorDays (date_sub windowEnd windowStart) with
  | Int n => Int (n + 1)
  | other => other
  end.

(** One row of cursor_window_usage.csv, a field per header column. *)
Record WindowRow := {
  row_userId : string;
  row_email : string;
  row_windowStart : string;
  row_windowEnd : string;
  row_windowDays : Num;
  row_presentDays : nat;
  row_daysActive : nat;
  row_presenceRate : string;
  row_activeRate : string;
  row_avgLinesAddedPerActiveDay : string;
  row_numbers : list (option Z)
}.

(** [(count / windowDays).toFixed(4)] *)
Definition rateFixed (count : nat) (windowDays : Num) : string :=
  match windowDays with
  | Int n => ratioFixed 4 (Z.of_nat count) n
  | NaN => "NaN"
  | Infinity => "0.0000"
  end.

Definition windowRow (windowStart windowEnd : Date) (windowDays : Num) (u : UserRecord)
  : Result WindowRow :=
  let presentDays := size (_present u) in
  let activeDays := size (_active u) in
  bind (iso windowStart) (fun startText =>
  bind (iso windowEnd) (fun endText =>
  Ok {| row_userId := ur_userId u; row_email := ur_email u;
        row_windowStart := startText; row_windowEnd := endText;
        row_windowDays := windowDays;
        row_presentDays := presentDays; row_daysActive := activeDays;
        row_presenceRate := rateFixed presentDays windowDays;
        row_activeRate := rateFixed activeDays windowDays;
        row_avgLinesAddedPerActiveDay :=
          (if (activeDays =? 0)%nat then "0.00"
           else match ur_numbers u !! "totalLinesAdded" with
                | Some total => ratioFixed 2 total (Z.of_nat activeDays)
                | None => "NaN"
                end);
        row_numbers := map (fun field => ur_numbers u !! field) NUMERIC_FIELDS |})).

Fixpoint windowRows (windowStart windowEnd : Date) (windowDays : Num)
    (sortedUsers : list UserRecord) : Result (list WindowRow) :=
  match sortedUsers with
  | [] => Ok []
  | u :: rest =>
      bind (windowRow windowStart windowEnd windowDays u) (fun row =>
      bind (windowRows windowStart windowEnd windowDays rest) (fun rows => Ok (row :: rows)))
  end.

(** The computation of [aggregateWindow] between reading the payload and
    writing the file: the rows of the summary.  [localeCompare] is the
    runtime's collation of user ids. *)
Definition windowSummary (tz : Z) (localeCompare : string -> string -> Z)
    (rows : list ActivityRecord) : Result (list WindowRow) :=
  let '(byUser, allDates) := fold_left (processRecord tz) rows ([], []) in
  let dates := sortDefault allDates in
  let windowStart := Date_of_element (head dates) in
  let windowEnd := Date_of_element (last dates) in
  let windowDays := windowDaysOf windowStart windowEnd in
  let sortedUsers :=
    sortBy (fun a b => localeCompare (ur_userId a) (ur_userId b)) (map snd byUser) in
  windowRows windowStart windowEnd windowDays sortedUsers.

(** *** Discovery of the latest monthly activity file *)

(** [f.startsWith('monthly-activity_') || f.startsWith('monthly-report_')],
    then [f.endsWith('.json')]. *)
Definition isLegacyMonthly (f : string) : bool :=
  (String.prefix "monthly-activity_" f || String.prefix "monthly-report_" f)
  && endsWith f ".json".

(** [f.startsWith('monthly_activity_') && f.endsWith('.json')] *)
Definition isMonthlyFile (f : string) : bool :=
  String.prefix "monthly_activity_" f && endsWith f ".json".

(** [/^\d{n}$/.test(f)] *)
Definition isDigits (n : nat) (f : string) : bool :=
  (String.length f =? n)%nat && bool_decide (is_Some (allDigits f)).

(** [files.sort()] on names. *)
Definition sortNames (files : list string) : list string := sortBy compareStrings files.

(** [l.at(-1)] of a non-empty list given as head and tail. *)
Definition lastOf {A} (first : A) (others : list A) : A := List.last others first.

(** The loop over the legacy flat directories. *)
Fixpoint firstLegacy (dirs : list Path) : IO (option Path) :=
  match dirs with
  | [] => ret None
  | dir :: rest =>
      found ← existsSync dir;
      if negb found then firstLegacy rest
      else
        names ← readdirSync dir;
        match sortNames (List.filter isLegacyMonthly names) with
        | [] => firstLegacy rest
        | first :: others => ret (Some (dir ++ [lastOf first others]))
        end
  end.

(** The loop over the months of one year directory. *)
Fixpoint monthFiles (yearDir : Path) (months : list string) : IO (list Path) :=
  match months with
  | [] => ret []
  | month :: rest =>
      let monthDir := yearDir ++ [month] in
      found ← existsSync monthDir;
      here ← (if negb found then ret []
              else names ← readdirSync monthDir;
                   ret (map (fun f => monthDir ++ [f]) (List.filter isMonthlyFile names)));
      more ← monthFiles yearDir rest;
      ret (here ++ more)
  end.

(** The loop over the year directories. *)
Fixpoint yearFiles (baseDir : Path) (years : list string) : IO (list Path) :=
  match years with
  | [] => ret []
  | year :: rest =>
      let yearDir := baseDir ++ [year] in
      found ← existsSync yearDir;
      here ← (if negb found then ret []
              else names ← readdirSync yearDir;
                   monthFiles yearDir (List.filter (isDigits 2) names));
      more ← yearFiles baseDir rest;
      ret (here ++ more)
  end.

Definition cursorBaseDir : Path := ["data"; "cursor"].

Definition discoverLatestMonthlyActivity : IO (option Path) :=
  legacy ← firstLegacy [cursorBaseDir ++ ["monthly-activity"]; cursorBaseDir ++ ["daily-usage"]];
  match legacy with
  | Some latest => ret (Some latest)
  | None =>
      found ← existsSync cursorBaseDir;
      if negb found then ret None
      else
        names ← readdirSync cursorBaseDir;
        allFiles ← yearFiles cursorBaseDir (List.filter (isDigits 4) names);
        match sortPaths allFiles with
        | [] => ret None
        | first :: others => ret (Some (lastOf first others))
        end
  end.

(** *** The CSV file *)

Definition OUT_DIR : Path := ["output"; "csv"; "cursor"].

(** [ensureDir(p)] of src/common/fs.js *)
Definition ensureDir (p : Path) : IO unit :=
  found ← existsSync p;
  if negb found then mkdirSync p else ret tt.

(** [readJSON(p)] of src/common/fs.js *)
Definition readJSON (p : Path) : IO JsonDoc :=
  content ← readFileSync p;
  liftR (JSON_parse content).

Definition windowHeader : list string :=
  [ "userId"; "email"; "windowStart"; "windowEnd"; "windowDays"; "presentDays";
    "daysActive"; "presenceRate"; "activeRate"; "avgLinesAddedPerActiveDay" ]
  ++ NUMERIC_FIELDS.

(** [String(x)] for a Number. *)
Definition numToString (x : Num) : string :=
  match x with
  | Int n => pretty n
  | NaN => "NaN"
  | Infinity => "Infinity"
  end.

(** [header.map(field => userRecord[field] ?? '').join(',')] *)
Definition csvRow (r : WindowRow) : string :=
  String.concat ","
    ([ row_userId r; row_email r; row_windowStart r; row_windowEnd r;
       numToString (row_windowDays r); pretty (row_presentDays r); pretty (row_daysActive r);
       row_presenceRate r; row_activeRate r; row_avgLinesAddedPerActiveDay r ]
     ++ map (fun v => match v with Some n => pretty n | None => "" end) (row_numbers r)).

(** The byte-order mark U+FEFF, in UTF-8. *)
Definition BOM : string :=
  String (ascii_of_nat 239) (String (ascii_of_nat 187) (String (ascii_of_nat 191) "")).

(** ['﻿' + lines.join('\n')] *)
Definition csvText (rows : list WindowRow) : string :=
  String.app BOM
    (String.concat (String (ascii_of_nat 10) "") (String.concat "," windowHeader :: map csvRow rows)).

(** [aggregateWindow()]; the directory of the output is made before the
    rows are rendered, as in the source. *)
Definition aggregateWindow (tz : Z) (localeCompare : string -> string -> Z) : IO unit :=
  latest ← discoverLatestMonthlyActivity;
  match latest with
  | None => throw (Error "No monthly activity data found")
  | Some latest =>
      data ← readJSON latest;
      match rowsOfDoc data with
      | None => throw (Error "Malformed activity data: data.data is not an array")
      | Some rows =>
          if 100000 <? Z.of_nat (length rows)
          then throw (Error "Activity data too large to process safely")
          else
            _ ← ensureDir OUT_DIR;
            lines ← liftR (windowSummary tz localeCompare rows);
            _ ← writeFileSync (OUT_DIR ++ ["cursor_window_usage.csv"]) (Text (csvText lines));
            ret tt
      end
  end.

(** The part of [aggregateWindow] that reads: from the discovery of the
    latest file to the validated rows. *)
Definition loadWindowRows : IO (list ActivityRecord) :=
  latest ← discoverLatestMonthlyActivity;
  match latest with
  | None => throw (Error "No monthly activity data found")
  | Some latest =>
      data ← readJSON latest;
      match rowsOfDoc data with
      | None => throw (Error "Malformed activity data: data.data is not an array")
      | Some rows =>
          if 100000 <? Z.of_nat (length rows)
          then throw (Error "Activity data too large to process safely")
          else ret rows
      end
  end.

(** The part of [aggregateWindow] that writes. *)
Definition storeWindowRows (tz : Z) (localeCompare : string -> string -> Z)
    (rows : list ActivityRecord) : IO unit :=
  _ ← ensureDir OUT_DIR;
  lines ← liftR (windowSummary tz localeCompare rows);
  _ ← writeFileSync (OUT_DIR ++ ["cursor_window_usage.csv"]) (Text (csvText lines));
  ret tt.

(** Two file systems with the same tree under data/. *)
Definition dataEq (n1 n2 : FsNode) : Prop :=
  lookupPath ["data"] n1 = lookupPath ["data"] n2.

(** The clock reads [now] at every reading. *)
Definition frozenAt (now : Z) (w : World) : Prop :=
  forall i, readings w i = now.

(** The clock of a world: the times it shows, reading after reading, and
    the number of readings made so far. *)
Definition Clock : Type := (nat -> Z) * nat.

Definition clock (w : World) : Clock := (readings w, reads w).

(** Two clocks that show the same times from now on, reading after
    reading. *)
Definition sameReadings (c1 c2 : Clock) : Prop :=
  forall i : nat, fst c1 (snd c1 + i)%nat = fst c2 (snd c2 + i)%nat.

(** Any two clocks. *)
Definition anyClocks (c1 c2 : Clock) : Prop := True.

Definition activityOn (d : JsValue) (user : string) (active : bool) : ActivityRecord :=
  {| date := d; userId := Some user; ar_email := None; isActive := active;
     numbers := ∅ |}.

(* ===================================================================== *)
(** ** ReportingService: platform activity                                 *)
(* ===================================================================== *)

(** The recursive [walkDir] of the file finders: the files below [n], the
    node at [dir], whose name passes [wanted], in directory order.  A node
    that is not a directory contributes nothing ([readdirSync] throws and the
    exception is swallowed). *)
Fixpoint walkDir (wanted : string -> bool) (dir : Path) (n : FsNode) : list Path :=
  match n with
  | File _ => []
  | Dir es =>
      (fix walkEntries (es : list (string * FsNode)) : list Path :=
         match es with
         | [] => []
         | (name, child) :: rest =>
             match child with
             | Dir _ => walkDir wanted (dir ++ [name]) child
             | File _ => if wanted name then [dir ++ [name]] else []
             end ++ walkEntries rest
         end) es
  end.

(** [entry.includes('copilot-seats_') && entry.endsWith('.json')] *)
Definition isSeatFile (name : string) : bool :=
  str_includes "copilot-seats_" name && endsWith name ".json".

(** [entry.includes('weekly-report_') && entry.endsWith('.json')] *)
Definition isWeeklyFile (name : string) : bool :=
  str_includes "weekly-report_" name && endsWith name ".json".

Definition findFiles (wanted : string -> bool) (searchDir : Path) : IO (list Path) :=
  fun w =>
    match lookupPath searchDir (fs w) with
    | None => (Ok [], w)
    | Some n => (Ok (walkDir wanted searchDir n), w)
    end.

Definition findCopilotSeatFiles (dataDir : Path) : IO (list Path) :=
  findFiles isSeatFile (dataDir ++ ["github"]).

Definition findCursorWeeklyFiles (dataDir : Path) : IO (list Path) :=
  findFiles isWeeklyFile dataDir.

Record CopilotActivity := {
  ca_lastActivity : option string;
  ca_daysSinceActivity : option Num;
  ca_isActive : bool;
  ca_enrichedName : option string
}.

(** Logins may be [undefined] ([None]). *)
Record CopilotAnalysis := {
  activeLogins : gset (option string);
  inactiveLogins : gset (option string);
  copilotActivityMap : gmap (option string) CopilotActivity
}.

Definition emptyCopilotAnalysis : CopilotAnalysis :=
  {| activeLogins := ∅; inactiveLogins := ∅; copilotActivityMap := ∅ |}.

(** The loop over [seatData.seats || []]. *)
Fixpoint copilotLoop (tz : Z) (cutoffDate : Date) (seats : list Seat)
    (acc : CopilotAnalysis) : IO CopilotAnalysis :=
  match seats with
  | [] => ret acc
  | seat :: rest =>
      let l := assignee seat ≫= login in
      let lastActivity := last_activity_at seat in
      '(isActive, daysSinceActivity) ←
        match truthy lastActivity with
        | Some text =>
            let activityDate := Date_of_string tz text in
            now ← Date_now;
            ret (date_ge activityDate cutoffDate,
                 Some (floorDays (date_sub (TimeClip now) activityDate)))
        | None => ret (false, None)
        end;
      let activity :=
        {| ca_lastActivity := lastActivity; ca_daysSinceActivity := daysSinceActivity;
           ca_isActive := isActive;
           ca_enrichedName := truthy (assignee seat ≫= enriched_name) |} in
      copilotLoop tz cutoffDate rest
        {| activeLogins := if isActive then {[l]} ∪ activeLogins acc else activeLogins acc;
           inactiveLogins := if isActive then inactiveLogins acc else {[l]} ∪ inactiveLogins acc;
           copilotActivityMap := <[l := activity]> (copilotActivityMap acc) |}
  end.

(** [analyzeCopilotActivity(users)]; the warnings on the console are not
    part of the model. *)
Definition analyzeCopilotActivity (tz : Z) (dataDir : Path) (users : list LookupUser)
  : IO CopilotAnalysis :=
  seatFiles ← findCopilotSeatFiles dataDir;
  match sortPaths seatFiles with
  | [] => ret emptyCopilotAnalysis
  | first :: others =>
      let latestSeatFile := List.last others first in
      content ← readFileSync latestSeatFile;
      seatData ← liftR (JSON_parse content);
      (* [try { statSync(...); ageDays = (Date.now() - mtime) / ...; } catch {}] *)
      _ ← try_catch (_ ← statSync latestSeatFile; _ ← Date_now; ret tt)
                    (fun _ => ret tt);
      now ← Date_now;
      let cutoffDate := TimeClip (now - 7 * msPerDay) in
      copilotLoop tz cutoffDate (seatsOfDoc seatData) emptyCopilotAnalysis
  end.

Record CursorActivity := {
  cu_lastActivity : option Date;
  hasRecentActivity : bool;
  totalRequests : Z
}.

Record CursorAnalysis := {
  cursorActiveUsers : gset string;
  cursorInactiveUsers : gset string;
  cursorActivityMap : gmap string CursorActivity
}.

Definition emptyCursorAnalysis : CursorAnalysis :=
  {| cursorActiveUsers := ∅; cursorInactiveUsers := ∅; cursorActivityMap := ∅ |}.

(** One iteration of the loop over [cursorData.data || []].  The request
    counts are added as integers: the Number sums of the code for
    non-negative counts adding up to at most 2^53 ([exactSum]). *)
Definition cursorStep (tz : Z) (cutoffDate : Date) (acc : CursorAnalysis)
    (record : ActivityRecord) : CursorAnalysis :=
  match truthy (toLowerCase <$> ar_email record) with
  | None => acc
  | Some email =>
      let d := Date_of_value tz (date record) in
      let active := isActive record && date_ge d cutoffDate in
      let activity :=
        default {| cu_lastActivity := None; hasRecentActivity := false; totalRequests := 0 |}
                (cursorActivityMap acc !! email) in
      let requests :=
        totalRequests activity
        + (default 0 (numbers record !! "composerRequests")
           + default 0 (numbers record !! "chatRequests")) in
      let newer :=
        match cu_lastActivity activity with
        | None => true
        | Some previous => date_gt d previous
        end in
      if active && newer then
        {| cursorActiveUsers := {[email]} ∪ cursorActiveUsers acc;
           cursorInactiveUsers := cursorInactiveUsers acc;
           cursorActivityMap :=
             <[email := {| cu_lastActivity := Some d; hasRecentActivity := true;
                           totalRequests := requests |}]> (cursorActivityMap acc) |}
      else
        {| cursorActiveUsers := cursorActiveUsers acc;
           cursorInactiveUsers := cursorInactiveUsers acc;
           cursorActivityMap :=
             <[email := {| cu_lastActivity := cu_lastActivity activity;
                           hasRecentActivity := hasRecentActivity activity;
                           totalRequests := requests |}]> (cursorActivityMap acc) |}
  end.

(** [analyzeCursorActivity(users)] *)
Definition analyzeCursorActivity (tz : Z) (dataDir : Path) (users : list LookupUser)
  : IO CursorAnalysis :=
  cursorFiles ← findCursorWeeklyFiles dataDir;
  match sortPaths cursorFiles with
  | [] => ret emptyCursorAnalysis
  | first :: others =>
      let latestFile := List.last others first in
      content ← readFileSync latestFile;
      cursorData ← liftR (JSON_parse content);
      _ ← try_catch (_ ← statSync latestFile; _ ← Date_now; ret tt)
                    (fun _ => ret tt);
      now ← Date_now;
      let cutoffDate := TimeClip (now - 7 * msPerDay) in
      ret (fold_left (cursorStep tz cutoffDate) (default [] (rowsOfDoc cursorData))
                     emptyCursorAnalysis)
  end.

(** The line of the active-users report that shows the inactive Cursor
    users: [- **Inactive Cursor Users:** ${cursorAnalysis.inactiveUsers.size}]. *)
Definition inactiveCursorUsersLine (cursorAnalysis : CursorAnalysis) : string :=
  String.app "- **Inactive Cursor Users:** " (pretty (size (cursorInactiveUsers cursorAnalysis))).

(* ===================================================================== *)
(** ** src/common/prompt.js and the report entry point                     *)
(* ===================================================================== *)

(** [promptUser(question)]: shows the question and resolves with the next
    line typed, trimmed.  With no line left the promise never resolves; the
    run ends there, which is [Throw] here. *)
Definition promptUser (question : string) : IO string :=
  fun w =>
    match answers w with
    | answer :: rest =>
        (Ok (trim answer),
         {| fs := fs w; readings := readings w; reads := reads w;
            answers := rest; prompts := prompts w ++ [question] |})
    | [] => (Throw (Error "end of input"), w)
    end.

(** An answer other than "y" or "yes" declines. *)
Definition accepts (response : string) : bool :=
  String.eqb (toLowerCase response) "y" || String.eqb (toLowerCase response) "yes".

Definition checkAndPromptOverwrite (filePath : Path) (fileType : string) : IO bool :=
  found ← existsSync filePath;
  if negb found then ret true
  else
    _ ← statSync filePath;
    response ← promptUser "   Do you want to overwrite it? (y/N): ";
    ret (accepts response).

Inductive ReportResult (Stats : Type) : Type :=
  | Cancelled
  | Generated (outputPath timestampedPath : Path) (stats : Stats).
Arguments Cancelled {Stats}.
Arguments Generated {Stats} outputPath timestampedPath stats.

(** [s.replace(/[:]/g, '-')] *)
Fixpoint replaceColons (s : string) : string :=
  match s with
  | EmptyString => EmptyString
  | String c r => String (if Ascii.eqb c ":" then "-"%char else c) (replaceColons r)
  end.

(** [generateActiveUsersReport({ skipPrompt })].  [prepareReport] stands for
    the first part of the function, from loading the organizational data to
    rendering the Markdown: it yields the report content and the statistics,
    or throws. *)
Definition generateActiveUsersReport {Stats : Type} (prepareReport : IO (string * Stats))
    (outputDir : Path) (skipPrompt : bool) : IO (ReportResult Stats) :=
  '(reportContent, stats) ← prepareReport;
  found ← existsSync outputDir;
  _ ← (if negb found then mkdirSync outputDir else ret tt);
  now ← Date_now;
  text ← liftR (toISOString (TimeClip now));
  let timestampedPath :=
    outputDir ++ [String.concat "" ["active-users_"; replaceColons text; ".md"]] in
  let outputPath := outputDir ++ ["active-users.md"] in
  proceed ←
    (if negb skipPrompt then checkAndPromptOverwrite outputPath "Active Users Report"
     else ret true);
  if negb proceed then ret Cancelled
  else
    _ ← writeFileSync timestampedPath (Text reportContent);
    _ ← writeFileSync outputPath (Text reportContent);
    ret (Generated outputPath timestampedPath stats).

(** The name of the timestamped copy of a report written at time [t]:
    [`active-users_${iso}.md`] with
    [iso = new Date().toISOString().replace(/[:]/g, '-')]. *)
Definition timestampedName (t : Z) : string :=
  String.concat "" ["active-users_"; replaceColons (isoOfTime t); ".md"].

(** A computation whose result and files are determined by the files (up
    to [R]) and by the clock (up to [C]): run in two worlds with related
    files and related clocks, it returns the same result and leaves related
    files and related clocks. *)
Definition respects (R : FsNode -> FsNode -> Prop) (C : Clock -> Clock -> Prop)
    {A} (m : IO A) : Prop :=
  forall w1 w2, R (fs w1) (fs w2) -> C (clock w1) (clock w2) ->
    fst (m w1) = fst (m w2) /\ R (fs (snd (m w1))) (fs (snd (m w2)))
    /\ C (clock (snd (m w1))) (clock (snd (m w2))).

(** File systems related by [R] hold the same things at [base] and below. *)
Definition stable (R : FsNode -> FsNode -> Prop) (base : Path) : Prop :=
  forall (q : Path) (n1 n2 : FsNode),
    R n1 n2 -> lookupPath (base ++ q) n1 = lookupPath (base ++ q) n2.

(** A computation that leaves the world as it was. *)
Definition leavesWorld {A} (m : IO A) : Prop := forall w, snd (m w) = w.

(** A path below data/. *)
Definition underData (p : Path) : Prop := exists q, p = "data" :: q.

(** A computation that leaves the files, the pending answers and the
    prompts as they were. *)
Definition readsOnly {A} (m : IO A) : Prop :=
  forall w, fs (snd (m w)) = fs w /\ answers (snd (m w)) = answers w
            /\ prompts (snd (m w)) = prompts w /\ readings (snd (m w)) = readings w.

(** The entries of a directory found by a lookup; none for a file or a
    missing path. *)
Definition dirEntries (o : option FsNode) : list (string * FsNode) :=
  match o with
  | Some (Dir es) => es
  | _ => []
  end.

(** No entry of the given name is a directory. *)
Definition notDir (name : string) (es : list (string * FsNode)) : Prop :=
  forall sub, entry name es <> Some (Dir sub).

(** The clock shows times in the range of Date. *)
Definition clockValid (w : World) : Prop :=
  forall i, Z.abs (readings w i) <= 8640000000000000.

(** A world in which output/reports/active-users.md exists and the user
    will answer "n". *)
Definition worldWithReport : World :=
  {| fs := Dir [("output", Dir [("reports", Dir [("active-users.md", File (Text "old"))])])];
     readings := fun _ => monday10am; reads := 0; answers := ["n"]; prompts := [] |}.

(** A first part that analyses the Cursor activity under data/ and renders
    the line of the inactive Cursor users. *)
Definition prepareCursorSummary : IO (string * nat) :=
  cursorAnalysis ← analyzeCursorActivity 0 ["data"] [];
  ret (inactiveCursorUsersLine cursorAnalysis, size (cursorActiveUsers cursorAnalysis)).

(** A seat snapshot with one seat whose [last_activity_at] is not a date. *)
Definition seatsUnparseable : list Seat :=
  [ seatOf "octocat" (Some "not-a-date") None ].

(** A monthly-activity payload with one dated record and one record whose
    date is not a date. *)
Definition rowsUnparseable : list ActivityRecord :=
  [ activityOn (JString "2025-08-01") "u1" true;
    activityOn (JString "n/a") "u1" true ].

(** Two records three days apart, at 2001-09-08 and 2001-09-10 (UTC
    midnight): time values of 12 and 13 digits. *)
Definition rowsAcrossDigits : list ActivityRecord :=
  [ activityOn (JNumber 999907200000) "u1" true;
    activityOn (JNumber 1000080000000) "u1" true ].

(** 2025-08-01T00:00:00Z in seconds. *)
Definition augustFirstSeconds : Z := 1754006400.

(** Three days of activity of one user in August 2025. *)
Definition rowsAugust : list ActivityRecord :=
  [ activityOn (JString "2025-08-01") "u1" true;
    activityOn (JString "2025-08-02") "u1" false;
    activityOn (JString "2025-08-03") "u1" true ].

(** A snapshot directory: one monthly activity file and one seat file. *)
Definition snapshotFiles : FsNode :=
  Dir [("data", Dir [
    ("cursor", Dir [("2025", Dir [("08", Dir [
       ("monthly_activity_2025-08-03.json", File (Json (ActivityDoc (Some rowsAugust))))])])]);
    ("github", Dir [
       ("copilot-seats_2025-08-11.json", File (Json (SeatsDoc (Some seats2))))])])].

(** A seat snapshot whose one seat was last active seven days before
    Monday 10am, less a millisecond. *)
Definition seatFilesAtCutoff : FsNode :=
  Dir [("data", Dir [
    ("github", Dir [
       ("copilot-seats_2025-08-11.json",
        File (Json (SeatsDoc (Some
          [seatOf "octocat" (Some "2025-08-04T10:00:00.001Z") None]))))])])].

(** That snapshot under a clock that starts on Monday at 10am and advances
    by a millisecond from one reading to the next. *)
Definition tickingWorld : World :=
  {| fs := seatFilesAtCutoff; readings := fun i => monday10am + Z.of_nat i; reads := 0;
     answers := []; prompts := [] |}.

(** The snapshot on a Monday at 10am, after [n] readings of the clock and
    with [pending] answers on the standard input. *)
Definition snapshotWorld (n : nat) (pending : list string) : World :=
  {| fs := snapshotFiles; readings := fun _ => monday10am; reads := n;
     answers := pending; prompts := [] |}.

(* ===================================================================== *)
(** ** src/common/org.js: the roster tree                                  *)
(* ===================================================================== *)

(** A node of the roster: [null], or an object with its [name], [username]
    and [title] (strings or absent) and its [directReports] ([None] when the
    field is not an array). *)
#[warnings="-register-all"]
Inductive OrgNode : Type :=
  | NullNode
  | Person (name username title : option string) (directReports : option (list OrgNode)).

Record OrgUserDetail := {
  originalName : string;
  od_username : option string;
  od_title : option string
}.

(** [map.set(k, v)] on a [Map] kept in insertion order. *)
Definition mapSet {A} (k : string) (v : A) (m : list (string * A)) : list (string * A) :=
  if mapHas k m then mapAlter (fun _ => v) k m else m ++ [(k, v)].

(** [processNode] of [extractOrgUsers]; the state is the [users] set and the
    [userDetails] map. *)
Fixpoint processNode (st : list string * list (string * OrgUserDetail)) (node : OrgNode)
    {struct node} : list string * list (string * OrgUserDetail) :=
  match node with
  | NullNode => st
  | Person name username title directReports =>
      match truthy name with
      | None => st
      | Some n =>
          let normalizedName := normalizeText n in
          let st' :=
            (setAdd normalizedName (fst st),
             mapSet normalizedName
               {| originalName := n; od_username := username; od_title := title |} (snd st)) in
          match directReports with
          | Some reports => fold_left processNode reports st'
          | None => st'
          end
      end
  end.

Record OrgUsers := {
  org_users : list string;
  userDetails : list (string * OrgUserDetail)
}.

Definition extractOrgUsers (organization : list OrgNode) : OrgUsers :=
  let st := fold_left processNode organization ([], []) in
  {| org_users := fst st; userDetails := snd st |}.

(** [countPeople] of [countTotalRDPeople], one person at a time: reading
    [person.directReports] of [null] throws. *)
Fixpoint countPerson (person : OrgNode) (count : nat) {struct person} : Result nat :=
  match person with
  | NullNode => Throw (TypeError "Cannot read properties of null (reading 'directReports')")
  | Person _ _ _ directReports =>
      match directReports with
      | Some reports =>
          (fix countPeople (nodes : list OrgNode) (count : nat) {struct nodes} : Result nat :=
             match nodes with
             | [] => Ok count
             | p :: rest => bind (countPerson p count) (countPeople rest)
             end) reports (S count)
      | None => Ok (S count)
      end
  end.

Fixpoint countPeople (nodes : list OrgNode) (count : nat) : Result nat :=
  match nodes with
  | [] => Ok count
  | p :: rest => bind (countPerson p count) (countPeople rest)
  end.

Definition countTotalRDPeople (organization : list OrgNode) : Result nat :=
  countPeople organization 0.

(** [collectAll] of [extractEngineeringTeam]. *)
Fixpoint collectAll (engineeringUsers : list string) (person : OrgNode) {struct person}
  : list string :=
  match person with
  | NullNode => engineeringUsers
  | Person name _ _ directReports =>
      let engineeringUsers :=
        match truthy name with
        | Some n => setAdd (normalizeText n) engineeringUsers
        | None => engineeringUsers
        end in
      match directReports with
      | Some reports => fold_left collectAll reports engineeringUsers
      | None => engineeringUsers
      end
  end.

Definition extractEngineeringTeam (organization : list OrgNode) : list string :=
  fold_left collectAll organization [].

(** Every node of the tree is an object with a name. *)
Fixpoint allNamed (node : OrgNode) : bool :=
  match node with
  | NullNode => false
  | Person name _ _ directReports =>
      match truthy name with
      | None => false
      | Some _ =>
          match directReports with
          | Some reports => forallb allNamed reports
          | None => true
          end
      end
  end.

(** No node of the tree is [null]. *)
Fixpoint noNull (node : OrgNode) : bool :=
  match node with
  | NullNode => false
  | Person _ _ _ directReports =>
      match directReports with
      | Some reports => forallb noNull reports
      | None => true
      end
  end.

(** The number of nodes of the tree. *)
Fixpoint orgSize (node : OrgNode) : nat :=
  match node with
  | NullNode => 1
  | Person _ _ _ directReports =>
      match directReports with
      | Some reports => S (list_sum (map orgSize reports))
      | None => 1
      end
  end.

(** A small roster: a manager with two reports, one of them without a name
    but with a report of their own. *)
Definition sampleOrg : list OrgNode :=
  [ Person (Some "Ada Lovelace") (Some "ada") (Some "VP Engineering")
      (Some [ Person (Some "Bob Chen") (Some "bchen") (Some "Engineer") None;
              Person None None None
                (Some [ Person (Some "Carol Diaz") None (Some "Engineering Manager") None ]) ]) ].

(* ===================================================================== *)
(** ** ReportingService: the engineering team and the statistics          *)
(* ===================================================================== *)

Record EngineeringAnalysis := {
  allEngineering : list LookupUser;
  individualContributors : list LookupUser;
  totalSize : nat
}.

(** [!role.includes('manager') && !role.includes('vp') && !role.includes('director')]
    on the lower-cased role. *)
Definition isIndividualContributor (user : LookupUser) : bool :=
  let role := toLowerCase (role user) in
  negb (str_includes "manager" role) && negb (str_includes "vp" role)
  && negb (str_includes "director" role).

(** [analyzeEngineeringTeam(users, orgData)] *)
Definition analyzeEngineeringTeam (NAME_VARIATIONS : gmap string (list string))
    (users : list LookupUser) (organization : list OrgNode) : EngineeringAnalysis :=
  let engineeringUsers := extractEngineeringTeam organization in
  let engineeringTeamUsers :=
    List.filter
      (fun user =>
         let normalizedName := normalizeText (name user) in
         existsb (String.eqb normalizedName) engineeringUsers
         || matchUserByNameVariations NAME_VARIATIONS user engineeringUsers)
      users in
  {| allEngineering := engineeringTeamUsers;
     individualContributors := List.filter isIndividualContributor engineeringTeamUsers;
     totalSize := length engineeringUsers |}.

(** [u.hasCopilot || u.hasCursor] *)
Definition hasTools (u : LookupUser) : bool := hasCopilot u || hasCursor u.

(** The test of the weekly activity filters: active in Copilot by GitHub
    login or in Cursor by lower-cased email. *)
Definition activeInEither (copilotAnalysis : CopilotAnalysis) (cursorAnalysis : CursorAnalysis)
    (u : LookupUser) : bool :=
  let copilotActive :=
    hasCopilot u && bool_decide (Some (githubLogin u) ∈ activeLogins copilotAnalysis) in
  let cursorActive :=
    hasCursor u && bool_decide (toLowerCase (email u) ∈ cursorActiveUsers cursorAnalysis) in
  copilotActive || cursorActive.

(** [((count / total) * 100).toFixed(1)] *)
Definition percentFixed1 (count total : nat) : string :=
  match total, count with
  | O, O => "NaN"
  | O, S _ => "Infinity"
  | S _, _ =>
      toFixed 1 (jsmul (jsdiv (inject_Z (Z.of_nat count)) (inject_Z (Z.of_nat total))) 100)
  end.

Record ComprehensiveStats := {
  totalRDPeople : nat;
  usersInLookup : nat;
  usersWithTools : nat;
  weeklyActiveInEither : nat;
  weeklyActivePercentage : string;
  copilotUsers : nat;
  cursorUsers : nat;
  activeCopilotUsers : nat;
  activeCursorUsers : nat;
  engineeringTotal : nat;
  engineeringWithTools : nat;
  engineeringActiveWeekly : nat;
  engineeringICsTotal : nat;
  engineeringICsActiveWeekly : nat
}.

(** [calculateComprehensiveStats(users, orgData, copilotAnalysis,
    cursorAnalysis, engineeringAnalysis)]; it throws when the count of the
    roster does. *)
Definition calculateComprehensiveStats (users : list LookupUser) (organization : list OrgNode)
    (copilotAnalysis : CopilotAnalysis) (cursorAnalysis : CursorAnalysis)
    (engineeringAnalysis : EngineeringAnalysis) : Result ComprehensiveStats :=
  bind (countTotalRDPeople organization) (fun totalRDPeople =>
    let active := activeInEither copilotAnalysis cursorAnalysis in
    let weeklyActiveInEither := length (List.filter active users) in
    Ok {| totalRDPeople := totalRDPeople;
          usersInLookup := length users;
          usersWithTools := length (List.filter hasTools users);
          weeklyActiveInEither := weeklyActiveInEither;
          weeklyActivePercentage := percentFixed1 weeklyActiveInEither totalRDPeople;
          copilotUsers := length (List.filter hasCopilot users);
          cursorUsers := length (List.filter hasCursor users);
          activeCopilotUsers := size (activeLogins copilotAnalysis);
          activeCursorUsers := size (cursorActiveUsers cursorAnalysis);
          engineeringTotal := totalSize engineeringAnalysis;
          engineeringWithTools :=
            length (List.filter hasTools (allEngineering engineeringAnalysis));
          engineeringActiveWeekly :=
            length (List.filter active (allEngineering engineeringAnalysis));
          engineeringICsTotal := length (individualContributors engineeringAnalysis);
          engineeringICsActiveWeekly :=
            length (List.filter active (individualContributors engineeringAnalysis)) |}).

(** The users of the lookup table that are in the roster, as
    [generateActiveUsersReport] computes them. *)
Definition usersInOrg (NAME_VARIATIONS : gmap string (list string))
    (allUsers : list LookupUser) (organization : list OrgNode) : list LookupUser :=
  filterUsersToOrg NAME_VARIATIONS allUsers (org_users (extractOrgUsers organization)).

(** A lookup table of three users, two of them in [sampleOrg]. *)
Definition sampleUsers : list LookupUser :=
  [ {| name := "Ada Lovelace"; email := "ada@example.com"; githubLogin := "ada";
       role := "VP Engineering"; hasCopilot := true; hasCursor := false |};
    {| name := "Bob Chen"; email := "bob@example.com"; githubLogin := "bchen";
       role := "Engineer"; hasCopilot := true; hasCursor := true |};
    {| name := "Zed Zimmer"; email := "zed@example.com"; githubLogin := "zed";
       role := "Engineer"; hasCopilot := false; hasCursor := false |} ].

(* ===================================================================== *)
(** ** src/common/fs.js: CSV files; src/common/prompt.js: several files    *)
(* ===================================================================== *)

(** Line feed and carriage return. *)
Definition LF : ascii := ascii_of_nat 10.
Definition CR : ascii := ascii_of_nat 13.

(** No character of [s] satisfies [p]. *)
Definition freeOf (p : ascii -> bool) (s : string) : Prop :=
  Forall (fun c => p c = false) (list_ascii_of_string s).

Definition isComma (c : ascii) : bool := Ascii.eqb c ",".
Definition isLF (c : ascii) : bool := Ascii.eqb c LF.

(** [v.replace(/\r?\n/g, ' ')] *)
Fixpoint replaceNewlines (s : string) : string :=
  match s with
  | EmptyString => EmptyString
  | String c r =>
      if Ascii.eqb c LF then String " " (replaceNewlines r)
      else if Ascii.eqb c CR then
        match r with
        | String c' r' =>
            if Ascii.eqb c' LF then String " " (replaceNewlines r')
            else String c (replaceNewlines r)
        | EmptyString => String c EmptyString
        end
      else String c (replaceNewlines r)
  end.

(** [v.replace(/,/g, ' ')] *)
Fixpoint replaceCommas (s : string) : string :=
  match s with
  | EmptyString => EmptyString
  | String c r => String (if Ascii.eqb c "," then " "%char else c) (replaceCommas r)
  end.

(** [sanitize(v)] *)
Definition sanitize (v : string) : string := replaceCommas (replaceNewlines v).

(** A row of a CSV export: for a column, the string form [String(r[h])] of
    the field, or [None] when the field is [null] or [undefined]. *)
Definition CsvRow : Type := string -> option string.

(** [sanitize(String(r[h] ?? ''))] *)
Definition csvCell (r : CsvRow) (h : string) : string := sanitize (default EmptyString (r h)).

(** The lines [writeCSV] joins: the header and one line per row. *)
Definition csvLines (header : list string) (rows : list CsvRow) : list string :=
  String.concat "," header
  :: map (fun r => String.concat "," (map (csvCell r) header)) rows.

(** [lines.join('\n')] *)
Definition csvBody (header : list string) (rows : list CsvRow) : string :=
  String.concat (String LF EmptyString) (csvLines header rows).

(** [writeCSV(file, header, rows)]; [path.dirname(file)] is the path without
    its last component. *)
Definition writeCSV (file : Path) (header : list string) (rows : list CsvRow) : IO unit :=
  _ ← ensureDir (removelast file);
  writeFileSync file (Text (String.app BOM (csvBody header rows))).

(** [files.filter(file => fs.existsSync(file.path))]; a file is its path and
    its type. *)
Fixpoint existingOf (files : list (Path * string)) : IO (list (Path * string)) :=
  match files with
  | [] => ret []
  | file :: rest =>
      found ← existsSync (fst file);
      others ← existingOf rest;
      ret (if negb found then others else file :: others)
  end.

(** [existingFiles.forEach(file => { fs.statSync(file.path); ... })] *)
Fixpoint statAll (files : list (Path * string)) : IO unit :=
  match files with
  | [] => ret tt
  | file :: rest => _ ← statSync (fst file); statAll rest
  end.

Definition checkAndPromptMultipleOverwrite (files : list (Path * string)) : IO bool :=
  existingFiles ← existingOf files;
  match existingFiles with
  | [] => ret true
  | _ :: _ =>
      _ ← statAll existingFiles;
      response ← promptUser
        (String.concat ""
           [ String LF "   Do you want to overwrite ";
             (if (length existingFiles =? 1)%nat then "it" else "them all");
             "? (y/N): " ]);
      ret (accepts response)
  end.

(** A row with a comma and a line break in its cells. *)
Definition messyRow : CsvRow :=
  fun h =>
    if String.eqb h "name" then Some "Chen, Bob"
    else if String.eqb h "role" then Some (String.app "Engineer" (String CR (String LF "Lead")))
    else None.

(* ===================================================================== *)
(** ** src/cursor/util.js: chunkRange                                      *)
(* ===================================================================== *)

(** The loop of [chunkRange(start, end, max)]: [s] is the start of the next
    chunk, [out] the chunks pushed so far.  The loop has no bound of its
    own, so the model counts its iterations down from [fuel] and gives
    [None] when they run out. *)
Fixpoint chunkLoop (fuel : nat) (s end_ : Date) (max : Z) (out : list (Date * Date))
  : option (list (Date * Date)) :=
  match fuel with
  | O => None
  | S fuel' =>
      if date_ge end_ s then
        (* [new Date(Math.min(end.getTime(), s.getTime() + (max - 1) * 86400000))] *)
        let e :=
          match end_, s with
          | DateOf te, DateOf ts => TimeClip (Z.min te (ts + (max - 1) * msPerDay))
          | _, _ => InvalidDate
          end in
        (* [new Date(e.getTime() + 86400000)] *)
        let s' :=
          match e with
          | DateOf t => TimeClip (t + msPerDay)
          | InvalidDate => InvalidDate
          end in
        chunkLoop fuel' s' end_ max (out ++ [(s, e)])
      else Some out
  end.

Definition chunkRange (fuel : nat) (start end_ : Date) (max : Z)
  : option (list (Date * Date)) :=
  chunkLoop fuel start end_ max [].

(** Chunks from [s] up to [b], each of [max] days but the last: a chunk
    starts the day after the one before it ended, the last chunk starts at
    most [max] days before [b] and ends at [b] or, when that is earlier, on
    its [max]-th day. *)
Inductive Chunked (max b : Z) : Z -> list (Date * Date) -> Prop :=
  | Chunked_last (s : Z) :
      s <= b -> b < s + max * msPerDay ->
      Chunked max b s [(DateOf s, DateOf (Z.min b (s + (max - 1) * msPerDay)))]
  | Chunked_step (s : Z) (rest : list (Date * Date)) :
      s + max * msPerDay <= b -> Chunked max b (s + max * msPerDay) rest ->
      Chunked max b s ((DateOf s, DateOf (s + (max - 1) * msPerDay)) :: rest).

(** A world with a legacy directory of monthly files beside the dated
    layout. *)
Definition legacyWorld : World :=
  {| fs := Dir [("data", Dir [("cursor", Dir [
             ("2025", Dir [("08", Dir [
                ("monthly_activity_2025-08-03.json", File (Json (ActivityDoc (Some rowsAugust))))])]);
             ("monthly-activity", Dir [
                ("monthly-report_2024-01.json", File (Json (ActivityDoc (Some []))));
                ("monthly-activity_2024-02.json", File (Json (ActivityDoc (Some []))));
                ("notes.txt", File (Text "")) ])])])];
     readings := fun _ => monday10am; reads := 0; answers := []; prompts := [] |}.

(** The number of seats the teams of a breakdown hold. *)
Definition teamSeats (teamStats : list (string * TeamData)) : nat :=
  list_sum (map (fun e => td_totalSeats (snd e)) teamStats).

(** A team entry as [getTeamBreakdown] keeps it: stored under its slug, with
    as many seats as users listed, and at least one. *)
Definition teamEntryOk (e : string * TeamData) : Prop :=
  td_slug (snd e) = fst e /\ td_totalSeats (snd e) = length (td_users (snd e)) /\
  (1 <= td_totalSeats (snd e))%nat.

(** Two days of metrics. *)
Definition dayOf (suggested accepted : Z) : DayData :=
  {| copilot_ide_code_completions :=
       Some {| editors := Some [ {| models :=
         Some [ {| languages := Some [counters suggested accepted] |} ] |} ] |} |}.

(* ===================================================================== *)
(** ** Checks by enumeration: the calendar of one era, the padded digits   *)
(* ===================================================================== *)

(** [f] holds at the [n] integers from [z] on. *)
Fixpoint allFrom (f : Z -> bool) (n : nat) (z : Z) : bool :=
  match n with
  | O => true
  | S k => f z && allFrom f k (z + 1)
  end.

(** The day [doe] of a 400-year era, taken apart as [civil_from_days] does
    and put together as [days_from_civil] does: the year of the era is
    within 0..399, the month and the day are a month and a day, and the day
    number comes back.  The days from 146037 on are the January and
    February of the last year of the era. *)
Definition eraCheck (doe : Z) : bool :=
  let yoe := (doe - doe / 1460 + doe / 36524 - doe / 146096) / 365 in
  let doy := doe - (365 * yoe + yoe / 4 - yoe / 100) in
  let mp := (5 * doy + 2) / 153 in
  let d := doy - (153 * mp + 2) / 5 + 1 in
  let m := if mp <? 10 then mp + 3 else mp - 9 in
  (0 <=? yoe) && (yoe <=? 399) && (1 <=? m) && (m <=? 12) && (1 <=? d) && (d <=? 31)
  && (yoe * 365 + yoe / 4 - yoe / 100
      + ((153 * (if 2 <? m then m - 3 else m + 9) + 2) / 5 + d - 1) =? doe)
  && (if 146037 <=? doe then (yoe =? 399) && (m <=? 2)
      else yoe + (if m <=? 2 then 1 else 0) <=? 399).

(** [pad width n] is [width] digits that read [n]. *)
Definition padCheck (width : nat) (n : Z) : bool :=
  (String.length (pad width n) =? width)%nat
  && match allDigits (pad width n) with
     | Some v => v =? n
     | None => false
     end.

(* ===================================================================== *)
(** ** aggregate.js: the columns of the daily, monthly and event exports   *)
(* ===================================================================== *)

(** The preferred column order of the daily and the monthly export. *)
Definition headerPreferences : list string :=
  [ "date"; "userId"; "email"; "isActive"; "totalLinesAdded"; "totalLinesDeleted";
    "acceptedLinesAdded"; "acceptedLinesDeleted"; "totalApplies"; "totalAccepts";
    "totalRejects"; "totalTabsShown"; "totalTabsAccepted"; "composerRequests";
    "chatRequests"; "agentRequests"; "cmdkUsages"; "subscriptionIncludedReqs";
    "apiKeyReqs"; "usageBasedReqs"; "bugbotUsages"; "mostUsedModel";
    "applyMostUsedExtension"; "tabMostUsedExtension"; "clientVersion" ].

(** The preferred column order of the usage events export. *)
Definition eventHeaderPreferences : list string :=
  [ "timestamp_ms"; "timestamp_iso"; "date"; "userEmail"; "model"; "kind";
    "requestsCosts"; "maxMode"; "isTokenBasedCall" ].

(** [Object.keys(row)] of a row kept as the list of its fields. *)
Definition keysOf {V} (row : list (string * V)) : list string := map fst row.

(** [rows.forEach(row => Object.keys(row).forEach(key => allColumns.add(key)))] *)
Definition allColumnsOf {V} (rows : list (list (string * V))) : list string :=
  fold_left (fun allColumns row => fold_left (fun cols key => setAdd key cols) (keysOf row) allColumns)
            rows [].

(** [[...preferences, ...[...allColumns].filter(col =>
    !preferences.includes(col)).sort()]] *)
Definition headerOf (preferences allColumns : list string) : list string :=
  let additionalColumns :=
    sortNames (List.filter (fun col => negb (bool_decide (col ∈ preferences))) allColumns) in
  preferences ++ additionalColumns.

(* ===================================================================== *)
(** ** aggregate.js: aggregateMonthly                                      *)
(* ===================================================================== *)

(** [getFullYear()], [getMonth() + 1] and [getDate()] of a date in the zone
    [tz] ms east of UTC; [None] is NaN. *)
Definition localDate (tz : Z) (d : Date) : option (Z * Z * Z) :=
  match d with
  | DateOf t => Some (civil_from_days (localDay tz t))
  | InvalidDate => None
  end.

(** [new Date(year, monthIndex, day)]: local midnight of that day; a year
    from 0 to 99 is a year of the 1900s. *)
Definition Date_of_fields (tz : Z) (year monthIndex day : Z) : Date :=
  let yr := if (0 <=? year) && (year <=? 99) then 1900 + year else year in
  let firstOfMonth := days_from_civil (yr + monthIndex / 12) (monthIndex mod 12 + 1) 1 in
  TimeClip ((firstOfMonth + (day - 1)) * msPerDay - tz).

(** [iso(new Date(date.getFullYear(), date.getMonth(), 1)).slice(0, 7)] *)
Definition monthOf (tz : Z) (date : Date) : Result string :=
  let first :=
    match localDate tz date with
    | Some (year, month, _) => Date_of_fields tz year (month - 1) 1
    | None => InvalidDate
    end in
  bind (iso first) (fun text => Ok (String.substring 0 7 text)).

(** The month before a month of a year. *)
Definition prevMonth (y m : Z) : Z * Z :=
  if m =? 1 then (y - 1, 12) else (y, m - 1).

(** The month [i] of a 400-year cycle, counted from January of the year 0:
    the calendar date of the day number of its first day is that first day,
    and the day before it is in the month before. *)
Definition monthCheck (i : Z) : bool :=
  let y := i / 12 in
  let m := i mod 12 + 1 in
  let first := days_from_civil y m 1 in
  let '(y1, m1, d1) := civil_from_days first in
  let '(y0, m0, _) := civil_from_days (first - 1) in
  (y1 =? y) && (m1 =? m) && (d1 =? 1)
  && (y0 =? fst (prevMonth y m)) && (m0 =? snd (prevMonth y m)).

(** The running record of one user in one month. *)
Record MonthlyRecord := {
  mr_userId : string;
  mr_email : string;
  mr_month : string;
  mr_daysActive : nat;
  mr_totalDays : nat;
  mr_numbers : gmap string Z
}.

(** [for (const field of NUMERIC_FIELDS) monthlyRecord[field] = 0] *)
Definition zeroNumbers : gmap string Z :=
  fold_left (fun numbers field => <[field := 0]> numbers) NUMERIC_FIELDS ∅.

(** The body of the loop over the records of a file; [monthlyRecords] is the
    [Map] from [userId|month] to the running record, in insertion order.  A
    record without a date is skipped; an unparseable date throws in [iso].
    Every numeric field of the running record is a number from the start, so
    [+=] adds as the loop of [aggregateWindow] does. *)
Definition monthlyStep (tz : Z) (monthlyRecords : list (string * MonthlyRecord))
    (record : ActivityRecord) : Result (list (string * MonthlyRecord)) :=
  match parseDate tz (date record) with
  | None => Ok monthlyRecords
  | Some date =>
      bind (monthOf tz date) (fun month =>
        let userId := default "UNKNOWN" (truthy (userId record)) in
        let key := String.app userId (String.app "|" month) in
        let monthlyRecords :=
          if mapHas key monthlyRecords then monthlyRecords
          else monthlyRecords ++
               [(key, {| mr_userId := userId;
                         mr_email := default "" (truthy (ar_email record));
                         mr_month := month;
                         mr_daysActive := 0; mr_totalDays := 0;
                         mr_numbers := zeroNumbers |})] in
        Ok (mapAlter
              (fun monthlyRecord =>
                 {| mr_userId := mr_userId monthlyRecord;
                    mr_email := mr_email monthlyRecord;
                    mr_month := mr_month monthlyRecord;
                    mr_daysActive :=
                      (if isActive record then S (mr_daysActive monthlyRecord)
                       else mr_daysActive monthlyRecord);
                    mr_totalDays := S (mr_totalDays monthlyRecord);
                    mr_numbers :=
                      addNumbers NUMERIC_FIELDS (mr_numbers monthlyRecord) (numbers record) |})
              key monthlyRecords))
  end.

(** [for (const record of rows)] *)
Fixpoint monthlyLoop (tz : Z) (rows : list ActivityRecord)
    (monthlyRecords : list (string * MonthlyRecord)) : Result (list (string * MonthlyRecord)) :=
  match rows with
  | [] => Ok monthlyRecords
  | record :: rest =>
      bind (monthlyStep tz monthlyRecords record) (monthlyLoop tz rest)
  end.

(** [parseDate(record.date)] is not [null]. *)
Definition dated (tz : Z) (record : ActivityRecord) : bool :=
  bool_decide (is_Some (parseDate tz (date record))).

(** The number under a field, 0 when there is none. *)
Definition numberOf (field : string) (numbers : gmap string Z) : Z :=
  default 0 (numbers !! field).

(** A running record as the loop keeps it: stored under [userId|month],
    counted at least once, never more active days than days. *)
Definition monthlyEntryOk (e : string * MonthlyRecord) : Prop :=
  fst e = String.app (mr_userId (snd e)) (String.app "|" (mr_month (snd e)))
  /\ (1 <= mr_totalDays (snd e))%nat
  /\ (mr_daysActive (snd e) <= mr_totalDays (snd e))%nat.

(** The user id a record is counted under: [record.userId || 'UNKNOWN']. *)
Definition userKey (record : ActivityRecord) : string :=
  default "UNKNOWN" (truthy (userId record)).

(** The number a row of the window summary has in the column of the
    [i]-th numeric field, 0 when the cell is empty. *)
Definition rowNumber (i : nat) (row : WindowRow) : Z :=
  default 0 (default None (row_numbers row !! i)).

(** The key of a record in the Cursor analysis: [record.email?.toLowerCase()],
    [None] when it is missing or empty. *)
Definition emailKey (record : ActivityRecord) : option string :=
  truthy (toLowerCase <$> ar_email record).

(** [record.isActive && date >= cutoffDate] *)
Definition activeSince (tz : Z) (cutoffDate : Date) (record : ActivityRecord) : bool :=
  isActive record && date_ge (Date_of_value tz (date record)) cutoffDate.

(** [(record.composerRequests || 0) + (record.chatRequests || 0)] *)
Definition requestsOf (record : ActivityRecord) : Z :=
  default 0 (numbers record !! "composerRequests")
  + default 0 (numbers record !! "chatRequests").

(** The two numbers [requestsOf] adds. *)
Definition requestCounts (record : ActivityRecord) : list Z :=
  [ default 0 (numbers record !! "composerRequests");
    default 0 (numbers record !! "chatRequests") ].

(** What the loop of the Cursor analysis keeps: an active user has an
    entry flagged as recently active, and an entry with a last activity or
    with the flag belongs to an active user. *)
Definition cursorConsistent (acc : CursorAnalysis) : Prop :=
  (forall email, email ∈ cursorActiveUsers acc ->
     exists activity, cursorActivityMap acc !! email = Some activity
                      /\ hasRecentActivity activity = true) /\
  (forall email activity,
     cursorActivityMap acc !! email = Some activity ->
     is_Some (cu_lastActivity activity) \/ hasRecentActivity activity = true ->
     email ∈ cursorActiveUsers acc).

(* ===================================================================== *)
(** ** GitHubDiagnosticService: permissions and recommendations           *)
(* ===================================================================== *)

(** The result of [checkUserAuth], as far as the analysis reads it:
    [scopes] is the header of granted scopes, a comma-separated list. *)
Record UserAuth := {
  authenticated : bool;
  auth_scopes : option string
}.

(** [{limit, remaining}] of the rate limit headers; [remaining] may be
    missing. *)
Record RateLimit := {
  rl_limit : string;
  rl_remaining : option string
}.

(** The result of [checkSeatsAccess]; after a failed request there is no
    status and no rate limit. *)
Record SeatsAccess := {
  accessible : bool;
  seats_status : option Z;
  seats_rateLimit : option RateLimit
}.

Record Permission := {
  permission : string;
  perm_status : string;
  perm_description : string
}.

Record Recommendation := {
  priority : string;
  issue : string;
  solution : string
}.

(** [userResult.scopes ? userResult.scopes.split(',').map(s => s.trim()) : []] *)
Definition scopesOf (userResult : UserAuth) : list string :=
  match truthy (auth_scopes userResult) with
  | Some scopes => map trim (splitWhere isComma scopes)
  | None => []
  end.

(** [scopes.includes(scope)] *)
Definition includes (scopes : list string) (scope : string) : bool :=
  existsb (String.eqb scope) scopes.

(** [analyzePermissions(userResult, seatsResult)] *)
Definition analyzePermissions (userResult : UserAuth) (seatsResult : option SeatsAccess)
  : list Permission :=
  if negb (authenticated userResult) then
    [ {| permission := "basic_auth"; perm_status := "missing";
         perm_description := "Basic GitHub authentication failed" |} ]
  else
    let scopes := scopesOf userResult in
    let hasManageBilling := includes scopes "manage_billing:copilot" in
    let hasReadOrg := includes scopes "read:org" in
    [ {| permission := "basic_auth"; perm_status := "granted";
         perm_description := "Basic GitHub authentication successful" |};
      {| permission := "manage_billing:copilot";
         perm_status := if hasManageBilling then "granted" else "missing";
         perm_description := "Required for accessing Copilot seat assignments" |};
      {| permission := "read:org";
         perm_status := if hasReadOrg then "granted" else "missing";
         perm_description := "Required for organization access" |} ]
    ++ match seatsResult with
       | Some seats =>
           [ {| permission := "copilot_seats_access";
                perm_status := if accessible seats then "granted" else "denied";
                perm_description := "Ability to access Copilot seats endpoint" |} ]
       | None => []
       end.

(** The diagnostic results [generateRecommendations] reads. *)
Record DiagnosticResults := {
  token_present : bool;
  diag_user : option UserAuth;
  diag_seats : option SeatsAccess;
  diag_permissions : list Permission
}.

(** [generateRecommendations(results)].  [lessThan100 text] is the
    comparison [text < 100] of a header value with a number, which converts
    the text to a number as the runtime does. *)
Definition generateRecommendations (lessThan100 : string -> bool)
    (results : DiagnosticResults) : list Recommendation :=
  if negb (token_present results) then
    [ {| priority := "high"; issue := "No GitHub token configured";
         solution :=
           "Set GH_TOKEN or GITHUB_TOKEN environment variable with a valid GitHub token" |} ]
  else if negb (default false (authenticated <$> diag_user results)) then
    [ {| priority := "high"; issue := "Authentication failed";
         solution := "Verify your GitHub token is valid and not expired" |} ]
  else
    let missingScopes :=
      map permission
        (List.filter
           (fun p => String.eqb (perm_status p) "missing" && str_includes ":" (permission p))
           (diag_permissions results)) in
    (if (0 <? length missingScopes)%nat then
       [ {| priority := "high";
            issue := String.app "Missing required scopes: " (String.concat ", " missingScopes);
            solution :=
              "Create a new token with the required scopes or request additional permissions" |} ]
     else [])
    ++ match diag_seats results with
       | Some seats =>
           if negb (accessible seats) then
             if bool_decide (seats_status seats = Some 403) then
               [ {| priority := "high"; issue := "Access forbidden to Copilot seats";
                    solution :=
                      "Ensure you are an organization owner or billing manager with Copilot access" |} ]
             else if bool_decide (seats_status seats = Some 404) then
               [ {| priority := "medium"; issue := "Copilot seats endpoint not found";
                    solution :=
                      "Verify the organization name is correct and Copilot is enabled for the org" |} ]
             else []
           else []
       | None => []
       end
    ++ match diag_seats results ≫= seats_rateLimit with
       | Some limit =>
           match rl_remaining limit with
           | Some remaining =>
               if lessThan100 remaining then
                 [ {| priority := "medium";
                      issue := String.app "Low rate limit remaining: " remaining;
                      solution :=
                        "Consider waiting before making more API calls or using a different token" |} ]
               else []
           | None => []
           end
       | None => []
       end.

(** The recommendations of [diagnoseSeats] for an organization: the
    permissions are analysed, then the recommendations generated. *)
Definition diagnose (lessThan100 : string -> bool) (tokenPresent : bool)
    (userResult : UserAuth) (seatsResult : option SeatsAccess) : list Recommendation :=
  generateRecommendations lessThan100
    {| token_present := tokenPresent; diag_user := Some userResult;
       diag_seats := seatsResult;
       diag_permissions := analyzePermissions userResult seatsResult |}.

(** [seat.assignee?.login]; [None] is [undefined]. *)
Definition loginOf (seat : Seat) : option string := assignee seat ≫= login.

(* ===================================================================== *)
(** * Properties                                                           *)
(* ===================================================================== *)

(** ** Number arithmetic *)

Example fl_matches_binary64_quotient :
  SF2Q (Prim2SF (23 / 40)%float) = Some (jsdiv 23 40).
Proof. vm_compute. reflexivity. Qed.

Example fl_matches_binary64_product :
  SF2Q (Prim2SF (23 / 40 * 100)%float) = Some (jsmul (jsdiv 23 40) 100).
Proof. vm_compute. reflexivity. Qed.

Example fl_matches_binary64_third :
  SF2Q (Prim2SF (1 / 3)%float) = Some (jsdiv 1 3).
Proof. vm_compute. reflexivity. Qed.

Lemma pow2_pos (e : Z) : (0 < pow2 e)%Q.
Proof. unfold pow2. apply Qpower_0_lt. reflexivity. Qed.

Lemma pow2_mono (a b : Z) : a <= b -> (pow2 a <= pow2 b)%Q.
Proof.
  intros H. unfold pow2. apply Qpower_le_compat_l; [exact H | discriminate].
Qed.

Lemma pow2_nat (a : Z) : 0 <= a -> (pow2 a == inject_Z (2 ^ a))%Q.
Proof. intros H. unfold pow2. rewrite Zpower_Qpower by exact H. reflexivity. Qed.

Lemma pow2_sub (a b : Z) : (pow2 (a - b) == pow2 a / pow2 b)%Q.
Proof. unfold pow2. apply Qpower_minus. discriminate. Qed.

(** A quotient of positives grows with its numerator and shrinks with its
    denominator. *)
Lemma Qdiv_le_cross (A B n d : Q) :
  (0 <= A)%Q -> (0 < B)%Q -> (0 < d)%Q -> (A <= n)%Q -> (d <= B)%Q ->
  (A / B <= n / d)%Q.
Proof.
  intros HA HB Hd HAn HdB.
  apply Qle_shift_div_l; [exact Hd |].
  assert (E : (A / B * d == (A * d) / B)%Q) by (field; lra).
  rewrite E. apply Qle_shift_div_r; [exact HB |]. nra.
Qed.

Lemma ilog2_lower (q : Q) : (0 < q)%Q -> (pow2 (ilog2 q) <= q)%Q.
Proof.
  intros Hq. unfold ilog2.
  destruct (Qle_bool _ q) eqn:E; [apply Qle_bool_iff; exact E |].
  destruct q as [n d]. cbn [Qnum Qden] in *.
  assert (Hn : 0 < n) by (unfold Qlt in Hq; cbn in Hq; lia).
  pose proof (Z.log2_spec n Hn) as [Hn1 _].
  pose proof (Z.log2_spec (Z.pos d) (Pos2Z.is_pos d)) as [_ Hd2].
  pose proof (Z.log2_nonneg n) as Ha.
  pose proof (Z.log2_nonneg (Z.pos d)) as Hb.
  replace (Z.log2 n - Z.log2 (Z.pos d) - 1) with (Z.log2 n - Z.succ (Z.log2 (Z.pos d))) by lia.
  rewrite pow2_sub, !pow2_nat by lia.
  rewrite (Qmake_Qdiv n d).
  apply Qdiv_le_cross.
  - rewrite <- (Zle_Qle 0). lia.
  - rewrite <- (Zlt_Qlt 0). lia.
  - rewrite <- (Zlt_Qlt 0). lia.
  - rewrite <- Zle_Qle. exact Hn1.
  - rewrite <- Zle_Qle. lia.
Qed.

Lemma ilog2_lt (q : Q) (k : Z) : (0 < q)%Q -> (q < pow2 k)%Q -> ilog2 q < k.
Proof.
  intros Hq Hk. destruct (Z.ltb_spec (ilog2 q) k) as [H | H]; [exact H |].
  pose proof (pow2_mono _ _ H). pose proof (ilog2_lower q Hq). lra.
Qed.

Lemma rne_nonneg (x : Q) : (0 <= x)%Q -> 0 <= rne x.
Proof.
  intros Hx. unfold rne.
  assert (0 <= Qfloor x) by (rewrite <- (Qfloor_Z 0); apply Qfloor_resp_le; exact Hx).
  destruct (Qcompare _ _); [destruct (Z.even _) |..]; lia.
Qed.

Lemma rne_le (x : Q) (N : Z) : (x <= inject_Z N)%Q -> rne x <= N.
Proof.
  intros Hx. unfold rne.
  assert (Hf : Qfloor x <= N) by (rewrite <- (Qfloor_Z N); apply Qfloor_resp_le; exact Hx).
  destruct (Z.eq_dec (Qfloor x) N) as [E | E].
  - assert (Hc : (x - inject_Z (Qfloor x) ?= 1 # 2)%Q = Lt).
    { apply (proj1 (Qlt_alt _ _)). rewrite E. lra. }
    rewrite Hc. exact Hf.
  - destruct (Qcompare _ _); [destruct (Z.even _) |..]; lia.
Qed.

Lemma fl_nonneg (q : Q) : (0 <= q)%Q -> (0 <= fl q)%Q.
Proof.
  intros Hq. unfold fl. destruct (Qcompare_spec q 0) as [E | E | E].
  - lra.
  - lra.
  - unfold fl_pos. rewrite Qred_correct.
    apply Qmult_le_0_compat; [| apply Qlt_le_weak, pow2_pos].
    rewrite <- (Zle_Qle 0). apply rne_nonneg.
    apply Qle_shift_div_l; [apply pow2_pos | lra].
Qed.

(** Rounding never crosses an integer below 2^53: such a bound is itself a
    binary64 value. *)
Lemma fl_le_int (q : Q) (n : Z) :
  (q <= inject_Z n)%Q -> 0 <= n < 2 ^ 53 -> (fl q <= inject_Z n)%Q.
Proof.
  intros Hq Hn. unfold fl. destruct (Qcompare_spec q 0) as [E | E | E].
  - rewrite <- (Zle_Qle 0). lia.
  - assert (H0 : (0 <= fl_pos (- q))%Q).
    { unfold fl_pos. rewrite Qred_correct.
      apply Qmult_le_0_compat; [| apply Qlt_le_weak, pow2_pos].
      rewrite <- (Zle_Qle 0). apply rne_nonneg.
      apply Qle_shift_div_l; [apply pow2_pos | lra]. }
    assert (0 <= inject_Z n)%Q by (rewrite <- (Zle_Qle 0); lia). lra.
  - unfold fl_pos. rewrite Qred_correct.
    assert (Hlt : (q < pow2 53)%Q).
    { rewrite pow2_nat by lia. eapply Qle_lt_trans; [exact Hq |].
      rewrite <- Zlt_Qlt. lia. }
    pose proof (ilog2_lt q 53 E Hlt) as He.
    set (k := 52 - ilog2 q).
    assert (Hk : 0 <= k) by (unfold k; lia).
    set (u := pow2 (ilog2 q - 52)).
    pose proof (pow2_pos (ilog2 q - 52)) as Hu0. fold u in Hu0.
    pose proof (pow2_pos k) as Hpk.
    assert (Hu : (pow2 k * u == 1)%Q).
    { unfold u. replace (ilog2 q - 52) with (- k) by (unfold k; lia).
      unfold pow2 at 2. rewrite Qpower_opp. fold (pow2 k). field. lra. }
    assert (En : (inject_Z n * pow2 k * u == inject_Z n)%Q).
    { rewrite <- Qmult_assoc, Hu. ring. }
    assert (Hr : rne (q / u) <= n * 2 ^ k).
    { apply rne_le. rewrite inject_Z_mult, <- pow2_nat by exact Hk.
      apply Qle_shift_div_r; [exact Hu0 |]. rewrite En. exact Hq. }
    rewrite Zle_Qle in Hr. rewrite inject_Z_mult, <- pow2_nat in Hr by exact Hk.
    rewrite <- En. apply Qmult_le_compat_r; [exact Hr | lra].
Qed.

Lemma Math_round_bounds (y : Q) (n : Z) :
  (0 <= y)%Q -> (y <= inject_Z n)%Q -> 0 <= Math_round y <= n.
Proof.
  intros H0 Hn. unfold Math_round. split.
  - rewrite <- (Qfloor_Z 0). apply Qfloor_resp_le.
    change (inject_Z 0) with 0%Q. lra.
  - assert (Qfloor (y + (1 # 2)) < n + 1); [| lia].
    rewrite Zlt_Qlt. eapply Qle_lt_trans; [apply Qfloor_le |].
    rewrite inject_Z_plus. change (inject_Z 1) with 1%Q. lra.
Qed.

(** ** Acceptance-rate aggregation *)

Lemma sumField_app f (l1 l2 : list Language) :
  sumField f (l1 ++ l2) = sumField f l1 + sumField f l2.
Proof.
  unfold sumField, sumZ. induction l1 as [| a l1 IH]; simpl; [reflexivity |].
  rewrite IH. lia.
Qed.

Lemma plusLanguages_nil (t : Totals) : plusLanguages t [] = t.
Proof.
  destruct t. unfold plusLanguages, sumField, sumZ.
  cbn [map fold_right totalLinesSuggested totalLinesAccepted totalSuggestions
       totalAcceptances]. f_equal; lia.
Qed.

Lemma plusLanguages_app (t : Totals) (l1 l2 : list Language) :
  plusLanguages (plusLanguages t l1) l2 = plusLanguages t (l1 ++ l2).
Proof.
  unfold plusLanguages.
  cbn [totalLinesSuggested totalLinesAccepted totalSuggestions totalAcceptances].
  rewrite !sumField_app. f_equal; lia.
Qed.

Lemma fold_addLanguage (ls : list Language) (t : Totals) :
  fold_left addLanguage ls t = plusLanguages t ls.
Proof.
  revert t. induction ls as [| l ls IH]; intros t.
  - cbn. symmetry. apply plusLanguages_nil.
  - cbn [fold_left]. rewrite IH. unfold plusLanguages, addLanguage, sumField, sumZ.
    cbn [map fold_right totalLinesSuggested totalLinesAccepted totalSuggestions
         totalAcceptances]. f_equal; lia.
Qed.

Lemma addModel_plus (t : Totals) (m : Model) :
  addModel t m = plusLanguages t (languagesOfModel m).
Proof.
  unfold addModel, languagesOfModel. destruct (languages m); cbn.
  - apply fold_addLanguage.
  - symmetry. apply plusLanguages_nil.
Qed.

Lemma fold_addModel (ms : list Model) (t : Totals) :
  fold_left addModel ms t = plusLanguages t (concat (map languagesOfModel ms)).
Proof.
  revert t. induction ms as [| m ms IH]; intros t; cbn.
  - symmetry. apply plusLanguages_nil.
  - rewrite IH, addModel_plus. apply plusLanguages_app.
Qed.

Lemma addEditor_plus (t : Totals) (e : Editor) :
  addEditor t e = plusLanguages t (languagesOfEditor e).
Proof.
  unfold addEditor, languagesOfEditor. destruct (models e); cbn.
  - apply fold_addModel.
  - symmetry. apply plusLanguages_nil.
Qed.

Lemma fold_addEditor (es : list Editor) (t : Totals) :
  fold_left addEditor es t = plusLanguages t (concat (map languagesOfEditor es)).
Proof.
  revert t. induction es as [| e es IH]; intros t; cbn.
  - symmetry. apply plusLanguages_nil.
  - rewrite IH, addEditor_plus. apply plusLanguages_app.
Qed.

Lemma addDay_plus (t : Totals) (d : DayData) :
  addDay t d = plusLanguages t (languagesOfDay d).
Proof.
  unfold addDay, languagesOfDay.
  destruct (copilot_ide_code_completions d) as [c |]; cbn.
  - destruct (editors c); cbn.
    + apply fold_addEditor.
    + symmetry. apply plusLanguages_nil.
  - symmetry. apply plusLanguages_nil.
Qed.

Lemma fold_addDay (ds : list DayData) (t : Totals) :
  fold_left addDay ds t = plusLanguages t (concat (map languagesOfDay ds)).
Proof.
  revert t. induction ds as [| d ds IH]; intros t; cbn.
  - symmetry. apply plusLanguages_nil.
  - rewrite IH, addDay_plus. apply plusLanguages_app.
Qed.

(** The totals are the sums of the counters over every language entry of
    every model of every editor of every day. *)
Lemma totals_flatten (md : MetricsData) :
  am_totals (calculateAcceptanceMetrics md) = plusLanguages zeroTotals (allLanguages md).
Proof.
  unfold calculateAcceptanceMetrics, allLanguages.
  destruct (data md) as [days |]; cbn.
  - apply fold_addDay.
  - reflexivity.
Qed.

Lemma rawRate_zero (part total : Z) : total <= 0 -> rawRate part total = 0%Q.
Proof.
  intros H. unfold rawRate. destruct (Z.ltb_spec 0 total); [lia | reflexivity].
Qed.

Lemma rawRate_bounds (part total : Z) :
  0 <= part <= total -> (0 <= rawRate part total <= 100)%Q.
Proof.
  intros [H0 H1]. unfold rawRate. destruct (Z.ltb_spec 0 total) as [Ht | Ht].
  - assert (Hq0 : (0 <= inject_Z part / inject_Z total)%Q).
    { apply Qle_shift_div_l; [rewrite <- (Zlt_Qlt 0); exact Ht |].
      rewrite Qmult_0_l, <- (Zle_Qle 0). exact H0. }
    assert (Hq1 : (inject_Z part / inject_Z total <= 1)%Q).
    { apply Qle_shift_div_r; [rewrite <- (Zlt_Qlt 0); exact Ht |].
      rewrite Qmult_1_l, <- Zle_Qle. exact H1. }
    pose proof (fl_nonneg _ Hq0) as Hx0.
    pose proof (fl_le_int _ 1 Hq1 ltac:(lia)) as Hx1.
    change (inject_Z 1) with 1%Q in Hx1. fold (jsdiv (inject_Z part) (inject_Z total)) in Hx0, Hx1.
    unfold jsmul. split.
    + apply fl_nonneg. nra.
    + apply (fl_le_int _ 100); [change (inject_Z 100) with 100%Q; nra | lia].
  - split; [apply Qle_refl | discriminate].
Qed.

Lemma round2_bounds (rate : Q) :
  (0 <= rate <= 100)%Q -> (0 <= round2 rate <= 100)%Q.
Proof.
  intros [H0 H1]. unfold round2.
  assert (Hy0 : (0 <= jsmul rate 100)%Q) by (apply fl_nonneg; nra).
  assert (Hy1 : (jsmul rate 100 <= inject_Z 10000)%Q).
  { apply fl_le_int; [change (inject_Z 10000) with 10000%Q; nra | lia]. }
  pose proof (Math_round_bounds _ _ Hy0 Hy1) as [Hk0 Hk1].
  set (k := Math_round (jsmul rate 100)) in *.
  rewrite (Zle_Qle 0) in Hk0. rewrite Zle_Qle in Hk1.
  change (inject_Z 0) with 0%Q in Hk0. change (inject_Z 10000) with 10000%Q in Hk1.
  unfold jsdiv. split.
  - apply fl_nonneg. apply Qle_shift_div_l; [reflexivity | lra].
  - apply (fl_le_int _ 100); [| lia]. change (inject_Z 100) with 100%Q.
    apply Qle_shift_div_r; [reflexivity | lra].
Qed.

(** Non-negative numbers have a non-negative sum. *)
Lemma exactSum_nonneg (l : list Z) : exactSum l -> 0 <= sumZ l.
Proof.
  intros [H _]. induction H as [| n l Hn _ IH]; cbn [sumZ fold_right]; [lia |].
  change (fold_right Z.add 0 l) with (sumZ l). lia.
Qed.

Example acceptance_scenario :
  let r := calculateAcceptanceMetrics (payloadOf [counters 100 40; counters 0 0]) in
  totalSuggestions (am_totals r) = 100 /\ totalAcceptances (am_totals r) = 40 /\
  acceptanceRate r = 40%Q.
Proof. vm_compute. repeat split. Qed.

(** C1 (as stated, refuted): a payload whose accepted counter exceeds its
    suggested counter has an acceptance rate of 200, outside [0, 100]. *)
Lemma C1_rate_above_100 :
  acceptanceRate (calculateAcceptanceMetrics (payloadOf [counters 1 2])) = 200%Q /\
  ~ (0 <= acceptanceRate (calculateAcceptanceMetrics (payloadOf [counters 1 2])) <= 100)%Q.
Proof.
  split; [vm_compute; reflexivity |].
  intros [_ H]. vm_compute in H. apply H. reflexivity.
Qed.

(** C1 (amended): for a payload whose suggested counters and whose accepted
    counters are non-negative integers with a sum of at most 2^53 each (so
    that the Number additions of the loop are exact), acceptance-rate
    aggregation sums the suggested and accepted counters over all days with
    the editor/model/language nesting fully flattened; the rate is
    [Math.round(((accepted / suggested) * 100) * 100) / 100] in Number
    arithmetic, it is exactly 0 when the total of suggestions is 0 (no
    division takes place), and it lies in [0, 100] whenever
    accepted total <= suggested total. *)
Theorem C1_acceptance_rate (md : MetricsData) :
  countersExact total_code_suggestions (allLanguages md) ->
  countersExact total_code_acceptances (allLanguages md) ->
  let r := calculateAcceptanceMetrics md in
  let suggested := sumField total_code_suggestions (allLanguages md) in
  let accepted := sumField total_code_acceptances (allLanguages md) in
  totalSuggestions (am_totals r) = suggested /\
  totalAcceptances (am_totals r) = accepted /\
  acceptanceRate r =
    (if 0 <? suggested
     then round2 (jsmul (jsdiv (inject_Z accepted) (inject_Z suggested)) 100)
     else 0%Q) /\
  (suggested = 0 -> acceptanceRate r = 0%Q) /\
  (accepted <= suggested -> (0 <= acceptanceRate r <= 100)%Q).
Proof.
  intros Hsuggested Haccepted. cbn zeta.
  pose proof (totals_flatten md) as Ht.
  assert (Hs : totalSuggestions (am_totals (calculateAcceptanceMetrics md)) =
               sumField total_code_suggestions (allLanguages md)).
  { rewrite Ht. cbn. lia. }
  assert (Ha : totalAcceptances (am_totals (calculateAcceptanceMetrics md)) =
               sumField total_code_acceptances (allLanguages md)).
  { rewrite Ht. cbn. lia. }
  assert (Hr : acceptanceRate (calculateAcceptanceMetrics md) =
               round2 (rawRate (sumField total_code_acceptances (allLanguages md))
                               (sumField total_code_suggestions (allLanguages md)))).
  { rewrite <- Hs, <- Ha. unfold calculateAcceptanceMetrics, allLanguages.
    destruct (data md); reflexivity. }
  split; [exact Hs |]. split; [exact Ha |]. split; [| split].
  - rewrite Hr. unfold rawRate. destruct (0 <? _); reflexivity.
  - intros H0. rewrite Hr, rawRate_zero by lia. reflexivity.
  - intros H. rewrite Hr. apply round2_bounds, rawRate_bounds.
    split; [| exact H]. exact (exactSum_nonneg _ Haccepted).
Qed.

(** C1 on a payload of two language entries: 140 suggestions, 45 of them
    accepted. *)
Lemma C1_acceptance_rate_witness :
  let r := calculateAcceptanceMetrics (payloadOf [counters 100 40; counters 40 5]) in
  totalSuggestions (am_totals r) = 140 /\
  totalAcceptances (am_totals r) = 45 /\
  acceptanceRate r = round2 (jsmul (jsdiv 45 140) 100) /\
  (0 <= acceptanceRate r <= 100)%Q.
Proof.
  destruct (C1_acceptance_rate (payloadOf [counters 100 40; counters 40 5]))
    as (Hs & Ha & Hr & _ & Hb).
  - split; [vm_compute; repeat (constructor; [discriminate |]); constructor
           | vm_compute; discriminate].
  - split; [vm_compute; repeat (constructor; [discriminate |]); constructor
           | vm_compute; discriminate].
  - cbn zeta. split; [exact Hs |]. split; [exact Ha |]. split; [exact Hr |].
    apply Hb. discriminate.
Defined.

(** ** Fuzzy name matching *)

Lemma split_space_nonempty (s : string) : split_space s <> [].
Proof.
  destruct s as [| c r]; cbn; [discriminate |].
  destruct (Ascii.eqb c " "); [discriminate |].
  destruct (split_space r); discriminate.
Qed.

Lemma matchAgainst_true (NV : gmap string (list string)) (userFirst userLast : string)
    (orgUsers : list string) :
  matchAgainst NV userFirst userLast orgUsers = true <->
  exists orgName, orgName ∈ orgUsers /\
    (2 <= length (split_space orgName))%nat /\
    userLast = lastPart (split_space orgName) /\
    (userFirst = firstPart (split_space orgName) \/
     areNameVariations NV userFirst (firstPart (split_space orgName)) = true).
Proof.
  induction orgUsers as [| o rest IH]; cbn [matchAgainst].
  - split; [discriminate |]. intros (o & Ho & _). inversion Ho.
  - destruct (Nat.ltb_spec (length (split_space o)) 2) as [Hlen | Hlen].
    + rewrite IH. split.
      * intros (x & Hx & H). exists x. split; [right; exact Hx | exact H].
      * intros (x & Hx & H2 & H). apply elem_of_cons in Hx as [-> | Hx]; [lia |].
        exists x. auto.
    + destruct (String.eqb_spec userLast (lastPart (split_space o))) as [El | El]; cbn [andb].
      * destruct (String.eqb_spec userFirst (firstPart (split_space o))) as [Ef | Ef]; cbn [orb].
        { split; [| reflexivity]. intros _. exists o. split; [left |]. auto. }
        destruct (areNameVariations NV userFirst (firstPart (split_space o))) eqn:Ev.
        { split; [| reflexivity]. intros _. exists o. split; [left |]. auto. }
        rewrite IH. split.
        -- intros (x & Hx & H). exists x. split; [right; exact Hx | exact H].
        -- intros (x & Hx & H2 & Hl & Hf). apply elem_of_cons in Hx as [-> | Hx].
           ++ destruct Hf as [Hf | Hf]; congruence.
           ++ exists x. auto.
      * rewrite IH. split.
        -- intros (x & Hx & H). exists x. split; [right; exact Hx | exact H].
        -- intros (x & Hx & H2 & Hl & Hf). apply elem_of_cons in Hx as [-> | Hx].
           ++ congruence.
           ++ exists x. auto.
Qed.

Example surname_gate_mike_jones :
  matchUserByNameVariations (generateNameVariations nicknames)
    (userNamed "Mike Smith") [normalizeText "Michael Jones"] = false.
Proof. vm_compute. reflexivity. Qed.

Example surname_gate_mike_smith :
  matchUserByNameVariations (generateNameVariations nicknames)
    (userNamed "Mike Smith") [normalizeText "Michael Smith"] = true.
Proof. vm_compute. reflexivity. Qed.

Example bob_chen_in_scope :
  filterUsersToOrg (generateNameVariations nicknames)
    [userNamed "Bob Chen"] [normalizeText "Robert Chen"] = [userNamed "Bob Chen"].
Proof. vm_compute. reflexivity. Qed.

Example single_token_never_matches :
  matchUserByNameVariations (generateNameVariations nicknames)
    (userNamed "Bob") [normalizeText "Bob"; normalizeText "Robert"] = false.
Proof. vm_compute. reflexivity. Qed.

(** *** Pieces and whitespace-delimited tokens *)

Lemma splitWhere_nonempty (sep : ascii -> bool) (s : string) : splitWhere sep s <> [].
Proof.
  destruct s as [| c r]; cbn; [discriminate |].
  destruct (sep c); [discriminate |]. destruct (splitWhere sep r); discriminate.
Qed.

Lemma split_space_splitWhere (s : string) :
  split_space s = splitWhere (fun c => Ascii.eqb c " ") s.
Proof.
  induction s as [| c r IH]; [reflexivity |]. cbn [split_space splitWhere]. rewrite IH. reflexivity.
Qed.

Lemma space_isWhiteSpace (c : ascii) : Ascii.eqb c " " = true -> isWhiteSpace c = true.
Proof. intros H. apply Ascii.eqb_eq in H. subst c. reflexivity. Qed.

(** Splitting at white space is splitting at spaces and then splitting every
    piece at white space. *)
Lemma splitWhere_pieces (s : string) :
  splitWhere isWhiteSpace s = flat_map (splitWhere isWhiteSpace) (split_space s).
Proof.
  induction s as [| c r IH]; [reflexivity |].
  cbn [split_space splitWhere].
  destruct (Ascii.eqb c " ") eqn:Ec.
  - rewrite (space_isWhiteSpace c Ec). cbn [flat_map splitWhere app]. rewrite IH. reflexivity.
  - destruct (split_space r) as [| h t] eqn:Er; [exfalso; exact (split_space_nonempty r Er) |].
    cbn [flat_map] in *. cbn [splitWhere]. rewrite IH.
    destruct (isWhiteSpace c); [reflexivity |].
    destruct (splitWhere isWhiteSpace h) as [| h2 t2] eqn:Eh;
      [exfalso; exact (splitWhere_nonempty _ h Eh) | reflexivity].
Qed.

Lemma filter_flat_map {A B} (f : B -> bool) (g : A -> list B) (l : list A) :
  List.filter f (flat_map g l) = flat_map (fun x => List.filter f (g x)) l.
Proof.
  induction l as [| x l IH]; [reflexivity |]. cbn [flat_map]. rewrite List.filter_app, IH. reflexivity.
Qed.

(** The tokens of a name are the tokens of its pieces between spaces. *)
Lemma whitespaceTokens_pieces (s : string) :
  whitespaceTokens s = flat_map whitespaceTokens (split_space s).
Proof. unfold whitespaceTokens at 1. rewrite splitWhere_pieces, filter_flat_map. reflexivity. Qed.

Lemma whitespaceTokens_cons (c : ascii) (r : string) :
  whitespaceTokens (String c r)
  = if isWhiteSpace c then whitespaceTokens r
    else match splitWhere isWhiteSpace r with
         | h :: t => String c h :: List.filter (fun piece => negb (falsy piece)) t
         | [] => [String c EmptyString]
         end.
Proof.
  unfold whitespaceTokens. cbn [splitWhere]. destruct (isWhiteSpace c); [reflexivity |].
  destruct (splitWhere isWhiteSpace r); reflexivity.
Qed.

Lemma whitespaceTokens_start (p : string) :
  p <> EmptyString -> startsWithWhiteSpace p = false -> whitespaceTokens p <> [].
Proof.
  destruct p as [| c r]; [contradiction |]. intros _ H. cbn in H.
  rewrite whitespaceTokens_cons, H. destruct (splitWhere isWhiteSpace r); discriminate.
Qed.

Lemma whitespaceTokens_end (p : string) :
  p <> EmptyString -> endsWithWhiteSpace p = false -> whitespaceTokens p <> [].
Proof.
  induction p as [| c r IH]; [contradiction |]. intros _ H.
  rewrite whitespaceTokens_cons. destruct r as [| c' r'].
  - cbn in H. rewrite H. discriminate.
  - cbn [endsWithWhiteSpace] in H. destruct (isWhiteSpace c).
    + apply IH; [discriminate | exact H].
    + destruct (splitWhere isWhiteSpace (String c' r')); discriminate.
Qed.

(** The first piece of a name that does not start with white space is not
    empty and does not start with white space. *)
Lemma firstPart_start (s : string) :
  s <> EmptyString -> startsWithWhiteSpace s = false ->
  firstPart (split_space s) <> EmptyString /\
  startsWithWhiteSpace (firstPart (split_space s)) = false.
Proof.
  destruct s as [| c r]; [contradiction |]. intros _ H. cbn in H. cbn [split_space].
  destruct (Ascii.eqb c " ") eqn:Ec; [rewrite (space_isWhiteSpace c Ec) in H; discriminate |].
  destruct (split_space r); cbn; split; (discriminate || exact H).
Qed.

(** The last piece of a name that does not end with white space is not
    empty and does not end with white space. *)
Lemma lastPart_end (s : string) :
  s <> EmptyString -> endsWithWhiteSpace s = false ->
  lastPart (split_space s) <> EmptyString /\
  endsWithWhiteSpace (lastPart (split_space s)) = false.
Proof.
  induction s as [| c r IH]; [contradiction |]. intros _ H.
  destruct r as [| c' r'].
  - cbn in H. cbn. destruct (Ascii.eqb c " ") eqn:Ec;
      [rewrite (space_isWhiteSpace c Ec) in H; discriminate |].
    cbn. split; [discriminate | exact H].
  - cbn [endsWithWhiteSpace] in H.
    destruct (IH ltac:(discriminate) H) as [Hne Hend].
    remember (String c' r') as r eqn:Er.
    cbn [split_space]. unfold lastPart in *.
    destruct (split_space r) as [| h t] eqn:Es; [exfalso; exact (split_space_nonempty r Es) |].
    destruct t as [| h' t'].
    + cbn [List.last] in Hne, Hend.
      destruct (Ascii.eqb c " "); cbn [List.last]; [split; assumption |].
      split; [discriminate |]. destruct h; [contradiction | exact Hend].
    + destruct (Ascii.eqb c " "); split; assumption.
Qed.

Lemma last_flat_map {A B} (g : A -> list B) (l : list A) (d : A) :
  l <> [] -> g (List.last l d) <> [] -> last (flat_map g l) = last (g (List.last l d)).
Proof.
  intros Hl Hg. rewrite (app_removelast_last d Hl) at 1.
  rewrite flat_map_app. cbn [flat_map]. rewrite app_nil_r, last_app.
  destruct (last (g (List.last l d))) eqn:E; [reflexivity |].
  apply last_None in E. contradiction.
Qed.

Lemma head_flat_map {A B} (g : A -> list B) (l : list A) (d : A) :
  l <> [] -> g (List.hd d l) <> [] -> head (flat_map g l) = head (g (List.hd d l)).
Proof.
  destruct l as [| x l]; [contradiction |]. intros _ Hg. cbn [flat_map List.hd] in *.
  destruct (g x); [contradiction | reflexivity].
Qed.

Lemma length_flat_map_ends {A B} (g : A -> list B) (l : list A) (d : A) :
  (2 <= length l)%nat -> g (List.hd d l) <> [] -> g (List.last l d) <> [] ->
  (2 <= length (flat_map g l))%nat.
Proof.
  destruct l as [| x [| y l]]; cbn [length]; try lia. intros _ Hx Hy.
  cbn [List.hd] in Hx. change (List.last (x :: y :: l) d) with (List.last (y :: l) d) in Hy.
  change (flat_map g (x :: y :: l)) with (g x ++ flat_map g (y :: l)).
  rewrite length_app.
  pose proof (last_flat_map g (y :: l) d ltac:(discriminate) Hy) as Hlast.
  destruct (g x); [contradiction |].
  destruct (flat_map g (y :: l)); [| cbn [length]; lia].
  cbn in Hlast. symmetry in Hlast. apply last_None in Hlast. contradiction.
Qed.

Lemma isWhiteSpace_lowerChar (c : ascii) : isWhiteSpace (lowerChar c) = isWhiteSpace c.
Proof. destruct c as [[] [] [] [] [] [] [] []]; reflexivity. Qed.

Lemma startsWithWhiteSpace_toLowerCase (s : string) :
  startsWithWhiteSpace (toLowerCase s) = startsWithWhiteSpace s.
Proof. destruct s; [reflexivity | apply isWhiteSpace_lowerChar]. Qed.

Lemma endsWithWhiteSpace_toLowerCase (s : string) :
  endsWithWhiteSpace (toLowerCase s) = endsWithWhiteSpace s.
Proof.
  induction s as [| c r IH]; [reflexivity |]. destruct r as [| c' r'].
  - apply isWhiteSpace_lowerChar.
  - exact IH.
Qed.

(** In a trimmed name with at least two pieces the first and the last token
    are the first token of the first piece and the last token of the last
    piece, and there are at least two tokens. *)
Lemma tokens_of_trimmed (s : string) :
  trimmed s -> (2 <= length (split_space s))%nat ->
  whitespaceTokens (firstPart (split_space s)) <> [] /\
  whitespaceTokens (lastPart (split_space s)) <> [] /\
  head (whitespaceTokens s) = head (whitespaceTokens (firstPart (split_space s))) /\
  last (whitespaceTokens s) = last (whitespaceTokens (lastPart (split_space s))) /\
  (2 <= length (whitespaceTokens s))%nat.
Proof.
  intros [Hs He] Hlen.
  assert (Hne : s <> EmptyString) by (intros ->; cbn in Hlen; lia).
  destruct (firstPart_start s Hne Hs) as [Hf1 Hf2].
  destruct (lastPart_end s Hne He) as [Hl1 Hl2].
  pose proof (whitespaceTokens_start _ Hf1 Hf2) as Hf.
  pose proof (whitespaceTokens_end _ Hl1 Hl2) as Hl.
  pose proof (split_space_nonempty s) as Hp.
  rewrite (whitespaceTokens_pieces s).
  split; [exact Hf |]. split; [exact Hl |]. split; [| split].
  - apply (head_flat_map whitespaceTokens _ EmptyString Hp Hf).
  - apply (last_flat_map whitespaceTokens _ EmptyString Hp Hl).
  - apply (length_flat_map_ends whitespaceTokens _ EmptyString Hlen Hf Hl).
Qed.

Lemma matchUserByNameVariations_true (NAME_VARIATIONS : gmap string (list string))
    (user : LookupUser) (orgUsers : list string) :
  matchUserByNameVariations NAME_VARIATIONS user orgUsers = true <->
  (2 <= length (split_space (normalizeText (name user))))%nat /\
  exists orgName, orgName ∈ orgUsers /\
    (2 <= length (split_space orgName))%nat /\
    lastPart (split_space (normalizeText (name user))) = lastPart (split_space orgName) /\
    (firstPart (split_space (normalizeText (name user))) = firstPart (split_space orgName) \/
     areNameVariations NAME_VARIATIONS (firstPart (split_space (normalizeText (name user))))
       (firstPart (split_space orgName)) = true).
Proof.
  unfold matchUserByNameVariations.
  destruct (Nat.ltb_spec (length (split_space (normalizeText (name user)))) 2) as [H | H].
  - split; [discriminate | intros [H2 _]; lia].
  - rewrite matchAgainst_true. split; [intros H'; split; [exact H | exact H'] | intros [_ H']; exact H'].
Qed.

(** A match of a user name whose normalized form is trimmed, in
    whitespace-delimited tokens: the name has at least two tokens, and some
    roster name has the same last token and the same first token or a
    nickname-equivalent first piece. *)
Lemma match_in_tokens (NAME_VARIATIONS : gmap string (list string))
    (user : LookupUser) (orgUsers : list string) :
  trimmed (normalizeText (name user)) ->
  matchUserByNameVariations NAME_VARIATIONS user orgUsers = true ->
  (2 <= length (whitespaceTokens (normalizeText (name user))))%nat /\
  exists orgName, orgName ∈ orgUsers /\
    last (whitespaceTokens (normalizeText (name user))) = last (whitespaceTokens orgName) /\
    (head (whitespaceTokens (normalizeText (name user))) = head (whitespaceTokens orgName) \/
     areNameVariations NAME_VARIATIONS (firstPart (split_space (normalizeText (name user))))
       (firstPart (split_space orgName)) = true).
Proof.
  intros Ht Hm.
  apply matchUserByNameVariations_true in Hm as (Hlen & orgName & Hin & Holen & Hlast & Hfirst).
  destruct (tokens_of_trimmed _ Ht Hlen) as (Hf & Hl & Hhead & Htail & Htok).
  split; [exact Htok |]. exists orgName. split; [exact Hin |].
  pose proof (split_space_nonempty orgName) as Hp. split.
  - rewrite Htail, Hlast, (whitespaceTokens_pieces orgName).
    symmetry. apply (last_flat_map whitespaceTokens _ EmptyString Hp).
    fold (lastPart (split_space orgName)). rewrite <- Hlast. exact Hl.
  - destruct Hfirst as [Hfirst | Hfirst]; [left | right; exact Hfirst].
    rewrite Hhead, Hfirst, (whitespaceTokens_pieces orgName).
    symmetry. apply (head_flat_map whitespaceTokens _ EmptyString Hp).
    fold (firstPart (split_space orgName)). rewrite <- Hfirst. exact Hf.
Qed.

Lemma startsWithWhiteSpace_trimStart (s : string) :
  startsWithWhiteSpace (trimStart s) = false.
Proof.
  induction s as [| c r IH]; [reflexivity |]. cbn [trimStart].
  destruct (isWhiteSpace c) eqn:Ec; [exact IH | exact Ec].
Qed.

Lemma endsWithWhiteSpace_trimStart (s : string) :
  endsWithWhiteSpace s = false -> endsWithWhiteSpace (trimStart s) = false.
Proof.
  induction s as [| c r IH]; [reflexivity |]. intros H. cbn [trimStart].
  destruct (isWhiteSpace c); [| exact H].
  destruct r as [| c' r']; [reflexivity |]. apply IH. exact H.
Qed.

Lemma startsWithWhiteSpace_rev_app (s acc : string) :
  s <> EmptyString ->
  startsWithWhiteSpace (String.rev_app s acc) = endsWithWhiteSpace s.
Proof.
  revert acc. induction s as [| c r IH]; intros acc Hne; [contradiction |].
  cbn [String.rev_app]. destruct r as [| c' r']; [reflexivity |].
  rewrite IH by discriminate. reflexivity.
Qed.

Lemma endsWithWhiteSpace_rev_app (s acc : string) :
  endsWithWhiteSpace (String.rev_app s acc)
  = match acc with
    | EmptyString => startsWithWhiteSpace s
    | String _ _ => endsWithWhiteSpace acc
    end.
Proof.
  revert acc. induction s as [| c r IH]; intros acc.
  - destruct acc; reflexivity.
  - cbn [String.rev_app]. rewrite IH. destruct acc; reflexivity.
Qed.

Lemma startsWithWhiteSpace_rev (s : string) :
  startsWithWhiteSpace (String.rev s) = endsWithWhiteSpace s.
Proof.
  destruct s as [| c r]; [reflexivity |].
  apply startsWithWhiteSpace_rev_app. discriminate.
Qed.

Lemma endsWithWhiteSpace_rev (s : string) :
  endsWithWhiteSpace (String.rev s) = startsWithWhiteSpace s.
Proof. apply endsWithWhiteSpace_rev_app. Qed.

(** [trim] leaves a trimmed text. *)
Lemma trimmed_trim (s : string) : trimmed (trim s).
Proof.
  unfold trimmed, trim. rewrite startsWithWhiteSpace_rev, endsWithWhiteSpace_rev. split.
  - apply endsWithWhiteSpace_trimStart. rewrite endsWithWhiteSpace_rev.
    apply startsWithWhiteSpace_trimStart.
  - apply startsWithWhiteSpace_trimStart.
Qed.

(** A name that is not trimmed: the empty piece after the trailing space
    counts as the last piece, so the one-token name has two pieces. *)
Example trailing_space_is_a_piece :
  split_space "bob " = ["bob"; ""] /\ whitespaceTokens "bob " = ["bob"] /\
  matchUserByNameVariations (generateNameVariations nicknames)
    (userNamed "Bob ") [normalizeText "Robert "] = true.
Proof. vm_compute. repeat split. Qed.

(** Two spaces in a row give an empty piece between them. *)
Example tokens_of_a_name :
  whitespaceTokens "mary  ann smith" = ["mary"; "ann"; "smith"] /\
  split_space "mary  ann smith" = ["mary"; ""; "ann"; "smith"].
Proof. vm_compute. split; reflexivity. Qed.

(** The names of the lookup table are stored as [.trim()] leaves them. *)
Lemma userOfValues_trimmed (values : list string) : trimmed (name (userOfValues values)).
Proof. apply trimmed_trim. Qed.

(** A user name and a roster name of one token each match, with any table:
    the empty piece before the leading space is the first piece of both. *)
Example leading_space_is_a_piece :
  whitespaceTokens " smith" = ["smith"] /\ split_space " smith" = [""; "smith"] /\
  matchUserByNameVariations ∅ (userNamed " smith") [" smith"] = true.
Proof. vm_compute. repeat split. Qed.

(** C2 (as stated, refuted): a roster name of one whitespace-delimited token
    fuzzy-matches.  The name is a tab, a space and "smith": [split(' ')]
    gives the two pieces "\t" and "smith"; with a group that lists "bob" and
    the empty string, "bob" and the piece "\t", which trims to the empty
    string, are nickname-equivalent, and the user "bob smith" matches. *)
Lemma C2_one_token_name_matches :
  whitespaceTokens tabSmith = ["smith"] /\
  split_space tabSmith = [String (ascii_of_nat 9) ""; "smith"] /\
  whitespaceTokens (normalizeText "bob smith") = ["bob"; "smith"] /\
  matchUserByNameVariations (generateNameVariations [["bob"; ""]])
    (userNamed "bob smith") [tabSmith] = true.
Proof. vm_compute. repeat split. Qed.

(** C2 (amended): fuzzy matching splits the normalized LookupUser name and
    each roster name into pieces at every space character ([split(' ')]; a
    piece may be empty or hold other white space) and succeeds exactly when
    the user name has at least two pieces and some roster name has at least
    two pieces, the same last piece, and the same first piece or a
    nickname-equivalent one ([areNameVariations]).  Hence names with
    different last pieces never match, whatever the nickname table, and a
    name with fewer than two pieces (on either side) never fuzzy-matches.
    For a user name whose normalized form has no white space at its ends,
    the same holds of the whitespace-delimited tokens on the user's side: a
    match needs at least two tokens, a roster name with the same last token
    and the same first token or a nickname-equivalent first piece; different
    last tokens never match; a user name with fewer than two tokens never
    matches.  The first pieces are taken to be none of the names every
    object inherits ([plainName]), for which the table lookup of the code
    throws. *)
Theorem C2_fuzzy_match_surname_gated
    (NAME_VARIATIONS : gmap string (list string)) (user : LookupUser)
    (orgUsers : list string) :
  let userParts := split_space (normalizeText (name user)) in
  let userTokens := whitespaceTokens (normalizeText (name user)) in
  plainName (firstPart userParts) ->
  Forall (fun orgName => plainName (firstPart (split_space orgName))) orgUsers ->
  (matchUserByNameVariations NAME_VARIATIONS user orgUsers = true <->
   (2 <= length userParts)%nat /\
   exists orgName, orgName ∈ orgUsers /\
     (2 <= length (split_space orgName))%nat /\
     lastPart userParts = lastPart (split_space orgName) /\
     (firstPart userParts = firstPart (split_space orgName) \/
      areNameVariations NAME_VARIATIONS (firstPart userParts)
        (firstPart (split_space orgName)) = true)) /\
  ((forall orgName, orgName ∈ orgUsers ->
      lastPart userParts <> lastPart (split_space orgName)) ->
   matchUserByNameVariations NAME_VARIATIONS user orgUsers = false) /\
  ((length userParts < 2)%nat ->
   matchUserByNameVariations NAME_VARIATIONS user orgUsers = false) /\
  ((forall orgName, orgName ∈ orgUsers -> (length (split_space orgName) < 2)%nat) ->
   matchUserByNameVariations NAME_VARIATIONS user orgUsers = false) /\
  (trimmed (normalizeText (name user)) ->
     (matchUserByNameVariations NAME_VARIATIONS user orgUsers = true ->
      (2 <= length userTokens)%nat /\
      exists orgName, orgName ∈ orgUsers /\
        last userTokens = last (whitespaceTokens orgName) /\
        (head userTokens = head (whitespaceTokens orgName) \/
         areNameVariations NAME_VARIATIONS (firstPart userParts)
           (firstPart (split_space orgName)) = true)) /\
     ((forall orgName, orgName ∈ orgUsers ->
         last userTokens <> last (whitespaceTokens orgName)) ->
      matchUserByNameVariations NAME_VARIATIONS user orgUsers = false) /\
     ((length userTokens < 2)%nat ->
      matchUserByNameVariations NAME_VARIATIONS user orgUsers = false)).
Proof.
  cbn zeta. intros _ _.
  pose proof (matchUserByNameVariations_true NAME_VARIATIONS user orgUsers) as Hiff.
  split; [exact Hiff |]. split; [| split; [| split]].
  - intros Hne.
    destruct (matchUserByNameVariations NAME_VARIATIONS user orgUsers) eqn:E; [| reflexivity].
    apply matchUserByNameVariations_true in E as (_ & x & Hx & _ & Hl & _). destruct (Hne x Hx Hl).
  - intros Hlt.
    destruct (matchUserByNameVariations NAME_VARIATIONS user orgUsers) eqn:E; [| reflexivity].
    apply matchUserByNameVariations_true in E as (H2 & _). lia.
  - intros Hlt.
    destruct (matchUserByNameVariations NAME_VARIATIONS user orgUsers) eqn:E; [| reflexivity].
    apply matchUserByNameVariations_true in E as (_ & x & Hx & H2 & _). specialize (Hlt x Hx). lia.
  - intros Ht. split; [| split].
    + intros Hm. exact (match_in_tokens NAME_VARIATIONS user orgUsers Ht Hm).
    + intros Hne.
      destruct (matchUserByNameVariations NAME_VARIATIONS user orgUsers) eqn:E; [| reflexivity].
      destruct (match_in_tokens NAME_VARIATIONS user orgUsers Ht E) as (_ & x & Hx & Hl & _).
      destruct (Hne x Hx Hl).
    + intros Hlt.
      destruct (matchUserByNameVariations NAME_VARIATIONS user orgUsers) eqn:E; [| reflexivity].
      destruct (match_in_tokens NAME_VARIATIONS user orgUsers Ht E) as (H2 & _). lia.
Qed.

(** C2 for "Mike Smith" against a roster of "Michael Jones" and "Michael
    Smith": the match is with a roster name of the same last token. *)
Lemma C2_fuzzy_match_surname_gated_witness :
  (2 <= length (whitespaceTokens (normalizeText "Mike Smith")))%nat /\
  exists orgName,
    orgName ∈ [normalizeText "Michael Jones"; normalizeText "Michael Smith"] /\
    last (whitespaceTokens (normalizeText "Mike Smith")) = last (whitespaceTokens orgName) /\
    (head (whitespaceTokens (normalizeText "Mike Smith")) = head (whitespaceTokens orgName) \/
     areNameVariations (generateNameVariations nicknames)
       (firstPart (split_space (normalizeText "Mike Smith")))
       (firstPart (split_space orgName)) = true).
Proof.
  destruct (C2_fuzzy_match_surname_gated (generateNameVariations nicknames)
              (userNamed "Mike Smith")
              [normalizeText "Michael Jones"; normalizeText "Michael Smith"])
    as (_ & _ & _ & _ & Htokens).
  - vm_compute. reflexivity.
  - repeat constructor.
  - apply Htokens.
    + split; vm_compute; reflexivity.
    + vm_compute. reflexivity.
Defined.

(** ** Name-equivalence groups *)

Lemma groupHas_inGroup (key : string) (group : list string) :
  groupHas key group = true <-> inGroup key group.
Proof.
  unfold groupHas, inGroup. rewrite existsb_exists, list_elem_of_fmap. split.
  - intros (n & Hn & E). apply String.eqb_eq in E. exists n. split; [congruence |].
    apply list_elem_of_In. exact Hn.
  - intros (n & E & Hn). exists n. split; [apply list_elem_of_In; exact Hn |].
    apply String.eqb_eq. congruence.
Qed.

Lemma addNames_lookup (group names : list string) (vs : gmap string (list string))
    (key : string) :
  fold_left (fun vs name => <[toLowerCase name := variationsIn group name]> vs) names vs !! key
  = if groupHas key names then Some (variationsFor group key) else vs !! key.
Proof.
  revert vs. induction names as [| n names IH]; intros vs; [reflexivity |].
  cbn [fold_left]. rewrite IH. unfold groupHas. cbn [existsb].
  fold (groupHas key names). destruct (groupHas key names); [rewrite orb_true_r; reflexivity |].
  rewrite orb_false_r. destruct (String.eqb_spec (toLowerCase n) key) as [E | E].
  - rewrite E at 1. rewrite lookup_insert_eq. unfold variationsIn. rewrite E. reflexivity.
  - rewrite lookup_insert_ne by exact E. reflexivity.
Qed.

Lemma addGroup_lookup (group : list string) (vs : gmap string (list string)) (key : string) :
  addGroup vs group !! key
  = if groupHas key group then Some (variationsFor group key) else vs !! key.
Proof. apply addNames_lookup. Qed.

Lemma generateNameVariations_lookup (NAME_GROUPS : list (list string)) (key : string) :
  generateNameVariations NAME_GROUPS !! key
  = (fun group => variationsFor group key) <$> List.find (groupHas key) (rev NAME_GROUPS).
Proof.
  unfold generateNameVariations.
  induction NAME_GROUPS as [| group groups IH] using rev_ind; [reflexivity |].
  rewrite fold_left_app. cbn [fold_left]. rewrite addGroup_lookup, rev_app_distr.
  cbn [rev app List.find]. destruct (groupHas key group); [reflexivity | exact IH].
Qed.

Lemma canonicalIn_find (NAME_GROUPS : list (list string)) (key name : string) :
  canonicalIn NAME_GROUPS key name
  = match List.find (groupHas key) NAME_GROUPS with
    | Some group => List.hd name group
    | None => name
    end.
Proof.
  induction NAME_GROUPS as [| group groups IH]; cbn [canonicalIn List.find]; [reflexivity |].
  destruct (groupHas key group); [reflexivity | exact IH].
Qed.

Example overlapping_groups_variations :
  generateNameVariations overlappingGroups !! "bob" = Some ["barbara"] /\
  getCanonicalName overlappingGroups "Bob" = "Robert".
Proof. vm_compute. split; reflexivity. Qed.



(** ** Dates *)

Example parse_day : Date_parse 0 "2025-08-01" = Some 1754006400000.
Proof. vm_compute. reflexivity. Qed.

Example parse_instant : Date_parse 0 "2025-08-01T12:30:15Z" = Some 1754051415000.
Proof. vm_compute. reflexivity. Qed.

Example parse_offset : Date_parse 0 "2021-10-14T00:53:32-06:00" = Some 1634194412000.
Proof. vm_compute. reflexivity. Qed.

Example parse_garbage : Date_parse 0 "not-a-date" = None.
Proof. vm_compute. reflexivity. Qed.

Example iso_instant : toISOString (DateOf 1754051415000) = Ok "2025-08-01T12:30:15.000Z".
Proof. vm_compute. reflexivity. Qed.

Example iso_epoch : toISOString (DateOf 0) = Ok "1970-01-01T00:00:00.000Z".
Proof. vm_compute. reflexivity. Qed.

(** ** The IO monad *)

Lemma io_bind_unfold {A B} (m : IO A) (k : A -> IO B) (w : World) :
  (m ≫= k) w = match m w with
               | (Ok a, w') => k a w'
               | (Throw e, w') => (Throw e, w')
               end.
Proof. reflexivity. Qed.

Lemma io_bind_ok {A B} (m : IO A) (k : A -> IO B) (w w'' : World) (b : B) :
  (m ≫= k) w = (Ok b, w'') <->
  exists a w', m w = (Ok a, w') /\ k a w' = (Ok b, w'').
Proof.
  rewrite io_bind_unfold. destruct (m w) as [[a | e] w1]; split.
  - intros H. exists a, w1. auto.
  - intros (a' & w' & E & H). inversion E; subst. exact H.
  - discriminate.
  - intros (a' & w' & E & _). discriminate.
Qed.

Lemma Date_now_eq (w : World) : Date_now w = (Ok (nextReading w), tick w).
Proof. reflexivity. Qed.

Lemma TimeClip_valid (t : Z) : Z.abs t <= 8640000000000000 -> TimeClip t = DateOf t.
Proof. intros H. unfold TimeClip. destruct (Z.leb_spec (Z.abs t) 8640000000000000); [reflexivity | lia]. Qed.

(** ** Seat classification *)




Lemma insertSorted_length {A} (compare : A -> A -> Z) (x : A) (l : list A) :
  length (insertSorted compare x l) = S (length l).
Proof.
  induction l as [| y l IH]; [reflexivity |]. cbn.
  destruct (compare x y <=? 0); cbn; [reflexivity | rewrite IH; reflexivity].
Qed.

Lemma sortBy_length {A} (compare : A -> A -> Z) (l : list A) :
  length (sortBy compare l) = length l.
Proof.
  induction l as [| x l IH]; [reflexivity |].
  cbn [sortBy fold_right]. fold (sortBy compare l).
  rewrite insertSorted_length, IH. reflexivity.
Qed.

(** *** Maps in insertion order *)





(** *** The team breakdown *)

Lemma getTeamBreakdown_snoc (userLookup : gmap string string) (seats : list Seat) (x : Seat) :
  getTeamBreakdown userLookup (seats ++ [x])
  = addSeat userLookup (getTeamBreakdown userLookup seats) x.
Proof. unfold getTeamBreakdown. rewrite fold_left_app. reflexivity. Qed.








Example percentage_of_an_eighth : percentageOf 1 8 = Int 13.
Proof. vm_compute. reflexivity. Qed.

Example percentage_23_of_40_in_binary64 :
  SF2Q (Prim2SF (23 / 40 * 100)%float) = Some (8092405580431359 # 140737488355328)%Q /\
  (8092405580431359 # 140737488355328 < 115 # 2)%Q /\
  percentageOf 23 40 = Int 57.
Proof. vm_compute. repeat split. Qed.





(** ** When the seat analysis returns *)

Lemma classifySeats_returns (tz : Z) (userLookup : gmap string string) (cutoffDate : Date)
    (seats : list Seat) :
  Forall (fun seat => parses tz (last_activity_at seat)) seats ->
  forall (act inact : list UserInfo) (w : World),
    exists a i w', classifySeats tz userLookup cutoffDate seats act inact w = (Ok (a, i), w')
                   /\ readings w' = readings w.
Proof.
  induction seats as [| seat rest IH]; intros Hp act inact w.
  - exists act, inact, w. split; reflexivity.
  - apply Forall_cons in Hp as [Hseat Hrest]. cbn [classifySeats].
    destruct (truthy (last_activity_at seat)) as [text |] eqn:Et; [| apply IH; exact Hrest].
    rewrite io_bind_unfold, Date_now_eq, io_bind_unfold. unfold liftR.
    destruct (Date_of_string tz text) as [| t] eqn:Ed; [exfalso; exact (Hseat text Et Ed) |].
    cbn [toISOString].
    destruct (date_ge (DateOf t) cutoffDate);
      match goal with
      | |- context [classifySeats _ _ _ rest ?a ?i (tick w)] =>
          destruct (IH Hrest a i (tick w)) as (a' & i' & w' & E & Hr)
      end; exists a', i', w'; (split; [exact E | exact Hr]).
Qed.

Lemma classifyTeamUsers_returns (tz : Z) (cutoffDate : Date) (teamUsers : list TeamUser) :
  Forall (fun user => parses tz (tu_lastActivity user)) teamUsers ->
  forall (act inact : list TeamUserInfo) (w : World),
    exists a i w', classifyTeamUsers tz cutoffDate teamUsers act inact w = (Ok (a, i), w')
                   /\ readings w' = readings w.
Proof.
  induction teamUsers as [| user rest IH]; intros Hp act inact w.
  - exists act, inact, w. split; reflexivity.
  - apply Forall_cons in Hp as [Huser Hrest]. cbn [classifyTeamUsers].
    destruct (truthy (tu_lastActivity user)) as [text |] eqn:Et; [| apply IH; exact Hrest].
    rewrite io_bind_unfold, Date_now_eq, io_bind_unfold. unfold liftR.
    destruct (Date_of_string tz text) as [| t] eqn:Ed; [exfalso; exact (Huser text Et Ed) |].
    cbn [toISOString].
    destruct (date_ge (DateOf t) cutoffDate);
      match goal with
      | |- context [classifyTeamUsers _ _ rest ?a ?i (tick w)] =>
          destruct (IH Hrest a i (tick w)) as (a' & i' & w' & E & Hr)
      end; exists a', i', w'; (split; [exact E | exact Hr]).
Qed.

Lemma analyzeTeams_returns (tz : Z) (cutoffDate : Date) (teams : list (string * TeamData)) :
  Forall (fun e => Forall (fun user => parses tz (tu_lastActivity user)) (td_users (snd e)))
         teams ->
  forall w : World,
    exists r w', analyzeTeams tz cutoffDate teams w = (Ok r, w') /\ readings w' = readings w.
Proof.
  induction teams as [| [teamSlug teamData] rest IH]; intros Hp w.
  - exists [], w. split; reflexivity.
  - apply Forall_cons in Hp as [Hteam Hrest]. cbn [analyzeTeams snd] in *.
    rewrite io_bind_unfold. unfold analyzeTeam at 1. rewrite io_bind_unfold.
    destruct (classifyTeamUsers_returns tz cutoffDate _ Hteam [] [] w) as (a & i & w1 & E & Hr).
    rewrite E. unfold ret at 1. rewrite io_bind_unfold.
    destruct (IH Hrest w1) as (r & w2 & E2 & Hr2). rewrite E2.
    eexists _, w2. split; [reflexivity | congruence].
Qed.

Lemma addSeat_parses (tz : Z) (userLookup : gmap string string)
    (teamStats : list (string * TeamData)) (seat : Seat) :
  parses tz (last_activity_at seat) ->
  Forall (fun e => Forall (fun user => parses tz (tu_lastActivity user)) (td_users (snd e)))
         teamStats ->
  Forall (fun e => Forall (fun user => parses tz (tu_lastActivity user)) (td_users (snd e)))
         (addSeat userLookup teamStats seat).
Proof.
  intros Hseat Hstats. unfold addSeat.
  destruct (assigning_team seat) as [assigningTeam |]; [| exact Hstats].
  unfold mapAlter. apply List.Forall_map.
  assert (Hall : Forall (fun e => Forall (fun user => parses tz (tu_lastActivity user))
                                        (td_users (snd e)))
                   (if mapHas (slug assigningTeam) teamStats then teamStats
                    else teamStats ++
                         [(slug assigningTeam,
                           {| td_slug := slug assigningTeam; td_name := team_name assigningTeam;
                              td_description := default "" (truthy (description assigningTeam));
                              td_totalSeats := 0; td_users := [] |})])).
  { destruct (mapHas _ _); [exact Hstats |]. apply Forall_app. split; [exact Hstats |].
    apply Forall_cons. split; [apply Forall_nil; exact I | apply Forall_nil; exact I]. }
  eapply Forall_impl; [exact Hall |]. intros [k team] Hteam. cbn [fst snd] in *.
  destruct (String.eqb k (slug assigningTeam)); [| exact Hteam].
  cbn [snd td_users]. apply Forall_app. split; [exact Hteam |].
  apply Forall_cons. split; [exact Hseat | apply Forall_nil; exact I].
Qed.

Lemma getTeamBreakdown_parses (tz : Z) (userLookup : gmap string string) (seats : list Seat) :
  Forall (fun seat => parses tz (last_activity_at seat)) seats ->
  Forall (fun e => Forall (fun user => parses tz (tu_lastActivity user)) (td_users (snd e)))
         (getTeamBreakdown userLookup seats).
Proof.
  unfold getTeamBreakdown. intros Hseats.
  assert (Hgen : forall acc,
            Forall (fun e => Forall (fun user => parses tz (tu_lastActivity user))
                                    (td_users (snd e))) acc ->
            Forall (fun e => Forall (fun user => parses tz (tu_lastActivity user))
                                    (td_users (snd e)))
                   (fold_left (addSeat userLookup) seats acc)).
  { induction seats as [| seat rest IH]; intros acc Hacc; [exact Hacc |].
    apply Forall_cons in Hseats as [Hseat Hrest]. cbn [fold_left].
    apply IH; [exact Hrest |]. apply addSeat_parses; assumption. }
  apply Hgen. constructor.
Qed.

(** [getActiveUsersInPastDays] returns an analysis whenever every
    last-activity timestamp that is present parses, the cutoff is a valid
    Date and the clock shows valid times. *)
Lemma getActiveUsersInPastDays_returns (tz : Z) (userLookup : gmap string string)
    (seats : list Seat) (days : Z) (w : World) :
  clockValid w -> cutoffOf tz (nextReading w) days <> InvalidDate ->
  Forall (fun seat => parses tz (last_activity_at seat)) seats ->
  exists r w', getActiveUsersInPastDays tz userLookup seats days w = (Ok r, w').
Proof.
  intros Hclock Hcut Hseats. unfold getActiveUsersInPastDays.
  rewrite io_bind_unfold, Date_now_eq, io_bind_unfold.
  destruct (classifySeats_returns tz userLookup (cutoffOf tz (nextReading w) days) seats
              Hseats [] [] (tick w)) as (a & i & w1 & E1 & Hr1).
  rewrite E1, io_bind_unfold.
  destruct (analyzeTeams_returns tz (cutoffOf tz (nextReading w) days) _
              (getTeamBreakdown_parses tz userLookup seats Hseats) w1)
    as (teams & w2 & E2 & Hr2).
  rewrite E2, io_bind_unfold. unfold liftR at 1.
  destruct (cutoffOf tz (nextReading w) days) as [| c] eqn:Ec; [contradiction |].
  cbn [toISOString]. rewrite io_bind_unfold, Date_now_eq, io_bind_unfold. unfold liftR.
  rewrite TimeClip_valid.
  - cbn [toISOString]. eexists _, _. reflexivity.
  - unfold nextReading. rewrite Hr2, Hr1. apply Hclock.
Qed.

(** The analysis of one active seat and one seat without activity returns. *)
Lemma getActiveUsersInPastDays_returns_witness :
  exists r w', getActiveUsersInPastDays 0 ∅ seats2 7 (frozenWorld monday10am) = (Ok r, w').
Proof.
  apply getActiveUsersInPastDays_returns.
  - intros i. cbn. unfold monday10am. lia.
  - vm_compute. discriminate.
  - repeat constructor; intros text H; vm_compute in H; inversion H; subst;
      vm_compute; discriminate.
Defined.

(** ** Unparseable timestamps *)

(** C3 (code defect): a seat whose last-activity timestamp is present but
    unparseable is not classified inactive by [getActiveUsersInPastDays]:
    [new Date(...)] does not throw, so the [catch] that was to classify it
    never runs, and [activityDate.toISOString()] raises a RangeError that
    aborts the whole analysis. *)
Lemma C3_unparseable_timestamp_throws :
  fst (getActiveUsersInPastDays 0 ∅ seatsUnparseable 7 (frozenWorld monday10am))
  = Throw (RangeError "Invalid time value").
Proof. vm_compute. reflexivity. Qed.

(** The same seat in [ReportingService.analyzeCopilotActivity]'s loop is
    classified inactive. *)
Example copilotLoop_unparseable_is_inactive :
  match fst (copilotLoop 0 (TimeClip (monday10am - 7 * msPerDay)) seatsUnparseable
               emptyCopilotAnalysis (frozenWorld monday10am)) with
  | Ok r => activeLogins r = ∅ /\ inactiveLogins r = {[Some "octocat"]}
  | Throw _ => False
  end.
Proof. vm_compute. split; reflexivity. Qed.

(** Every seat with an unparseable timestamp makes
    [getActiveUsersInPastDays] throw, whatever the other seats, the window
    and the clock. *)
Lemma classifySeats_throws (tz : Z) (userLookup : gmap string string) (cutoffDate : Date)
    (seats : list Seat) :
  forall (act inact : list UserInfo) (w : World),
    (exists seat text, seat ∈ seats /\ truthy (last_activity_at seat) = Some text /\
                       Date_of_string tz text = InvalidDate) ->
    exists e w', classifySeats tz userLookup cutoffDate seats act inact w = (Throw e, w').
Proof.
  induction seats as [| seat rest IH]; intros act inact w (bad & text & Hin & Ht & Hd).
  - inversion Hin.
  - cbn [classifySeats].
    destruct (truthy (last_activity_at seat)) as [text' |] eqn:Et.
    + rewrite io_bind_unfold, Date_now_eq, io_bind_unfold. unfold liftR.
      destruct (Date_of_string tz text') as [| t] eqn:Ed; cbn [toISOString]; [eauto |].
      apply elem_of_cons in Hin as [-> | Hin]; [congruence |].
      destruct (date_ge (DateOf t) cutoffDate); apply IH; eauto.
    + apply elem_of_cons in Hin as [-> | Hin]; [congruence |]. apply IH; eauto.
Qed.

(** ** Window summary *)

Example window_of_three_days :
  (fun rows => map (fun r => (row_userId r, row_windowStart r, row_windowEnd r,
                              row_windowDays r, row_presenceRate r)) rows)
  <$> (match windowSummary 0 compareStrings
               [ activityOn (JString "2025-08-01") "u1" true;
                 activityOn (JString "2025-08-03") "u1" false ] with
       | Ok rows => Some rows
       | Throw _ => None
       end)
  = Some [("u1", "2025-08-01", "2025-08-03", Int 3, "0.6667")].
Proof. vm_compute. reflexivity. Qed.

(** C5 (code defect): a payload with one parseable record date and one
    unparseable date string produces no window at all: [parseDate] returns an
    invalid Date, which passes the [if (date)] guards, its NaN time value
    sorts last, and [iso(windowEnd)] raises a RangeError. *)
Lemma C5_unparseable_date_throws :
  windowSummary 0 compareStrings rowsUnparseable = Throw (RangeError "Invalid time value").
Proof. vm_compute. reflexivity. Qed.

(** The window of two records three days apart is reversed when their time
    values differ in length: [sort()] orders them as strings. *)
Example window_across_digit_lengths :
  (fun rows => map (fun r => (row_windowStart r, row_windowEnd r, row_windowDays r,
                              row_presentDays r, row_presenceRate r)) rows)
  <$> (match windowSummary 0 compareStrings rowsAcrossDigits with
       | Ok rows => Some rows
       | Throw _ => None
       end)
  = Some [("2001-09-10", "2001-09-08", Int (-1), 2%nat, "-2.0000")].
Proof. vm_compute. reflexivity. Qed.

(** Two records of one user two hours apart, before and after midnight:
    the window has one day and the user is present on two. *)
Example window_around_midnight :
  (fun rows => map (fun r => (row_windowStart r, row_windowEnd r, row_windowDays r,
                              row_presentDays r, row_presenceRate r)) rows)
  <$> (match windowSummary 0 compareStrings
               [ activityOn (JNumber 1754089200000) "u1" true;
                 activityOn (JNumber 1754096400000) "u1" true ] with
       | Ok rows => Some rows
       | Throw _ => None
       end)
  = Some [("2025-08-01", "2025-08-02", Int 1, 2%nat, "2.0000")].
Proof. vm_compute. reflexivity. Qed.

(** ** Seconds and milliseconds *)

(** C6 (code defect): [parseDate], which feeds every aggregation, takes a
    numeric timestamp in seconds as milliseconds (2025-08-01 becomes
    1970-01-21); only [normalizeDates], on the CSV export path, detects
    seconds and scales them. *)
Lemma C6_parseDate_does_not_scale_seconds :
  parseDate 0 (JNumber augustFirstSeconds) = Some (DateOf augustFirstSeconds) /\
  (parseDate 0 (JNumber augustFirstSeconds) ≫= (fun d =>
     match iso d with Ok text => Some text | Throw _ => None end)) = Some "1970-01-21" /\
  normalizeField "date" (JNumber augustFirstSeconds) = Ok (JString "2025-08-01") /\
  parseDate 0 (JString "2025-08-01") = Some (DateOf (augustFirstSeconds * 1000)).
Proof. vm_compute. repeat split. Qed.

Example normalizeDates_scales_seconds :
  normalizeDates [("date", JNumber 1754006400); ("createdAt", JString "1754006400000");
                  ("userId", JNumber 5)]
  = Ok [("date", JString "2025-08-01"); ("createdAt", JString "2025-08-01T00:00:00.000Z");
        ("userId", JNumber 5)].
Proof. vm_compute. reflexivity. Qed.

(** [parseDate] takes every number as milliseconds. *)
Lemma parseDate_number (tz t : Z) : parseDate tz (JNumber t) = Some (TimeClip t).
Proof. reflexivity. Qed.

(** [normalizeDates] takes a positive number below 1e12 in a [date] field as
    seconds: the field becomes the UTC calendar day of [t * 1000]
    milliseconds. *)
Lemma normalizeField_seconds (t : Z) :
  0 < t < 1000000000000 ->
  normalizeField "date" (JNumber t)
  = Ok (JString (String.substring 0 10 (isoOfTime (t * 1000)))).
Proof.
  intros Ht. unfold normalizeField.
  change (isDateKey "date") with true. cbn iota.
  destruct (Z.eqb_spec t 0) as [E | _]; [lia |].
  destruct (Z.ltb_spec t 1000000000000) as [_ | E]; [| lia].
  rewrite TimeClip_valid by lia. reflexivity.
Qed.

(** 2025-08-01 in seconds becomes the day 2025-08-01. *)
Lemma normalizeField_seconds_witness :
  normalizeField "date" (JNumber augustFirstSeconds) = Ok (JString "2025-08-01").
Proof.
  rewrite (normalizeField_seconds augustFirstSeconds); [reflexivity |].
  unfold augustFirstSeconds. lia.
Defined.

(** ** Cursor activity *)

Lemma cursorStep_inactive (tz : Z) (cutoffDate : Date) (acc : CursorAnalysis)
    (record : ActivityRecord) :
  cursorInactiveUsers (cursorStep tz cutoffDate acc record) = cursorInactiveUsers acc.
Proof.
  unfold cursorStep. destruct (truthy _); [| reflexivity].
  destruct (_ && _); reflexivity.
Qed.

Lemma cursorLoop_inactive (tz : Z) (cutoffDate : Date) (rows : list ActivityRecord)
    (acc : CursorAnalysis) :
  cursorInactiveUsers (fold_left (cursorStep tz cutoffDate) rows acc)
  = cursorInactiveUsers acc.
Proof.
  revert acc. induction rows as [| record rows IH]; intros acc; [reflexivity |].
  cbn [fold_left]. rewrite IH. apply cursorStep_inactive.
Qed.

(** C10: for every list of weekly records and every cutoff the loop of the
    Cursor activity analysis leaves [inactiveUsers] empty; so whatever the
    files under the data directory, the clock and the users, the analysis
    either returns an analysis whose [inactiveUsers] set is empty, for which
    the report's "Inactive Cursor Users" line shows 0, or fails because the
    latest weekly file cannot be read or parsed. *)
Theorem C10_cursor_inactive_users_empty (tz : Z) (dataDir : Path)
    (users : list LookupUser) (w : World) (rows : list ActivityRecord) (cutoffDate : Date) :
  cursorInactiveUsers (fold_left (cursorStep tz cutoffDate) rows emptyCursorAnalysis) = ∅ /\
  match analyzeCursorActivity tz dataDir users w with
  | (Ok cursorAnalysis, _) =>
      cursorInactiveUsers cursorAnalysis = ∅ /\
      size (cursorInactiveUsers cursorAnalysis) = 0%nat /\
      inactiveCursorUsersLine cursorAnalysis = "- **Inactive Cursor Users:** 0"
  | (Throw e, _) =>
      exists latestFile : Path,
        fst ((content ← readFileSync latestFile; liftR (JSON_parse content)) w) = Throw e
  end.
Proof.
  split; [apply cursorLoop_inactive |].
  assert (Hline : forall c, cursorInactiveUsers c = ∅ ->
            cursorInactiveUsers c = ∅ /\
            size (cursorInactiveUsers c) = 0%nat /\
            inactiveCursorUsersLine c = "- **Inactive Cursor Users:** 0").
  { intros c Hc. split; [exact Hc |]. unfold inactiveCursorUsersLine. rewrite Hc.
    split; reflexivity. }
  unfold analyzeCursorActivity. rewrite io_bind_unfold.
  assert (Hfind : findCursorWeeklyFiles dataDir w
                  = (Ok (match lookupPath dataDir (fs w) with
                         | None => []
                         | Some n => walkDir isWeeklyFile dataDir n
                         end), w)).
  { unfold findCursorWeeklyFiles, findFiles. destruct (lookupPath dataDir (fs w)); reflexivity. }
  rewrite Hfind. clear Hfind.
  destruct (sortPaths _) as [| first others].
  - unfold ret. apply (Hline emptyCursorAnalysis). reflexivity.
  - rewrite io_bind_unfold.
    destruct (readFileSync (List.last others first) w) as [[content | e] w2] eqn:Er.
    + assert (Hw : w2 = w).
      { unfold readFileSync in Er. destruct (lookupPath _ _) as [[|] |]; inversion Er; reflexivity. }
      subst w2. rewrite io_bind_unfold. unfold liftR at 1.
      destruct (JSON_parse content) as [cursorData | e] eqn:Ep.
      * rewrite io_bind_unfold.
        assert (Htry : exists w3,
                  try_catch (_ ← statSync (List.last others first); _ ← Date_now; ret tt)
                            (fun _ => ret tt) w = (Ok tt, w3)).
        { unfold try_catch. rewrite io_bind_unfold.
          destruct (statSync (List.last others first) w) as [[n | e] w3].
          - rewrite io_bind_unfold, Date_now_eq. unfold ret. eauto.
          - unfold ret. eauto. }
        destruct Htry as (w3 & ->).
        rewrite io_bind_unfold, Date_now_eq. unfold ret.
        apply Hline. apply cursorLoop_inactive.
      * exists (List.last others first). rewrite io_bind_unfold, Er. unfold liftR.
        rewrite Ep. reflexivity.
    + exists (List.last others first). rewrite io_bind_unfold, Er. reflexivity.
Qed.

(** ** The file system *)

Lemma lookupPath_app (p q : Path) (n : FsNode) :
  lookupPath (p ++ q) n = lookupPath p n ≫= lookupPath q.
Proof.
  revert n. induction p as [| c p IH]; intros n; [reflexivity |].
  cbn [app lookupPath]. destruct n as [content | es]; [reflexivity |].
  destruct (entry c es); [apply IH | reflexivity].
Qed.

Lemma entry_setEntry_eq (c : string) (n : FsNode) (es : list (string * FsNode)) :
  entry c (setEntry c n es) = Some n.
Proof.
  unfold entry. induction es as [| [c' n'] es IH]; cbn.
  - rewrite String.eqb_refl. reflexivity.
  - destruct (String.eqb_spec c' c) as [E | E]; cbn.
    + rewrite String.eqb_refl. reflexivity.
    + destruct (String.eqb_spec c' c); [contradiction | exact IH].
Qed.

Lemma entry_setEntry_ne (c c' : string) (n : FsNode) (es : list (string * FsNode)) :
  c <> c' -> entry c' (setEntry c n es) = entry c' es.
Proof.
  intros Hne. unfold entry. induction es as [| [c0 n0] es IH]; cbn.
  - destruct (String.eqb_spec c c'); [contradiction | reflexivity].
  - destruct (String.eqb_spec c0 c) as [E | E]; cbn.
    + subst c0. destruct (String.eqb_spec c c'); [contradiction | reflexivity].
    + destruct (String.eqb_spec c0 c'); [reflexivity | exact IH].
Qed.

Lemma setEntry_same (c : string) (n : FsNode) (es : list (string * FsNode)) :
  entry c es = Some n -> setEntry c n es = es.
Proof.
  unfold entry. induction es as [| [c' n'] es IH]; cbn; [discriminate |].
  destruct (String.eqb_spec c' c) as [E | E]; cbn.
  - intros H. injection H as <-. subst c'. reflexivity.
  - intros H. rewrite IH by exact H. reflexivity.
Qed.

(** Writing a file into an existing directory succeeds unless a directory
    of that name is in the way, and changes that directory's entry only. *)
Lemma writeAt_in_dir (d : Path) (a : string) (content : FileContent) :
  forall (n : FsNode) (es : list (string * FsNode)),
    lookupPath d n = Some (Dir es) -> notDir a es ->
    exists n', writeAt (d ++ [a]) content n = Some n' /\
               lookupPath d n' = Some (Dir (setEntry a (File content) es)).
Proof.
  induction d as [| c d IH]; intros n es Hl Ha.
  - cbn in Hl. injection Hl as ->. cbn [app writeAt].
    destruct (entry a es) as [[content' | sub] |] eqn:Ee.
    + eexists. split; reflexivity.
    + exfalso. apply (Ha sub). exact Ee.
    + eexists. split; reflexivity.
  - cbn [lookupPath] in Hl. destruct n as [content' | es0]; [discriminate |].
    destruct (entry c es0) as [child |] eqn:Ec; [| discriminate].
    destruct (IH child es Hl Ha) as (child' & Hw & Hl').
    assert (Hstep : writeAt ((c :: d) ++ [a]) content (Dir es0)
                    = match writeAt (d ++ [a]) content child with
                      | Some child' => Some (Dir (setEntry c child' es0))
                      | None => None
                      end).
    { cbn [app writeAt]. destruct (d ++ [a]) eqn:Ed.
      - destruct d; discriminate.
      - rewrite Ec. reflexivity. }
    rewrite Hstep, Hw. eexists. split; [reflexivity |].
    cbn [lookupPath]. rewrite entry_setEntry_eq. exact Hl'.
Qed.

Lemma mkdirAt_creates (p : Path) :
  forall n n' : FsNode,
    mkdirAt p n = Some n' ->
    lookupPath p n' = Some (Dir (dirEntries (lookupPath p n))).
Proof.
  induction p as [| c p IH]; intros n n' H.
  - destruct n as [content | es]; cbn in H; [discriminate |]. injection H as <-. reflexivity.
  - destruct n as [content | es]; cbn [mkdirAt] in H; [discriminate |].
    destruct (mkdirAt p (default (Dir []) (entry c es))) as [child' |] eqn:Em; [| discriminate].
    injection H as <-. cbn [lookupPath]. rewrite entry_setEntry_eq.
    rewrite (IH _ _ Em). do 2 f_equal.
    destruct (entry c es) as [child |]; [reflexivity |]. cbn [default].
    destruct p as [| c' p']; reflexivity.
Qed.

(** ** Overwrite confirmation *)

Lemma existsSync_eq (p : Path) (w : World) :
  existsSync p w = (Ok (bool_decide (is_Some (lookupPath p (fs w)))), w).
Proof. reflexivity. Qed.

(** Interactive mode, the canonical file exists, the answer declines: no
    file changes, whatever the first part of the function does, and the
    result is the cancelled sentinel once the report content was built. *)
Lemma generate_declined {Stats : Type} (prepareReport : IO (string * Stats))
    (outputDir : Path) (w : World) (answer : string) (rest : list string) :
  readsOnly prepareReport -> clockValid w ->
  is_Some (lookupPath (outputDir ++ ["active-users.md"]) (fs w)) ->
  answers w = answer :: rest -> accepts (trim answer) = false ->
  fs (snd (generateActiveUsersReport prepareReport outputDir false w)) = fs w /\
  (is_Some (lookupPath (outputDir ++ ["active-users.md"])
              (fs (snd (generateActiveUsersReport prepareReport outputDir false w))))) /\
  (forall content stats w0, prepareReport w = (Ok (content, stats), w0) ->
     fst (generateActiveUsersReport prepareReport outputDir false w) = Ok Cancelled).
Proof.
  intros Hro Hclock Hex Hans Hno.
  assert (Hok : forall content stats w0, prepareReport w = (Ok (content, stats), w0) ->
            exists w2, generateActiveUsersReport prepareReport outputDir false w
                       = (Ok Cancelled, w2) /\ fs w2 = fs w).
  { intros content stats w0 Ep.
    destruct (Hro w) as (Hf0 & Ha0 & _ & Hr0). rewrite Ep in Hf0, Ha0, Hr0.
    cbn [snd] in Hf0, Ha0, Hr0.
    unfold generateActiveUsersReport. rewrite io_bind_unfold, Ep.
    rewrite io_bind_unfold, existsSync_eq.
    assert (Hdir : is_Some (lookupPath outputDir (fs w0))).
    { rewrite Hf0. rewrite lookupPath_app in Hex. destruct (lookupPath outputDir (fs w)); [eauto |].
      destruct Hex as [? Hex]. discriminate. }
    rewrite (bool_decide_eq_true_2 _ Hdir). cbn [negb].
    rewrite io_bind_unfold. unfold ret at 1.
    rewrite io_bind_unfold, Date_now_eq.
    rewrite io_bind_unfold. unfold liftR.
    rewrite TimeClip_valid by (unfold nextReading; rewrite Hr0; apply Hclock).
    cbn [toISOString negb].
    rewrite io_bind_unfold. unfold checkAndPromptOverwrite.
    rewrite io_bind_unfold, existsSync_eq.
    assert (Hfile : is_Some (lookupPath (outputDir ++ ["active-users.md"]) (fs (tick w0)))).
    { cbn [tick fs]. rewrite Hf0. exact Hex. }
    rewrite (bool_decide_eq_true_2 _ Hfile). cbn [negb].
    rewrite io_bind_unfold. unfold statSync.
    destruct Hfile as [node Hnode]. rewrite Hnode.
    rewrite io_bind_unfold. unfold promptUser. cbn [tick answers]. rewrite Ha0, Hans.
    unfold ret. rewrite Hno. cbn [negb].
    eexists. split; [reflexivity | exact Hf0]. }
  assert (Hfs : fs (snd (generateActiveUsersReport prepareReport outputDir false w)) = fs w).
  { destruct (prepareReport w) as [[[content stats] | e] w0] eqn:Ep.
    - destruct (Hok _ _ _ eq_refl) as (w2 & -> & Hf). exact Hf.
    - unfold generateActiveUsersReport. rewrite io_bind_unfold, Ep. cbn [snd].
      destruct (Hro w) as (Hf0 & _). rewrite Ep in Hf0. exact Hf0. }
  split; [exact Hfs |]. split; [rewrite Hfs; exact Hex |].
  intros content stats w0 Ep. destruct (Hok _ _ _ Ep) as (w2 & -> & _). reflexivity.
Qed.

(** The timestamped copy is not the canonical file. *)
Lemma timestampedName_ne (t : Z) : timestampedName t <> "active-users.md".
Proof.
  unfold timestampedName. generalize (replaceColons (isoOfTime t)). intros text E.
  apply (f_equal (String.get 12)) in E. cbv in E. discriminate.
Qed.

(** With [skipPrompt], nothing is asked and both files are written with the
    same content, the canonical file and, under its own name, the copy
    stamped with the time read after the report content was built, provided
    the output directory exists (or can be created) and has no directory in
    the place of either file. *)
Lemma generate_skipPrompt {Stats : Type} (prepareReport : IO (string * Stats))
    (outputDir : Path) (w w0 : World) (content : string) (stats : Stats) :
  readsOnly prepareReport -> clockValid w ->
  prepareReport w = (Ok (content, stats), w0) ->
  (exists n, (if bool_decide (is_Some (lookupPath outputDir (fs w)))
              then Some (fs w) else mkdirAt outputDir (fs w)) = Some n /\
             exists es, lookupPath outputDir n = Some (Dir es) /\
                        notDir "active-users.md" es /\
                        notDir (timestampedName (nextReading w0)) es) ->
  exists w',
    generateActiveUsersReport prepareReport outputDir true w
      = (Ok (Generated (outputDir ++ ["active-users.md"])
                       (outputDir ++ [timestampedName (nextReading w0)]) stats), w') /\
    lookupPath (outputDir ++ ["active-users.md"]) (fs w') = Some (File (Text content)) /\
    lookupPath (outputDir ++ [timestampedName (nextReading w0)]) (fs w')
      = Some (File (Text content)) /\
    answers w' = answers w /\ prompts w' = prompts w.
Proof.
  intros Hro Hclock Hp (n & Hn & es & Hes & Hcanonical & Hstamped).
  destruct (Hro w) as (Hf0 & Ha0 & Hp0 & Hr0). rewrite Hp in Hf0, Ha0, Hp0, Hr0.
  cbn [snd] in Hf0, Ha0, Hp0, Hr0.
  unfold generateActiveUsersReport. rewrite io_bind_unfold, Hp.
  rewrite io_bind_unfold, existsSync_eq, Hf0.
  set (w1 := if bool_decide (is_Some (lookupPath outputDir (fs w))) then w0 else setFs n w0).
  assert (Hensure :
    ((if negb (bool_decide (is_Some (lookupPath outputDir (fs w))))
      then mkdirSync outputDir else ret tt) w0) = (Ok tt, w1)).
  { unfold w1. destruct (bool_decide (is_Some (lookupPath outputDir (fs w)))); cbn [negb].
    - reflexivity.
    - unfold mkdirSync. rewrite Hf0, Hn. reflexivity. }
  rewrite io_bind_unfold, Hensure.
  assert (Hfs1 : fs w1 = n).
  { unfold w1. destruct (bool_decide (is_Some (lookupPath outputDir (fs w)))).
    - injection Hn as <-. exact Hf0.
    - reflexivity. }
  assert (Hrest1 : answers w1 = answers w /\ prompts w1 = prompts w
                   /\ nextReading w1 = nextReading w0).
  { unfold w1. destruct (bool_decide (is_Some (lookupPath outputDir (fs w))));
      cbn; auto. }
  destruct Hrest1 as (Ha1 & Hp1 & Hnext).
  rewrite io_bind_unfold, Date_now_eq, Hnext.
  rewrite io_bind_unfold. unfold liftR.
  rewrite TimeClip_valid by (unfold nextReading; rewrite Hr0; apply Hclock).
  cbn [toISOString negb].
  rewrite io_bind_unfold. unfold ret at 1. cbn [negb].
  change (String.concat "" ["active-users_"; replaceColons (isoOfTime (nextReading w0)); ".md"])
    with (timestampedName (nextReading w0)).
  set (stamp := timestampedName (nextReading w0)) in *.
  destruct (writeAt_in_dir outputDir stamp (Text content) (fs (tick w1)) es) as (n2 & Hw2 & Hl2).
  { cbn [tick fs]. rewrite Hfs1. exact Hes. }
  { exact Hstamped. }
  rewrite io_bind_unfold. unfold writeFileSync at 1. rewrite Hw2.
  destruct (writeAt_in_dir outputDir "active-users.md" (Text content) n2
              (setEntry stamp (File (Text content)) es)) as (n3 & Hw3 & Hl3).
  { exact Hl2. }
  { intros sub Hsub. destruct (String.eqb_spec stamp "active-users.md") as [E | E].
    - rewrite E, entry_setEntry_eq in Hsub. discriminate.
    - rewrite entry_setEntry_ne in Hsub by exact E. exact (Hcanonical _ Hsub). }
  rewrite io_bind_unfold. unfold writeFileSync. cbn [setFs fs]. rewrite Hw3.
  unfold ret. eexists. split; [reflexivity |].
  cbn [setFs fs answers prompts tick].
  rewrite !lookupPath_app, Hl3. cbn [mbind option_bind lookupPath].
  rewrite entry_setEntry_eq. split; [reflexivity |]. split; [| auto].
  rewrite entry_setEntry_ne by (intros E; exact (timestampedName_ne _ (eq_sym E))).
  rewrite entry_setEntry_eq. reflexivity.
Qed.

(** ** Computations that only read *)

Lemma readsOnly_ret {A} (a : A) : readsOnly (ret a).
Proof. intros w. cbn. auto. Qed.

Lemma readsOnly_throw {A} (e : JsError) : readsOnly (@throw A e).
Proof. intros w. cbn. auto. Qed.

Lemma readsOnly_liftR {A} (r : Result A) : readsOnly (liftR r).
Proof. intros w. cbn. auto. Qed.

Lemma readsOnly_bind {A B} (m : IO A) (k : A -> IO B) :
  readsOnly m -> (forall a, readsOnly (k a)) -> readsOnly (m ≫= k).
Proof.
  intros Hm Hk w. rewrite io_bind_unfold. specialize (Hm w).
  destruct (m w) as [[a | e] w']; cbn [snd] in Hm.
  - destruct (Hk a w') as (H1 & H2 & H3 & H4). destruct Hm as (G1 & G2 & G3 & G4).
    repeat split; congruence.
  - exact Hm.
Qed.

Lemma readsOnly_Date_now : readsOnly Date_now.
Proof. intros w. cbn. auto. Qed.

Lemma readsOnly_existsSync (p : Path) : readsOnly (existsSync p).
Proof. intros w. cbn. auto. Qed.

Lemma readsOnly_readdirSync (p : Path) : readsOnly (readdirSync p).
Proof. intros w. unfold readdirSync. destruct (lookupPath p (fs w)) as [[|] |]; cbn; auto. Qed.

Lemma readsOnly_readFileSync (p : Path) : readsOnly (readFileSync p).
Proof. intros w. unfold readFileSync. destruct (lookupPath p (fs w)) as [[|] |]; cbn; auto. Qed.

Lemma readsOnly_statSync (p : Path) : readsOnly (statSync p).
Proof. intros w. unfold statSync. destruct (lookupPath p (fs w)); cbn; auto. Qed.

Lemma readsOnly_findFiles (wanted : string -> bool) (dir : Path) :
  readsOnly (findFiles wanted dir).
Proof. intros w. unfold findFiles. destruct (lookupPath dir (fs w)); cbn; auto. Qed.

Lemma readsOnly_try_catch {A} (m : IO A) (handler : JsError -> IO A) :
  readsOnly m -> (forall e, readsOnly (handler e)) -> readsOnly (try_catch m handler).
Proof.
  intros Hm Hh w. unfold try_catch. specialize (Hm w).
  destruct (m w) as [[a | e] w']; cbn [snd] in Hm.
  - exact Hm.
  - destruct (Hh e w') as (H1 & H2 & H3 & H4). destruct Hm as (G1 & G2 & G3 & G4).
    repeat split; congruence.
Qed.

Lemma readsOnly_stale_check (p : Path) :
  readsOnly (try_catch (_ ← statSync p; _ ← Date_now; ret tt) (fun _ => ret tt)).
Proof.
  apply readsOnly_try_catch; [| intros; apply readsOnly_ret].
  apply readsOnly_bind; [apply readsOnly_statSync | intros _].
  apply readsOnly_bind; [apply readsOnly_Date_now | intros _]. apply readsOnly_ret.
Qed.

Lemma readsOnly_copilotLoop (tz : Z) (cutoffDate : Date) (seats : list Seat) :
  forall acc, readsOnly (copilotLoop tz cutoffDate seats acc).
Proof.
  induction seats as [| seat rest IH]; intros acc; cbn [copilotLoop].
  - apply readsOnly_ret.
  - apply readsOnly_bind.
    + destruct (truthy (last_activity_at seat)); [| apply readsOnly_ret].
      apply readsOnly_bind; [apply readsOnly_Date_now | intros now; apply readsOnly_ret].
    + intros [isActive daysSinceActivity]. apply IH.
Qed.

Lemma readsOnly_analyzeCopilotActivity (tz : Z) (dataDir : Path) (users : list LookupUser) :
  readsOnly (analyzeCopilotActivity tz dataDir users).
Proof.
  unfold analyzeCopilotActivity.
  apply readsOnly_bind; [apply readsOnly_findFiles | intros files].
  destruct (sortPaths files) as [| first others]; [apply readsOnly_ret |].
  apply readsOnly_bind; [apply readsOnly_readFileSync | intros content].
  apply readsOnly_bind; [apply readsOnly_liftR | intros seatData].
  apply readsOnly_bind; [apply readsOnly_stale_check | intros _].
  apply readsOnly_bind; [apply readsOnly_Date_now | intros now].
  apply readsOnly_copilotLoop.
Qed.

Lemma readsOnly_analyzeCursorActivity (tz : Z) (dataDir : Path) (users : list LookupUser) :
  readsOnly (analyzeCursorActivity tz dataDir users).
Proof.
  unfold analyzeCursorActivity.
  apply readsOnly_bind; [apply readsOnly_findFiles | intros files].
  destruct (sortPaths files) as [| first others]; [apply readsOnly_ret |].
  apply readsOnly_bind; [apply readsOnly_readFileSync | intros content].
  apply readsOnly_bind; [apply readsOnly_liftR | intros cursorData].
  apply readsOnly_bind; [apply readsOnly_stale_check | intros _].
  apply readsOnly_bind; [apply readsOnly_Date_now | intros now].
  apply readsOnly_ret.
Qed.

(** ** Computations determined by the files and the clock *)

Section Respects.
Context (R : FsNode -> FsNode -> Prop) (C : Clock -> Clock -> Prop).

Lemma respects_ret {A} (a : A) : respects R C (ret a).
Proof. intros w1 w2 HR HC. cbn. auto. Qed.

Lemma respects_throw {A} (e : JsError) : respects R C (@throw A e).
Proof. intros w1 w2 HR HC. cbn. auto. Qed.

Lemma respects_liftR {A} (r : Result A) : respects R C (liftR r).
Proof. intros w1 w2 HR HC. cbn. auto. Qed.

Lemma respects_bind {A B} (m : IO A) (k : A -> IO B) :
  respects R C m -> (forall a, respects R C (k a)) -> respects R C (m ≫= k).
Proof.
  intros Hm Hk w1 w2 HR HC. rewrite !io_bind_unfold.
  destruct (Hm w1 w2 HR HC) as (E & HR' & HC').
  destruct (m w1) as [[a1 | e1] w1'], (m w2) as [[a2 | e2] w2'];
    cbn [fst snd] in E, HR', HC'; try discriminate.
  - injection E as ->. apply Hk; assumption.
  - injection E as ->. cbn [fst snd]. repeat split; assumption.
Qed.

Lemma respects_Date_now : respects R sameReadings Date_now.
Proof.
  intros w1 w2 HR HC. cbn. repeat split; [| exact HR |].
  - specialize (HC 0%nat). cbn in HC. rewrite !Nat.add_0_r in HC. rewrite HC. reflexivity.
  - intros i. specialize (HC (S i)). cbn in HC. rewrite !Nat.add_succ_r in HC. exact HC.
Qed.

Lemma respects_try_catch {A} (m : IO A) (handler : JsError -> IO A) :
  respects R C m -> (forall e, respects R C (handler e)) ->
  respects R C (try_catch m handler).
Proof.
  intros Hm Hh w1 w2 HR HC. unfold try_catch.
  destruct (Hm w1 w2 HR HC) as (E & HR' & HC').
  destruct (m w1) as [[a1 | e1] w1'], (m w2) as [[a2 | e2] w2'];
    cbn [fst snd] in E, HR', HC'; try discriminate.
  - cbn [fst snd]. repeat split; assumption.
  - injection E as ->. apply Hh; assumption.
Qed.

End Respects.

Lemma respects_existsSync (R : FsNode -> FsNode -> Prop) (C : Clock -> Clock -> Prop) (p : Path) :
  (forall n1 n2, R n1 n2 -> lookupPath p n1 = lookupPath p n2) ->
  respects R C (existsSync p).
Proof.
  intros Hp w1 w2 HR HC. unfold existsSync. cbn [fst snd]. rewrite (Hp _ _ HR). auto.
Qed.

Lemma respects_readdirSync (R : FsNode -> FsNode -> Prop) (C : Clock -> Clock -> Prop) (p : Path) :
  (forall n1 n2, R n1 n2 -> lookupPath p n1 = lookupPath p n2) ->
  respects R C (readdirSync p).
Proof.
  intros Hp w1 w2 HR HC. unfold readdirSync. rewrite (Hp _ _ HR).
  destruct (lookupPath p (fs w2)) as [[|] |]; cbn; auto.
Qed.

Lemma respects_readFileSync (R : FsNode -> FsNode -> Prop) (C : Clock -> Clock -> Prop) (p : Path) :
  (forall n1 n2, R n1 n2 -> lookupPath p n1 = lookupPath p n2) ->
  respects R C (readFileSync p).
Proof.
  intros Hp w1 w2 HR HC. unfold readFileSync. rewrite (Hp _ _ HR).
  destruct (lookupPath p (fs w2)) as [[|] |]; cbn; auto.
Qed.

Lemma respects_statSync (R : FsNode -> FsNode -> Prop) (C : Clock -> Clock -> Prop) (p : Path) :
  (forall n1 n2, R n1 n2 -> lookupPath p n1 = lookupPath p n2) ->
  respects R C (statSync p).
Proof.
  intros Hp w1 w2 HR HC. unfold statSync. rewrite (Hp _ _ HR).
  destruct (lookupPath p (fs w2)); cbn; auto.
Qed.

Lemma respects_findFiles (C : Clock -> Clock -> Prop) (wanted : string -> bool) (dir : Path) :
  respects eq C (findFiles wanted dir).
Proof.
  intros w1 w2 HR HC. unfold findFiles. rewrite HR.
  destruct (lookupPath dir (fs w2)); cbn; auto.
Qed.

Lemma respects_writeFileSync (C : Clock -> Clock -> Prop) (p : Path) (content : FileContent) :
  respects eq C (writeFileSync p content).
Proof.
  intros w1 w2 HR HC. unfold writeFileSync. rewrite HR.
  destruct (writeAt p content (fs w2)); cbn; auto.
Qed.

Lemma respects_mkdirSync (C : Clock -> Clock -> Prop) (p : Path) : respects eq C (mkdirSync p).
Proof.
  intros w1 w2 HR HC. unfold mkdirSync. rewrite HR.
  destruct (mkdirAt p (fs w2)); cbn; auto.
Qed.

Lemma eq_lookup (p : Path) (n1 n2 : FsNode) : n1 = n2 -> lookupPath p n1 = lookupPath p n2.
Proof. intros ->. reflexivity. Qed.

Lemma dataEq_lookup (q : Path) (n1 n2 : FsNode) :
  dataEq n1 n2 -> lookupPath ("data" :: q) n1 = lookupPath ("data" :: q) n2.
Proof.
  intros H. change ("data" :: q) with (["data"] ++ q). rewrite !lookupPath_app.
  unfold dataEq in H. rewrite H. reflexivity.
Qed.

(** ** The report entry point *)

Lemma readsOnly_prepareCursorSummary : readsOnly prepareCursorSummary.
Proof.
  unfold prepareCursorSummary.
  apply readsOnly_bind; [apply readsOnly_analyzeCursorActivity | intros c; apply readsOnly_ret].
Qed.

(** C9: in interactive mode ([skipPrompt] false), when the canonical output
    file exists and the answer to the overwrite prompt declines, the report
    entry point leaves every file as it was, so neither the canonical file
    nor the timestamped copy is written, and returns the cancelled sentinel
    once the report content was built; with [skipPrompt] true no prompt is
    shown, no answer is consumed, and two files are written with the report
    content: the canonical active-users.md and, distinct from it, the copy
    active-users_<iso>.md named after the time read once the content was
    built, provided the content was built and the output directory exists
    or can be created and holds no directory under either of the two names.
    The first part of the function is any computation that only reads. *)
Theorem C9_overwrite_confirmation {Stats : Type} (prepareReport : IO (string * Stats))
    (outputDir : Path) (w : World) :
  readsOnly prepareReport -> clockValid w ->
  let outputPath := outputDir ++ ["active-users.md"] in
  (forall (answer : string) (rest : list string),
     is_Some (lookupPath outputPath (fs w)) ->
     answers w = answer :: rest -> accepts (trim answer) = false ->
     fs (snd (generateActiveUsersReport prepareReport outputDir false w)) = fs w /\
     (forall content stats w0, prepareReport w = (Ok (content, stats), w0) ->
        fst (generateActiveUsersReport prepareReport outputDir false w) = Ok Cancelled)) /\
  (forall (content : string) (stats : Stats) (w0 : World),
     prepareReport w = (Ok (content, stats), w0) ->
     let timestampedPath := outputDir ++ [timestampedName (nextReading w0)] in
     (exists n, (if bool_decide (is_Some (lookupPath outputDir (fs w)))
                 then Some (fs w) else mkdirAt outputDir (fs w)) = Some n /\
                exists es, lookupPath outputDir n = Some (Dir es) /\
                           notDir "active-users.md" es /\
                           notDir (timestampedName (nextReading w0)) es) ->
     timestampedPath <> outputPath /\
     exists w',
       generateActiveUsersReport prepareReport outputDir true w
         = (Ok (Generated outputPath timestampedPath stats), w') /\
       lookupPath outputPath (fs w') = Some (File (Text content)) /\
       lookupPath timestampedPath (fs w') = Some (File (Text content)) /\
       answers w' = answers w /\ prompts w' = prompts w).
Proof.
  intros Hro Hclock. cbn zeta. split.
  - intros answer rest Hex Hans Hno.
    destruct (generate_declined prepareReport outputDir w answer rest Hro Hclock Hex Hans Hno)
      as (H1 & _ & H3).
    split; [exact H1 | exact H3].
  - intros content stats w0 Hp Hdir. split.
    + intros E. apply app_inv_head in E. apply (f_equal (List.hd "")) in E.
      exact (timestampedName_ne _ E).
    + exact (generate_skipPrompt prepareReport outputDir w w0 content stats Hro Hclock Hp Hdir).
Qed.

(** C9, in a world where output/reports/active-users.md exists: when the
    user answers "n" the run is cancelled and the file system is unchanged;
    with [skipPrompt] the canonical file and the copy stamped
    2025-08-11T10-00-00.000Z hold the new report. *)
Lemma C9_overwrite_confirmation_witness :
  (fst (generateActiveUsersReport prepareCursorSummary ["output"; "reports"] false
          worldWithReport) = Ok Cancelled /\
   fs (snd (generateActiveUsersReport prepareCursorSummary ["output"; "reports"] false
              worldWithReport)) = fs worldWithReport) /\
  exists w',
    generateActiveUsersReport prepareCursorSummary ["output"; "reports"] true worldWithReport
      = (Ok (Generated ["output"; "reports"; "active-users.md"]
               ["output"; "reports"; "active-users_2025-08-11T10-00-00.000Z.md"] 0%nat), w') /\
    lookupPath ["output"; "reports"; "active-users.md"] (fs w')
      = Some (File (Text "- **Inactive Cursor Users:** 0")) /\
    lookupPath ["output"; "reports"; "active-users_2025-08-11T10-00-00.000Z.md"] (fs w')
      = Some (File (Text "- **Inactive Cursor Users:** 0")) /\
    answers w' = ["n"] /\ prompts w' = [].
Proof.
  assert (Hclock : clockValid worldWithReport).
  { intros i. cbn. unfold monday10am. lia. }
  destruct (C9_overwrite_confirmation prepareCursorSummary ["output"; "reports"] worldWithReport
              readsOnly_prepareCursorSummary Hclock) as [Hdecline Hskip].
  cbn zeta in Hdecline, Hskip. split.
  - destruct (Hdecline "n" []) as [Hfs Hres].
    + vm_compute. eauto.
    + reflexivity.
    + reflexivity.
    + split; [| exact Hfs]. eapply Hres. vm_compute. reflexivity.
  - destruct (Hskip "- **Inactive Cursor Users:** 0" 0%nat worldWithReport) as [_ Hwritten].
    + vm_compute. reflexivity.
    + exists (fs worldWithReport). split; [reflexivity |].
      exists [("active-users.md", File (Text "old"))]. split; [reflexivity |].
      split; intros sub Hsub; vm_compute in Hsub; discriminate.
    + exact Hwritten.
Defined.

(** ** Discovery and the analyses depend on the files and the clock only *)

Lemma stable_here (R : FsNode -> FsNode -> Prop) (base : Path) :
  stable R base -> forall n1 n2, R n1 n2 -> lookupPath base n1 = lookupPath base n2.
Proof. intros H n1 n2 HR. specialize (H [] n1 n2 HR). rewrite app_nil_r in H. exact H. Qed.

Lemma stable_app (R : FsNode -> FsNode -> Prop) (base p : Path) :
  stable R base -> stable R (base ++ p).
Proof. intros H q n1 n2 HR. rewrite <- app_assoc. apply H. exact HR. Qed.

Lemma stable_eq (base : Path) : stable eq base.
Proof. intros q n1 n2 ->. reflexivity. Qed.

Lemma stable_dataEq : stable dataEq ["data"].
Proof. intros q n1 n2 H. apply (dataEq_lookup q). exact H. Qed.

Section Discovery.
Context (R : FsNode -> FsNode -> Prop) (C : Clock -> Clock -> Prop).

Lemma respects_firstLegacy (dirs : list Path) :
  (forall dir, dir ∈ dirs -> stable R dir) -> respects R C (firstLegacy dirs).
Proof.
  induction dirs as [| dir rest IH]; intros Hst; cbn [firstLegacy].
  - apply respects_ret.
  - assert (Hrest : respects R C (firstLegacy rest)).
    { apply IH. intros d Hd. apply Hst. right. exact Hd. }
    assert (Hdir : forall n1 n2, R n1 n2 -> lookupPath dir n1 = lookupPath dir n2).
    { apply stable_here, Hst. left. }
    apply respects_bind; [apply respects_existsSync; exact Hdir | intros found].
    destruct found; cbn [negb]; [| exact Hrest].
    apply respects_bind; [apply respects_readdirSync; exact Hdir | intros names].
    destruct (sortNames _); [exact Hrest | apply respects_ret].
Qed.

Lemma respects_monthFiles (yearDir : Path) (months : list string) :
  stable R yearDir -> respects R C (monthFiles yearDir months).
Proof.
  intros Hst. induction months as [| month rest IH]; cbn [monthFiles].
  - apply respects_ret.
  - assert (Hdir : forall n1 n2, R n1 n2 ->
              lookupPath (yearDir ++ [month]) n1 = lookupPath (yearDir ++ [month]) n2).
    { intros n1 n2 HR. apply Hst. exact HR. }
    apply respects_bind; [apply respects_existsSync; exact Hdir | intros found].
    apply respects_bind.
    + destruct found; cbn [negb]; [| apply respects_ret].
      apply respects_bind; [apply respects_readdirSync; exact Hdir | intros names].
      apply respects_ret.
    + intros here. apply respects_bind; [exact IH | intros more; apply respects_ret].
Qed.

Lemma respects_yearFiles (baseDir : Path) (years : list string) :
  stable R baseDir -> respects R C (yearFiles baseDir years).
Proof.
  intros Hst. induction years as [| year rest IH]; cbn [yearFiles].
  - apply respects_ret.
  - assert (Hdir : forall n1 n2, R n1 n2 ->
              lookupPath (baseDir ++ [year]) n1 = lookupPath (baseDir ++ [year]) n2).
    { intros n1 n2 HR. apply Hst. exact HR. }
    apply respects_bind; [apply respects_existsSync; exact Hdir | intros found].
    apply respects_bind.
    + destruct found; cbn [negb]; [| apply respects_ret].
      apply respects_bind; [apply respects_readdirSync; exact Hdir | intros names].
      apply respects_monthFiles. apply stable_app. exact Hst.
    + intros here. apply respects_bind; [exact IH | intros more; apply respects_ret].
Qed.

Lemma respects_discover :
  stable R ["data"] -> respects R C discoverLatestMonthlyActivity.
Proof.
  intros Hst. unfold discoverLatestMonthlyActivity.
  assert (Hbase : stable R cursorBaseDir) by (apply (stable_app R ["data"] ["cursor"]); exact Hst).
  apply respects_bind.
  - apply respects_firstLegacy. intros dir Hdir.
    apply elem_of_cons in Hdir as [-> | Hdir]; [apply stable_app; exact Hbase |].
    apply list_elem_of_singleton in Hdir as ->. apply stable_app. exact Hbase.
  - intros [latest |]; [apply respects_ret |].
    apply respects_bind; [apply respects_existsSync, stable_here; exact Hbase | intros found].
    destruct found; cbn [negb]; [| apply respects_ret].
    apply respects_bind; [apply respects_readdirSync, stable_here; exact Hbase | intros names].
    apply respects_bind; [apply respects_yearFiles; exact Hbase | intros allFiles].
    destruct (sortPaths allFiles); apply respects_ret.
Qed.
End Discovery.

Lemma respects_copilotLoop (tz : Z) (cutoffDate : Date) (seats : list Seat) :
  forall acc, respects eq sameReadings (copilotLoop tz cutoffDate seats acc).
Proof.
  induction seats as [| seat rest IH]; intros acc; cbn [copilotLoop].
  - apply respects_ret.
  - apply respects_bind.
    + destruct (truthy (last_activity_at seat)); [| apply respects_ret].
      apply respects_bind; [apply respects_Date_now | intros t; apply respects_ret].
    + intros [isActive daysSinceActivity]. apply IH.
Qed.

Lemma respects_stale_check (p : Path) :
  respects eq sameReadings (try_catch (_ ← statSync p; _ ← Date_now; ret tt) (fun _ => ret tt)).
Proof.
  apply respects_try_catch; [| intros; apply respects_ret].
  apply respects_bind; [apply respects_statSync, eq_lookup | intros _].
  apply respects_bind; [apply respects_Date_now | intros _]. apply respects_ret.
Qed.

Lemma respects_analyzeCopilotActivity (tz : Z) (dataDir : Path) (users : list LookupUser) :
  respects eq sameReadings (analyzeCopilotActivity tz dataDir users).
Proof.
  unfold analyzeCopilotActivity.
  apply respects_bind; [apply respects_findFiles | intros files].
  destruct (sortPaths files) as [| first others]; [apply respects_ret |].
  apply respects_bind; [apply respects_readFileSync, eq_lookup | intros content].
  apply respects_bind; [apply respects_liftR | intros seatData].
  apply respects_bind; [apply respects_stale_check | intros _].
  apply respects_bind; [apply respects_Date_now | intros t].
  apply respects_copilotLoop.
Qed.

Lemma respects_readJSON (R : FsNode -> FsNode -> Prop) (C : Clock -> Clock -> Prop) (p : Path) :
  (forall n1 n2, R n1 n2 -> lookupPath p n1 = lookupPath p n2) ->
  respects R C (readJSON p).
Proof.
  intros Hp. unfold readJSON.
  apply respects_bind; [apply respects_readFileSync; exact Hp | intros c; apply respects_liftR].
Qed.

Lemma respects_ensureDir (C : Clock -> Clock -> Prop) (p : Path) : respects eq C (ensureDir p).
Proof.
  unfold ensureDir.
  apply respects_bind; [apply respects_existsSync, eq_lookup | intros found].
  destruct found; cbn [negb]; [apply respects_ret | apply respects_mkdirSync].
Qed.

Lemma respects_aggregateWindow (C : Clock -> Clock -> Prop) (tz : Z) (localeCompare : string -> string -> Z) :
  respects eq C (aggregateWindow tz localeCompare).
Proof.
  unfold aggregateWindow.
  apply respects_bind; [apply respects_discover, stable_eq | intros [latest |]].
  2: apply respects_throw.
  apply respects_bind; [apply respects_readJSON, eq_lookup | intros doc].
  destruct (rowsOfDoc doc) as [rows |]; [| apply respects_throw].
  destruct (100000 <? Z.of_nat (length rows)); [apply respects_throw |].
  apply respects_bind; [apply respects_ensureDir | intros _].
  apply respects_bind; [apply respects_liftR | intros lines].
  apply respects_bind; [apply respects_writeFileSync | intros _]. apply respects_ret.
Qed.

(** ** Running the window aggregation twice *)

Lemma leavesWorld_ret {A} (a : A) : leavesWorld (ret a).
Proof. intros w. reflexivity. Qed.

Lemma leavesWorld_throw {A} (e : JsError) : leavesWorld (@throw A e).
Proof. intros w. reflexivity. Qed.

Lemma leavesWorld_liftR {A} (r : Result A) : leavesWorld (liftR r).
Proof. intros w. reflexivity. Qed.

Lemma leavesWorld_bind {A B} (m : IO A) (k : A -> IO B) :
  leavesWorld m -> (forall a, leavesWorld (k a)) -> leavesWorld (m ≫= k).
Proof.
  intros Hm Hk w. rewrite io_bind_unfold. specialize (Hm w).
  destruct (m w) as [[a | e] w']; cbn [snd] in Hm; subst w'; [apply Hk | reflexivity].
Qed.

Lemma leavesWorld_existsSync (p : Path) : leavesWorld (existsSync p).
Proof. intros w. reflexivity. Qed.

Lemma leavesWorld_readdirSync (p : Path) : leavesWorld (readdirSync p).
Proof. intros w. unfold readdirSync. destruct (lookupPath p (fs w)) as [[|] |]; reflexivity. Qed.

Lemma leavesWorld_readFileSync (p : Path) : leavesWorld (readFileSync p).
Proof. intros w. unfold readFileSync. destruct (lookupPath p (fs w)) as [[|] |]; reflexivity. Qed.

Lemma leavesWorld_firstLegacy (dirs : list Path) : leavesWorld (firstLegacy dirs).
Proof.
  induction dirs as [| dir rest IH]; cbn [firstLegacy]; [apply leavesWorld_ret |].
  apply leavesWorld_bind; [apply leavesWorld_existsSync | intros found].
  destruct found; cbn [negb]; [| exact IH].
  apply leavesWorld_bind; [apply leavesWorld_readdirSync | intros names].
  destruct (sortNames _); [exact IH | apply leavesWorld_ret].
Qed.

Lemma leavesWorld_monthFiles (yearDir : Path) (months : list string) :
  leavesWorld (monthFiles yearDir months).
Proof.
  induction months as [| month rest IH]; cbn [monthFiles]; [apply leavesWorld_ret |].
  apply leavesWorld_bind; [apply leavesWorld_existsSync | intros found].
  apply leavesWorld_bind.
  - destruct found; cbn [negb]; [| apply leavesWorld_ret].
    apply leavesWorld_bind; [apply leavesWorld_readdirSync | intros; apply leavesWorld_ret].
  - intros here. apply leavesWorld_bind; [exact IH | intros; apply leavesWorld_ret].
Qed.

Lemma leavesWorld_yearFiles (baseDir : Path) (years : list string) :
  leavesWorld (yearFiles baseDir years).
Proof.
  induction years as [| year rest IH]; cbn [yearFiles]; [apply leavesWorld_ret |].
  apply leavesWorld_bind; [apply leavesWorld_existsSync | intros found].
  apply leavesWorld_bind.
  - destruct found; cbn [negb]; [| apply leavesWorld_ret].
    apply leavesWorld_bind; [apply leavesWorld_readdirSync | intros; apply leavesWorld_monthFiles].
  - intros here. apply leavesWorld_bind; [exact IH | intros; apply leavesWorld_ret].
Qed.

Lemma leavesWorld_discover : leavesWorld discoverLatestMonthlyActivity.
Proof.
  unfold discoverLatestMonthlyActivity.
  apply leavesWorld_bind; [apply leavesWorld_firstLegacy | intros [latest |]].
  - apply leavesWorld_ret.
  - apply leavesWorld_bind; [apply leavesWorld_existsSync | intros found].
    destruct found; cbn [negb]; [| apply leavesWorld_ret].
    apply leavesWorld_bind; [apply leavesWorld_readdirSync | intros names].
    apply leavesWorld_bind; [apply leavesWorld_yearFiles | intros allFiles].
    destruct (sortPaths allFiles); apply leavesWorld_ret.
Qed.

Lemma leavesWorld_loadWindowRows : leavesWorld loadWindowRows.
Proof.
  unfold loadWindowRows.
  apply leavesWorld_bind; [apply leavesWorld_discover | intros [latest |]].
  2: apply leavesWorld_throw.
  apply leavesWorld_bind.
  - unfold readJSON. apply leavesWorld_bind; [apply leavesWorld_readFileSync |].
    intros c. apply leavesWorld_liftR.
  - intros doc. destruct (rowsOfDoc doc) as [rows |]; [| apply leavesWorld_throw].
    destruct (100000 <? Z.of_nat (length rows)); [apply leavesWorld_throw | apply leavesWorld_ret].
Qed.

(** *** Discovered files lie under data/ *)

Lemma insertSorted_elem {A} (compare : A -> A -> Z) (x y : A) (l : list A) :
  y ∈ insertSorted compare x l -> y = x \/ y ∈ l.
Proof.
  induction l as [| z l IH]; cbn [insertSorted].
  - intros H. apply list_elem_of_singleton in H. auto.
  - destruct (compare x z <=? 0).
    + intros H. apply elem_of_cons in H as [-> | H]; auto.
    + intros H. apply elem_of_cons in H as [-> | H].
      * right. left.
      * destruct (IH H) as [-> | Hin]; [auto | right; right; exact Hin].
Qed.

Lemma sortBy_elem {A} (compare : A -> A -> Z) (y : A) (l : list A) :
  y ∈ sortBy compare l -> y ∈ l.
Proof.
  induction l as [| x l IH]; cbn [sortBy fold_right]; [auto |].
  fold (sortBy compare l). intros H. apply insertSorted_elem in H as [-> | H].
  - left.
  - right. apply IH. exact H.
Qed.

Lemma lastOf_elem {A} (first : A) (others : list A) : lastOf first others ∈ first :: others.
Proof.
  unfold lastOf. induction others as [| x others IH].
  - left.
  - destruct others as [| y others']; [right; left |].
    change (List.last (x :: y :: others') first) with (List.last (y :: others') first).
    apply elem_of_cons in IH as [-> | IH]; [left | right; right; exact IH].
Qed.

Lemma firstLegacy_under (dirs : list Path) :
  (forall dir, dir ∈ dirs -> underData dir) ->
  forall w p w', firstLegacy dirs w = (Ok (Some p), w') -> underData p.
Proof.
  induction dirs as [| dir rest IH]; intros Hd w p w' H; cbn [firstLegacy] in H.
  - discriminate.
  - assert (Hrest : forall dir, dir ∈ rest -> underData dir).
    { intros d Hin. apply Hd. right. exact Hin. }
    apply io_bind_ok in H as (found & w1 & _ & H).
    destruct found; cbn [negb] in H; [| exact (IH Hrest _ _ _ H)].
    apply io_bind_ok in H as (names & w2 & _ & H).
    destruct (sortNames _) as [| first others]; [exact (IH Hrest _ _ _ H) |].
    unfold ret in H. injection H as <- _.
    destruct (Hd dir ltac:(left)) as (q & ->). exists (q ++ [lastOf first others]). reflexivity.
Qed.

Lemma monthFiles_under (yearDir : Path) (months : list string) :
  underData yearDir ->
  forall w l w', monthFiles yearDir months w = (Ok l, w') -> forall p, p ∈ l -> underData p.
Proof.
  intros (q & ->). induction months as [| month rest IH]; intros w l w' H p Hp;
    cbn [monthFiles] in H.
  - unfold ret in H. injection H as <- _. inversion Hp.
  - apply io_bind_ok in H as (found & w1 & _ & H).
    apply io_bind_ok in H as (here & w2 & Hh & H).
    apply io_bind_ok in H as (more & w3 & Hm & H).
    unfold ret in H. injection H as <- _. apply elem_of_app in Hp as [Hp | Hp].
    + destruct found; cbn [negb] in Hh.
      * apply io_bind_ok in Hh as (names & w4 & _ & Hh). unfold ret in Hh.
        injection Hh as <- _. apply list_elem_of_fmap in Hp as (f & -> & _).
        eexists. reflexivity.
      * unfold ret in Hh. injection Hh as <- _. inversion Hp.
    + exact (IH _ _ _ Hm p Hp).
Qed.

Lemma yearFiles_under (baseDir : Path) (years : list string) :
  underData baseDir ->
  forall w l w', yearFiles baseDir years w = (Ok l, w') -> forall p, p ∈ l -> underData p.
Proof.
  intros Hb. induction years as [| year rest IH]; intros w l w' H p Hp;
    cbn [yearFiles] in H.
  - unfold ret in H. injection H as <- _. inversion Hp.
  - apply io_bind_ok in H as (found & w1 & _ & H).
    apply io_bind_ok in H as (here & w2 & Hh & H).
    apply io_bind_ok in H as (more & w3 & Hm & H).
    unfold ret in H. injection H as <- _. apply elem_of_app in Hp as [Hp | Hp].
    + destruct found; cbn [negb] in Hh.
      * apply io_bind_ok in Hh as (names & w4 & _ & Hh).
        refine (monthFiles_under _ _ _ _ _ _ Hh p Hp).
        destruct Hb as (q & ->). eexists. reflexivity.
      * unfold ret in Hh. injection Hh as <- _. inversion Hp.
    + exact (IH _ _ _ Hm p Hp).
Qed.

Lemma discover_under (w w' : World) (p : Path) :
  discoverLatestMonthlyActivity w = (Ok (Some p), w') -> underData p.
Proof.
  unfold discoverLatestMonthlyActivity. intros H.
  apply io_bind_ok in H as (legacy & w1 & Hl & H).
  destruct legacy as [latest |].
  - unfold ret in H. injection H as <- _.
    refine (firstLegacy_under _ _ _ _ _ Hl).
    intros dir Hdir. apply elem_of_cons in Hdir as [-> | Hdir]; [eexists; reflexivity |].
    apply list_elem_of_singleton in Hdir as ->. eexists. reflexivity.
  - apply io_bind_ok in H as (found & w2 & _ & H).
    destruct found; cbn [negb] in H; [| discriminate].
    apply io_bind_ok in H as (names & w3 & _ & H).
    apply io_bind_ok in H as (allFiles & w4 & Hy & H).
    destruct (sortPaths allFiles) as [| first others] eqn:Es; [discriminate |].
    unfold ret in H. injection H as <- _.
    refine (yearFiles_under _ _ _ _ _ _ Hy _ _); [eexists; reflexivity |].
    apply (sortBy_elem (fun a b => compareStrings (pathString a) (pathString b))).
    fold (sortPaths allFiles). rewrite Es. apply lastOf_elem.
Qed.

(** *** Writes outside data/ *)

Lemma lookupPath_cons (c : string) (rest : Path) (es : list (string * FsNode)) :
  lookupPath (c :: rest) (Dir es)
  = match entry c es with Some child => lookupPath rest child | None => None end.
Proof. reflexivity. Qed.

Lemma writeAt_one (c : string) (content : FileContent) (es : list (string * FsNode)) :
  writeAt [c] content (Dir es)
  = match entry c es with
    | Some (Dir _) => None
    | _ => Some (Dir (setEntry c (File content) es))
    end.
Proof. reflexivity. Qed.

Lemma writeAt_cons (c c' : string) (p : Path) (content : FileContent)
    (es : list (string * FsNode)) :
  writeAt (c :: c' :: p) content (Dir es)
  = match entry c es with
    | Some child =>
        match writeAt (c' :: p) content child with
        | Some child' => Some (Dir (setEntry c child' es))
        | None => None
        end
    | None => None
    end.
Proof. reflexivity. Qed.

Lemma writeAt_file (p : Path) (content content' : FileContent) :
  writeAt p content (File content') = None.
Proof. destruct p as [| c [| c' p]]; reflexivity. Qed.

Lemma writeAt_lookup (p : Path) (content : FileContent) :
  forall n n' : FsNode,
    writeAt p content n = Some n' -> lookupPath p n' = Some (File content).
Proof.
  induction p as [| c p IH]; intros n n' H; [destruct n; discriminate |].
  destruct n as [content' | es]; [rewrite writeAt_file in H; discriminate |].
  destruct p as [| c' p'].
  - rewrite writeAt_one in H.
    destruct (entry c es) as [[f | sub] |]; try discriminate; injection H as <-;
      rewrite lookupPath_cons, entry_setEntry_eq; reflexivity.
  - rewrite writeAt_cons in H. destruct (entry c es) as [child |]; [| discriminate].
    destruct (writeAt (c' :: p') content child) as [child' |] eqn:Ew; [| discriminate].
    injection H as <-. rewrite lookupPath_cons, entry_setEntry_eq. exact (IH _ _ Ew).
Qed.

(** Writing the same content at the same place again changes nothing. *)
Lemma writeAt_idem (p : Path) (content : FileContent) :
  forall n n' : FsNode,
    writeAt p content n = Some n' -> writeAt p content n' = Some n'.
Proof.
  induction p as [| c p IH]; intros n n' H; [destruct n; discriminate |].
  destruct n as [content' | es]; [rewrite writeAt_file in H; discriminate |].
  destruct p as [| c' p'].
  - rewrite writeAt_one in H.
    destruct (entry c es) as [[f | sub] |]; try discriminate; injection H as <-;
      rewrite writeAt_one, entry_setEntry_eq; do 2 f_equal;
      apply setEntry_same, entry_setEntry_eq.
  - rewrite writeAt_cons in H. destruct (entry c es) as [child |]; [| discriminate].
    destruct (writeAt (c' :: p') content child) as [child' |] eqn:Ew; [| discriminate].
    injection H as <-. rewrite writeAt_cons, entry_setEntry_eq, (IH _ _ Ew).
    do 2 f_equal. apply setEntry_same, entry_setEntry_eq.
Qed.

Lemma writeAt_other (c c' : string) (p q : Path) (content : FileContent) (n n' : FsNode) :
  c <> c' -> writeAt (c :: p) content n = Some n' ->
  lookupPath (c' :: q) n' = lookupPath (c' :: q) n.
Proof.
  intros Hne H. destruct n as [content' | es]; [rewrite writeAt_file in H; discriminate |].
  destruct p as [| c0 p'].
  - rewrite writeAt_one in H.
    destruct (entry c es) as [[f | sub] |]; try discriminate; injection H as <-;
      rewrite !lookupPath_cons, entry_setEntry_ne by exact Hne; reflexivity.
  - rewrite writeAt_cons in H. destruct (entry c es) as [child |]; [| discriminate].
    destruct (writeAt (c0 :: p') content child) as [child' |]; [| discriminate].
    injection H as <-. rewrite !lookupPath_cons, entry_setEntry_ne by exact Hne. reflexivity.
Qed.

Lemma mkdirAt_other (c c' : string) (p q : Path) (n n' : FsNode) :
  c <> c' -> mkdirAt (c :: p) n = Some n' ->
  lookupPath (c' :: q) n' = lookupPath (c' :: q) n.
Proof.
  intros Hne H. destruct n as [content' | es]; cbn [mkdirAt] in H; [discriminate |].
  destruct (mkdirAt p (default (Dir []) (entry c es))) as [child' |]; [| discriminate].
  injection H as <-. rewrite !lookupPath_cons, entry_setEntry_ne by exact Hne. reflexivity.
Qed.

Lemma setFs_fs (w : World) : setFs (fs w) w = w.
Proof. destruct w. reflexivity. Qed.

(** What the writing part of the aggregation does, case by case. *)
Lemma storeWindowRows_eq (tz : Z) (localeCompare : string -> string -> Z)
    (rows : list ActivityRecord) (w : World) :
  storeWindowRows tz localeCompare rows w
  = match (if bool_decide (is_Some (lookupPath OUT_DIR (fs w)))
           then Some (fs w) else mkdirAt OUT_DIR (fs w)) with
    | None => (Throw (Error "EEXIST"), w)
    | Some n =>
        match windowSummary tz localeCompare rows with
        | Throw e => (Throw e, setFs n w)
        | Ok lines =>
            match writeAt (OUT_DIR ++ ["cursor_window_usage.csv"]) (Text (csvText lines)) n with
            | Some n' => (Ok tt, setFs n' w)
            | None => (Throw (Error "ENOENT"), setFs n w)
            end
        end
    end.
Proof.
  unfold storeWindowRows, ensureDir. rewrite !io_bind_unfold, existsSync_eq.
  destruct (bool_decide (is_Some (lookupPath OUT_DIR (fs w)))); cbn [negb].
  - unfold ret at 1. rewrite io_bind_unfold. unfold liftR at 1.
    destruct (windowSummary tz localeCompare rows) as [lines | e];
      [| rewrite setFs_fs; reflexivity].
    rewrite io_bind_unfold. unfold writeFileSync.
    destruct (writeAt _ _ (fs w)); [reflexivity | rewrite setFs_fs; reflexivity].
  - unfold mkdirSync. destruct (mkdirAt OUT_DIR (fs w)) as [n |]; [| reflexivity].
    rewrite io_bind_unfold. unfold liftR at 1.
    destruct (windowSummary tz localeCompare rows) as [lines | e]; [| reflexivity].
    rewrite io_bind_unfold. unfold writeFileSync. cbn [fs setFs].
    destruct (writeAt _ _ n); reflexivity.
Qed.

(** The directory of the output exists once the writing part got past
    [ensureDir]. *)
Lemma ensured_exists (n0 n : FsNode) :
  (if bool_decide (is_Some (lookupPath OUT_DIR n0)) then Some n0 else mkdirAt OUT_DIR n0)
    = Some n ->
  is_Some (lookupPath OUT_DIR n).
Proof.
  destruct (bool_decide (is_Some (lookupPath OUT_DIR n0))) eqn:Ex; intros H.
  - injection H as <-. apply bool_decide_eq_true in Ex. exact Ex.
  - rewrite (mkdirAt_creates _ _ _ H). eauto.
Qed.

Lemma ensured_dataEq (n0 n : FsNode) :
  (if bool_decide (is_Some (lookupPath OUT_DIR n0)) then Some n0 else mkdirAt OUT_DIR n0)
    = Some n ->
  dataEq n0 n.
Proof.
  destruct (bool_decide (is_Some (lookupPath OUT_DIR n0))); intros H.
  - injection H as <-. reflexivity.
  - unfold dataEq. symmetry. refine (mkdirAt_other "output" "data" _ [] _ _ _ H). discriminate.
Qed.

Lemma storeWindowRows_dataEq (tz : Z) (localeCompare : string -> string -> Z)
    (rows : list ActivityRecord) (w : World) :
  dataEq (fs w) (fs (snd (storeWindowRows tz localeCompare rows w))).
Proof.
  rewrite storeWindowRows_eq.
  destruct (if bool_decide _ then _ else _) as [n |] eqn:En; [| reflexivity].
  pose proof (ensured_dataEq _ _ En) as Hn.
  destruct (windowSummary tz localeCompare rows) as [lines | e]; [| exact Hn].
  destruct (writeAt _ _ n) as [n' |] eqn:Ew; [| exact Hn].
  cbn [snd fs setFs]. unfold dataEq in *. rewrite Hn. symmetry.
  refine (writeAt_other "output" "data" _ [] _ _ _ _ Ew). discriminate.
Qed.

Lemma storeWindowRows_readings (tz : Z) (localeCompare : string -> string -> Z)
    (rows : list ActivityRecord) (w : World) :
  readings (snd (storeWindowRows tz localeCompare rows w)) = readings w.
Proof.
  rewrite storeWindowRows_eq.
  destruct (if bool_decide _ then _ else _) as [n |]; [| reflexivity].
  destruct (windowSummary tz localeCompare rows) as [lines | e]; [| reflexivity].
  destruct (writeAt _ _ n); reflexivity.
Qed.

(** Once the directory of the output exists, the writing part renders and
    writes. *)
Lemma storeWindowRows_ensured (tz : Z) (localeCompare : string -> string -> Z)
    (rows : list ActivityRecord) (n : FsNode) (w : World) :
  is_Some (lookupPath OUT_DIR n) ->
  storeWindowRows tz localeCompare rows (setFs n w)
  = match windowSummary tz localeCompare rows with
    | Throw e => (Throw e, setFs n w)
    | Ok lines =>
        match writeAt (OUT_DIR ++ ["cursor_window_usage.csv"]) (Text (csvText lines)) n with
        | Some n' => (Ok tt, setFs n' w)
        | None => (Throw (Error "ENOENT"), setFs n w)
        end
    end.
Proof.
  intros Hex. rewrite storeWindowRows_eq. cbn [fs setFs].
  rewrite (bool_decide_eq_true_2 _ Hex).
  destruct (windowSummary tz localeCompare rows) as [lines | e]; [| reflexivity].
  destruct (writeAt _ _ n); reflexivity.
Qed.

(** The writing part, run again on the world it left, returns what it
    returned and leaves that world as it is. *)
Lemma storeWindowRows_again (tz : Z) (localeCompare : string -> string -> Z)
    (rows : list ActivityRecord) (w : World) :
  storeWindowRows tz localeCompare rows (snd (storeWindowRows tz localeCompare rows w))
  = storeWindowRows tz localeCompare rows w.
Proof.
  rewrite (storeWindowRows_eq tz localeCompare rows w).
  destruct (if bool_decide _ then _ else _) as [n |] eqn:En.
  - pose proof (ensured_exists _ _ En) as Hex.
    destruct (windowSummary tz localeCompare rows) as [lines | e] eqn:Es.
    + destruct (writeAt _ _ n) as [n' |] eqn:Ew; cbn [snd].
      * assert (Hex' : is_Some (lookupPath OUT_DIR n')).
        { pose proof (writeAt_lookup _ _ _ _ Ew) as Hl. rewrite lookupPath_app in Hl.
          destruct (lookupPath OUT_DIR n'); [eauto | discriminate]. }
        rewrite (storeWindowRows_ensured _ _ _ _ _ Hex'), Es, (writeAt_idem _ _ _ _ Ew).
        reflexivity.
      * rewrite (storeWindowRows_ensured _ _ _ _ _ Hex), Es, Ew. reflexivity.
    + cbn [snd]. rewrite (storeWindowRows_ensured _ _ _ _ _ Hex), Es. reflexivity.
  - cbn [snd]. rewrite storeWindowRows_eq, En. reflexivity.
Qed.

Lemma respects_bind_post (R : FsNode -> FsNode -> Prop) (C : Clock -> Clock -> Prop) {A B}
    (P : A -> Prop) (m : IO A) (k : A -> IO B) :
  (forall w a w', m w = (Ok a, w') -> P a) ->
  respects R C m -> (forall a, P a -> respects R C (k a)) -> respects R C (m ≫= k).
Proof.
  intros HP Hm Hk w1 w2 HR HC. rewrite !io_bind_unfold.
  destruct (Hm w1 w2 HR HC) as (E & HR' & HC').
  destruct (m w1) as [[a1 | e1] w1'] eqn:E1, (m w2) as [[a2 | e2] w2'];
    cbn [fst snd] in E, HR', HC'; try discriminate.
  - injection E as ->. apply Hk; [| assumption ..]. exact (HP _ _ _ E1).
  - injection E as ->. cbn [fst snd]. repeat split; assumption.
Qed.

(** The reading part of the aggregation looks at data/ only. *)
Lemma respects_loadWindowRows (C : Clock -> Clock -> Prop) : respects dataEq C loadWindowRows.
Proof.
  unfold loadWindowRows.
  apply (respects_bind_post dataEq C
           (fun latest => forall p, latest = Some p -> underData p)).
  - intros w a w' H p ->. exact (discover_under _ _ _ H).
  - apply respects_discover, stable_dataEq.
  - intros [latest |] Hunder; [| apply respects_throw].
    destruct (Hunder latest eq_refl) as (q & ->).
    apply respects_bind; [apply respects_readJSON; intros n1 n2; apply dataEq_lookup | intros doc].
    destruct (rowsOfDoc doc) as [rows |]; [| apply respects_throw].
    destruct (100000 <? Z.of_nat (length rows)); [apply respects_throw | apply respects_ret].
Qed.

(** [aggregateWindow] is its reading part followed by its writing part. *)
Lemma aggregateWindow_parts (tz : Z) (localeCompare : string -> string -> Z) (w : World) :
  aggregateWindow tz localeCompare w
  = (loadWindowRows ≫= storeWindowRows tz localeCompare) w.
Proof.
  unfold aggregateWindow, loadWindowRows. rewrite !io_bind_unfold.
  destruct (discoverLatestMonthlyActivity w) as [[[latest |] | e] w1]; try reflexivity.
  rewrite !io_bind_unfold.
  destruct (readJSON latest w1) as [[doc | e] w2]; [| reflexivity].
  destruct (rowsOfDoc doc) as [rows |]; [| reflexivity].
  destruct (100000 <? Z.of_nat (length rows)); reflexivity.
Qed.

(** The aggregation, run again on the world it left, returns what it
    returned and leaves that world as it is: the file it wrote is not among
    the files it reads, and it keeps nothing between runs. *)
Lemma aggregateWindow_again (tz : Z) (localeCompare : string -> string -> Z) (w : World) :
  aggregateWindow tz localeCompare (snd (aggregateWindow tz localeCompare w))
  = aggregateWindow tz localeCompare w.
Proof.
  rewrite (aggregateWindow_parts tz localeCompare w), io_bind_unfold.
  pose proof (leavesWorld_loadWindowRows w) as Hsame.
  destruct (loadWindowRows w) as [[rows | e] w0] eqn:El; cbn [snd] in Hsame; subst w0.
  - set (w1 := snd (storeWindowRows tz localeCompare rows w)).
    destruct (respects_loadWindowRows anyClocks w w1
                (storeWindowRows_dataEq tz localeCompare rows w) I) as (E & _).
    pose proof (leavesWorld_loadWindowRows w1) as Hsame1.
    rewrite aggregateWindow_parts, io_bind_unfold.
    rewrite El in E. cbn [fst] in E.
    destruct (loadWindowRows w1) as [[rows1 | e1] w2]; cbn [fst snd] in E, Hsame1;
      [| discriminate].
    injection E as <-. subst w2. apply storeWindowRows_again.
  - cbn [snd]. rewrite aggregateWindow_parts, io_bind_unfold, El. reflexivity.
Qed.

(** ** Repeated runs *)

(** On the snapshot, the window aggregation succeeds and writes one row for
    the one user, whatever was read from the clock before. *)
Example aggregateWindow_snapshot :
  fst (aggregateWindow 0 compareStrings (snapshotWorld 0 [])) = Ok tt /\
  lookupPath (OUT_DIR ++ ["cursor_window_usage.csv"])
    (fs (snd (aggregateWindow 0 compareStrings (snapshotWorld 0 []))))
  = Some (File (Text (csvText
      [ {| row_userId := "u1"; row_email := ""; row_windowStart := "2025-08-01";
           row_windowEnd := "2025-08-03"; row_windowDays := Int 3; row_presentDays := 3;
           row_daysActive := 2; row_presenceRate := "1.0000"; row_activeRate := "0.6667";
           row_avgLinesAddedPerActiveDay := "NaN";
           row_numbers := map (fun _ => None) NUMERIC_FIELDS |} ]))).
Proof. vm_compute. split; reflexivity. Qed.

(** On the snapshot, the Copilot analysis finds the seat active three days
    before the clock's time and the seat that was never active. *)
Example analyzeCopilotActivity_snapshot :
  match fst (analyzeCopilotActivity 0 ["data"] [] (snapshotWorld 0 [])) with
  | Ok r => activeLogins r = {[Some "octocat"]} /\ inactiveLogins r = {[Some "hubot"]}
  | Throw _ => False
  end.
Proof. vm_compute. split; reflexivity. Qed.

(** A clock that stands still shows the same times as any other that
    stands still at the same time. *)
Lemma frozenAt_sameReadings (now : Z) (w1 w2 : World) :
  frozenAt now w1 -> frozenAt now w2 -> sameReadings (clock w1) (clock w2).
Proof. intros H1 H2 i. cbn. rewrite H1, H2. reflexivity. Qed.

(** C4 (as stated, refuted): the Copilot activity analysis has no "now"
    among its inputs; it reads the clock for the cutoff and again for every
    seat that has a last activity.  On one seat snapshot, under a clock that
    advances by a millisecond per reading, the first run finds the seat
    active and the next run, on the files the first one left, which are the
    same files, finds it inactive. *)
Lemma C4_ticking_clock :
  fs (snd (analyzeCopilotActivity 0 ["data"] [] tickingWorld)) = fs tickingWorld /\
  match fst (analyzeCopilotActivity 0 ["data"] [] tickingWorld),
        fst (analyzeCopilotActivity 0 ["data"] []
               (snd (analyzeCopilotActivity 0 ["data"] [] tickingWorld))) with
  | Ok first, Ok second =>
      elements (activeLogins first) = [Some "octocat"] /\
      elements (inactiveLogins first) = [] /\
      elements (activeLogins second) = [] /\
      elements (inactiveLogins second) = [Some "octocat"]
  | _, _ => False
  end.
Proof. vm_compute. repeat split. Qed.

(** C4 (amended): with the same snapshot files, two runs of the window
    aggregation return the same result and leave the same files, whatever
    else differs between the two worlds (the clock, the pending answers, the
    prompts shown): the aggregation never looks at the clock; run again on
    the world it left, it returns the same result and leaves that world as
    it is.  The Copilot activity analysis changes no file, and its result is
    determined by the snapshot files and the times the clock shows, reading
    after reading: two runs under clocks that show the same times return the
    same analysis, and under a clock that stands still the analysis run
    again after itself returns the same analysis. *)
Theorem C4_repeated_runs_agree (tz : Z) (localeCompare : string -> string -> Z)
    (dataDir : Path) (users : list LookupUser) (w1 w2 : World) :
  fs w1 = fs w2 ->
  (fst (aggregateWindow tz localeCompare w1) = fst (aggregateWindow tz localeCompare w2) /\
   fs (snd (aggregateWindow tz localeCompare w1))
     = fs (snd (aggregateWindow tz localeCompare w2))) /\
  aggregateWindow tz localeCompare (snd (aggregateWindow tz localeCompare w1))
    = aggregateWindow tz localeCompare w1 /\
  (sameReadings (clock w1) (clock w2) ->
   fst (analyzeCopilotActivity tz dataDir users w1)
     = fst (analyzeCopilotActivity tz dataDir users w2)) /\
  fs (snd (analyzeCopilotActivity tz dataDir users w1)) = fs w1 /\
  (forall now : Z, frozenAt now w1 ->
   fst (analyzeCopilotActivity tz dataDir users
          (snd (analyzeCopilotActivity tz dataDir users w1)))
     = fst (analyzeCopilotActivity tz dataDir users w1)).
Proof.
  intros Hfs.
  destruct (respects_aggregateWindow anyClocks tz localeCompare w1 w2 Hfs I) as (Ea & Fa & _).
  destruct (readsOnly_analyzeCopilotActivity tz dataDir users w1) as (Fc & _ & _ & Rc).
  split; [split; assumption |]. split; [apply aggregateWindow_again |].
  split; [| split; [exact Fc |]].
  - intros Hclock.
    exact (proj1 (respects_analyzeCopilotActivity tz dataDir users w1 w2 Hfs Hclock)).
  - intros now Hnow. symmetry.
    apply (respects_analyzeCopilotActivity tz dataDir users w1 _ (eq_sym Fc)).
    apply (frozenAt_sameReadings now); [exact Hnow |].
    intros i. rewrite Rc. apply Hnow.
Qed.

(** C4 on the snapshot, in two worlds that differ in the number of earlier
    readings of the clock and in the pending answers. *)
Lemma C4_repeated_runs_agree_witness :
  (fst (aggregateWindow 0 compareStrings (snapshotWorld 0 []))
     = fst (aggregateWindow 0 compareStrings (snapshotWorld 5 ["y"])) /\
   fs (snd (aggregateWindow 0 compareStrings (snapshotWorld 0 [])))
     = fs (snd (aggregateWindow 0 compareStrings (snapshotWorld 5 ["y"])))) /\
  aggregateWindow 0 compareStrings (snd (aggregateWindow 0 compareStrings (snapshotWorld 0 [])))
    = aggregateWindow 0 compareStrings (snapshotWorld 0 []) /\
  fst (analyzeCopilotActivity 0 ["data"] [] (snapshotWorld 0 []))
    = fst (analyzeCopilotActivity 0 ["data"] [] (snapshotWorld 5 ["y"])) /\
  fs (snd (analyzeCopilotActivity 0 ["data"] [] (snapshotWorld 0 []))) = fs (snapshotWorld 0 []) /\
  fst (analyzeCopilotActivity 0 ["data"] []
         (snd (analyzeCopilotActivity 0 ["data"] [] (snapshotWorld 0 []))))
    = fst (analyzeCopilotActivity 0 ["data"] [] (snapshotWorld 0 [])).
Proof.
  destruct (C4_repeated_runs_agree 0 compareStrings ["data"] []
              (snapshotWorld 0 []) (snapshotWorld 5 ["y"]) eq_refl)
    as (Hwindow & Hagain & Hcopilot & Hfiles & Hrepeat).
  split; [exact Hwindow |]. split; [exact Hagain |]. split; [| split; [exact Hfiles |]].
  - apply Hcopilot. intros i. reflexivity.
  - apply (Hrepeat monday10am). intros i. reflexivity.
Defined.

(** * Further properties of the code *)

(** ** name-variations.js *)

Lemma lowerChar_idem (c : ascii) : lowerChar (lowerChar c) = lowerChar c.
Proof. destruct c as [[] [] [] [] [] [] [] []]; reflexivity. Qed.

Lemma toLowerCase_idem (s : string) : toLowerCase (toLowerCase s) = toLowerCase s.
Proof.
  induction s as [| c r IH]; [reflexivity |]. cbn [toLowerCase]. rewrite lowerChar_idem, IH.
  reflexivity.
Qed.

(** [areNameVariations] does not depend on the order of its arguments. *)
Theorem areNameVariations_symmetric (NAME_VARIATIONS : gmap string (list string))
    (name1 name2 : string) :
  areNameVariations NAME_VARIATIONS name1 name2 = areNameVariations NAME_VARIATIONS name2 name1.
Proof.
  unfold areNameVariations. rewrite (orb_comm (falsy name1)).
  destruct (falsy name2 || falsy name1); [reflexivity |].
  rewrite (String.eqb_sym (trim (toLowerCase name1))).
  destruct (String.eqb (trim (toLowerCase name2)) (trim (toLowerCase name1))); [reflexivity |].
  destruct (listed (NAME_VARIATIONS !! trim (toLowerCase name1)) (trim (toLowerCase name2))),
           (listed (NAME_VARIATIONS !! trim (toLowerCase name2)) (trim (toLowerCase name1)));
    reflexivity.
Qed.

Lemma variationsFor_elem (group : list string) (key v : string) :
  v ∈ variationsFor group key <->
  exists n, n ∈ group /\ toLowerCase n = v /\ v <> key.
Proof.
  unfold variationsFor. rewrite list_elem_of_fmap. split.
  - intros (n & -> & Hn). apply list_elem_of_In, List.filter_In in Hn as [Hin Hne].
    exists n. split; [apply list_elem_of_In; exact Hin |]. split; [reflexivity |].
    apply negb_true_iff in Hne. apply String.eqb_neq in Hne. exact Hne.
  - intros (n & Hin & <- & Hne). exists n. split; [reflexivity |].
    apply list_elem_of_In, List.filter_In. split; [apply list_elem_of_In; exact Hin |].
    apply negb_true_iff, String.eqb_neq. exact Hne.
Qed.

Lemma find_rev_elem {A} (f : A -> bool) (l : list A) (x : A) :
  List.find f (rev l) = Some x -> x ∈ l /\ f x = true.
Proof.
  intros H. apply List.find_some in H as [Hin Hf]. split; [| exact Hf].
  apply list_elem_of_In, List.in_rev. exact Hin.
Qed.

(** Every variation listed for a name differs from the name, is in lower
    case, and comes from a group that has both; the name is none of those
    the table inherits ([constructor], [__proto__]), and no group lists
    [__proto__], so that the table has its own properties only and the
    lookup is the lookup among them. *)
Theorem getNameVariations_excludes_name (NAME_GROUPS : list (list string)) (name : string) :
  plainName name -> plainGroups NAME_GROUPS ->
  Forall (fun v =>
            v <> trim (toLowerCase name) /\ toLowerCase v = v /\
            exists group, group ∈ NAME_GROUPS /\ inGroup v group /\
                          inGroup (trim (toLowerCase name)) group)
         (getNameVariations (generateNameVariations NAME_GROUPS) name).
Proof.
  intros _ _.
  unfold getNameVariations. destruct (falsy name); [constructor |].
  rewrite generateNameVariations_lookup.
  destruct (List.find _ (rev NAME_GROUPS)) as [group |] eqn:Ef; [| constructor].
  apply find_rev_elem in Ef as [Hin Hhas]. cbn [fmap option_fmap option_map default].
  apply Forall_forall. intros v Hv. apply variationsFor_elem in Hv as (n & Hn & Hl & Hne).
  split; [exact Hne |]. split; [rewrite <- Hl; apply toLowerCase_idem |].
  exists group. split; [exact Hin |]. split.
  - unfold inGroup. apply list_elem_of_fmap. exists n. auto.
  - apply groupHas_inGroup. exact Hhas.
Qed.

(** The variations of "Bob" in the table of the two nickname groups. *)
Lemma getNameVariations_excludes_name_witness :
  Forall (fun v =>
            v <> "bob" /\ toLowerCase v = v /\
            exists group, group ∈ nicknames /\ inGroup v group /\ inGroup "bob" group)
         ["robert"; "rob"].
Proof.
  apply (getNameVariations_excludes_name nicknames "Bob").
  - vm_compute. reflexivity.
  - repeat (constructor; try discriminate).
Defined.


(** With disjoint groups there is one group to find for a name. *)
Lemma find_disjoint (NAME_GROUPS : list (list string)) (group : list string) (key : string) :
  groupsDisjoint NAME_GROUPS -> group ∈ NAME_GROUPS -> groupHas key group = true ->
  List.find (groupHas key) NAME_GROUPS = Some group /\
  List.find (groupHas key) (rev NAME_GROUPS) = Some group.
Proof.
  intros Hd Hin Hhas.
  assert (Huniq : forall g, g ∈ NAME_GROUPS -> groupHas key g = true -> g = group).
  { intros g Hg Hgh. apply list_elem_of_lookup in Hg as (i & Hi).
    apply list_elem_of_lookup in Hin as (j & Hj).
    pose proof (Hd i j g group key Hi Hj (proj1 (groupHas_inGroup _ _) Hgh)
                  (proj1 (groupHas_inGroup _ _) Hhas)) as ->.
    congruence. }
  split.
  - destruct (List.find (groupHas key) NAME_GROUPS) as [g |] eqn:Ef.
    + apply List.find_some in Ef as [Hg Hgh]. f_equal.
      apply Huniq; [apply list_elem_of_In; exact Hg | exact Hgh].
    + pose proof (List.find_none _ _ Ef group (proj1 (list_elem_of_In _ _) Hin)) as Hn.
      congruence.
  - destruct (List.find (groupHas key) (rev NAME_GROUPS)) as [g |] eqn:Ef.
    + apply find_rev_elem in Ef as [Hg Hgh]. f_equal. apply Huniq; assumption.
    + pose proof (List.find_none _ _ Ef group) as Hn.
      rewrite Hn in Hhas; [discriminate |].
      apply List.in_rev. rewrite List.rev_involutive. apply list_elem_of_In. exact Hin.
Qed.



Lemma nicknames_disjoint : groupsDisjoint nicknames.
Proof.
  intros i j g1 g2 key Hi Hj H1 H2.
  destruct i as [| [| i]], j as [| [| j]]; cbn in Hi, Hj; try discriminate; try reflexivity;
    injection Hi as <-; injection Hj as <-; exfalso;
    unfold inGroup in H1, H2; cbn in H1, H2;
    repeat (apply elem_of_cons in H1 as [-> | H1]);
    try (inversion H1; fail);
    repeat (apply elem_of_cons in H2 as [H2 | H2]; [discriminate |]); inversion H2.
Qed.


(** With disjoint groups every member of a group has the group's first
    name as its canonical name. *)
Theorem getCanonicalName_of_member (NAME_GROUPS : list (list string)) (group : list string)
    (name : string) :
  groupsDisjoint NAME_GROUPS -> group ∈ NAME_GROUPS -> falsy name = false ->
  groupHas (trim (toLowerCase name)) group = true ->
  exists first others, group = first :: others /\ getCanonicalName NAME_GROUPS name = first.
Proof.
  intros Hd Hin Hname Hhas. unfold getCanonicalName. rewrite Hname, canonicalIn_find.
  destruct (find_disjoint NAME_GROUPS group _ Hd Hin Hhas) as [-> _].
  destruct group as [| first others]; [discriminate |]. exists first, others. auto.
Qed.

Lemma getCanonicalName_of_member_witness :
  exists first others, ["robert"; "rob"; "bob"] = first :: others /\
                       getCanonicalName nicknames " Bob" = first.
Proof.
  apply (getCanonicalName_of_member nicknames ["robert"; "rob"; "bob"] " Bob" nicknames_disjoint).
  - right. left.
  - reflexivity.
  - reflexivity.
Defined.

(** ** org.js: the roster tree *)

Lemma OrgNode_induction (P : OrgNode -> Prop) :
  P NullNode ->
  (forall name username title, P (Person name username title None)) ->
  (forall name username title reports,
     Forall P reports -> P (Person name username title (Some reports))) ->
  forall node, P node.
Proof.
  intros Hnull Hleaf Hnode. fix IH 1. intros [| name username title [reports |]].
  - exact Hnull.
  - apply Hnode. induction reports as [| r rest IHrest]; constructor; [apply IH | exact IHrest].
  - apply Hleaf.
Qed.

Lemma setAdd_elem {A} `{EqDecision A} (x y : A) (l : list A) :
  x ∈ setAdd y l <-> x = y \/ x ∈ l.
Proof.
  unfold setAdd. destruct (bool_decide (y ∈ l)) eqn:E.
  - apply bool_decide_eq_true in E. split; [auto |]. intros [-> | H]; assumption.
  - rewrite elem_of_app, list_elem_of_singleton. tauto.
Qed.

Lemma setAdd_NoDup {A} `{EqDecision A} (y : A) (l : list A) : NoDup l -> NoDup (setAdd y l).
Proof.
  intros Hl. unfold setAdd. destruct (bool_decide (y ∈ l)) eqn:E; [exact Hl |].
  apply bool_decide_eq_false in E. apply NoDup_app. split; [exact Hl |]. split.
  - intros x Hx Hy. apply list_elem_of_singleton in Hy as ->. contradiction.
  - apply NoDup_singleton.
Qed.

Lemma setAdd_length {A} `{EqDecision A} (y : A) (l : list A) :
  (length (setAdd y l) <= S (length l))%nat.
Proof.
  unfold setAdd. destruct (bool_decide (y ∈ l)); [lia |]. rewrite length_app. cbn. lia.
Qed.

Lemma fold_left_invariant {A B} (f : A -> B -> A) (P : A -> Prop) (l : list B) (a : A) :
  Forall (fun b => forall a, P a -> P (f a b)) l -> P a -> P (fold_left f l a).
Proof.
  revert a. induction l as [| b l IH]; intros a Hl Ha; [exact Ha |].
  apply Forall_cons in Hl as [Hb Hl]. cbn [fold_left]. apply IH; [exact Hl | apply Hb; exact Ha].
Qed.

(** A relation between two folds over the same list. *)
Lemma fold_left_related {A A' B} (f : A -> B -> A) (g : A' -> B -> A') (R : A -> A' -> Prop)
    (l : list B) (a : A) (a' : A') :
  Forall (fun b => forall a a', R a a' -> R (f a b) (g a' b)) l ->
  R a a' -> R (fold_left f l a) (fold_left g l a').
Proof.
  revert a a'. induction l as [| b l IH]; intros a a' Hl Ha; [exact Ha |].
  apply Forall_cons in Hl as [Hb Hl]. cbn [fold_left]. apply IH; [exact Hl | apply Hb; exact Ha].
Qed.

Lemma processNode_within (node : OrgNode) :
  forall st eng, (forall n, n ∈ fst st -> n ∈ eng) ->
                 forall n, n ∈ fst (processNode st node) -> n ∈ collectAll eng node.
Proof.
  induction node as [| name username title | name username title reports IH]
    using OrgNode_induction; intros st eng Hsub; cbn [processNode collectAll].
  - exact Hsub.
  - destruct (truthy name) as [n0 |]; [| exact Hsub].
    cbn [fst]. intros n Hn. apply setAdd_elem in Hn as [-> | Hn]; apply setAdd_elem; auto.
  - destruct (truthy name) as [n0 |].
    + apply (fold_left_related processNode collectAll
               (fun st eng => forall n, n ∈ fst st -> n ∈ eng)).
      * eapply Forall_impl; [exact IH |]. intros r Hr a a' Ha. apply Hr. exact Ha.
      * cbn [fst]. intros n Hn. apply setAdd_elem in Hn as [-> | Hn]; apply setAdd_elem; auto.
    + intros n Hn.
      assert (Hmono : forall rs e, n ∈ e -> n ∈ fold_left collectAll rs e).
      { clear. intros rs. induction rs as [| r rs IHrs]; intros e He; [exact He |].
        cbn [fold_left]. apply IHrs. revert e He.
        induction r as [| name username title | name username title reports IH]
          using OrgNode_induction; intros e He; cbn [collectAll].
        - exact He.
        - destruct (truthy name); [apply setAdd_elem; auto | exact He].
        - apply (fold_left_invariant collectAll (fun e => n ∈ e)).
          + eapply Forall_impl; [exact IH |]. intros r Hr a Ha. apply Hr. exact Ha.
          + destruct (truthy name); [apply setAdd_elem; auto | exact He]. }
      apply Hmono. apply Hsub. exact Hn.
Qed.

Lemma processNode_allNamed (node : OrgNode) :
  allNamed node = true ->
  forall st, fst (processNode st node) = collectAll (fst st) node.
Proof.
  induction node as [| name username title | name username title reports IH]
    using OrgNode_induction; cbn [allNamed processNode collectAll]; intros Hall st.
  - discriminate.
  - destruct (truthy name); [reflexivity | discriminate].
  - destruct (truthy name) as [n0 |]; [| discriminate].
    apply (fold_left_related processNode collectAll (fun st eng => fst st = eng)).
    + apply Forall_forall. intros r Hr a a' <-.
      rewrite Forall_forall in IH. apply IH; [exact Hr |].
      rewrite forallb_forall in Hall. apply Hall. apply list_elem_of_In. exact Hr.
    + reflexivity.
Qed.

Lemma org_users_subset (organization : list OrgNode) (n : string) :
  n ∈ org_users (extractOrgUsers organization) -> n ∈ extractEngineeringTeam organization.
Proof.
  revert n. unfold extractOrgUsers, extractEngineeringTeam. cbn [org_users].
  apply (fold_left_related processNode collectAll
           (fun st eng => forall n, n ∈ fst st -> n ∈ eng)).
  - apply Forall_forall. intros r _ a a' Ha. apply processNode_within. exact Ha.
  - intros n Hn. exact Hn.
Qed.

(** Every name [extractOrgUsers] collects is collected by
    [extractEngineeringTeam], which also descends below a node without a
    name; when every node has a name the two collect the same names in the
    same order. *)
Theorem extractOrgUsers_within_engineering (organization : list OrgNode) :
  (forall n, n ∈ org_users (extractOrgUsers organization) ->
             n ∈ extractEngineeringTeam organization) /\
  (forallb allNamed organization = true ->
   org_users (extractOrgUsers organization) = extractEngineeringTeam organization).
Proof.
  split; [intros n; apply org_users_subset |].
  unfold extractOrgUsers, extractEngineeringTeam. cbn [org_users].
  - intros Hall.
    apply (fold_left_related processNode collectAll (fun st eng => fst st = eng)).
    + apply Forall_forall. intros r Hr a a' <-. apply processNode_allNamed.
      rewrite forallb_forall in Hall. apply Hall. apply list_elem_of_In. exact Hr.
    + reflexivity.
Qed.

(** Below a node without a name [extractOrgUsers] collects nothing, and
    [extractEngineeringTeam] does. *)
Example nameless_manager :
  org_users (extractOrgUsers sampleOrg) = ["ada lovelace"; "bob chen"] /\
  extractEngineeringTeam sampleOrg = ["ada lovelace"; "bob chen"; "carol diaz"] /\
  countTotalRDPeople sampleOrg = Ok 4%nat.
Proof. vm_compute. repeat split. Qed.

Lemma mapHas_keys {A} (k : string) (m : list (string * A)) :
  mapHas k m = true <-> k ∈ map fst m.
Proof.
  unfold mapHas. rewrite existsb_exists, list_elem_of_fmap. split.
  - intros (e & He & E). apply String.eqb_eq in E. exists e.
    split; [auto | apply list_elem_of_In; exact He].
  - intros (e & -> & He). exists e. split; [apply list_elem_of_In; exact He |].
    apply String.eqb_refl.
Qed.

Lemma mapAlter_keys {A} (f : A -> A) (k : string) (m : list (string * A)) :
  map fst (mapAlter f k m) = map fst m.
Proof.
  unfold mapAlter. rewrite List.map_map. apply List.map_ext. intros e.
  destruct (String.eqb (fst e) k); reflexivity.
Qed.

(** Setting a key of the map is adding it to the set of keys. *)
Lemma mapSet_keys {A} (k : string) (v : A) (m : list (string * A)) :
  map fst (mapSet k v m) = setAdd k (map fst m).
Proof.
  unfold mapSet, setAdd. destruct (mapHas k m) eqn:E.
  - rewrite mapAlter_keys. apply mapHas_keys in E. rewrite bool_decide_eq_true_2 by exact E.
    reflexivity.
  - rewrite bool_decide_eq_false_2.
    + rewrite List.map_app. reflexivity.
    + intros H. apply mapHas_keys in H. congruence.
Qed.

Lemma mapSet_Forall {A} (P : string * A -> Prop) (k : string) (v : A) (m : list (string * A)) :
  P (k, v) -> Forall P m -> Forall P (mapSet k v m).
Proof.
  intros Hkv Hm. unfold mapSet. destruct (mapHas k m).
  - unfold mapAlter. apply List.Forall_map. eapply Forall_impl; [exact Hm |].
    intros [k' v'] He. cbn [fst snd]. destruct (String.eqb_spec k' k) as [-> | _]; assumption.
  - apply Forall_app. split; [exact Hm |]. apply Forall_cons. split; [exact Hkv | constructor].
Qed.

Lemma processNode_details (node : OrgNode) :
  forall st,
    (map fst (snd st) = fst st /\ NoDup (fst st) /\
     Forall (fun e => fst e = normalizeText (originalName (snd e))) (snd st)) ->
    (map fst (snd (processNode st node)) = fst (processNode st node) /\
     NoDup (fst (processNode st node)) /\
     Forall (fun e => fst e = normalizeText (originalName (snd e))) (snd (processNode st node))).
Proof.
  assert (Hstep : forall st n username title,
    (map fst (snd st) = fst st /\ NoDup (fst st) /\
     Forall (fun e => fst e = normalizeText (originalName (snd e))) (snd st)) ->
    let st' := (setAdd (normalizeText n) (fst st),
                mapSet (normalizeText n)
                  {| originalName := n; od_username := username; od_title := title |}
                  (snd st)) in
    (map fst (snd st') = fst st' /\ NoDup (fst st') /\
     Forall (fun e => fst e = normalizeText (originalName (snd e))) (snd st'))).
  { intros st n username title (Hk & Hn & Hd). cbn [fst snd]. split; [| split].
    - rewrite mapSet_keys, Hk. reflexivity.
    - apply setAdd_NoDup. exact Hn.
    - apply mapSet_Forall; [reflexivity | exact Hd]. }
  induction node as [| name username title | name username title reports IH]
    using OrgNode_induction; intros st Hst; cbn [processNode].
  - exact Hst.
  - destruct (truthy name) as [n |]; [apply Hstep |]; exact Hst.
  - destruct (truthy name) as [n |]; [| exact Hst].
    apply (fold_left_invariant processNode
             (fun st => map fst (snd st) = fst st /\ NoDup (fst st) /\
                        Forall (fun e => fst e = normalizeText (originalName (snd e))) (snd st))).
    + eapply Forall_impl; [exact IH |]. intros r Hr a Ha. apply Hr. exact Ha.
    + apply Hstep. exact Hst.
Qed.

(** The keys of [userDetails] are the [users], in the same order and
    without repetition, and each key is the normalized form of the original
    name stored under it. *)
Theorem extractOrgUsers_details (organization : list OrgNode) :
  let r := extractOrgUsers organization in
  map fst (userDetails r) = org_users r /\ NoDup (org_users r) /\
  Forall (fun e => fst e = normalizeText (originalName (snd e))) (userDetails r).
Proof.
  cbn zeta. unfold extractOrgUsers. cbn [org_users userDetails].
  apply (fold_left_invariant processNode
           (fun st => map fst (snd st) = fst st /\ NoDup (fst st) /\
                      Forall (fun e => fst e = normalizeText (originalName (snd e))) (snd st))).
  - apply Forall_forall. intros r _ a Ha. apply processNode_details. exact Ha.
  - cbn. split; [reflexivity |]. split; constructor.
Qed.

Lemma list_sum_cons (x : nat) (l : list nat) : list_sum (x :: l) = (x + list_sum l)%nat.
Proof. reflexivity. Qed.

Lemma countPerson_reports (name username title : option string) (reports : list OrgNode)
    (count : nat) :
  countPerson (Person name username title (Some reports)) count = countPeople reports (S count).
Proof. reflexivity. Qed.

Lemma countPerson_counts (node : OrgNode) :
  forall count,
    countPerson node count
    = if noNull node then Ok (count + orgSize node)%nat
      else Throw (TypeError "Cannot read properties of null (reading 'directReports')").
Proof.
  induction node as [| name username title | name username title reports IH]
    using OrgNode_induction; intros count.
  - reflexivity.
  - cbn. f_equal. lia.
  - rewrite countPerson_reports. cbn [noNull orgSize].
    replace (count + S (list_sum (map orgSize reports)))%nat
      with (S count + list_sum (map orgSize reports))%nat by lia.
    generalize (S count). clear count.
    induction reports as [| r rest IHrest]; intros count.
    + cbn. f_equal. lia.
    + apply Forall_cons in IH as [Hr Hrest]. cbn [countPeople forallb map].
      rewrite list_sum_cons, Hr. destruct (noNull r); cbn [bind andb]; [| reflexivity].
      rewrite (IHrest Hrest). destruct (forallb noNull rest); [f_equal; lia | reflexivity].
Qed.

Lemma countPeople_counts (nodes : list OrgNode) (count : nat) :
  countPeople nodes count
  = if forallb noNull nodes then Ok (count + list_sum (map orgSize nodes))%nat
    else Throw (TypeError "Cannot read properties of null (reading 'directReports')").
Proof.
  revert count. induction nodes as [| r rest IH]; intros count.
  - cbn. f_equal. lia.
  - cbn [countPeople forallb map]. rewrite list_sum_cons, countPerson_counts.
    destruct (noNull r); cbn [bind andb]; [| reflexivity].
    rewrite IH. destruct (forallb noNull rest); [f_equal; lia | reflexivity].
Qed.

Lemma processNode_length (node : OrgNode) :
  forall st, (length (fst (processNode st node)) <= length (fst st) + orgSize node)%nat.
Proof.
  induction node as [| name username title | name username title reports IH]
    using OrgNode_induction; intros st; cbn [processNode orgSize].
  - lia.
  - destruct (truthy name) as [n |]; cbn [fst]; [| lia].
    pose proof (setAdd_length (normalizeText n) (fst st)). lia.
  - destruct (truthy name) as [n |]; [| lia].
    set (st' := (setAdd (normalizeText n) (fst st), _)).
    assert (H0 : (length (fst st') <= S (length (fst st)))%nat) by apply setAdd_length.
    clearbody st'.
    assert (Hfold : forall st0,
              (length (fst (fold_left processNode reports st0))
               <= length (fst st0) + list_sum (map orgSize reports))%nat).
    { clear st st' H0. induction reports as [| r rest IHrest]; intros st0.
      - cbn. lia.
      - apply Forall_cons in IH as [Hr Hrest]. cbn [fold_left map]. rewrite list_sum_cons.
        specialize (IHrest Hrest (processNode st0 r)). specialize (Hr st0). lia. }
    specialize (Hfold st'). lia.
Qed.

(** [countTotalRDPeople] counts every node of the tree, named or not, when
    no node is [null], and throws a TypeError otherwise; the names
    [extractOrgUsers] collects are never more than the nodes. *)
Theorem countTotalRDPeople_counts (organization : list OrgNode) :
  countTotalRDPeople organization
  = (if forallb noNull organization
     then Ok (list_sum (map orgSize organization))
     else Throw (TypeError "Cannot read properties of null (reading 'directReports')")) /\
  (length (org_users (extractOrgUsers organization))
   <= list_sum (map orgSize organization))%nat.
Proof.
  split.
  - unfold countTotalRDPeople. rewrite countPeople_counts. reflexivity.
  - unfold extractOrgUsers. cbn [org_users].
    assert (Hfold : forall st0,
              (length (fst (fold_left processNode organization st0))
               <= length (fst st0) + list_sum (map orgSize organization))%nat).
    { induction organization as [| r rest IH]; intros st0.
      - cbn. lia.
      - cbn [fold_left map]. rewrite list_sum_cons.
        specialize (IH (processNode st0 r)). pose proof (processNode_length r st0). lia. }
    apply (Hfold ([], [])).
Qed.

(** A roster with a [null] entry: the count throws, the extraction skips
    the entry. *)
Example null_entry :
  countTotalRDPeople [Person (Some "Ada") None None None; NullNode]
    = Throw (TypeError "Cannot read properties of null (reading 'directReports')") /\
  org_users (extractOrgUsers [Person (Some "Ada") None None None; NullNode]) = ["ada"].
Proof. vm_compute. split; reflexivity. Qed.

(* ===================================================================== *)
(** ** The engineering team and the statistics of the report              *)
(* ===================================================================== *)

Lemma filter_length_le {A} (p : A -> bool) (l : list A) :
  (length (List.filter p l) <= length l)%nat.
Proof. induction l as [| x l IH]; cbn; [lia | destruct (p x); cbn; lia]. Qed.

Lemma filter_length_impl {A} (p q : A -> bool) (l : list A) :
  (forall x, p x = true -> q x = true) ->
  (length (List.filter p l) <= length (List.filter q l))%nat.
Proof.
  intros Himp. induction l as [| x l IH]; cbn; [lia |].
  destruct (p x) eqn:Hp.
  - rewrite (Himp x Hp). cbn. lia.
  - destruct (q x); cbn; lia.
Qed.

Lemma filter_length_or {A} (p q : A -> bool) (l : list A) :
  (length (List.filter (fun x => p x || q x) l)
   <= length (List.filter p l) + length (List.filter q l))%nat.
Proof.
  induction l as [| x l IH]; cbn; [lia |].
  destruct (p x), (q x); cbn; lia.
Qed.

Lemma filter_filter_length {A} (p q : A -> bool) (l : list A) :
  (length (List.filter p (List.filter q l)) <= length (List.filter p l))%nat.
Proof.
  induction l as [| x l IH]; cbn; [lia |].
  destruct (q x); cbn; destruct (p x); cbn; lia.
Qed.

Lemma filter_filter_absorb {A} (p q : A -> bool) (l : list A) :
  (forall x, q x = true -> p x = true) ->
  List.filter p (List.filter q l) = List.filter q l.
Proof.
  intros Himp. induction l as [| x l IH]; cbn; [reflexivity |].
  destruct (q x) eqn:Hq; [| exact IH].
  cbn. rewrite (Himp x Hq), IH. reflexivity.
Qed.

Lemma existsb_eqb_elem (s : string) (l : list string) :
  existsb (String.eqb s) l = true <-> s ∈ l.
Proof.
  rewrite existsb_exists. split.
  - intros [x [Hin Heq]]. apply String.eqb_eq in Heq. subst x.
    apply list_elem_of_In. exact Hin.
  - intros Hin. exists s. split; [apply list_elem_of_In; exact Hin | apply String.eqb_refl].
Qed.

(** The inclusion test of both filters grows with the set of names. *)
Lemma inOrg_mono (NAME_VARIATIONS : gmap string (list string)) (user : LookupUser)
    (small large : list string) :
  (forall n, n ∈ small -> n ∈ large) ->
  existsb (String.eqb (normalizeText (name user))) small
  || matchUserByNameVariations NAME_VARIATIONS user small = true ->
  existsb (String.eqb (normalizeText (name user))) large
  || matchUserByNameVariations NAME_VARIATIONS user large = true.
Proof.
  intros Hsub H. apply orb_true_iff in H. apply orb_true_iff.
  destruct H as [H | H].
  - left. apply existsb_eqb_elem. apply Hsub. apply existsb_eqb_elem. exact H.
  - right. apply matchUserByNameVariations_true.
    apply matchUserByNameVariations_true in H.
    destruct H as [Hlen [orgName [Hin Hrest]]].
    split; [exact Hlen |]. exists orgName. split; [apply Hsub; exact Hin | exact Hrest].
Qed.

Lemma activeInEither_hasTools (copilotAnalysis : CopilotAnalysis)
    (cursorAnalysis : CursorAnalysis) (u : LookupUser) :
  activeInEither copilotAnalysis cursorAnalysis u = true -> hasTools u = true.
Proof.
  unfold activeInEither, hasTools.
  destruct (hasCopilot u), (hasCursor u); cbn; try reflexivity.
  discriminate.
Qed.

(** The counts of [calculateComprehensiveStats], for the engineering
    analysis of the same users: a weekly active user has a tool, the
    engineering counts stay within the counts over all users, the active
    individual contributors within the active engineers, and the total of
    the roster is the number of its nodes; the call throws exactly when
    the roster has a [null] node. *)
Theorem calculateComprehensiveStats_bounds (NAME_VARIATIONS : gmap string (list string))
    (users : list LookupUser) (organization : list OrgNode)
    (copilotAnalysis : CopilotAnalysis) (cursorAnalysis : CursorAnalysis) :
  match calculateComprehensiveStats users organization copilotAnalysis cursorAnalysis
          (analyzeEngineeringTeam NAME_VARIATIONS users organization) with
  | Ok stats =>
      forallb noNull organization = true /\
      totalRDPeople stats = list_sum (map orgSize organization) /\
      (weeklyActiveInEither stats <= usersWithTools stats <= usersInLookup stats)%nat /\
      (copilotUsers stats <= usersWithTools stats)%nat /\
      (cursorUsers stats <= usersWithTools stats)%nat /\
      (usersWithTools stats <= copilotUsers stats + cursorUsers stats)%nat /\
      (engineeringICsActiveWeekly stats <= engineeringActiveWeekly stats
       <= weeklyActiveInEither stats)%nat /\
      (engineeringActiveWeekly stats <= engineeringWithTools stats
       <= usersWithTools stats)%nat /\
      (engineeringICsActiveWeekly stats <= engineeringICsTotal stats
       <= usersInLookup stats)%nat
  | Throw e =>
      forallb noNull organization = false /\
      e = TypeError "Cannot read properties of null (reading 'directReports')"
  end.
Proof.
  unfold calculateComprehensiveStats, countTotalRDPeople.
  rewrite countPeople_counts.
  destruct (forallb noNull organization); cbn [bind]; [| split; reflexivity].
  cbn [totalRDPeople usersInLookup usersWithTools weeklyActiveInEither copilotUsers
       cursorUsers engineeringWithTools engineeringActiveWeekly engineeringICsTotal
       engineeringICsActiveWeekly analyzeEngineeringTeam allEngineering
       individualContributors].
  set (inEng := fun user : LookupUser => _ || _).
  set (active := activeInEither copilotAnalysis cursorAnalysis).
  pose proof (filter_length_impl active hasTools users
                (activeInEither_hasTools copilotAnalysis cursorAnalysis)) as H1.
  pose proof (filter_length_le hasTools users) as H2.
  pose proof (filter_length_impl hasCopilot hasTools users) as H3.
  pose proof (filter_length_impl hasCursor hasTools users) as H4.
  pose proof (filter_length_or hasCopilot hasCursor users) as H5.
  pose proof (filter_filter_length active isIndividualContributor
                (List.filter inEng users)) as H6.
  pose proof (filter_filter_length active inEng users) as H7.
  pose proof (filter_length_impl active hasTools (List.filter inEng users)
                (activeInEither_hasTools copilotAnalysis cursorAnalysis)) as H8.
  pose proof (filter_filter_length hasTools inEng users) as H9.
  pose proof (filter_length_le active
                (List.filter isIndividualContributor (List.filter inEng users))) as H10.
  pose proof (filter_length_le isIndividualContributor (List.filter inEng users)) as H13.
  pose proof (filter_length_le hasTools (List.filter inEng users)) as H14.
  pose proof (filter_length_le inEng users) as H15.
  assert (H3' := H3 ltac:(intros x Hx; unfold hasTools; rewrite Hx; reflexivity)).
  assert (H4' := H4 ltac:(intros x Hx; unfold hasTools; rewrite Hx; apply orb_true_r)).
  change (fun u : LookupUser => hasCopilot u || hasCursor u) with hasTools in H5.
  repeat split; lia.
Qed.

(** In [generateActiveUsersReport] the engineering analysis is run on the
    users already filtered to the roster: it keeps every one of them, so
    the engineering counts of the statistics repeat the counts over all
    users. *)
Theorem analyzeEngineeringTeam_keeps_org_users (NAME_VARIATIONS : gmap string (list string))
    (allUsers : list LookupUser) (organization : list OrgNode)
    (copilotAnalysis : CopilotAnalysis) (cursorAnalysis : CursorAnalysis) :
  allEngineering
    (analyzeEngineeringTeam NAME_VARIATIONS
       (usersInOrg NAME_VARIATIONS allUsers organization) organization)
  = usersInOrg NAME_VARIATIONS allUsers organization /\
  forall stats,
    calculateComprehensiveStats (usersInOrg NAME_VARIATIONS allUsers organization)
      organization copilotAnalysis cursorAnalysis
      (analyzeEngineeringTeam NAME_VARIATIONS
         (usersInOrg NAME_VARIATIONS allUsers organization) organization) = Ok stats ->
    engineeringWithTools stats = usersWithTools stats /\
    engineeringActiveWeekly stats = weeklyActiveInEither stats.
Proof.
  set (filteredUsers := usersInOrg NAME_VARIATIONS allUsers organization).
  set (engineeringAnalysis :=
         analyzeEngineeringTeam NAME_VARIATIONS filteredUsers organization).
  assert (Hall : allEngineering engineeringAnalysis = filteredUsers).
  { unfold engineeringAnalysis, analyzeEngineeringTeam. cbn [allEngineering].
    unfold filteredUsers, usersInOrg, filterUsersToOrg.
    apply filter_filter_absorb. intros user Huser.
    apply (inOrg_mono NAME_VARIATIONS user (org_users (extractOrgUsers organization))).
    - apply org_users_subset.
    - exact Huser. }
  split; [exact Hall |].
  clearbody engineeringAnalysis filteredUsers.
  intros stats. unfold calculateComprehensiveStats.
  destruct (countTotalRDPeople organization) as [total | e]; cbn [bind]; [| discriminate].
  intros [= <-]. cbn [engineeringWithTools usersWithTools engineeringActiveWeekly
                      weeklyActiveInEither].
  rewrite Hall. split; reflexivity.
Qed.

(** Two of the three users of the table are in the roster; both are kept
    as engineers and one is an individual contributor. *)
Example analyzeEngineeringTeam_sample :
  let users := usersInOrg (generateNameVariations nicknames) sampleUsers sampleOrg in
  let engineeringAnalysis :=
    analyzeEngineeringTeam (generateNameVariations nicknames) users sampleOrg in
  map name users = ["Ada Lovelace"; "Bob Chen"] /\
  map name (allEngineering engineeringAnalysis) = ["Ada Lovelace"; "Bob Chen"] /\
  map name (individualContributors engineeringAnalysis) = ["Bob Chen"] /\
  totalSize engineeringAnalysis = 3%nat.
Proof. vm_compute. repeat split. Qed.

(** ** fs.js: CSV files *)

Lemma freeOf_nil (p : ascii -> bool) : freeOf p EmptyString.
Proof. constructor. Qed.

Lemma freeOf_cons (p : ascii -> bool) (c : ascii) (s : string) :
  freeOf p (String c s) <-> p c = false /\ freeOf p s.
Proof.
  unfold freeOf. cbn [list_ascii_of_string]. split.
  - intros H. inversion H; subst. auto.
  - intros [H1 H2]. constructor; assumption.
Qed.

Lemma append_cons (c : ascii) (a b : string) : (String c a ++ b = String c (a ++ b))%string.
Proof. reflexivity. Qed.

Lemma append_nil (b : string) : (EmptyString ++ b = b)%string.
Proof. reflexivity. Qed.

Lemma freeOf_app (p : ascii -> bool) (a b : string) :
  freeOf p (a ++ b) <-> freeOf p a /\ freeOf p b.
Proof.
  induction a as [| c a IH].
  - rewrite append_nil. split; [intros H; split; [apply freeOf_nil | exact H] | intros [_ H]; exact H].
  - rewrite append_cons, !freeOf_cons, IH. tauto.
Qed.

Lemma replaceNewlines_cons (c : ascii) (r : string) :
  replaceNewlines (String c r)
  = if Ascii.eqb c LF then String " " (replaceNewlines r)
    else if Ascii.eqb c CR then
      match r with
      | String c' r' =>
          if Ascii.eqb c' LF then String " " (replaceNewlines r')
          else String c (replaceNewlines r)
      | EmptyString => String c EmptyString
      end
    else String c (replaceNewlines r).
Proof. destruct r; reflexivity. Qed.

Lemma replaceNewlines_free (s : string) :
  freeOf isLF (replaceNewlines s) /\ forall c, freeOf isLF (replaceNewlines (String c s)).
Proof.
  induction s as [| c' r IH].
  - split; [apply freeOf_nil |]. intros c. rewrite replaceNewlines_cons.
    destruct (Ascii.eqb c LF) eqn:E1; [apply freeOf_cons; split; [reflexivity | apply freeOf_nil] |].
    destruct (Ascii.eqb c CR); apply freeOf_cons; (split; [exact E1 | apply freeOf_nil]).
  - destruct IH as [IH1 IH2]. split; [apply IH2 |]. intros c.
    rewrite replaceNewlines_cons.
    destruct (Ascii.eqb c LF) eqn:E1.
    + apply freeOf_cons. split; [reflexivity | apply IH2].
    + destruct (Ascii.eqb c CR).
      * destruct (Ascii.eqb c' LF).
        -- apply freeOf_cons. split; [reflexivity | exact IH1].
        -- apply freeOf_cons. split; [exact E1 | apply IH2].
      * apply freeOf_cons. split; [exact E1 | apply IH2].
Qed.

Lemma replaceNewlines_id (s : string) : freeOf isLF s -> replaceNewlines s = s.
Proof.
  induction s as [| c r IH]; [reflexivity |]. intros H.
  apply freeOf_cons in H as [Hc Hr]. rewrite replaceNewlines_cons. unfold isLF in Hc. rewrite Hc.
  destruct (Ascii.eqb c CR).
  - destruct r as [| c' r']; [reflexivity |].
    pose proof Hr as Hr'. apply freeOf_cons in Hr' as [Hc' _]. unfold isLF in Hc'. rewrite Hc'.
    rewrite (IH Hr). reflexivity.
  - rewrite (IH Hr). reflexivity.
Qed.

Lemma replaceCommas_free (s : string) : freeOf isComma (replaceCommas s).
Proof.
  induction s as [| c r IH]; [apply freeOf_nil |]. cbn [replaceCommas].
  apply freeOf_cons. split; [| exact IH]. unfold isComma.
  destruct (Ascii.eqb c ",") eqn:E; [reflexivity | exact E].
Qed.

Lemma replaceCommas_keeps (s : string) : freeOf isLF s -> freeOf isLF (replaceCommas s).
Proof.
  induction s as [| c r IH]; [intros _; apply freeOf_nil |]. intros H.
  apply freeOf_cons in H as [Hc Hr]. cbn [replaceCommas]. apply freeOf_cons.
  split; [| exact (IH Hr)]. destruct (Ascii.eqb c ","); [reflexivity | exact Hc].
Qed.

Lemma replaceCommas_id (s : string) : freeOf isComma s -> replaceCommas s = s.
Proof.
  induction s as [| c r IH]; [reflexivity |]. intros H.
  apply freeOf_cons in H as [Hc Hr]. cbn [replaceCommas]. unfold isComma in Hc.
  rewrite Hc, (IH Hr). reflexivity.
Qed.

Lemma sanitize_free (v : string) : freeOf isComma (sanitize v) /\ freeOf isLF (sanitize v).
Proof.
  unfold sanitize. split; [apply replaceCommas_free |].
  apply replaceCommas_keeps, replaceNewlines_free.
Qed.

(** A sanitized value holds no comma and no line feed, and sanitizing it
    again changes nothing. *)
Theorem sanitize_clean (v : string) :
  freeOf isComma (sanitize v) /\ freeOf isLF (sanitize v) /\
  sanitize (sanitize v) = sanitize v.
Proof.
  destruct (sanitize_free v) as [Hc Hl]. split; [exact Hc |]. split; [exact Hl |].
  unfold sanitize at 1. rewrite (replaceNewlines_id _ Hl). apply replaceCommas_id. exact Hc.
Qed.

Lemma splitWhere_free (sep : ascii -> bool) (s : string) :
  freeOf sep s -> splitWhere sep s = [s].
Proof.
  induction s as [| c r IH]; [reflexivity |]. intros H.
  apply freeOf_cons in H as [Hc Hr]. cbn [splitWhere]. rewrite Hc, (IH Hr). reflexivity.
Qed.

Lemma splitWhere_app (sep : ascii -> bool) (a b : string) (c : ascii) :
  freeOf sep a -> sep c = true ->
  splitWhere sep (a ++ String c b) = a :: splitWhere sep b.
Proof.
  intros Ha Hc. induction a as [| x a IH].
  - rewrite append_nil. cbn [splitWhere]. rewrite Hc. reflexivity.
  - apply freeOf_cons in Ha as [Hx Ha]. rewrite append_cons. cbn [splitWhere].
    rewrite Hx, (IH Ha). reflexivity.
Qed.

(** Splitting a joined list at the separator gives the list back when no
    element holds the separator. *)
Lemma split_concat (sep : ascii -> bool) (c : ascii) (cells : list string) :
  sep c = true -> cells <> [] -> Forall (freeOf sep) cells ->
  splitWhere sep (String.concat (String c EmptyString) cells) = cells.
Proof.
  intros Hc Hne Hcells. induction cells as [| x rest IH]; [contradiction |].
  apply Forall_cons in Hcells as [Hx Hrest]. destruct rest as [| y rest'].
  - cbn [String.concat]. apply splitWhere_free. exact Hx.
  - change (String.concat (String c EmptyString) (x :: y :: rest'))
      with (x ++ String c EmptyString ++ String.concat (String c EmptyString) (y :: rest'))%string.
    change (String c EmptyString ++ String.concat (String c EmptyString) (y :: rest'))%string
      with (String c (String.concat (String c EmptyString) (y :: rest'))).
    rewrite (splitWhere_app sep x _ c Hx Hc). f_equal. apply IH; [discriminate | exact Hrest].
Qed.

Lemma freeOf_concat (p : ascii -> bool) (c : ascii) (cells : list string) :
  p c = false -> Forall (freeOf p) cells ->
  freeOf p (String.concat (String c EmptyString) cells).
Proof.
  intros Hc Hcells. induction cells as [| x rest IH]; [apply freeOf_nil |].
  apply Forall_cons in Hcells as [Hx Hrest]. destruct rest as [| y rest'].
  - exact Hx.
  - change (String.concat (String c EmptyString) (x :: y :: rest'))
      with (x ++ String c (String.concat (String c EmptyString) (y :: rest')))%string.
    apply freeOf_app. split; [exact Hx |]. apply freeOf_cons. split; [exact Hc |].
    apply IH. exact Hrest.
Qed.

(** Reading an export back: splitting the text [writeCSV] joins at line
    feeds and each line at commas gives the header and, for every row, its
    sanitized cells in header order; so every line has as many fields as the
    header has columns. *)
Theorem writeCSV_round_trip (header : list string) (rows : list CsvRow) :
  header <> [] -> Forall (fun h => freeOf isComma h /\ freeOf isLF h) header ->
  map (splitWhere isComma) (splitWhere isLF (csvBody header rows))
  = header :: map (fun r => map (csvCell r) header) rows.
Proof.
  intros Hne Hheader.
  assert (Hhc : Forall (freeOf isComma) header).
  { eapply Forall_impl; [exact Hheader |]. intros h [H _]. exact H. }
  assert (Hhl : Forall (freeOf isLF) header).
  { eapply Forall_impl; [exact Hheader |]. intros h [_ H]. exact H. }
  assert (Hcells : forall r, Forall (freeOf isComma) (map (csvCell r) header) /\
                             Forall (freeOf isLF) (map (csvCell r) header)).
  { intros r. split; apply List.Forall_map, Forall_forall; intros h _; apply sanitize_free. }
  assert (Hlines : Forall (freeOf isLF) (csvLines header rows)).
  { unfold csvLines. apply Forall_cons. split.
    - apply freeOf_concat; [reflexivity | exact Hhl].
    - apply List.Forall_map, Forall_forall. intros r _.
      apply freeOf_concat; [reflexivity | apply Hcells]. }
  unfold csvBody. rewrite (split_concat isLF LF);
    [| unfold isLF; apply Ascii.eqb_refl | discriminate | exact Hlines].
  unfold csvLines. cbn [map]. f_equal.
  - apply (split_concat isComma); [reflexivity | exact Hne | exact Hhc].
  - rewrite List.map_map. apply List.map_ext. intros r.
    apply (split_concat isComma); [reflexivity | | apply Hcells].
    destruct header; [contradiction | discriminate].
Qed.

Lemma writeCSV_round_trip_witness :
  map (splitWhere isComma) (splitWhere isLF (csvBody ["name"; "role"; "email"] [messyRow]))
  = [ ["name"; "role"; "email"]; ["Chen  Bob"; "Engineer Lead"; ""] ].
Proof.
  rewrite (writeCSV_round_trip ["name"; "role"; "email"] [messyRow]).
  - reflexivity.
  - discriminate.
  - repeat constructor.
Defined.

(** ** fs.js: directories and written files *)

Lemma lookupPath_file (q : Path) (content : FileContent) (n : FsNode) :
  lookupPath q (File content) = Some n -> q = [].
Proof. destruct q; [reflexivity | discriminate]. Qed.

(** [mkdir -p] keeps every file. *)
Lemma mkdirAt_keeps (p : Path) :
  forall (n n' : FsNode) (q : Path) (content : FileContent),
    mkdirAt p n = Some n' -> lookupPath q n = Some (File content) ->
    lookupPath q n' = Some (File content).
Proof.
  induction p as [| c p IH]; intros n n' q content Hm Hq.
  - destruct n as [content' | es]; cbn in Hm; [discriminate |]. injection Hm as <-. exact Hq.
  - destruct n as [content' | es]; cbn [mkdirAt] in Hm; [discriminate |].
    destruct (mkdirAt p (default (Dir []) (entry c es))) as [child' |] eqn:Em; [| discriminate].
    injection Hm as <-. destruct q as [| c1 q']; [discriminate |].
    rewrite lookupPath_cons in Hq. rewrite lookupPath_cons.
    destruct (String.eqb_spec c c1) as [<- | Hne].
    + rewrite entry_setEntry_eq. destruct (entry c es) as [child |]; [| discriminate].
      exact (IH _ _ _ _ Em Hq).
    + rewrite entry_setEntry_ne by exact Hne. exact Hq.
Qed.

(** Writing a file keeps every other file. *)
Lemma writeAt_keeps (p : Path) (written : FileContent) :
  forall (n n' : FsNode) (q : Path) (content : FileContent),
    writeAt p written n = Some n' -> q <> p -> lookupPath q n = Some (File content) ->
    lookupPath q n' = Some (File content).
Proof.
  induction p as [| c p IH]; intros n n' q content Hw Hne Hq; [destruct n; discriminate |].
  destruct n as [content' | es]; [rewrite writeAt_file in Hw; discriminate |].
  destruct q as [| c1 q']; [discriminate |].
  rewrite lookupPath_cons in Hq.
  destruct p as [| c' p'].
  - rewrite writeAt_one in Hw.
    destruct (String.eqb_spec c c1) as [<- | Hc].
    + destruct (entry c es) as [[content0 | sub] |]; try discriminate.
      apply lookupPath_file in Hq as Hq'. subst q'. contradiction.
    + assert (Hn' : n' = Dir (setEntry c (File written) es)).
      { destruct (entry c es) as [[content0 | sub] |]; congruence. }
      subst n'. rewrite lookupPath_cons, entry_setEntry_ne by exact Hc. exact Hq.
  - rewrite writeAt_cons in Hw. destruct (entry c es) as [child |] eqn:Ec; [| discriminate].
    destruct (writeAt (c' :: p') written child) as [child' |] eqn:Ew; [| discriminate].
    injection Hw as <-. rewrite lookupPath_cons.
    destruct (String.eqb_spec c c1) as [<- | Hc].
    + rewrite entry_setEntry_eq. rewrite Ec in Hq.
      apply (IH _ _ _ _ Ew); [congruence | exact Hq].
    + rewrite entry_setEntry_ne by exact Hc. exact Hq.
Qed.

Lemma ensureDir_keeps (p q : Path) (content : FileContent) (w : World) :
  lookupPath q (fs w) = Some (File content) ->
  lookupPath q (fs (snd (ensureDir p w))) = Some (File content).
Proof.
  intros Hq. unfold ensureDir. rewrite io_bind_unfold, existsSync_eq.
  destruct (bool_decide (is_Some (lookupPath p (fs w)))); cbn [negb]; [exact Hq |].
  unfold mkdirSync. destruct (mkdirAt p (fs w)) as [n |] eqn:Em; [| exact Hq].
  cbn [snd fs setFs]. exact (mkdirAt_keeps _ _ _ _ _ Em Hq).
Qed.

(** [ensureDir]: when it returns, the directory exists, calling it again
    changes nothing, an existing directory is left as it is, and every file
    is kept; it throws only when the path cannot be made, and then nothing
    has changed. *)
Theorem ensureDir_makes_directory (p : Path) (w : World) :
  match ensureDir p w with
  | (Ok _, w') =>
      is_Some (lookupPath p (fs w')) /\ ensureDir p w' = (Ok tt, w') /\
      (is_Some (lookupPath p (fs w)) -> w' = w) /\
      (forall q content, lookupPath q (fs w) = Some (File content) ->
                         lookupPath q (fs w') = Some (File content))
  | (Throw _, w') => w' = w /\ lookupPath p (fs w) = None
  end.
Proof.
  unfold ensureDir. rewrite io_bind_unfold, existsSync_eq.
  destruct (bool_decide (is_Some (lookupPath p (fs w)))) eqn:Ex; cbn [negb].
  - apply bool_decide_eq_true in Ex. unfold ret at 1. split; [exact Ex |]. split.
    + rewrite io_bind_unfold, existsSync_eq, bool_decide_eq_true_2 by exact Ex. reflexivity.
    + split; [reflexivity | auto].
  - apply bool_decide_eq_false in Ex. unfold mkdirSync.
    destruct (mkdirAt p (fs w)) as [n |] eqn:Em.
    + assert (Hn : is_Some (lookupPath p n)) by (rewrite (mkdirAt_creates _ _ _ Em); eauto).
      cbn [fs setFs]. split; [exact Hn |]. split; [| split].
      * rewrite io_bind_unfold, existsSync_eq. cbn [fs setFs].
        rewrite bool_decide_eq_true_2 by exact Hn. reflexivity.
      * intros H. contradiction.
      * intros q content Hq. exact (mkdirAt_keeps _ _ _ _ _ Em Hq).
    + split; [reflexivity |]. destruct (lookupPath p (fs w)); [exfalso; apply Ex; eauto | reflexivity].
Qed.

(** [writeCSV]: when it returns, reading the file gives the byte-order mark
    and the joined lines; whether it returns or throws, every other file is
    kept. *)
Theorem writeCSV_then_read (file : Path) (header : list string) (rows : list CsvRow)
    (w : World) :
  (forall w', writeCSV file header rows w = (Ok tt, w') ->
     readFileSync file w' = (Ok (Text (String.app BOM (csvBody header rows))), w')) /\
  (forall q content, q <> file -> lookupPath q (fs w) = Some (File content) ->
     lookupPath q (fs (snd (writeCSV file header rows w))) = Some (File content)).
Proof.
  unfold writeCSV. rewrite io_bind_unfold.
  assert (Hkeep : forall q content, lookupPath q (fs w) = Some (File content) ->
            lookupPath q (fs (snd (ensureDir (removelast file) w))) = Some (File content))
    by (intros q content; apply ensureDir_keeps).
  destruct (ensureDir (removelast file) w) as [[[] | e] w1]; cbn [snd] in Hkeep.
  - unfold writeFileSync.
    destruct (writeAt file _ (fs w1)) as [n' |] eqn:Ew.
    + split.
      * intros w' [= <-]. unfold readFileSync. cbn [fs setFs].
        rewrite (writeAt_lookup _ _ _ _ Ew). reflexivity.
      * intros q content Hne Hq. cbn [snd fs setFs].
        exact (writeAt_keeps _ _ _ _ _ _ Ew Hne (Hkeep _ _ Hq)).
    + split; [discriminate |]. intros q content _ Hq. cbn [snd]. exact (Hkeep _ _ Hq).
  - split; [discriminate |]. intros q content _ Hq. cbn [snd]. exact (Hkeep _ _ Hq).
Qed.

(** An export into a directory that does not exist yet. *)
Example writeCSV_creates_directory :
  fst (writeCSV ["output"; "csv"; "cursor"; "cursor_team_members.csv"]
         ["name"; "role"; "email"] [messyRow] (frozenWorld 0)) = Ok tt.
Proof. vm_compute. reflexivity. Qed.

(** ** prompt.js: several files *)

Lemma existingOf_eq (files : list (Path * string)) (w : World) :
  existingOf files w
  = (Ok (List.filter (fun f => bool_decide (is_Some (lookupPath (fst f) (fs w)))) files), w).
Proof.
  induction files as [| file rest IH]; [reflexivity |].
  cbn [existingOf List.filter]. rewrite io_bind_unfold, existsSync_eq, io_bind_unfold, IH.
  unfold ret. destruct (bool_decide _); reflexivity.
Qed.

Lemma statAll_existing (files : list (Path * string)) (w : World) :
  Forall (fun f => is_Some (lookupPath (fst f) (fs w))) files -> statAll files w = (Ok tt, w).
Proof.
  induction files as [| file rest IH]; intros H; [reflexivity |].
  apply Forall_cons in H as [[n Hn] Hrest]. cbn [statAll].
  rewrite io_bind_unfold. unfold statSync at 1. rewrite Hn. apply IH. exact Hrest.
Qed.

(** [checkAndPromptMultipleOverwrite] never changes a file; when none of the
    files exists it returns true without asking; when some exist it asks
    once, however many there are, and returns whether the trimmed answer is
    "y" or "yes" in any case of letters. *)
Theorem checkAndPromptMultipleOverwrite_asks_once (files : list (Path * string)) (w : World) :
  let run := checkAndPromptMultipleOverwrite files w in
  fs (snd run) = fs w /\
  (Forall (fun f => lookupPath (fst f) (fs w) = None) files -> run = (Ok true, w)) /\
  (Exists (fun f => is_Some (lookupPath (fst f) (fs w))) files ->
   forall answer rest, answers w = answer :: rest ->
     fst run = Ok (accepts (trim answer)) /\ answers (snd run) = rest /\
     length (prompts (snd run)) = S (length (prompts w))).
Proof.
  cbn zeta. unfold checkAndPromptMultipleOverwrite. rewrite io_bind_unfold, existingOf_eq.
  set (existing := List.filter _ files).
  assert (Hex : Forall (fun f => is_Some (lookupPath (fst f) (fs w))) existing).
  { apply Forall_forall. intros f Hf. apply list_elem_of_In, List.filter_In in Hf as [_ Hf].
    apply bool_decide_eq_true in Hf. exact Hf. }
  destruct existing as [| first others] eqn:Ee.
  - split; [reflexivity |]. split; [reflexivity |]. intros Hsome. exfalso.
    apply Exists_exists in Hsome as (f & Hf & Hs).
    assert (Hin : In f (List.filter
                     (fun f => bool_decide (is_Some (lookupPath (fst f) (fs w)))) files)).
    { apply List.filter_In. split; [apply list_elem_of_In; exact Hf |].
      apply bool_decide_eq_true_2. exact Hs. }
    fold existing in Hin. rewrite Ee in Hin. inversion Hin.
  - rewrite io_bind_unfold, (statAll_existing _ _ Hex), io_bind_unfold.
    unfold promptUser. destruct (answers w) as [| answer rest] eqn:Ea.
    + split; [reflexivity |]. split.
      * intros Hnone. exfalso. apply Forall_cons in Hex as [[n Hn] _].
        assert (Hin : In first existing) by (rewrite Ee; left; reflexivity).
        apply List.filter_In in Hin as [Hin _].
        rewrite Forall_forall in Hnone. specialize (Hnone first (proj2 (list_elem_of_In _ _) Hin)).
        congruence.
      * intros _ a r [=].
    + split; [reflexivity |]. split.
      * intros Hnone. exfalso. apply Forall_cons in Hex as [[n Hn] _].
        assert (Hin : In first existing) by (rewrite Ee; left; reflexivity).
        apply List.filter_In in Hin as [Hin _].
        rewrite Forall_forall in Hnone. specialize (Hnone first (proj2 (list_elem_of_In _ _) Hin)).
        congruence.
      * intros _ a r [= <- <-]. cbn [fst snd answers prompts]. unfold ret.
        cbn [fst snd answers prompts]. rewrite length_app. cbn [length].
        split; [reflexivity |]. split; [reflexivity | lia].
Qed.

(** ** util.js: chunkRange *)

Lemma chunkLoop_steps (max b : Z) :
  1 <= max -> b + msPerDay <= 8640000000000000 ->
  forall (n : nat) (s : Z) (out : list (Date * Date)),
    - 8640000000000000 <= s -> s <= b -> b - s < Z.of_nat n * (max * msPerDay) ->
    exists chunks,
      Chunked max b s chunks /\
      forall fuel, (S n <= fuel)%nat ->
        chunkLoop fuel (DateOf s) (DateOf b) max out = Some (out ++ chunks).
Proof.
  intros Hmax Hb. unfold msPerDay in *.
  induction n as [| n IH]; intros s out Hs Hsb Hn; [lia |].
  destruct (Z_lt_le_dec b (s + max * 86400000)) as [Hlast | Hmore].
  - exists [(DateOf s, DateOf (Z.min b (s + (max - 1) * msPerDay)))]. split.
    + apply Chunked_last; unfold msPerDay; lia.
    + intros fuel Hfuel. destruct fuel as [| [| fuel]]; try lia.
      cbn [chunkLoop date_ge]. rewrite (proj2 (Z.leb_le s b)) by exact Hsb.
      rewrite TimeClip_valid by (unfold msPerDay; lia).
      rewrite TimeClip_valid by (unfold msPerDay; lia).
      cbn [date_ge]. rewrite (proj2 (Z.leb_gt _ _)) by (unfold msPerDay; lia). reflexivity.
  - destruct (IH (s + max * 86400000) (out ++ [(DateOf s, DateOf (s + (max - 1) * msPerDay))]))
      as (rest & Hrest & Hrun); [lia | lia | lia |].
    exists ((DateOf s, DateOf (s + (max - 1) * msPerDay)) :: rest). split.
    + apply Chunked_step; unfold msPerDay; [lia | exact Hrest].
    + intros fuel Hfuel. destruct fuel as [| fuel]; [lia |].
      cbn [chunkLoop date_ge]. rewrite (proj2 (Z.leb_le s b)) by exact Hsb.
      rewrite Z.min_r by (unfold msPerDay; lia).
      rewrite TimeClip_valid by (unfold msPerDay; lia).
      rewrite TimeClip_valid by (unfold msPerDay; lia).
      replace (s + (max - 1) * msPerDay + msPerDay) with (s + max * 86400000)
        by (unfold msPerDay; lia).
      rewrite Hrun by lia. rewrite <- app_assoc. reflexivity.
Qed.

Lemma Chunked_last_end (max b : Z) :
  1 <= max ->
  forall (s : Z) (chunks : list (Date * Date)),
    Chunked max b s chunks ->
    exists sl el, last chunks = Some (DateOf sl, DateOf el) /\
                  s <= sl /\ sl <= el /\ el <= b /\ b - msPerDay < el /\
                  ((msPerDay | b - s) -> el = b).
Proof.
  intros Hmax s chunks H. induction H as [s Hs Hb | s rest Hs Hrest IH].
  - exists s, (Z.min b (s + (max - 1) * msPerDay)). split; [reflexivity |].
    unfold msPerDay in *. repeat split; try lia.
    intros [k Hk]. lia.
  - destruct IH as (sl & el & Hl & H1 & H2 & H3 & H4 & H5).
    exists sl, el. split.
    + destruct rest as [| c rest']; [discriminate |]. exact Hl.
    + unfold msPerDay in *. repeat split; try lia.
      intros [k Hk]. apply H5. exists (k - max). lia.
Qed.

(** [chunkRange] with [max >= 1], from a valid start to a valid end that is
    not before it: the loop ends, and its chunks start at [start], follow
    one another day after day, have [max] days each but the last, and the
    last chunk ends less than a day before [end], at [end] itself when the
    range is a whole number of days. *)
Theorem chunkRange_covers (a b max : Z) :
  1 <= max -> - 8640000000000000 <= a -> a <= b -> b + msPerDay <= 8640000000000000 ->
  exists (fuel : nat) (chunks : list (Date * Date)),
    (forall fuel', (fuel <= fuel')%nat ->
       chunkRange fuel' (DateOf a) (DateOf b) max = Some chunks) /\
    Chunked max b a chunks /\
    exists sl el, last chunks = Some (DateOf sl, DateOf el) /\
                  sl <= el /\ el <= b /\ b - msPerDay < el /\
                  ((msPerDay | b - a) -> el = b).
Proof.
  intros Hmax Ha Hab Hb.
  destruct (chunkLoop_steps max b Hmax Hb (Z.to_nat (b - a + 1)) a [] Ha Hab)
    as (chunks & Hc & Hrun).
  { unfold msPerDay. nia. }
  exists (S (Z.to_nat (b - a + 1))), chunks. split; [| split].
  - intros fuel' Hf. unfold chunkRange. rewrite (Hrun fuel' Hf). reflexivity.
  - exact Hc.
  - destruct (Chunked_last_end max b Hmax a chunks Hc) as (sl & el & Hl & _ & H2 & H3 & H4 & H5).
    exists sl, el. auto.
Qed.

(** A range of 200 days in chunks of 90: three chunks. *)
Lemma chunkRange_covers_witness :
  exists (fuel : nat) (chunks : list (Date * Date)),
    (forall fuel', (fuel <= fuel')%nat ->
       chunkRange fuel' (DateOf 0) (DateOf (199 * msPerDay)) 90 = Some chunks) /\
    Chunked 90 (199 * msPerDay) 0 chunks /\
    exists sl el, last chunks = Some (DateOf sl, DateOf el) /\
                  sl <= el /\ el <= 199 * msPerDay /\ 199 * msPerDay - msPerDay < el /\
                  ((msPerDay | 199 * msPerDay - 0) -> el = 199 * msPerDay).
Proof.
  apply (chunkRange_covers 0 (199 * msPerDay) 90); unfold msPerDay; lia.
Defined.

Example chunkRange_200_days :
  chunkRange 4 (DateOf 0) (DateOf (199 * msPerDay)) 90
  = Some [ (DateOf 0, DateOf (89 * msPerDay));
           (DateOf (90 * msPerDay), DateOf (179 * msPerDay));
           (DateOf (180 * msPerDay), DateOf (199 * msPerDay)) ].
Proof. vm_compute. reflexivity. Qed.

(** With [max = 0] every chunk ends the day before it starts and the next
    one starts where it started: the loop never ends. *)
Theorem chunkRange_zero_never_returns (a b : Z) (fuel : nat) :
  - 8640000000000000 + msPerDay <= a -> a <= b -> b <= 8640000000000000 ->
  chunkRange fuel (DateOf a) (DateOf b) 0 = None.
Proof.
  intros Ha Hab Hb. unfold chunkRange. generalize (@nil (Date * Date)).
  induction fuel as [| fuel IH]; intros out; [reflexivity |].
  cbn [chunkLoop date_ge]. rewrite (proj2 (Z.leb_le a b)) by exact Hab.
  rewrite Z.min_r by (unfold msPerDay; lia).
  rewrite TimeClip_valid by (unfold msPerDay in *; lia).
  replace (a + (0 - 1) * msPerDay + msPerDay) with a by lia.
  rewrite TimeClip_valid by (unfold msPerDay in *; lia). apply IH.
Qed.

Lemma chunkRange_zero_never_returns_witness :
  chunkRange 1000 (DateOf 0) (DateOf msPerDay) 0 = None.
Proof. apply chunkRange_zero_never_returns; unfold msPerDay; lia. Defined.

(** ** util.js: the latest monthly activity file *)

Lemma compareStrings_le (a b : string) :
  compareStrings a b <= 0 <-> String.compare a b <> Gt.
Proof. unfold compareStrings. destruct (String.compare a b); split; intros H; (lia || congruence). Qed.

Lemma compareStrings_total (a b : string) :
  compareStrings a b <= 0 \/ compareStrings b a <= 0.
Proof.
  rewrite !compareStrings_le, (String.compare_antisym b a).
  destruct (String.compare a b); cbn; [left | left | right]; discriminate.
Qed.

Lemma compareStrings_trans (a b c : string) :
  compareStrings a b <= 0 -> compareStrings b c <= 0 -> compareStrings a c <= 0.
Proof.
  rewrite !compareStrings_le. intros Hab Hbc.
  destruct (String.compare a b) eqn:Eab; [| | congruence].
  - apply String.compare_eq_iff in Eab. subst b. exact Hbc.
  - destruct (String.compare b c) eqn:Ebc; [| | congruence].
    + apply String.compare_eq_iff in Ebc. subst c. rewrite Eab. discriminate.
    + change (String.compare a b) with (OrderedTypeEx.String_as_OT.cmp a b) in Eab.
      change (String.compare b c) with (OrderedTypeEx.String_as_OT.cmp b c) in Ebc.
      apply OrderedTypeEx.String_as_OT.cmp_lt in Eab, Ebc.
      pose proof (OrderedTypeEx.String_as_OT.lt_trans _ _ _ Eab Ebc) as Hac.
      apply OrderedTypeEx.String_as_OT.cmp_lt in Hac.
      change (OrderedTypeEx.String_as_OT.cmp a c) with (String.compare a c) in Hac.
      rewrite Hac. discriminate.
Qed.

Section Sorting.
  Context {A : Type} (compare : A -> A -> Z).
  Hypothesis total : forall a b, compare a b <= 0 \/ compare b a <= 0.
  Hypothesis trans : forall a b c, compare a b <= 0 -> compare b c <= 0 -> compare a c <= 0.

Lemma insertSorted_contains (x y : A) (l : list A) :
  y = x \/ y ∈ l -> y ∈ insertSorted compare x l.
Proof.
  induction l as [| z l IH]; cbn [insertSorted].
  - intros [-> | H]; [left | inversion H].
  - destruct (compare x z <=? 0).
    + intros [-> | H]; [left | right; exact H].
    + intros [-> | H]; [right; apply IH; auto |].
      apply elem_of_cons in H as [-> | H]; [left | right; apply IH; auto].
Qed.

Lemma sortBy_contains (y : A) (l : list A) : y ∈ l -> y ∈ sortBy compare l.
Proof.
  induction l as [| x l IH]; [auto |]. intros H. cbn [sortBy fold_right].
  fold (sortBy compare l). apply insertSorted_contains.
  apply elem_of_cons in H as [-> | H]; auto.
Qed.

(** Every element is at most the last element of the sorted list. *)
Lemma insertSorted_last (x d : A) (l : list A) :
  (forall y, y ∈ l -> compare y (List.last l d) <= 0) ->
  forall y, y ∈ insertSorted compare x l ->
            compare y (List.last (insertSorted compare x l) d) <= 0.
Proof.
  assert (refl : forall a, compare a a <= 0) by (intros a; destruct (total a a); assumption).
  induction l as [| z l IH]; intros Hl y Hy; cbn [insertSorted] in *.
  - apply list_elem_of_singleton in Hy as ->. apply refl.
  - destruct (Z.leb_spec (compare x z) 0) as [Hxz | Hxz].
    + change (List.last (x :: z :: l) d) with (List.last (z :: l) d).
      apply elem_of_cons in Hy as [-> | Hy]; [| apply Hl; exact Hy].
      apply (trans _ z); [exact Hxz | apply Hl; left].
    + destruct l as [| z' l'].
      * cbn [insertSorted List.last] in *.
        assert (Hzx : compare z x <= 0) by (destruct (total z x); [assumption | lia]).
        apply elem_of_cons in Hy as [-> | Hy]; [exact Hzx |].
        apply list_elem_of_singleton in Hy as ->. apply refl.
      * assert (Hrest : forall y, y ∈ z' :: l' -> compare y (List.last (z' :: l') d) <= 0).
        { intros y' Hy'. apply (Hl y'). right. exact Hy'. }
        specialize (IH Hrest).
        assert (Hne : insertSorted compare x (z' :: l') <> []).
        { cbn [insertSorted]. destruct (compare x z' <=? 0); discriminate. }
        destruct (insertSorted compare x (z' :: l')) as [| i0 irest] eqn:Ei; [contradiction |].
        change (List.last (z :: i0 :: irest) d) with (List.last (i0 :: irest) d).
        apply elem_of_cons in Hy as [-> | Hy]; [| apply IH; exact Hy].
        (* z is at most the old last, which is in the new list *)
        apply (trans _ (List.last (z' :: l') d)); [apply (Hl z); left |].
        apply IH. rewrite <- Ei. apply insertSorted_contains. right.
        clear. generalize z'. induction l' as [| a l IH]; intros z0; [left |].
        right. apply IH.
Qed.

Lemma sortBy_last (d : A) (l : list A) :
  forall y, y ∈ sortBy compare l -> compare y (List.last (sortBy compare l) d) <= 0.
Proof.
  induction l as [| x l IH]; intros y Hy; [inversion Hy |].
  cbn [sortBy fold_right] in *. fold (sortBy compare l) in *.
  apply insertSorted_last; assumption.
Qed.

End Sorting.

Lemma entry_of_name (name : string) (es : list (string * FsNode)) :
  name ∈ map fst es -> is_Some (entry name es).
Proof.
  intros H. unfold entry.
  destruct (List.find (fun e => String.eqb (fst e) name) es) as [e |] eqn:Ef; [eauto |].
  exfalso. apply list_elem_of_fmap in H as (e & -> & He).
  pose proof (List.find_none _ _ Ef e (proj1 (list_elem_of_In _ _) He)) as Hn.
  cbn in Hn. rewrite String.eqb_refl in Hn. discriminate.
Qed.

Lemma readdirSync_names (dir : Path) (w w' : World) (names : list string) :
  readdirSync dir w = (Ok names, w') ->
  w' = w /\ forall name, name ∈ names -> is_Some (lookupPath (dir ++ [name]) (fs w)).
Proof.
  unfold readdirSync. destruct (lookupPath dir (fs w)) as [[content | es] |] eqn:El;
    intros [= <- <-]. split; [reflexivity |]. intros name Hn.
  rewrite lookupPath_app, El. cbn. apply entry_of_name in Hn as [child Hc].
  rewrite Hc. eauto.
Qed.

Lemma last_default {A} (d1 d2 : A) (l : list A) : l <> [] -> List.last l d1 = List.last l d2.
Proof.
  induction l as [| x l IH]; [contradiction |]. intros _.
  destruct l as [| y l']; [reflexivity |].
  change (List.last (x :: y :: l') d1) with (List.last (y :: l') d1).
  change (List.last (x :: y :: l') d2) with (List.last (y :: l') d2).
  apply IH. discriminate.
Qed.

Lemma lastOf_last {A} (first d : A) (others : list A) :
  lastOf first others = List.last (first :: others) d.
Proof.
  unfold lastOf. destruct others as [| x others]; [reflexivity |].
  change (List.last (first :: x :: others) d) with (List.last (x :: others) d).
  apply last_default. discriminate.
Qed.

(** The last name of the sorted list is one of the names and no name is
    above it. *)
Lemma sortNames_latest (names : list string) (first : string) (others : list string) :
  sortNames names = first :: others ->
  lastOf first others ∈ names /\
  forall other, other ∈ names -> compareStrings other (lastOf first others) <= 0.
Proof.
  intros Es. split.
  - apply (sortBy_elem compareStrings). fold (sortNames names). rewrite Es. apply lastOf_elem.
  - intros other Ho. rewrite (lastOf_last first EmptyString), <- Es.
    apply (sortBy_last compareStrings compareStrings_total compareStrings_trans).
    apply sortBy_contains. exact Ho.
Qed.

(** A legacy directory with a monthly file takes precedence over the dated
    layout: the file discovered is the one of that directory whose name is
    last in the order of strings. *)
Theorem discoverLatestMonthlyActivity_legacy_first (w : World)
    (es : list (string * FsNode)) :
  lookupPath (cursorBaseDir ++ ["monthly-activity"]) (fs w) = Some (Dir es) ->
  List.filter isLegacyMonthly (map fst es) <> [] ->
  exists name,
    discoverLatestMonthlyActivity w
      = (Ok (Some (cursorBaseDir ++ ["monthly-activity"; name])), w) /\
    name ∈ map fst es /\ isLegacyMonthly name = true /\
    forall other, other ∈ map fst es -> isLegacyMonthly other = true ->
                  compareStrings other name <= 0.
Proof.
  intros Hdir Hsome. unfold discoverLatestMonthlyActivity.
  rewrite io_bind_unfold. cbn [firstLegacy].
  rewrite io_bind_unfold, existsSync_eq, Hdir.
  rewrite bool_decide_eq_true_2 by eauto. cbn [negb].
  rewrite io_bind_unfold. unfold readdirSync at 1. rewrite Hdir.
  destruct (sortNames (List.filter isLegacyMonthly (map fst es))) as [| first others] eqn:Es.
  { exfalso. apply Hsome. apply (f_equal (@length string)) in Es.
    unfold sortNames in Es. rewrite sortBy_length in Es.
    destruct (List.filter isLegacyMonthly (map fst es)); [reflexivity | discriminate]. }
  destruct (sortNames_latest _ _ _ Es) as [Hin Hmax].
  apply list_elem_of_In, List.filter_In in Hin as [Hin Hf].
  exists (lastOf first others). split; [| split; [| split]].
  - unfold ret. rewrite <- app_assoc. reflexivity.
  - apply list_elem_of_In. exact Hin.
  - exact Hf.
  - intros other Ho Hfo. apply Hmax. apply list_elem_of_In, List.filter_In.
    split; [apply list_elem_of_In; exact Ho | exact Hfo].
Qed.

Lemma discoverLatestMonthlyActivity_legacy_first_witness :
  exists name,
    discoverLatestMonthlyActivity legacyWorld
      = (Ok (Some (cursorBaseDir ++ ["monthly-activity"; name])), legacyWorld) /\
    name ∈ ["monthly-report_2024-01.json"; "monthly-activity_2024-02.json"; "notes.txt"] /\
    isLegacyMonthly name = true /\
    forall other,
      other ∈ ["monthly-report_2024-01.json"; "monthly-activity_2024-02.json"; "notes.txt"] ->
      isLegacyMonthly other = true -> compareStrings other name <= 0.
Proof.
  apply (discoverLatestMonthlyActivity_legacy_first legacyWorld
           [ ("monthly-report_2024-01.json", File (Json (ActivityDoc (Some []))));
             ("monthly-activity_2024-02.json", File (Json (ActivityDoc (Some []))));
             ("notes.txt", File (Text "")) ]).
  - reflexivity.
  - vm_compute. discriminate.
Defined.

Example legacy_report_wins :
  fst (discoverLatestMonthlyActivity legacyWorld)
  = Ok (Some ["data"; "cursor"; "monthly-activity"; "monthly-report_2024-01.json"]).
Proof. vm_compute. reflexivity. Qed.

Lemma leaves_eq {A} (m : IO A) (w w' : World) (r : Result A) :
  leavesWorld m -> m w = (r, w') -> w' = w.
Proof. intros Hm E. specialize (Hm w). rewrite E in Hm. exact Hm. Qed.

Lemma firstLegacy_exists (dirs : list Path) (w w' : World) (p : Path) :
  firstLegacy dirs w = (Ok (Some p), w') -> is_Some (lookupPath p (fs w)).
Proof.
  induction dirs as [| dir rest IH]; cbn [firstLegacy]; intros H; [discriminate |].
  apply io_bind_ok in H as (found & w1 & Hf & H). rewrite existsSync_eq in Hf.
  injection Hf as <- <-.
  destruct (bool_decide _); cbn [negb] in H; [| exact (IH H)].
  apply io_bind_ok in H as (names & w2 & Hr & H).
  apply readdirSync_names in Hr as [-> Hnames].
  destruct (sortNames _) as [| first others] eqn:Es; [exact (IH H) |].
  unfold ret in H. injection H as <- _.
  apply Hnames. destruct (sortNames_latest _ _ _ Es) as [Hin _].
  apply list_elem_of_In, List.filter_In in Hin as [Hin _]. apply list_elem_of_In. exact Hin.
Qed.

Lemma monthFiles_exist (yearDir : Path) (months : list string) :
  forall w l w', monthFiles yearDir months w = (Ok l, w') ->
                 forall p, p ∈ l -> is_Some (lookupPath p (fs w)).
Proof.
  induction months as [| month rest IH]; intros w l w' H p Hp; cbn [monthFiles] in H.
  - unfold ret in H. injection H as <- _. inversion Hp.
  - apply io_bind_ok in H as (found & w1 & Hf & H). rewrite existsSync_eq in Hf.
    injection Hf as <- <-.
    apply io_bind_ok in H as (here & w2 & Hh & H).
    apply io_bind_ok in H as (more & w3 & Hm & H).
    unfold ret in H. injection H as <- _.
    assert (Hw2 : w2 = w /\ forall p, p ∈ here -> is_Some (lookupPath p (fs w))).
    { destruct (bool_decide _); cbn [negb] in Hh.
      - apply io_bind_ok in Hh as (names & w4 & Hr & Hh).
        apply readdirSync_names in Hr as [-> Hnames]. unfold ret in Hh.
        injection Hh as <- <-. split; [reflexivity |]. intros q Hq.
        apply list_elem_of_fmap in Hq as (f & -> & Hf).
        apply Hnames. apply list_elem_of_In, List.filter_In in Hf as [Hf _].
        apply list_elem_of_In. exact Hf.
      - unfold ret in Hh. injection Hh as <- <-. split; [reflexivity |].
        intros q Hq. inversion Hq. }
    destruct Hw2 as [-> Hhere].
    apply elem_of_app in Hp as [Hp | Hp]; [exact (Hhere p Hp) | exact (IH _ _ _ Hm p Hp)].
Qed.

Lemma yearFiles_exist (baseDir : Path) (years : list string) :
  forall w l w', yearFiles baseDir years w = (Ok l, w') ->
                 forall p, p ∈ l -> is_Some (lookupPath p (fs w)).
Proof.
  induction years as [| year rest IH]; intros w l w' H p Hp; cbn [yearFiles] in H.
  - unfold ret in H. injection H as <- _. inversion Hp.
  - apply io_bind_ok in H as (found & w1 & Hf & H). rewrite existsSync_eq in Hf.
    injection Hf as <- <-.
    apply io_bind_ok in H as (here & w2 & Hh & H).
    apply io_bind_ok in H as (more & w3 & Hm & H).
    unfold ret in H. injection H as <- _.
    assert (Hw2 : w2 = w /\ forall p, p ∈ here -> is_Some (lookupPath p (fs w))).
    { destruct (bool_decide _); cbn [negb] in Hh.
      - apply io_bind_ok in Hh as (names & w4 & Hr & Hh).
        apply readdirSync_names in Hr as [-> _].
        split; [exact (leaves_eq _ _ _ _ (leavesWorld_monthFiles _ _) Hh) |].
        exact (monthFiles_exist _ _ _ _ _ Hh).
      - unfold ret in Hh. injection Hh as <- <-. split; [reflexivity |].
        intros q Hq. inversion Hq. }
    destruct Hw2 as [-> Hhere].
    apply elem_of_app in Hp as [Hp | Hp]; [exact (Hhere p Hp) | exact (IH _ _ _ Hm p Hp)].
Qed.

(** What [discoverLatestMonthlyActivity] returns is there: the path names
    an entry of the file system, below data/, and the discovery leaves the
    world as it was. *)
Theorem discoverLatestMonthlyActivity_found (w w' : World) (p : Path) :
  discoverLatestMonthlyActivity w = (Ok (Some p), w') ->
  w' = w /\ is_Some (lookupPath p (fs w)) /\ exists q, p = "data" :: q.
Proof.
  intros H. split; [exact (leaves_eq _ _ _ _ leavesWorld_discover H) |].
  split; [| exact (discover_under _ _ _ H)].
  unfold discoverLatestMonthlyActivity in H.
  apply io_bind_ok in H as (legacy & w1 & Hl & H).
  pose proof (leaves_eq _ _ _ _ (leavesWorld_firstLegacy _) Hl) as ->.
  destruct legacy as [latest |].
  - unfold ret in H. injection H as <- _. exact (firstLegacy_exists _ _ _ _ Hl).
  - apply io_bind_ok in H as (found & w2 & Hf & H). rewrite existsSync_eq in Hf.
    injection Hf as <- <-.
    destruct (bool_decide _); cbn [negb] in H; [| discriminate].
    apply io_bind_ok in H as (names & w3 & Hr & H).
    apply readdirSync_names in Hr as [-> _].
    apply io_bind_ok in H as (allFiles & w4 & Hy & H).
    destruct (sortPaths allFiles) as [| first others] eqn:Es; [discriminate |].
    unfold ret in H. injection H as <- _.
    apply (yearFiles_exist _ _ _ _ _ Hy).
    apply (sortBy_elem (fun a b => compareStrings (pathString a) (pathString b))).
    fold (sortPaths allFiles). rewrite Es. apply lastOf_elem.
Qed.

Lemma discoverLatestMonthlyActivity_found_witness :
  snapshotWorld 0 [] = snapshotWorld 0 [] /\
  is_Some (lookupPath ["data"; "cursor"; "2025"; "08"; "monthly_activity_2025-08-03.json"]
                      (fs (snapshotWorld 0 []))) /\
  exists q, ["data"; "cursor"; "2025"; "08"; "monthly_activity_2025-08-03.json"] = "data" :: q.
Proof.
  apply (discoverLatestMonthlyActivity_found (snapshotWorld 0 []) (snapshotWorld 0 [])).
  vm_compute. reflexivity.
Defined.

(** ** GitHubAnalysisService: the team breakdown as a whole *)

Lemma list_sum_app' (l1 l2 : list nat) : list_sum (l1 ++ l2) = (list_sum l1 + list_sum l2)%nat.
Proof.
  induction l1 as [| x l1 IH]; [reflexivity |].
  rewrite <- app_comm_cons, !list_sum_cons, IH. lia.
Qed.

(** Altering the entry of a key that occurs once adds one seat. *)
Lemma teamSeats_alter (f : TeamData -> TeamData) (k : string) (m : list (string * TeamData)) :
  (forall team, td_totalSeats (f team) = S (td_totalSeats team)) ->
  NoDup (map fst m) -> k ∈ map fst m ->
  teamSeats (mapAlter f k m) = S (teamSeats m).
Proof.
  intros Hf. unfold teamSeats, mapAlter.
  induction m as [| [k' v] m IH]; intros Hnd Hin; [inversion Hin |].
  cbn [map fst snd] in *. apply NoDup_cons in Hnd as [Hk' Hnd].
  destruct (String.eqb_spec k' k) as [-> | Hne].
  - rewrite !list_sum_cons. cbn [snd]. rewrite Hf.
    assert (Hrest : map (fun e => if String.eqb (fst e) k then (fst e, f (snd e)) else e) m = m).
    { clear IH Hin Hnd. induction m as [| [k0 v0] m IHm]; [reflexivity |].
      cbn [map fst snd] in *. destruct (String.eqb_spec k0 k) as [-> | _].
      - exfalso. apply Hk'. left.
      - rewrite IHm; [reflexivity |]. intros H. apply Hk'. right. exact H. }
    rewrite Hrest. lia.
  - apply elem_of_cons in Hin as [-> | Hin]; [contradiction |].
    specialize (IH Hnd Hin). rewrite !list_sum_cons, IH. cbn [snd]. lia.
Qed.

Lemma addSeat_invariant (userLookup : gmap string string)
    (teamStats : list (string * TeamData)) (seat : Seat) :
  NoDup (map fst teamStats) -> Forall teamEntryOk teamStats ->
  NoDup (map fst (addSeat userLookup teamStats seat)) /\
  Forall teamEntryOk (addSeat userLookup teamStats seat) /\
  teamSeats (addSeat userLookup teamStats seat)
  = (teamSeats teamStats + match assigning_team seat with Some _ => 1 | None => 0 end)%nat.
Proof.
  intros Hnd Hok. unfold addSeat.
  destruct (assigning_team seat) as [team |]; [| split; [exact Hnd |]; split; [exact Hok | lia]].
  set (fresh := (slug team, {| td_slug := slug team; td_name := team_name team;
                               td_description := default "" (truthy (description team));
                               td_totalSeats := 0; td_users := [] |})).
  set (stats' := if mapHas (slug team) teamStats then teamStats else teamStats ++ [fresh]).
  assert (Hnd' : NoDup (map fst stats')).
  { unfold stats'. destruct (mapHas (slug team) teamStats) eqn:Eh; [exact Hnd |].
    rewrite List.map_app. apply NoDup_app. split; [exact Hnd |]. split.
    - intros k Hk Hk'. cbn in Hk'. apply list_elem_of_singleton in Hk' as ->.
      apply mapHas_keys in Hk. congruence.
    - apply NoDup_singleton. }
  assert (Hin' : slug team ∈ map fst stats').
  { unfold stats'. destruct (mapHas (slug team) teamStats) eqn:Eh.
    - apply mapHas_keys. exact Eh.
    - rewrite List.map_app. apply elem_of_app. right. left. }
  assert (Hsum' : teamSeats stats' = teamSeats teamStats).
  { unfold stats'. destruct (mapHas (slug team) teamStats); [reflexivity |].
    unfold teamSeats. rewrite List.map_app, list_sum_app'. cbn [map fresh snd td_totalSeats].
    rewrite list_sum_cons. cbn [list_sum fold_right]. lia. }
  split; [| split].
  - rewrite mapAlter_keys. exact Hnd'.
  - unfold mapAlter. apply List.Forall_map. apply Forall_forall. intros [k v] Hkv.
    cbn [fst snd].
    assert (Hv : k = slug team /\ v = snd fresh \/ teamEntryOk (k, v)).
    { unfold stats' in Hkv. destruct (mapHas (slug team) teamStats).
      - right. rewrite Forall_forall in Hok. apply Hok. exact Hkv.
      - apply elem_of_app in Hkv as [Hkv | Hkv].
        + right. rewrite Forall_forall in Hok. apply Hok. exact Hkv.
        + apply list_elem_of_singleton in Hkv. injection Hkv as -> ->. left. auto. }
    destruct (String.eqb_spec k (slug team)) as [-> | Hne].
    + destruct Hv as [[_ ->] | (H1 & H2 & H3)]; unfold teamEntryOk; cbn [fst snd] in *;
        cbn [td_slug td_totalSeats td_users fresh snd].
      * cbn. split; [reflexivity |]. split; lia.
      * rewrite length_app. cbn [length]. split; [exact H1 |]. split; lia.
    + destruct Hv as [[-> _] | Hv]; [contradiction | exact Hv].
  - rewrite teamSeats_alter; [lia | reflexivity | exact Hnd' | exact Hin'].
Qed.

(** The breakdown as a whole: its slugs are distinct, every team is stored
    under its slug with as many seats as users listed and at least one, and
    the seats of the teams add up to the seats that have an assigning team. *)
Theorem getTeamBreakdown_accounts (userLookup : gmap string string) (seats : list Seat) :
  let teams := getTeamBreakdown userLookup seats in
  NoDup (map fst teams) /\ Forall teamEntryOk teams /\
  teamSeats teams
  = length (List.filter (fun seat => bool_decide (is_Some (assigning_team seat))) seats).
Proof.
  cbn zeta. induction seats as [| seat seats IH] using rev_ind.
  - cbn. split; [constructor |]. split; [constructor | reflexivity].
  - rewrite getTeamBreakdown_snoc. destruct IH as (Hnd & Hok & Hsum).
    destruct (addSeat_invariant userLookup _ seat Hnd Hok) as (Hnd' & Hok' & Hsum').
    split; [exact Hnd' |]. split; [exact Hok' |].
    rewrite Hsum', Hsum, List.filter_app, length_app. cbn [List.filter].
    destruct (assigning_team seat); cbn; lia.
Qed.

Example getTeamBreakdown_seats2 : teamSeats (getTeamBreakdown ∅ seats2) = 1%nat.
Proof. reflexivity. Qed.

(** ** calculateAcceptanceMetrics: the order of the days *)

Lemma sumField_days_perm (f : Language -> option Z) (days days' : list DayData) :
  Permutation days days' ->
  sumField f (concat (map languagesOfDay days)) = sumField f (concat (map languagesOfDay days')).
Proof.
  intros H. induction H as [| d l l' _ IH | d1 d2 l | l1 l2 l3 _ IH1 _ IH2].
  - reflexivity.
  - cbn [map concat]. rewrite !sumField_app, IH. reflexivity.
  - cbn [map concat]. rewrite !sumField_app. lia.
  - congruence.
Qed.

(** The metrics do not depend on the order in which the payload lists the
    days: the totals, both rates, the period and the number of days are the
    same for every rearrangement, when each of the four counters has
    non-negative values whose sum over the payload is at most 2^53, so that
    the additions of the loop are without rounding in either order. *)
Theorem calculateAcceptanceMetrics_order (days days' : list DayData)
    (m : option MetricsMeta) :
  countersExact total_code_lines_suggested (concat (map languagesOfDay days)) ->
  countersExact total_code_lines_accepted (concat (map languagesOfDay days)) ->
  countersExact total_code_suggestions (concat (map languagesOfDay days)) ->
  countersExact total_code_acceptances (concat (map languagesOfDay days)) ->
  Permutation days days' ->
  calculateAcceptanceMetrics {| data := Some days; meta := m |}
  = calculateAcceptanceMetrics {| data := Some days'; meta := m |}.
Proof.
  intros _ _ _ _ H. unfold calculateAcceptanceMetrics. cbn [data meta].
  assert (Ht : fold_left addDay days zeroTotals = fold_left addDay days' zeroTotals).
  { rewrite !fold_addDay. unfold plusLanguages.
    rewrite !(sumField_days_perm _ days days' H). reflexivity. }
  rewrite Ht, (Permutation_length H). reflexivity.
Qed.

Lemma calculateAcceptanceMetrics_order_witness :
  calculateAcceptanceMetrics {| data := Some [dayOf 100 40; dayOf 50 5]; meta := None |}
  = calculateAcceptanceMetrics {| data := Some [dayOf 50 5; dayOf 100 40]; meta := None |}.
Proof.
  apply calculateAcceptanceMetrics_order;
    try (split; [vm_compute; repeat (constructor; [discriminate |]); constructor
                | vm_compute; discriminate]).
  apply perm_swap.
Defined.

(* ===================================================================== *)
(** ** util.js: [iso] and [parseDate]                                      *)
(* ===================================================================== *)

Lemma allFrom_spec (f : Z -> bool) (n : nat) :
  forall z, allFrom f n z = true -> forall k, z <= k < z + Z.of_nat n -> f k = true.
Proof.
  induction n as [| n IH]; intros z H k Hk; [lia |].
  cbn [allFrom] in H. apply andb_true_iff in H as [Hz Hrest].
  destruct (Z.eq_dec k z) as [-> | Hne]; [exact Hz |].
  apply (IH (z + 1) Hrest). lia.
Qed.

Lemma eraCheck_all (doe : Z) : 0 <= doe < 146097 -> eraCheck doe = true.
Proof.
  intros H. apply (allFrom_spec eraCheck (Z.to_nat 146097) 0); [vm_cast_no_check (eq_refl true) |].
  lia.
Qed.

Lemma padCheck_2 (n : Z) : 0 <= n < 100 -> padCheck 2 n = true.
Proof.
  intros H. apply (allFrom_spec (padCheck 2) (Z.to_nat 100) 0); [vm_cast_no_check (eq_refl true) |].
  lia.
Qed.

Lemma padCheck_4 (n : Z) : 0 <= n < 10000 -> padCheck 4 n = true.
Proof.
  intros H. apply (allFrom_spec (padCheck 4) (Z.to_nat 10000) 0); [vm_cast_no_check (eq_refl true) |].
  lia.
Qed.

Lemma padCheck_spec (width : nat) (n : Z) :
  padCheck width n = true ->
  String.length (pad width n) = width /\ allDigits (pad width n) = Some n.
Proof.
  unfold padCheck. intros H. apply andb_true_iff in H as [Hlen Hval].
  apply Nat.eqb_eq in Hlen. split; [exact Hlen |].
  destruct (allDigits (pad width n)) as [v |]; [| discriminate].
  apply Z.eqb_eq in Hval. subst v. reflexivity.
Qed.

(** The calendar date of a day number gives the day number back. *)
Lemma days_from_civil_of_civil (z : Z) :
  let '(y, m, d) := civil_from_days z in
  days_from_civil y m d = z /\ 1 <= m <= 12 /\ 1 <= d <= 31
  /\ (-719528 <= z <= 2932896 -> 0 <= y <= 9999).
Proof.
  unfold civil_from_days.
  set (z' := z + 719468). set (era := z' / 146097). set (doe := z' - era * 146097).
  assert (Hdoe : 0 <= doe < 146097).
  { unfold doe, era. pose proof (Z.div_mod z' 146097 ltac:(lia)).
    pose proof (Z.mod_pos_bound z' 146097 ltac:(lia)). lia. }
  pose proof (eraCheck_all doe Hdoe) as Hc. unfold eraCheck in Hc.
  set (yoe := (doe - doe / 1460 + doe / 36524 - doe / 146096) / 365) in *.
  set (doy := doe - (365 * yoe + yoe / 4 - yoe / 100)) in *.
  set (mp := (5 * doy + 2) / 153) in *.
  set (d := doy - (153 * mp + 2) / 5 + 1) in *.
  set (m := if mp <? 10 then mp + 3 else mp - 9) in *.
  repeat (apply andb_true_iff in Hc as [Hc ?]).
  repeat match goal with
         | H : (_ <=? _) = true |- _ => apply Z.leb_le in H
         | H : (_ =? _) = true |- _ => apply Z.eqb_eq in H
         end.
  assert (Hera : (yoe + era * 400) / 400 = era).
  { symmetry. apply (Z.div_unique _ _ _ yoe); lia. }
  split; [| split; [lia | split; [lia |]]].
  - unfold days_from_civil.
    replace ((if m <=? 2 then yoe + era * 400 + (if m <=? 2 then 1 else 0) - 1
              else yoe + era * 400 + (if m <=? 2 then 1 else 0)))
      with (yoe + era * 400) by (destruct (m <=? 2); lia).
    rewrite Hera.
    replace (yoe + era * 400 - era * 400) with yoe by lia.
    unfold doe, z' in *. lia.
  - intros Hz.
    assert (Hz' : -60 <= z' <= 3652364) by (unfold z'; lia).
    assert (He : -1 <= era <= 24).
    { unfold era. split.
      - apply Z.div_le_lower_bound; lia.
      - apply Z.lt_succ_r. apply Z.div_lt_upper_bound; lia. }
    destruct (146037 <=? doe) eqn:Hlate.
    + apply andb_true_iff in H as [Hy Hm].
      apply Z.eqb_eq in Hy. apply Z.leb_le in Hm. apply Z.leb_le in Hlate.
      destruct (m <=? 2) eqn:Em; [| apply Z.leb_gt in Em; lia].
      unfold doe in Hlate. lia.
    + apply Z.leb_le in H. apply Z.leb_gt in Hlate.
      destruct (m <=? 2); unfold doe in Hlate; lia.
Qed.

Lemma length_2 (s : string) :
  String.length s = 2%nat -> exists a b, s = String a (String b "").
Proof.
  destruct s as [| a [| b [| c r]]]; cbn; intros H; try discriminate.
  exists a, b. reflexivity.
Qed.

Lemma length_4 (s : string) :
  String.length s = 4%nat ->
  exists a b c d, s = String a (String b (String c (String d ""))).
Proof.
  destruct s as [| a [| b [| c [| d [| e r]]]]]; cbn; intros H; try discriminate.
  exists a, b, c, d. reflexivity.
Qed.

(** A date [YYYY-MM-DD] of digits is not a string of digits only, and with
    [T00:00:00Z] after it [Date.parse] reads the start of its day. *)
Lemma Date_parse_day (tz : Z) (year month day : string) (y m d : Z) :
  String.length year = 4%nat -> allDigits year = Some y ->
  String.length month = 2%nat -> allDigits month = Some m ->
  String.length day = 2%nat -> allDigits day = Some d ->
  civil_from_days (days_from_civil y m d) = (y, m, d) ->
  let text := String.app year (String "-" (String.app month (String "-" day))) in
  allDigits text = None /\
  Date_parse tz (String.app text "T00:00:00Z") = Some (days_from_civil y m d * msPerDay).
Proof.
  intros Hly Hy Hlm Hm Hld Hd Hcivil.
  apply length_4 in Hly as (y1 & y2 & y3 & y4 & ->).
  apply length_2 in Hlm as (m1 & m2 & ->).
  apply length_2 in Hld as (d1 & d2 & ->).
  cbv zeta. split.
  - change (allDigits (String y1 (String y2 (String y3 (String y4
              (String "-" (String m1 (String m2 (String "-" (String d1 (String d2 ""))))))))))
            = None).
    unfold allDigits in *. cbn in Hy |- *.
    destruct (digitVal y1); [| discriminate]. cbn in Hy |- *.
    destruct (digitVal y2); [| discriminate]. cbn in Hy |- *.
    destruct (digitVal y3); [| discriminate]. cbn in Hy |- *.
    destruct (digitVal y4); [| discriminate]. reflexivity.
  - unfold Date_parse, parseDay.
    change (field 0 4 _) with (allDigits (String y1 (String y2 (String y3 (String y4 ""))))).
    rewrite Hy. cbn [mbind option_bind].
    change (field 5 2 _) with (allDigits (String m1 (String m2 ""))).
    rewrite Hm. cbn [mbind option_bind].
    change (field 8 2 _) with (allDigits (String d1 (String d2 ""))).
    rewrite Hd. cbn [mbind option_bind].
    rewrite decide_True; [| split; [reflexivity | split; [reflexivity | exact Hcivil]]].
    cbn [mbind option_bind].
    change (Some (days_from_civil y m d * msPerDay + 0 - 0) =
            Some (days_from_civil y m d * msPerDay)).
    f_equal. lia.
Qed.

(** [iso] of a date of the years 0 to 9999 is the calendar date of its UTC
    day in digits. *)
Lemma iso_day (t y m d : Z) :
  civil_from_days (t / msPerDay) = (y, m, d) ->
  0 <= y <= 9999 -> 1 <= m <= 12 -> 1 <= d <= 31 ->
  iso (DateOf t)
  = Ok (String.app (pad 4 y) (String "-" (String.app (pad 2 m) (String "-" (pad 2 d))))).
Proof.
  intros Hcivil Hy Hm Hd. unfold iso, toISOString, isoOfTime. cbn [bind].
  rewrite Hcivil. unfold isoYear.
  replace ((0 <=? y) && (y <=? 9999)) with true
    by (symmetry; apply andb_true_iff; split; apply Z.leb_le; lia).
  destruct (padCheck_spec 4 y (padCheck_4 y ltac:(lia))) as [Hly _].
  destruct (padCheck_spec 2 m (padCheck_2 m ltac:(lia))) as [Hlm _].
  destruct (padCheck_spec 2 d (padCheck_2 d ltac:(lia))) as [Hld _].
  apply length_4 in Hly as (y1 & y2 & y3 & y4 & ->).
  apply length_2 in Hlm as (m1 & m2 & ->).
  apply length_2 in Hld as (d1 & d2 & ->).
  reflexivity.
Qed.

(** [iso] and [parseDate] compose to the start of the UTC day, whatever the
    local time zone: for a date of the years 0 to 9999, [parseDate] reads
    the text of [iso] as the midnight (UTC) that begins the day of the date,
    and [iso] of that midnight is the same text. *)
Theorem iso_parseDate_round_trip (tz t : Z) :
  -62167219200000 <= t <= 253402300799999 ->
  exists text,
    iso (DateOf t) = Ok text /\
    String.length text = 10%nat /\
    parseDate tz (JString text) = Some (DateOf (t - t mod msPerDay)) /\
    iso (DateOf (t - t mod msPerDay)) = Ok text.
Proof.
  intros Ht.
  pose proof (days_from_civil_of_civil (t / msPerDay)) as Hc.
  destruct (civil_from_days (t / msPerDay)) as [[y m] d] eqn:Hcivil.
  destruct Hc as (Hday & Hm & Hd & Hy).
  assert (Hz : -719528 <= t / msPerDay <= 2932896).
  { unfold msPerDay. split.
    - apply Z.div_le_lower_bound; lia.
    - apply Z.lt_succ_r. apply Z.div_lt_upper_bound; lia. }
  specialize (Hy Hz).
  assert (Hstart : t - t mod msPerDay = t / msPerDay * msPerDay).
  { pose proof (Z.div_mod t msPerDay ltac:(unfold msPerDay; lia)). lia. }
  assert (Hsame : (t - t mod msPerDay) / msPerDay = t / msPerDay).
  { rewrite Hstart. apply Z.div_mul. unfold msPerDay. lia. }
  destruct (padCheck_spec 4 y (padCheck_4 y ltac:(lia))) as [Hly Hvy].
  destruct (padCheck_spec 2 m (padCheck_2 m ltac:(lia))) as [Hlm Hvm].
  destruct (padCheck_spec 2 d (padCheck_2 d ltac:(lia))) as [Hld Hvd].
  assert (Hback : civil_from_days (days_from_civil y m d) = (y, m, d))
    by (rewrite Hday; exact Hcivil).
  destruct (Date_parse_day tz _ _ _ y m d Hly Hvy Hlm Hvm Hld Hvd Hback) as [Hnot Hparse].
  eexists. split; [apply (iso_day t y m d Hcivil Hy Hm Hd) |]. split; [| split].
  - destruct (length_4 _ Hly) as (y1 & y2 & y3 & y4 & ->).
    destruct (length_2 _ Hlm) as (m1 & m2 & ->).
    destruct (length_2 _ Hld) as (d1 & d2 & ->).
    reflexivity.
  - unfold parseDate. rewrite Hnot. unfold Date_of_string. rewrite Hparse.
    rewrite Hday, <- Hstart. unfold TimeClip.
    replace (Z.abs (t - t mod msPerDay) <=? 8640000000000000) with true; [reflexivity |].
    symmetry. apply Z.leb_le.
    pose proof (Z.mod_pos_bound t msPerDay ltac:(unfold msPerDay; lia)).
    unfold msPerDay in *. lia.
  - apply iso_day; [rewrite Hsame; exact Hcivil | exact Hy | exact Hm | exact Hd].
Qed.

Lemma iso_parseDate_round_trip_witness :
  exists text,
    iso (DateOf 1754906400000) = Ok text /\
    String.length text = 10%nat /\
    parseDate 7200000 (JString text) = Some (DateOf (1754906400000 - 1754906400000 mod msPerDay)) /\
    iso (DateOf (1754906400000 - 1754906400000 mod msPerDay)) = Ok text.
Proof. apply (iso_parseDate_round_trip 7200000 1754906400000). unfold msPerDay. lia. Defined.

(* ===================================================================== *)
(** ** aggregate.js: the columns of the exports                            *)
(* ===================================================================== *)

Lemma insertSorted_perm {A} (compare : A -> A -> Z) (x : A) (l : list A) :
  insertSorted compare x l ≡ₚ x :: l.
Proof.
  induction l as [| y l IH]; cbn [insertSorted]; [reflexivity |].
  destruct (compare x y <=? 0); [reflexivity |].
  rewrite IH. apply Permutation_swap.
Qed.

Lemma sortBy_perm {A} (compare : A -> A -> Z) (l : list A) : sortBy compare l ≡ₚ l.
Proof.
  induction l as [| x l IH]; [reflexivity |].
  cbn [sortBy fold_right]. fold (sortBy compare l).
  rewrite insertSorted_perm, IH. reflexivity.
Qed.

Section SortedLists.
  Context {A : Type} (compare : A -> A -> Z).
  Hypothesis total : forall a b, compare a b <= 0 \/ compare b a <= 0.
  Hypothesis trans : forall a b c, compare a b <= 0 -> compare b c <= 0 -> compare a c <= 0.

Lemma insertSorted_sorted (x : A) (l : list A) :
  StronglySorted (fun a b => compare a b <= 0) l ->
  StronglySorted (fun a b => compare a b <= 0) (insertSorted compare x l).
Proof.
  induction l as [| y l IH]; intros Hs; cbn [insertSorted].
  - constructor; constructor.
  - apply StronglySorted_inv in Hs as [Hl Hy].
    destruct (Z.leb_spec (compare x y) 0) as [Hxy | Hxy].
    + constructor; [constructor; assumption |].
      constructor; [exact Hxy |].
      eapply Forall_impl; [exact Hy |]. intros z Hz. cbn in Hz. apply (trans _ y); assumption.
    + constructor; [apply IH; exact Hl |].
      rewrite insertSorted_perm. constructor; [| exact Hy].
      destruct (total y x); [assumption | lia].
Qed.

Lemma sortBy_sorted (l : list A) :
  StronglySorted (fun a b => compare a b <= 0) (sortBy compare l).
Proof.
  induction l as [| x l IH]; [constructor |].
  cbn [sortBy fold_right]. fold (sortBy compare l). apply insertSorted_sorted. exact IH.
Qed.

End SortedLists.

Lemma fold_setAdd_elem (keys cols : list string) (c : string) :
  c ∈ fold_left (fun cols key => setAdd key cols) keys cols <-> c ∈ cols \/ c ∈ keys.
Proof.
  revert cols. induction keys as [| k keys IH]; intros cols; cbn [fold_left].
  - split; [auto | intros [H | H]; [exact H | inversion H]].
  - rewrite IH, setAdd_elem, elem_of_cons. tauto.
Qed.

Lemma fold_setAdd_NoDup (keys cols : list string) :
  NoDup cols -> NoDup (fold_left (fun cols key => setAdd key cols) keys cols).
Proof.
  revert cols. induction keys as [| k keys IH]; intros cols H; cbn [fold_left]; [exact H |].
  apply IH, setAdd_NoDup, H.
Qed.

Lemma allColumnsOf_elem {V} (rows : list (list (string * V))) (c : string) :
  c ∈ allColumnsOf rows <-> exists row, row ∈ rows /\ c ∈ keysOf row.
Proof.
  unfold allColumnsOf.
  assert (H : forall cols,
             c ∈ fold_left (fun allColumns row =>
                              fold_left (fun cols key => setAdd key cols) (keysOf row) allColumns)
                           rows cols
             <-> c ∈ cols \/ exists row, row ∈ rows /\ c ∈ keysOf row).
  { induction rows as [| r rows IH]; intros cols; cbn [fold_left].
    - split; [auto | intros [H | (row & Hrow & _)]; [exact H | inversion Hrow]].
    - rewrite IH, fold_setAdd_elem. split.
      + intros [[H | H] | (row & Hrow & Hc)]; [left; exact H | right; exists r; split; [left | exact H] |].
        right. exists row. split; [right; exact Hrow | exact Hc].
      + intros [H | (row & Hrow & Hc)]; [left; left; exact H |].
        apply elem_of_cons in Hrow as [-> | Hrow]; [left; right; exact Hc |].
        right. exists row. split; assumption. }
  rewrite H. split; [intros [Hnil | Hex]; [inversion Hnil | exact Hex] | auto].
Qed.

Lemma allColumnsOf_NoDup {V} (rows : list (list (string * V))) : NoDup (allColumnsOf rows).
Proof.
  unfold allColumnsOf. generalize (NoDup_nil_2 (A := string)). generalize (@nil string).
  induction rows as [| r rows IH]; intros cols H; cbn [fold_left]; [exact H |].
  apply IH, fold_setAdd_NoDup, H.
Qed.

(** The header of an export: it begins with the preferred columns, the
    columns after them are those of the rows that are not preferred, in
    ascending order of strings; a name is a column exactly when it is
    preferred or a key of some row; and no column is repeated when no
    preferred column is. *)
Theorem headerOf_columns {V} (preferences : list string) (rows : list (list (string * V))) :
  let header := headerOf preferences (allColumnsOf rows) in
  (forall c, c ∈ header <-> c ∈ preferences \/ exists row, row ∈ rows /\ c ∈ keysOf row) /\
  (NoDup preferences -> NoDup header) /\
  exists additionalColumns,
    header = preferences ++ additionalColumns /\
    Forall (fun c => c ∉ preferences) additionalColumns /\
    StronglySorted (fun a b => String.compare a b = Lt) additionalColumns.
Proof.
  cbv zeta. unfold headerOf, sortNames.
  set (extra := List.filter _ (allColumnsOf rows)).
  assert (Hextra : forall c, c ∈ extra <->
                             (c ∉ preferences) /\ exists row, row ∈ rows /\ c ∈ keysOf row).
  { intros c. unfold extra. rewrite list_elem_of_In, List.filter_In, <- list_elem_of_In.
    rewrite allColumnsOf_elem, negb_true_iff, bool_decide_eq_false. tauto. }
  assert (Hnd : NoDup extra).
  { unfold extra. apply NoDup_ListNoDup, List.NoDup_filter, NoDup_ListNoDup, allColumnsOf_NoDup. }
  assert (Hsorted_elem : forall c, c ∈ sortBy compareStrings extra <-> c ∈ extra).
  { intros c. rewrite (sortBy_perm compareStrings extra). reflexivity. }
  assert (Hnd' : NoDup (sortBy compareStrings extra))
    by (rewrite (sortBy_perm compareStrings extra); exact Hnd).
  split; [| split].
  - intros c. rewrite elem_of_app, Hsorted_elem, Hextra.
    destruct (decide (c ∈ preferences)); tauto.
  - intros Hp. apply NoDup_app. split; [exact Hp |]. split; [| exact Hnd'].
    intros c Hc Hc'. apply Hsorted_elem, Hextra in Hc'. tauto.
  - exists (sortBy compareStrings extra). split; [reflexivity |]. split.
    + apply Forall_forall. intros c Hc. apply Hsorted_elem, Hextra in Hc. tauto.
    + pose proof (sortBy_sorted compareStrings compareStrings_total compareStrings_trans extra)
        as Hs.
      revert Hs Hnd'. generalize (sortBy compareStrings extra). clear.
      induction l as [| a l IH]; intros Hs Hnd; [constructor |].
      apply StronglySorted_inv in Hs as [Hl Ha]. apply NoDup_cons in Hnd as [Hna Hnd].
      constructor; [apply IH; assumption |].
      apply Forall_forall. intros b Hb. rewrite Forall_forall in Ha. specialize (Ha b Hb).
      cbn in Ha. apply compareStrings_le in Ha.
      destruct (String.compare a b) eqn:E; [| reflexivity | congruence].
      apply String.compare_eq_iff in E. subst b. contradiction.
Qed.

(** Neither list of preferred columns repeats a column. *)
Example preferences_distinct :
  NoDup headerPreferences /\ NoDup eventHeaderPreferences.
Proof. split; apply (bool_decide_unpack _); vm_compute; exact I. Qed.

(* ===================================================================== *)
(** ** aggregate.js: the month of a record                                 *)
(* ===================================================================== *)

(** The calendar repeats every 400 years, which are 146097 days. *)
Lemma civil_from_days_period (z k : Z) :
  civil_from_days (z + 146097 * k)
  = let '(y, m, d) := civil_from_days z in (y + 400 * k, m, d).
Proof.
  unfold civil_from_days.
  replace (z + 146097 * k + 719468) with (z + 719468 + k * 146097) by lia.
  rewrite Z.div_add by lia.
  replace (z + 719468 + k * 146097 - ((z + 719468) / 146097 + k) * 146097)
    with (z + 719468 - (z + 719468) / 146097 * 146097) by lia.
  cbv zeta. f_equal. f_equal. lia.
Qed.

Lemma days_from_civil_period (y m d k : Z) :
  days_from_civil (y + 400 * k) m d = days_from_civil y m d + 146097 * k.
Proof.
  unfold days_from_civil.
  replace (if m <=? 2 then y + 400 * k - 1 else y + 400 * k)
    with ((if m <=? 2 then y - 1 else y) + k * 400) by (destruct (m <=? 2); lia).
  set (y' := if m <=? 2 then y - 1 else y).
  rewrite Z.div_add by lia. cbv zeta.
  replace (y' + k * 400 - (y' / 400 + k) * 400) with (y' - y' / 400 * 400) by lia.
  lia.
Qed.

Lemma monthCheck_cycle (i : Z) : 0 <= i < 4800 -> monthCheck i = true.
Proof.
  intros H.
  apply (allFrom_spec monthCheck (Z.to_nat 4800) 0); [vm_cast_no_check (eq_refl true) | lia].
Qed.

Lemma prevMonth_period (y m k : Z) :
  prevMonth (y + 400 * k) m = (fst (prevMonth y m) + 400 * k, snd (prevMonth y m)).
Proof. unfold prevMonth. destruct (m =? 1); cbn; f_equal; lia. Qed.

Lemma days_from_civil_day (y m d : Z) :
  days_from_civil y m d = days_from_civil y m 1 + (d - 1).
Proof. unfold days_from_civil. cbv zeta. lia. Qed.

Lemma monthCheck_spec (i : Z) :
  monthCheck i = true ->
  civil_from_days (days_from_civil (i / 12) (i mod 12 + 1) 1) = (i / 12, i mod 12 + 1, 1) /\
  exists d0,
    civil_from_days (days_from_civil (i / 12) (i mod 12 + 1) 1 - 1)
    = (fst (prevMonth (i / 12) (i mod 12 + 1)), snd (prevMonth (i / 12) (i mod 12 + 1)), d0).
Proof.
  unfold monthCheck. generalize (i / 12) (i mod 12 + 1). intros y m. cbv zeta.
  generalize (days_from_civil y m 1). intros first.
  generalize (prevMonth y m). intros prev.
  destruct (civil_from_days first) as [[y1 m1] d1].
  destruct (civil_from_days (first - 1)) as [[yp mp] dp].
  intros Hc.
  repeat (apply andb_true_iff in Hc as [Hc ?]).
  repeat match goal with
         | H : (_ =? _) = true |- _ => apply Z.eqb_eq in H
         end.
  subst. split; [reflexivity |]. exists dp. reflexivity.
Qed.

(** The first day of the month of a day, and the day before it. *)
Lemma first_of_month (z y m d : Z) :
  civil_from_days z = (y, m, d) ->
  days_from_civil y m 1 = z - (d - 1) /\
  civil_from_days (z - (d - 1)) = (y, m, 1) /\
  exists d0, civil_from_days (z - (d - 1) - 1) = (fst (prevMonth y m), snd (prevMonth y m), d0).
Proof.
  intros Hcivil.
  pose proof (days_from_civil_of_civil z) as Hback. rewrite Hcivil in Hback.
  destruct Hback as (Hday & Hm & _ & _).
  assert (Hfirst : days_from_civil y m 1 = z - (d - 1))
    by (rewrite (days_from_civil_day y m d) in Hday; lia).
  split; [exact Hfirst |]. rewrite <- Hfirst.
  pose proof (Z.div_mod y 400 ltac:(lia)) as Hdm.
  pose proof (Z.mod_pos_bound y 400 ltac:(lia)) as Hmod.
  revert Hdm Hmod. generalize (y / 400) (y mod 400). intros k y0 Hdm Hy0. subst y.
  assert (Hi : 0 <= y0 * 12 + (m - 1) < 4800) by lia.
  assert (Hq : (y0 * 12 + (m - 1)) / 12 = y0)
    by (symmetry; apply (Z.div_unique _ _ _ (m - 1)); lia).
  assert (Hr : (y0 * 12 + (m - 1)) mod 12 + 1 = m)
    by (rewrite <- (Z.mod_unique _ _ y0 (m - 1)); lia).
  destruct (monthCheck_spec _ (monthCheck_cycle _ Hi)) as [H1 [d0 H0]].
  rewrite Hq, Hr in H1, H0. clear Hq Hr Hi Hcivil Hday Hfirst.
  replace (400 * k + y0) with (y0 + 400 * k) by lia.
  rewrite days_from_civil_period, prevMonth_period.
  replace (days_from_civil y0 m 1 + 146097 * k - 1)
    with (days_from_civil y0 m 1 - 1 + 146097 * k) by lia.
  rewrite !civil_from_days_period, H1, H0. cbn [fst snd].
  split; [reflexivity |]. exists d0. reflexivity.
Qed.

Lemma days_from_civil_bounds (y m : Z) :
  0 <= y <= 9999 -> 1 <= m <= 12 -> -1000000 <= days_from_civil y m 1 <= 4000000.
Proof.
  intros Hy Hm. unfold days_from_civil. cbv zeta.
  set (y' := if m <=? 2 then y - 1 else y).
  set (mp := if 2 <? m then m - 3 else m + 9).
  assert (Hy' : -1 <= y' <= 9999) by (unfold y'; destruct (m <=? 2); lia).
  assert (Hmp : 0 <= mp <= 11) by (unfold mp; destruct (Z.ltb_spec 2 m); lia).
  clearbody y' mp.
  pose proof (Z.div_mod y' 400 ltac:(lia)) as Hdm.
  pose proof (Z.mod_pos_bound y' 400 ltac:(lia)) as Hmod.
  assert (He : -1 <= y' / 400 <= 24).
  { split; [apply Z.div_le_lower_bound; lia |].
    apply Z.lt_succ_r, Z.div_lt_upper_bound; lia. }
  revert Hdm Hmod He. generalize (y' / 400) (y' mod 400). intros era yoe Hdm Hyoe He.
  replace (y' - era * 400) with yoe by lia.
  assert (H4 : 0 <= yoe / 4 <= 99).
  { split; [apply Z.div_pos; lia | apply Z.lt_succ_r, Z.div_lt_upper_bound; lia]. }
  assert (H100 : 0 <= yoe / 100 <= 3).
  { split; [apply Z.div_pos; lia | apply Z.lt_succ_r, Z.div_lt_upper_bound; lia]. }
  assert (H5 : 0 <= (153 * mp + 2) / 5 <= 337).
  { split; [apply Z.div_pos; lia | apply Z.lt_succ_r, Z.div_lt_upper_bound; lia]. }
  assert (Hyear : -1 <= 400 * era + yoe <= 9999) by lia.
  lia.
Qed.

Lemma prevMonth_bounds (y m : Z) :
  100 <= y <= 9999 -> 1 <= m <= 12 ->
  0 <= fst (prevMonth y m) <= 9999 /\ 1 <= snd (prevMonth y m) <= 12.
Proof. intros Hy Hm. unfold prevMonth. destruct (Z.eqb_spec m 1); cbn; lia. Qed.

Lemma year_month_text (y m d : Z) :
  0 <= y <= 9999 -> 1 <= m <= 12 -> 1 <= d <= 31 ->
  String.substring 0 7
    (String.app (pad 4 y) (String "-" (String.app (pad 2 m) (String "-" (pad 2 d)))))
  = String.app (pad 4 y) (String "-" (pad 2 m)).
Proof.
  intros Hy Hm Hd.
  destruct (padCheck_spec 4 y (padCheck_4 y ltac:(lia))) as [Hly _].
  destruct (padCheck_spec 2 m (padCheck_2 m ltac:(lia))) as [Hlm _].
  destruct (padCheck_spec 2 d (padCheck_2 d ltac:(lia))) as [Hld _].
  apply length_4 in Hly as (y1 & y2 & y3 & y4 & ->).
  apply length_2 in Hlm as (m1 & m2 & ->).
  apply length_2 in Hld as (d1 & d2 & ->).
  reflexivity.
Qed.

(** The month [aggregateMonthly] files a record under.  The first day of
    the record's local month is made as a local midnight and printed in
    UTC: in UTC and in the zones west of it the label is the local month of
    the date, in every zone east of UTC it is the month before. *)
Theorem monthOf_label (tz t y m d : Z) :
  civil_from_days (localDay tz t) = (y, m, d) -> 100 <= y <= 9999 ->
  - msPerDay < tz <= msPerDay ->
  monthOf tz (DateOf t)
  = Ok (if 0 <? tz
        then String.app (pad 4 (fst (prevMonth y m))) (String "-" (pad 2 (snd (prevMonth y m))))
        else String.app (pad 4 y) (String "-" (pad 2 m))).
Proof.
  intros Hcivil Hy Htz.
  pose proof (days_from_civil_of_civil (localDay tz t)) as Hback. rewrite Hcivil in Hback.
  destruct Hback as (_ & Hm & Hd & _).
  destruct (first_of_month _ _ _ _ Hcivil) as (Hfirst & Hsame & d0 & Hprev).
  pose proof (days_from_civil_bounds y m ltac:(lia) Hm) as Hbound.
  unfold monthOf, localDate. rewrite Hcivil. unfold Date_of_fields.
  replace ((0 <=? y) && (y <=? 99)) with false
    by (symmetry; apply andb_false_iff; right; apply Z.leb_gt; lia).
  replace ((m - 1) / 12) with 0 by (symmetry; apply Z.div_small; lia).
  replace ((m - 1) mod 12 + 1) with m by (rewrite Z.mod_small; lia).
  replace (y + 0) with y by lia.
  rewrite <- Hfirst in Hsame, Hprev.
  revert Hbound Hsame Hprev. generalize (days_from_civil y m 1). intros first Hbound Hsame Hprev.
  replace ((first + (1 - 1)) * msPerDay - tz) with (first * msPerDay - tz) by lia.
  unfold TimeClip.
  replace (Z.abs (first * msPerDay - tz) <=? 8640000000000000) with true
    by (symmetry; apply Z.leb_le; unfold msPerDay in *; lia).
  destruct (Z.ltb_spec 0 tz) as [Heast | Hwest].
  - assert (Hday : (first * msPerDay - tz) / msPerDay = first - 1).
    { symmetry. apply (Z.div_unique _ _ _ (msPerDay - tz)); unfold msPerDay in *; lia. }
    pose proof (days_from_civil_of_civil (first - 1)) as Hd0. rewrite Hprev in Hd0.
    destruct Hd0 as (_ & _ & Hd0 & _).
    destruct (prevMonth_bounds y m Hy Hm) as [Hpy Hpm].
    rewrite <- Hday in Hprev.
    rewrite (iso_day _ _ _ _ Hprev Hpy Hpm Hd0). cbn [bind].
    rewrite (year_month_text _ _ _ Hpy Hpm Hd0). reflexivity.
  - assert (Hday : (first * msPerDay - tz) / msPerDay = first).
    { symmetry. apply (Z.div_unique _ _ _ (- tz)); unfold msPerDay in *; lia. }
    rewrite <- Hday in Hsame.
    rewrite (iso_day _ _ _ _ Hsame ltac:(lia) Hm ltac:(lia)). cbn [bind].
    rewrite (year_month_text y m 1 ltac:(lia) Hm ltac:(lia)). reflexivity.
Qed.

(** A record of 15 August 2025 in a zone two hours east of UTC is filed
    under July. *)
Lemma monthOf_label_witness :
  monthOf 7200000 (DateOf 1755252000000) = Ok "2025-07".
Proof.
  rewrite (monthOf_label 7200000 1755252000000 2025 8 15).
  - vm_compute. reflexivity.
  - vm_compute. reflexivity.
  - lia.
  - unfold msPerDay. lia.
Defined.

(* ===================================================================== *)
(** ** aggregate.js: the monthly records                                   *)
(* ===================================================================== *)

Lemma sumZ_cons (x : Z) (l : list Z) : sumZ (x :: l) = x + sumZ l.
Proof. reflexivity. Qed.

Lemma sumZ_app (l1 l2 : list Z) : sumZ (l1 ++ l2) = sumZ l1 + sumZ l2.
Proof.
  induction l1 as [| x l1 IH]; [reflexivity |].
  rewrite <- app_comm_cons, !sumZ_cons, IH. lia.
Qed.

Lemma sumZ_of_nat {A} (h : A -> nat) (l : list A) :
  sumZ (map (fun a => Z.of_nat (h a)) l) = Z.of_nat (list_sum (map h l)).
Proof.
  induction l as [| a l IH]; [reflexivity |].
  cbn [map]. rewrite sumZ_cons, list_sum_cons, IH. lia.
Qed.

Lemma sumZ_ones {A} (l : list A) : sumZ (map (fun _ => 1) l) = Z.of_nat (length l).
Proof.
  induction l as [| a l IH]; [reflexivity |].
  cbn [map length]. rewrite sumZ_cons, IH. lia.
Qed.

Lemma sumZ_count_filter {A} (p q : A -> bool) (l : list A) :
  sumZ (map (fun a => if q a then 1 else 0) (List.filter p l))
  = Z.of_nat (length (List.filter (fun a => p a && q a) l)).
Proof.
  induction l as [| a l IH]; [reflexivity |].
  cbn [List.filter]. destruct (p a); cbn [andb map]; [| exact IH].
  rewrite sumZ_cons, IH. destruct (q a); cbn [length]; lia.
Qed.

(** *** A [Map] entry made when missing, then updated *)

Section Upsert.
  Context {A : Type} (k : string) (fresh : A) (f : A -> A).

Lemma mapAlter_absent (m : list (string * A)) : k ∉ map fst m -> mapAlter f k m = m.
Proof.
  unfold mapAlter. induction m as [| [k0 v0] m IH]; intros Hk; [reflexivity |].
  cbn [map fst snd] in *. apply not_elem_of_cons in Hk as [Hne Hk].
  destruct (String.eqb_spec k0 k) as [-> | _]; [contradiction |].
  rewrite IH by exact Hk. reflexivity.
Qed.

Lemma upsert_keys (m : list (string * A)) :
  map fst (mapAlter f k (if mapHas k m then m else m ++ [(k, fresh)])) = setAdd k (map fst m).
Proof.
  rewrite mapAlter_keys. unfold setAdd.
  destruct (mapHas k m) eqn:E.
  - apply mapHas_keys in E. rewrite bool_decide_eq_true_2 by exact E. reflexivity.
  - rewrite bool_decide_eq_false_2; [rewrite List.map_app; reflexivity |].
    intros H. apply mapHas_keys in H. congruence.
Qed.

Lemma upsert_sum (g : A -> Z) (delta : Z) (m : list (string * A)) :
  NoDup (map fst m) -> g fresh = 0 -> (forall a, g (f a) = g a + delta) ->
  sumZ (map (fun e => g (snd e)) (mapAlter f k (if mapHas k m then m else m ++ [(k, fresh)])))
  = sumZ (map (fun e => g (snd e)) m) + delta.
Proof.
  intros Hnd Hfresh Hf.
  assert (Hpresent : forall m0 : list (string * A),
             NoDup (map fst m0) -> k ∈ map fst m0 ->
             sumZ (map (fun e => g (snd e)) (mapAlter f k m0))
             = sumZ (map (fun e => g (snd e)) m0) + delta).
  { induction m0 as [| [k0 v0] m0 IH]; intros Hnd0 Hin; [inversion Hin |].
    cbn [map fst snd] in Hnd0, Hin. apply NoDup_cons in Hnd0 as [Hk0 Hnd0].
    unfold mapAlter. cbn [map fst snd]. fold (mapAlter f k m0).
    destruct (String.eqb_spec k0 k) as [-> | Hne].
    - rewrite (mapAlter_absent m0 Hk0). cbn [map snd]. rewrite !sumZ_cons, Hf. lia.
    - apply elem_of_cons in Hin as [-> | Hin]; [contradiction |].
      cbn [map snd]. rewrite !sumZ_cons, (IH Hnd0 Hin). lia. }
  destruct (mapHas k m) eqn:E.
  - apply Hpresent; [exact Hnd | apply mapHas_keys; exact E].
  - rewrite Hpresent.
    + rewrite List.map_app, sumZ_app. cbn [map snd]. rewrite sumZ_cons, Hfresh. cbn. lia.
    + rewrite List.map_app. apply NoDup_app. split; [exact Hnd |]. split; [| apply NoDup_singleton].
      intros k' Hk' Hk''. cbn in Hk''. apply list_elem_of_singleton in Hk'' as ->.
      apply mapHas_keys in Hk'. congruence.
    + rewrite List.map_app. apply elem_of_app. right. left.
Qed.

Lemma upsert_Forall (P : string * A -> Prop) (m : list (string * A)) :
  Forall P m -> P (k, f fresh) -> (forall a, P (k, a) -> P (k, f a)) ->
  Forall P (mapAlter f k (if mapHas k m then m else m ++ [(k, fresh)])).
Proof.
  intros Hm Hfresh Hf.
  assert (Hall : Forall (fun e => P e \/ e = (k, fresh))
                        (if mapHas k m then m else m ++ [(k, fresh)])).
  { destruct (mapHas k m).
    - eapply Forall_impl; [exact Hm | auto].
    - apply Forall_app. split; [eapply Forall_impl; [exact Hm | auto] |].
      constructor; [right; reflexivity | constructor]. }
  unfold mapAlter. apply List.Forall_map. eapply Forall_impl; [exact Hall |].
  intros [k0 v0] [H | H]; cbn [fst snd].
  - destruct (String.eqb_spec k0 k) as [-> | _]; [apply Hf; exact H | exact H].
  - injection H as -> ->. rewrite String.eqb_refl. exact Hfresh.
Qed.

End Upsert.

(** *** The numeric fields *)

Lemma numberOf_insert (field key : string) (n : Z) (numbers : gmap string Z) :
  numberOf field (<[key := n]> numbers) = if decide (key = field) then n else numberOf field numbers.
Proof.
  unfold numberOf. destruct (decide (key = field)) as [-> | Hne].
  - rewrite lookup_insert_eq. reflexivity.
  - rewrite lookup_insert_ne by exact Hne. reflexivity.
Qed.

Lemma addNumbers_numberOf (fields : list string) (acc rec : gmap string Z) (field : string) :
  NoDup fields ->
  numberOf field (addNumbers fields acc rec)
  = numberOf field acc + (if bool_decide (field ∈ fields) then numberOf field rec else 0).
Proof.
  unfold addNumbers. revert acc.
  induction fields as [| x fields IH]; intros acc Hnd; cbn [fold_left].
  - rewrite bool_decide_eq_false_2 by (intros H; inversion H). lia.
  - apply NoDup_cons in Hnd as [Hx Hnd]. rewrite (IH _ Hnd).
    destruct (decide (field = x)) as [-> | Hne].
    + rewrite (bool_decide_eq_false_2 (x ∈ fields)) by exact Hx.
      rewrite (bool_decide_eq_true_2 (x ∈ x :: fields)) by left.
      unfold numberOf at 3. destruct (rec !! x) as [n |] eqn:E.
      * rewrite numberOf_insert, decide_True by reflexivity. unfold numberOf. cbn. lia.
      * cbn. lia.
    + assert (Hsame : bool_decide (field ∈ x :: fields) = bool_decide (field ∈ fields)).
      { apply bool_decide_ext. rewrite elem_of_cons. tauto. }
      rewrite Hsame. f_equal.
      destruct (rec !! x) as [n |]; [| reflexivity].
      rewrite numberOf_insert, decide_False by congruence. reflexivity.
Qed.

Lemma NUMERIC_FIELDS_NoDup : NoDup NUMERIC_FIELDS.
Proof. apply (bool_decide_unpack _). vm_compute. exact I. Qed.

Lemma numberOf_zeroNumbers (field : string) : numberOf field zeroNumbers = 0.
Proof.
  unfold zeroNumbers.
  assert (H : forall fields acc,
             numberOf field acc = 0 ->
             numberOf field (fold_left (fun numbers f => <[f := 0]> numbers) fields acc) = 0).
  { induction fields as [| x fields IH]; intros acc Hacc; [exact Hacc |].
    cbn [fold_left]. apply IH. rewrite numberOf_insert. destruct (decide (x = field)); auto. }
  apply H. reflexivity.
Qed.

(** [monthOf] throws only the RangeError of [toISOString]. *)
Lemma monthOf_throws (tz : Z) (d : Date) (e : JsError) :
  monthOf tz d = Throw e -> e = RangeError "Invalid time value".
Proof.
  unfold monthOf, iso, toISOString.
  destruct (match localDate tz d with Some (year, month, _) => _ | None => _ end);
    cbn [bind]; intros H; [injection H as <-; reflexivity | discriminate].
Qed.

(** One record: the keys stay distinct, the entries stay well formed, and
    a measure that starts at 0 and grows by [c record] at each update grows
    by [c record] when the record has a date. *)
Lemma monthlyStep_invariant (tz : Z) (g : MonthlyRecord -> Z) (c : ActivityRecord -> Z)
    (monthlyRecords : list (string * MonthlyRecord)) (record : ActivityRecord) :
  (forall userId email month,
      g {| mr_userId := userId; mr_email := email; mr_month := month;
           mr_daysActive := 0; mr_totalDays := 0; mr_numbers := zeroNumbers |} = 0) ->
  (forall r,
      g {| mr_userId := mr_userId r; mr_email := mr_email r; mr_month := mr_month r;
           mr_daysActive := (if isActive record then S (mr_daysActive r) else mr_daysActive r);
           mr_totalDays := S (mr_totalDays r);
           mr_numbers := addNumbers NUMERIC_FIELDS (mr_numbers r) (numbers record) |}
      = g r + c record) ->
  NoDup (map fst monthlyRecords) -> Forall monthlyEntryOk monthlyRecords ->
  match monthlyStep tz monthlyRecords record with
  | Ok records' =>
      NoDup (map fst records') /\ Forall monthlyEntryOk records' /\
      sumZ (map (fun e => g (snd e)) records')
      = sumZ (map (fun e => g (snd e)) monthlyRecords) + (if dated tz record then c record else 0)
  | Throw e =>
      e = RangeError "Invalid time value" /\
      exists d, parseDate tz (date record) = Some d /\ monthOf tz d = Throw e
  end.
Proof.
  intros Hfresh Hupdate Hnd Hok. unfold monthlyStep, dated.
  destruct (parseDate tz (date record)) as [d |] eqn:Ed.
  - rewrite bool_decide_eq_true_2 by (eexists; reflexivity).
    destruct (monthOf tz d) as [month | e] eqn:Em; cbn [bind].
    + split; [| split].
      * rewrite upsert_keys. apply setAdd_NoDup. exact Hnd.
      * apply upsert_Forall; [exact Hok | |].
        -- unfold monthlyEntryOk. cbn. split; [reflexivity |]. destruct (isActive record); lia.
        -- intros r (H1 & H2 & H3). unfold monthlyEntryOk in *. cbn [fst snd] in *.
           cbn [mr_userId mr_month mr_totalDays mr_daysActive].
           split; [exact H1 |]. destruct (isActive record); lia.
      * apply upsert_sum; [exact Hnd | apply Hfresh | apply Hupdate].
    + split; [apply (monthOf_throws tz d e Em) |]. exists d. split; [reflexivity | exact Em].
  - rewrite bool_decide_eq_false_2 by (intros [x Hx]; discriminate).
    split; [exact Hnd |]. split; [exact Hok | lia].
Qed.

Lemma monthlyLoop_invariant (tz : Z) (g : MonthlyRecord -> Z) (c : ActivityRecord -> Z)
    (rows : list ActivityRecord) :
  (forall userId email month,
      g {| mr_userId := userId; mr_email := email; mr_month := month;
           mr_daysActive := 0; mr_totalDays := 0; mr_numbers := zeroNumbers |} = 0) ->
  (forall record r,
      g {| mr_userId := mr_userId r; mr_email := mr_email r; mr_month := mr_month r;
           mr_daysActive := (if isActive record then S (mr_daysActive r) else mr_daysActive r);
           mr_totalDays := S (mr_totalDays r);
           mr_numbers := addNumbers NUMERIC_FIELDS (mr_numbers r) (numbers record) |}
      = g r + c record) ->
  forall monthlyRecords,
    NoDup (map fst monthlyRecords) -> Forall monthlyEntryOk monthlyRecords ->
    match monthlyLoop tz rows monthlyRecords with
    | Ok records' =>
        NoDup (map fst records') /\ Forall monthlyEntryOk records' /\
        sumZ (map (fun e => g (snd e)) records')
        = sumZ (map (fun e => g (snd e)) monthlyRecords)
          + sumZ (map c (List.filter (dated tz) rows))
    | Throw e =>
        e = RangeError "Invalid time value" /\
        Exists (fun record => exists d, parseDate tz (date record) = Some d
                                        /\ monthOf tz d = Throw e) rows
    end.
Proof.
  intros Hfresh Hupdate.
  induction rows as [| record rest IH]; intros monthlyRecords Hnd Hok; cbn [monthlyLoop].
  - split; [exact Hnd |]. split; [exact Hok |]. cbn. lia.
  - pose proof (monthlyStep_invariant tz g c monthlyRecords record Hfresh (Hupdate record) Hnd Hok)
      as Hstep.
    destruct (monthlyStep tz monthlyRecords record) as [records1 | e]; cbn [bind].
    + destruct Hstep as (Hnd1 & Hok1 & Hsum1).
      specialize (IH records1 Hnd1 Hok1).
      destruct (monthlyLoop tz rest records1) as [records' | e].
      * destruct IH as (Hnd' & Hok' & Hsum'). split; [exact Hnd' |]. split; [exact Hok' |].
        rewrite Hsum', Hsum1. cbn [List.filter].
        destruct (dated tz record); cbn [map]; rewrite ?sumZ_cons; lia.
      * destruct IH as [He Hex]. split; [exact He |]. right. exact Hex.
    + destruct Hstep as [He Hex]. split; [exact He |]. left. exact Hex.
Qed.

(** The records of [aggregateMonthly] account for the rows read: one record
    per user and month label, each counted at least once and with no more
    active days than days; the days of all records are the rows that have a
    date, a row repeated in two files counting twice; the active days are
    the active rows among them; and every numeric column adds up to the sum
    over those rows, when the values of the field in those rows are
    non-negative and their sum is at most 2^53, so that [+=] adds without
    rounding.  The loop throws only the RangeError of a date it cannot
    print. *)
Theorem monthlyLoop_accounts (tz : Z) (rows : list ActivityRecord) :
  match monthlyLoop tz rows [] with
  | Ok monthlyRecords =>
      NoDup (map fst monthlyRecords) /\ Forall monthlyEntryOk monthlyRecords /\
      list_sum (map (fun e => mr_totalDays (snd e)) monthlyRecords)
      = length (List.filter (dated tz) rows) /\
      list_sum (map (fun e => mr_daysActive (snd e)) monthlyRecords)
      = length (List.filter (fun record => dated tz record && isActive record) rows) /\
      forall field, field ∈ NUMERIC_FIELDS ->
        exactSum (map (fun record => numberOf field (numbers record))
                      (List.filter (dated tz) rows)) ->
        sumZ (map (fun e => numberOf field (mr_numbers (snd e))) monthlyRecords)
        = sumZ (map (fun record => numberOf field (numbers record))
                    (List.filter (dated tz) rows))
  | Throw e =>
      e = RangeError "Invalid time value" /\
      Exists (fun record => exists d, parseDate tz (date record) = Some d
                                      /\ monthOf tz d = Throw e) rows
  end.
Proof.
  pose proof (monthlyLoop_invariant tz (fun r => Z.of_nat (mr_totalDays r)) (fun _ => 1) rows
                ltac:(reflexivity) ltac:(intros; cbn [mr_totalDays]; lia)
                [] (NoDup_nil_2) (Forall_nil_2 _)) as Htotal.
  pose proof (monthlyLoop_invariant tz (fun r => Z.of_nat (mr_daysActive r))
                (fun record => if isActive record then 1 else 0) rows
                ltac:(reflexivity)
                ltac:(intros record r; cbn [mr_daysActive]; destruct (isActive record); lia)
                [] (NoDup_nil_2) (Forall_nil_2 _)) as Hactive.
  assert (Hfields : forall field, field ∈ NUMERIC_FIELDS ->
            match monthlyLoop tz rows [] with
            | Ok records' =>
                sumZ (map (fun e => numberOf field (mr_numbers (snd e))) records')
                = sumZ (map (fun record => numberOf field (numbers record))
                            (List.filter (dated tz) rows))
            | Throw _ => True
            end).
  { intros field Hfield.
    pose proof (monthlyLoop_invariant tz (fun r => numberOf field (mr_numbers r))
                  (fun record => numberOf field (numbers record)) rows
                  ltac:(intros; cbn [mr_numbers]; apply numberOf_zeroNumbers)
                  ltac:(intros record r; cbn [mr_numbers];
                        rewrite (addNumbers_numberOf _ _ _ _ NUMERIC_FIELDS_NoDup);
                        rewrite bool_decide_eq_true_2 by exact Hfield; reflexivity)
                  [] (NoDup_nil_2) (Forall_nil_2 _)) as H.
    destruct (monthlyLoop tz rows []); [| exact I].
    destruct H as (_ & _ & H). rewrite H. cbn. lia. }
  destruct (monthlyLoop tz rows []) as [monthlyRecords | e]; [| exact Htotal].
  destruct Htotal as (Hnd & Hok & Htotal). destruct Hactive as (_ & _ & Hactive).
  split; [exact Hnd |]. split; [exact Hok |].
  split; [| split; [| intros field Hfield _; exact (Hfields field Hfield)]].
  - apply Nat2Z.inj. rewrite <- sumZ_of_nat, Htotal, sumZ_ones. reflexivity.
  - apply Nat2Z.inj. rewrite <- sumZ_of_nat, Hactive, sumZ_count_filter. reflexivity.
Qed.

(** Three days of August 2025, dated at UTC midnight: under August in UTC,
    under July two hours east of it, and five hours west of it the first
    day under July and the others under August. *)
Example monthlyLoop_zones :
  bind (monthlyLoop 0 rowsAugust []) (fun records => Ok (map fst records))
  = Ok ["u1|2025-08"] /\
  bind (monthlyLoop 7200000 rowsAugust []) (fun records => Ok (map fst records))
  = Ok ["u1|2025-07"] /\
  bind (monthlyLoop (-18000000) rowsAugust []) (fun records => Ok (map fst records))
  = Ok ["u1|2025-07"; "u1|2025-08"].
Proof. vm_compute. repeat split. Qed.

(* ===================================================================== *)
(** ** aggregate.js: the rows of the window summary                        *)
(* ===================================================================== *)

Lemma processRecord_users (tz : Z) (st : list (string * UserRecord) * list (option Z))
    (record : ActivityRecord) :
  exists fresh update,
    fst (processRecord tz st record)
    = mapAlter update (userKey record)
        (if mapHas (userKey record) (fst st) then fst st
         else fst st ++ [(userKey record, fresh)])
    /\ ur_userId fresh = userKey record /\ _present fresh = ∅ /\ _active fresh = ∅
    /\ ur_numbers fresh = ∅
    /\ forall u, ur_userId (update u) = ur_userId u
                 /\ (_active u ⊆ _present u -> _active (update u) ⊆ _present (update u))
                 /\ ur_numbers (update u)
                    = addNumbers NUMERIC_FIELDS (ur_numbers u) (numbers record).
Proof.
  destruct st as [byUser allDates]. unfold processRecord, userKey. cbn [fst].
  eexists. eexists. split; [reflexivity |].
  split; [reflexivity |]. split; [reflexivity |]. split; [reflexivity |]. split; [reflexivity |].
  intros u. destruct (parseDate tz (date record)) as [d |];
    cbn [ur_userId _present _active ur_numbers].
  - split; [reflexivity |]. split; [| reflexivity].
    intros Hsub. destruct (isActive record).
    + apply union_mono_l. exact Hsub.
    + apply union_subseteq_r'. exact Hsub.
  - split; [reflexivity |]. split; [auto | reflexivity].
Qed.

(** The users after the first loop: one per user id, each under its id and
    with its active days among its present days; a measure of the numbers
    that adds up adds up over all records. *)
Lemma processRecord_invariant (tz : Z) (field : string) (rows : list ActivityRecord) :
  field ∈ NUMERIC_FIELDS ->
  forall st,
    NoDup (map fst (fst st)) ->
    Forall (fun e => fst e = ur_userId (snd e) /\ _active (snd e) ⊆ _present (snd e)) (fst st) ->
    let st' := fold_left (processRecord tz) rows st in
    NoDup (map fst (fst st')) /\
    Forall (fun e => fst e = ur_userId (snd e) /\ _active (snd e) ⊆ _present (snd e)) (fst st') /\
    (forall id, id ∈ map fst (fst st') <->
                id ∈ map fst (fst st) \/ exists record, record ∈ rows /\ id = userKey record) /\
    sumZ (map (fun e => numberOf field (ur_numbers (snd e))) (fst st'))
    = sumZ (map (fun e => numberOf field (ur_numbers (snd e))) (fst st))
      + sumZ (map (fun record => numberOf field (numbers record)) rows).
Proof.
  intros Hfield. induction rows as [| record rest IH]; intros st Hnd Hok; cbn [fold_left].
  - split; [exact Hnd |]. split; [exact Hok |]. split; [| cbn; lia].
    intros id. split; [auto | intros [H | (r & Hr & _)]; [exact H | inversion Hr]].
  - destruct (processRecord_users tz st record)
      as (fresh & update & Hst & Hid & Hp & Ha & Hn & Hupdate).
    assert (Hnd1 : NoDup (map fst (fst (processRecord tz st record)))).
    { rewrite Hst, upsert_keys. apply setAdd_NoDup. exact Hnd. }
    assert (Hok1 : Forall (fun e => fst e = ur_userId (snd e)
                                    /\ _active (snd e) ⊆ _present (snd e))
                          (fst (processRecord tz st record))).
    { rewrite Hst. apply upsert_Forall; [exact Hok | |].
      - cbn [fst snd]. destruct (Hupdate fresh) as (H1 & H2 & _). rewrite H1, Hid.
        split; [reflexivity |]. apply H2. rewrite Ha. apply empty_subseteq.
      - intros u [H1 H2]. cbn [fst snd] in *. destruct (Hupdate u) as (H3 & H4 & _).
        rewrite H3. split; [exact H1 | apply H4; exact H2]. }
    assert (Hsum1 : sumZ (map (fun e => numberOf field (ur_numbers (snd e)))
                              (fst (processRecord tz st record)))
                    = sumZ (map (fun e => numberOf field (ur_numbers (snd e))) (fst st))
                      + numberOf field (numbers record)).
    { rewrite Hst. apply (upsert_sum _ _ _ (fun u => numberOf field (ur_numbers u))).
      - exact Hnd.
      - rewrite Hn. reflexivity.
      - intros u. destruct (Hupdate u) as (_ & _ & H). rewrite H.
        rewrite (addNumbers_numberOf _ _ _ _ NUMERIC_FIELDS_NoDup).
        rewrite bool_decide_eq_true_2 by exact Hfield. reflexivity. }
    destruct (IH (processRecord tz st record) Hnd1 Hok1) as (Hnd' & Hok' & Hids' & Hsum').
    split; [exact Hnd' |]. split; [exact Hok' |]. split.
    + intros id. rewrite Hids', Hst, upsert_keys, setAdd_elem. split.
      * intros [[-> | H] | (r & Hr & ->)].
        -- right. exists record. split; [left | reflexivity].
        -- left. exact H.
        -- right. exists r. split; [right; exact Hr | reflexivity].
      * intros [H | (r & Hr & ->)]; [left; right; exact H |].
        apply elem_of_cons in Hr as [-> | Hr]; [left; left; reflexivity |].
        right. exists r. split; [exact Hr | reflexivity].
    + rewrite Hsum', Hsum1. cbn [map]. rewrite sumZ_cons. lia.
Qed.

Lemma sumZ_perm (l1 l2 : list Z) : l1 ≡ₚ l2 -> sumZ l1 = sumZ l2.
Proof.
  induction 1 as [| x l1 l2 _ IH | x y l | l1 l2 l3 _ IH1 _ IH2].
  - reflexivity.
  - rewrite !sumZ_cons, IH. reflexivity.
  - rewrite !sumZ_cons. lia.
  - congruence.
Qed.

(** The rows are the sorted users, one by one; rendering throws only the
    RangeError of a window date that cannot be printed. *)
Lemma windowRows_rows (windowStart windowEnd : Date) (windowDays : Num)
    (sortedUsers : list UserRecord) :
  match windowRows windowStart windowEnd windowDays sortedUsers with
  | Ok out =>
      Forall2 (fun u row =>
                 row_userId row = ur_userId u /\
                 row_presentDays row = size (_present u) /\
                 row_daysActive row = size (_active u) /\
                 row_numbers row = map (fun field => ur_numbers u !! field) NUMERIC_FIELDS)
              sortedUsers out
  | Throw e => e = RangeError "Invalid time value"
  end.
Proof.
  assert (Hiso : forall d, match iso d with
                           | Ok _ => True
                           | Throw e => e = RangeError "Invalid time value"
                           end).
  { intros [| t]; cbn; auto. }
  induction sortedUsers as [| u rest IH]; cbn [windowRows]; [constructor |].
  unfold windowRow.
  pose proof (Hiso windowStart) as Hs. pose proof (Hiso windowEnd) as He.
  destruct (iso windowStart) as [startText | e]; cbn [bind]; [| exact Hs].
  destruct (iso windowEnd) as [endText | e]; cbn [bind]; [| exact He].
  destruct (windowRows windowStart windowEnd windowDays rest) as [rows | e]; cbn [bind];
    [| exact IH].
  constructor; [| exact IH].
  cbn [row_userId row_presentDays row_daysActive row_numbers]. auto.
Qed.

Lemma totalLinesAdded_numeric : "totalLinesAdded" ∈ NUMERIC_FIELDS.
Proof. apply (bool_decide_unpack _). vm_compute. exact I. Qed.

(** The window summary accounts for the records read: one row per user id,
    for exactly the user ids of the records (UNKNOWN for a record without
    one); no row has more active days than present days; and every numeric
    column adds up to the sum of that field over all records, when the
    values of the field are non-negative and their sum is at most 2^53, so
    that the additions of the loop are without rounding.  Rendering throws
    only the RangeError of a window date that cannot be printed. *)
Theorem windowSummary_accounts (tz : Z) (localeCompare : string -> string -> Z)
    (rows : list ActivityRecord) :
  match windowSummary tz localeCompare rows with
  | Ok out =>
      NoDup (map row_userId out) /\
      (forall id, id ∈ map row_userId out <->
                  exists record, record ∈ rows /\ id = userKey record) /\
      Forall (fun row => (row_daysActive row <= row_presentDays row)%nat) out /\
      forall i field, NUMERIC_FIELDS !! i = Some field ->
        exactSum (map (fun record => numberOf field (numbers record)) rows) ->
        sumZ (map (rowNumber i) out)
        = sumZ (map (fun record => numberOf field (numbers record)) rows)
  | Throw e => e = RangeError "Invalid time value"
  end.
Proof.
  unfold windowSummary.
  pose proof (fun field H => processRecord_invariant tz field rows H ([], [])
                               (NoDup_nil_2) (Forall_nil_2 _)) as Hinv.
  cbv zeta in Hinv.
  destruct (fold_left (processRecord tz) rows ([], [])) as [byUser allDates] eqn:Efold.
  cbn [fst] in Hinv.
  set (compare := fun a b : UserRecord => localeCompare (ur_userId a) (ur_userId b)).
  pose proof (sortBy_perm compare (map snd byUser)) as Hperm.
  pose proof (windowRows_rows
                (Date_of_element (head (sortDefault allDates)))
                (Date_of_element (last (sortDefault allDates)))
                (windowDaysOf (Date_of_element (head (sortDefault allDates)))
                              (Date_of_element (last (sortDefault allDates))))
                (sortBy compare (map snd byUser))) as Hrows.
  destruct (windowRows _ _ _ (sortBy compare (map snd byUser))) as [out | e]; [| exact Hrows].
  destruct (Hinv _ totalLinesAdded_numeric) as (Hnd & Hok & Hids & _).
  assert (Hkeys : map fst byUser = map ur_userId (map snd byUser)).
  { rewrite List.map_map. apply Forall_fmap_ext_1. eapply Forall_impl; [exact Hok |].
    intros e [H _]. exact H. }
  assert (Houtids : map row_userId out = map ur_userId (sortBy compare (map snd byUser))).
  { clear -Hrows. induction Hrows as [| u row us rs (H & _) _ IH]; [reflexivity |].
    cbn [map]. rewrite H, IH. reflexivity. }
  assert (Hidperm : map row_userId out ≡ₚ map fst byUser).
  { rewrite Houtids, Hkeys. apply fmap_Permutation. exact Hperm. }
  split; [rewrite Hidperm; exact Hnd |]. split; [| split].
  - intros id. rewrite Hidperm, Hids. split.
    + intros [H | H]; [inversion H | exact H].
    + auto.
  - assert (Husers : Forall (fun u => _active u ⊆ _present u) (sortBy compare (map snd byUser))).
    { rewrite Hperm. apply List.Forall_map. eapply Forall_impl; [exact Hok |].
      intros e [_ H]. exact H. }
    clear -Hrows Husers.
    induction Hrows as [| u row us rs (_ & Hp & Ha & _) _ IH]; [constructor |].
    apply Forall_cons in Husers as [Hu Husers].
    constructor; [| apply IH; exact Husers].
    rewrite Hp, Ha. apply subseteq_size. exact Hu.
  - intros i field Hi _.
    assert (Hfield : field ∈ NUMERIC_FIELDS) by (eapply list_elem_of_lookup_2; exact Hi).
    destruct (Hinv field Hfield) as (_ & _ & _ & Hsum).
    change (sumZ (map _ [])) with 0 in Hsum.
    rewrite Z.add_0_l in Hsum. rewrite <- Hsum.
    assert (Hout : map (rowNumber i) out
                   = map (fun u => numberOf field (ur_numbers u))
                         (sortBy compare (map snd byUser))).
    { clear -Hrows Hi. induction Hrows as [| u row us rs (_ & _ & _ & Hn) _ IH]; [reflexivity |].
      cbn [map]. rewrite IH. f_equal.
      unfold rowNumber, numberOf. rewrite Hn, list_lookup_fmap, Hi. reflexivity. }
    rewrite Hout.
    rewrite (sumZ_perm _ (map (fun u => numberOf field (ur_numbers u)) (map snd byUser)))
      by (apply fmap_Permutation; exact Hperm).
    rewrite List.map_map. reflexivity.
Qed.

(* ===================================================================== *)
(** ** aggregate.js: the timestamps [normalizeDates] writes                *)
(* ===================================================================== *)

Lemma padCheck_3 (n : Z) : 0 <= n < 1000 -> padCheck 3 n = true.
Proof.
  intros H.
  apply (allFrom_spec (padCheck 3) (Z.to_nat 1000) 0); [vm_cast_no_check (eq_refl true) | lia].
Qed.

Lemma length_3 (s : string) :
  String.length s = 3%nat -> exists a b c, s = String a (String b (String c "")).
Proof.
  destruct s as [| a [| b [| c [| d r]]]]; cbn; intros H; try discriminate.
  exists a, b, c. reflexivity.
Qed.

(** [Date.parse] of a date and a time of digits, in UTC. *)
Lemma Date_parse_instant (tz : Z) (year month day hours minutes seconds millis : string)
    (y m d h mi s ms : Z) :
  String.length year = 4%nat -> allDigits year = Some y ->
  String.length month = 2%nat -> allDigits month = Some m ->
  String.length day = 2%nat -> allDigits day = Some d ->
  String.length hours = 2%nat -> allDigits hours = Some h ->
  String.length minutes = 2%nat -> allDigits minutes = Some mi ->
  String.length seconds = 2%nat -> allDigits seconds = Some s ->
  String.length millis = 3%nat -> allDigits millis = Some ms ->
  civil_from_days (days_from_civil y m d) = (y, m, d) ->
  h <= 24 -> mi <= 59 -> s <= 59 ->
  Date_parse tz
    (String.concat ""
       [ year; "-"; month; "-"; day; "T"; hours; ":"; minutes; ":"; seconds; "."; millis; "Z" ])
  = Some (days_from_civil y m d * msPerDay + (((h * 60 + mi) * 60 + s) * 1000 + ms)).
Proof.
  intros Hly Hy Hlm Hm Hld Hd Hlh Hh Hlmi Hmi Hls Hs Hlms Hms Hcivil Hh24 Hmi59 Hs59.
  apply length_4 in Hly as (y1 & y2 & y3 & y4 & ->).
  apply length_2 in Hlm as (m1 & m2 & ->).
  apply length_2 in Hld as (d1 & d2 & ->).
  apply length_2 in Hlh as (h1 & h2 & ->).
  apply length_2 in Hlmi as (i1 & i2 & ->).
  apply length_2 in Hls as (s1 & s2 & ->).
  apply length_3 in Hlms as (l1 & l2 & l3 & ->).
  unfold Date_parse, parseDay.
  change (field 0 4 _) with (allDigits (String y1 (String y2 (String y3 (String y4 ""))))).
  rewrite Hy. cbn [mbind option_bind].
  change (field 5 2 _) with (allDigits (String m1 (String m2 ""))).
  rewrite Hm. cbn [mbind option_bind].
  change (field 8 2 _) with (allDigits (String d1 (String d2 ""))).
  rewrite Hd. cbn [mbind option_bind].
  rewrite decide_True; [| split; [reflexivity | split; [reflexivity | exact Hcivil]]].
  cbn [mbind option_bind].
  change (String.length _ =? 10)%nat with false. cbn iota.
  rewrite decide_True by reflexivity.
  unfold parseClock.
  change (field 0 2 _) with (allDigits (String h1 (String h2 ""))).
  rewrite Hh. cbn [mbind option_bind].
  change (field 3 2 _) with (allDigits (String i1 (String i2 ""))).
  rewrite Hmi. cbn [mbind option_bind].
  rewrite decide_True by (split; [reflexivity | split; assumption]).
  rewrite decide_True by reflexivity.
  change (field 6 2 _) with (allDigits (String s1 (String s2 ""))).
  rewrite Hs. cbn [mbind option_bind].
  rewrite decide_True by assumption.
  rewrite decide_True by reflexivity.
  change (field 9 3 _) with (allDigits (String l1 (String l2 (String l3 "")))).
  rewrite Hms. cbn [mbind option_bind].
  change (parseOffset tz _) with (Some 0).
  cbn [mbind option_bind]. f_equal. lia.
Qed.

(** [new Date] reads the text of [toISOString] back as the same instant, in
    any local time zone, for the years 0 to 9999. *)
Lemma Date_parse_isoOfTime (tz t : Z) :
  -62167219200000 <= t <= 253402300799999 ->
  Date_parse tz (isoOfTime t) = Some t.
Proof.
  intros Ht.
  pose proof (days_from_civil_of_civil (t / msPerDay)) as Hc.
  unfold isoOfTime.
  destruct (civil_from_days (t / msPerDay)) as [[y m] d] eqn:Hcivil.
  destruct Hc as (Hday & Hm & Hd & Hy).
  assert (Hz : -719528 <= t / msPerDay <= 2932896).
  { unfold msPerDay. split.
    - apply Z.div_le_lower_bound; lia.
    - apply Z.lt_succ_r. apply Z.div_lt_upper_bound; lia. }
  specialize (Hy Hz).
  pose proof (Z.div_mod t msPerDay ltac:(unfold msPerDay; lia)) as Hdm.
  pose proof (Z.mod_pos_bound t msPerDay ltac:(unfold msPerDay; lia)) as Hr.
  revert Hdm Hr. generalize (t mod msPerDay). intros r Hdm Hr. unfold msPerDay in Hdm, Hr.
  pose proof (Z.div_mod r 3600000 ltac:(lia)) as Hrh.
  pose proof (Z.mod_pos_bound r 3600000 ltac:(lia)) as Hrh'.
  pose proof (Z.div_mod r 60000 ltac:(lia)) as Hrm.
  pose proof (Z.mod_pos_bound r 60000 ltac:(lia)) as Hrm'.
  pose proof (Z.div_mod (r / 60000) 60 ltac:(lia)) as Hrm2.
  pose proof (Z.mod_pos_bound (r / 60000) 60 ltac:(lia)) as Hrm2'.
  pose proof (Z.div_mod r 1000 ltac:(lia)) as Hrs.
  pose proof (Z.mod_pos_bound r 1000 ltac:(lia)) as Hrs'.
  pose proof (Z.div_mod (r / 1000) 60 ltac:(lia)) as Hrs2.
  pose proof (Z.mod_pos_bound (r / 1000) 60 ltac:(lia)) as Hrs2'.
  assert (Hh : 0 <= r / 3600000 < 24).
  { split; [apply Z.div_pos; lia | apply Z.div_lt_upper_bound; lia]. }
  assert (Hhm : r / 60000 / 60 = r / 3600000) by (rewrite Z.div_div by lia; reflexivity).
  assert (Hms : r / 1000 / 60 = r / 60000) by (rewrite Z.div_div by lia; reflexivity).
  unfold isoYear.
  replace ((0 <=? y) && (y <=? 9999)) with true
    by (symmetry; apply andb_true_iff; split; apply Z.leb_le; lia).
  destruct (padCheck_spec 4 y (padCheck_4 y ltac:(lia))) as [Hly Hvy].
  destruct (padCheck_spec 2 m (padCheck_2 m ltac:(lia))) as [Hlm Hvm].
  destruct (padCheck_spec 2 d (padCheck_2 d ltac:(lia))) as [Hld Hvd].
  destruct (padCheck_spec 2 _ (padCheck_2 (r / 3600000) ltac:(lia))) as [Hlh Hvh].
  destruct (padCheck_spec 2 _ (padCheck_2 (r / 60000 mod 60) ltac:(lia))) as [Hli Hvi].
  destruct (padCheck_spec 2 _ (padCheck_2 (r / 1000 mod 60) ltac:(lia))) as [Hls Hvs].
  destruct (padCheck_spec 3 _ (padCheck_3 (r mod 1000) ltac:(lia))) as [Hll Hvl].
  rewrite (Date_parse_instant tz _ _ _ _ _ _ _ y m d (r / 3600000) (r / 60000 mod 60)
             (r / 1000 mod 60) (r mod 1000)); try assumption; try lia.
  - f_equal. rewrite Hday. unfold msPerDay. lia.
  - rewrite Hday. exact Hcivil.
Qed.

(** [new Date] reads the first ten characters of [toISOString] as the UTC
    midnight of the day. *)
Lemma Date_parse_date (tz t : Z) :
  -62167219200000 <= t <= 253402300799999 ->
  Date_parse tz (String.substring 0 10 (isoOfTime t)) = Some (t - t mod msPerDay).
Proof.
  intros Ht.
  pose proof (days_from_civil_of_civil (t / msPerDay)) as Hc.
  destruct (civil_from_days (t / msPerDay)) as [[y m] d] eqn:Hcivil.
  destruct Hc as (Hday & Hm & Hd & Hy).
  assert (Hz : -719528 <= t / msPerDay <= 2932896).
  { unfold msPerDay. split.
    - apply Z.div_le_lower_bound; lia.
    - apply Z.lt_succ_r. apply Z.div_lt_upper_bound; lia. }
  specialize (Hy Hz).
  pose proof (iso_day t y m d Hcivil Hy Hm Hd) as Hiso.
  unfold iso, toISOString in Hiso. cbn [bind] in Hiso. injection Hiso as ->.
  destruct (padCheck_spec 4 y (padCheck_4 y ltac:(lia))) as [Hly Hvy].
  destruct (padCheck_spec 2 m (padCheck_2 m ltac:(lia))) as [Hlm Hvm].
  destruct (padCheck_spec 2 d (padCheck_2 d ltac:(lia))) as [Hld Hvd].
  revert Hly Hvy Hlm Hvm Hld Hvd.
  generalize (pad 4 y) (pad 2 m) (pad 2 d). intros year month day Hly Hvy Hlm Hvm Hld Hvd.
  apply length_4 in Hly as (y1 & y2 & y3 & y4 & ->).
  apply length_2 in Hlm as (m1 & m2 & ->).
  apply length_2 in Hld as (d1 & d2 & ->).
  unfold Date_parse, parseDay.
  change (field 0 4 _) with (allDigits (String y1 (String y2 (String y3 (String y4 ""))))).
  rewrite Hvy. cbn [mbind option_bind].
  change (field 5 2 _) with (allDigits (String m1 (String m2 ""))).
  rewrite Hvm. cbn [mbind option_bind].
  change (field 8 2 _) with (allDigits (String d1 (String d2 ""))).
  rewrite Hvd. cbn [mbind option_bind].
  rewrite decide_True;
    [| split; [reflexivity | split; [reflexivity | rewrite Hday; exact Hcivil]]].
  cbn [mbind option_bind].
  change (String.length _ =? 10)%nat with true. cbn iota.
  f_equal. rewrite Hday.
  pose proof (Z.div_mod t msPerDay ltac:(unfold msPerDay; lia)). lia.
Qed.

(** The timestamps [normalizeDates] writes can be read back.  For a
    positive number in a date or timestamp field, taken as seconds below
    1e12 and as milliseconds otherwise, and not after the year 9999: the
    field becomes a text that [new Date] reads, in any local time zone, as
    the same instant, or, in a field whose name ends in "date", as the UTC
    midnight that begins the day of the instant. *)
Theorem normalizeField_read_back (tz : Z) (key : string) (n : Z) :
  isDateKey key = true -> 0 < n ->
  (if n <? 1000000000000 then n * 1000 else n) <= 253402300799999 ->
  exists text,
    normalizeField key (JNumber n) = Ok (JString text) /\
    Date_of_string tz text
    = DateOf (let ms := if n <? 1000000000000 then n * 1000 else n in
              if endsWith (toLowerCase key) "date" then ms - ms mod msPerDay else ms).
Proof.
  intros Hkey Hn Hmax. unfold normalizeField. rewrite Hkey.
  destruct (Z.eqb_spec n 0) as [E | _]; [lia |].
  cbv zeta. set (ms := if n <? 1000000000000 then n * 1000 else n) in *.
  assert (Hms : 0 < ms) by (unfold ms; destruct (n <? 1000000000000); lia).
  rewrite TimeClip_valid by lia. cbn [toISOString bind].
  assert (Hor : String.eqb (toLowerCase key) "date" || endsWith (toLowerCase key) "date"
                = endsWith (toLowerCase key) "date").
  { destruct (String.eqb_spec (toLowerCase key) "date") as [-> | _]; reflexivity. }
  rewrite Hor.
  destruct (endsWith (toLowerCase key) "date").
  - eexists. split; [reflexivity |].
    unfold Date_of_string. rewrite (Date_parse_date tz ms) by lia. apply TimeClip_valid.
    pose proof (Z.mod_pos_bound ms msPerDay ltac:(unfold msPerDay; lia)).
    unfold msPerDay in *. lia.
  - eexists. split; [reflexivity |].
    unfold Date_of_string. rewrite (Date_parse_isoOfTime tz ms) by lia.
    apply TimeClip_valid. lia.
Qed.

(** A [createdAt] in seconds is read back as that instant. *)
Lemma normalizeField_read_back_witness :
  exists text,
    normalizeField "createdAt" (JNumber 1754906400) = Ok (JString text) /\
    Date_of_string 7200000 text = DateOf 1754906400000.
Proof.
  destruct (normalizeField_read_back 7200000 "createdAt" 1754906400) as (text & H1 & H2).
  - reflexivity.
  - lia.
  - vm_compute. discriminate.
  - exists text. split; [exact H1 | exact H2].
Defined.

(* ===================================================================== *)
(** ** ReportingService: who is active in Cursor                           *)
(* ===================================================================== *)

Lemma cursorStep_spec (tz : Z) (cutoffDate : Date) (acc : CursorAnalysis)
    (record : ActivityRecord) :
  cursorConsistent acc ->
  cursorConsistent (cursorStep tz cutoffDate acc record) /\
  (forall email,
     email ∈ cursorActiveUsers (cursorStep tz cutoffDate acc record) <->
     email ∈ cursorActiveUsers acc \/
     (emailKey record = Some email /\ activeSince tz cutoffDate record = true)) /\
  (forall email,
     default 0 (totalRequests <$> cursorActivityMap (cursorStep tz cutoffDate acc record) !! email)
     = default 0 (totalRequests <$> cursorActivityMap acc !! email)
       + (if decide (emailKey record = Some email) then requestsOf record else 0)) /\
  (forall email,
     is_Some (cursorActivityMap (cursorStep tz cutoffDate acc record) !! email) <->
     is_Some (cursorActivityMap acc !! email) \/ emailKey record = Some email).
Proof.
  intros [Hactive Hentry]. unfold cursorStep, emailKey, activeSince, requestsOf.
  destruct (truthy (toLowerCase <$> ar_email record)) as [key |].
  2:{ split; [split; assumption |]. split; [| split].
      - intros email. split; [auto | intros [H | [H _]]; [exact H | discriminate]].
      - intros email. rewrite decide_False by discriminate. lia.
      - intros email. split; [auto | intros [H | H]; [exact H | discriminate]]. }
  set (d := Date_of_value tz (date record)).
  set (activity := default {| cu_lastActivity := None; hasRecentActivity := false;
                              totalRequests := 0 |} (cursorActivityMap acc !! key)).
  set (requests := totalRequests activity + _).
  set (newer := match cu_lastActivity activity with
                | None => true
                | Some previous => date_gt d previous
                end).
  set (active := isActive record && date_ge d cutoffDate).
  assert (Hold : is_Some (cu_lastActivity activity) \/ hasRecentActivity activity = true ->
                 key ∈ cursorActiveUsers acc).
  { unfold activity. destruct (cursorActivityMap acc !! key) as [a |] eqn:Ea.
    - cbn [default]. apply (Hentry key a Ea).
    - cbn [default cu_lastActivity hasRecentActivity].
      intros [[x Hx] | H]; discriminate. }
  assert (Hnew : key ∈ cursorActiveUsers acc -> hasRecentActivity activity = true).
  { intros Hin. destruct (Hactive key Hin) as (a & Ea & Ha).
    unfold activity. rewrite Ea. exact Ha. }
  assert (Hprev : newer = false -> key ∈ cursorActiveUsers acc).
  { unfold newer. destruct (cu_lastActivity activity) as [previous |] eqn:El; [| discriminate].
    intros _. apply Hold. left. eexists. reflexivity. }
  assert (Htotal : default 0 (totalRequests <$> cursorActivityMap acc !! key)
                   = totalRequests activity).
  { unfold activity. destruct (cursorActivityMap acc !! key); reflexivity. }
  unfold cursorConsistent.
  destruct (active && newer) eqn:Estep;
    cbn [cursorActiveUsers cursorActivityMap].
  - (* the record makes the user active *)
    apply andb_true_iff in Estep as [Eactive _].
    split; [split |]; [| | split; [| split]].
    + intros email Hin. apply elem_of_union in Hin as [Hin | Hin].
      * apply elem_of_singleton in Hin as ->. eexists.
        rewrite lookup_insert_eq. split; reflexivity.
      * destruct (decide (key = email)) as [-> | Hne].
        -- eexists. rewrite lookup_insert_eq. split; reflexivity.
        -- rewrite lookup_insert_ne by exact Hne. apply Hactive. exact Hin.
    + intros email a Ha Hflag. apply elem_of_union.
      destruct (decide (key = email)) as [-> | Hne].
      * left. apply elem_of_singleton. reflexivity.
      * right. rewrite lookup_insert_ne in Ha by exact Hne. apply (Hentry email a Ha Hflag).
    + intros email. rewrite elem_of_union, elem_of_singleton. split.
      * intros [-> | H]; [right; split; [reflexivity | exact Eactive] | left; exact H].
      * intros [H | [[= ->] _]]; [right; exact H | left; reflexivity].
    + intros email. destruct (decide (key = email)) as [-> | Hne].
      * rewrite lookup_insert_eq, decide_True by reflexivity.
        cbn [fmap option_fmap option_map default totalRequests]. rewrite Htotal. reflexivity.
      * rewrite lookup_insert_ne by exact Hne. rewrite decide_False by congruence. lia.
    + intros email. destruct (decide (key = email)) as [-> | Hne].
      * rewrite lookup_insert_eq. split; [auto | intros _; eexists; reflexivity].
      * rewrite lookup_insert_ne by exact Hne.
        split; [auto | intros [H | [= H]]; [exact H | contradiction]].
  - (* the record leaves the active users as they are *)
    split; [split |]; [| | split; [| split]].
    + intros email Hin. destruct (decide (key = email)) as [-> | Hne].
      * eexists. rewrite lookup_insert_eq. split; [reflexivity |].
        cbn [hasRecentActivity]. apply Hnew. exact Hin.
      * rewrite lookup_insert_ne by exact Hne. apply Hactive. exact Hin.
    + intros email a Ha Hflag. destruct (decide (key = email)) as [-> | Hne].
      * rewrite lookup_insert_eq in Ha. injection Ha as <-.
        cbn [cu_lastActivity hasRecentActivity] in Hflag. apply Hold. exact Hflag.
      * rewrite lookup_insert_ne in Ha by exact Hne. apply (Hentry email a Ha Hflag).
    + intros email. split; [auto |]. intros [H | [[= ->] Eactive]]; [exact H |].
      apply Hprev. fold d active in Eactive. rewrite Eactive in Estep. exact Estep.
    + intros email. destruct (decide (key = email)) as [-> | Hne].
      * rewrite lookup_insert_eq, decide_True by reflexivity.
        cbn [fmap option_fmap option_map default totalRequests]. rewrite Htotal. reflexivity.
      * rewrite lookup_insert_ne by exact Hne. rewrite decide_False by congruence. lia.
    + intros email. destruct (decide (key = email)) as [-> | Hne].
      * rewrite lookup_insert_eq. split; [auto | intros _; eexists; reflexivity].
      * rewrite lookup_insert_ne by exact Hne.
        split; [auto | intros [H | [= H]]; [exact H | contradiction]].
Qed.

Lemma cursorLoop_spec (tz : Z) (cutoffDate : Date) (rows : list ActivityRecord) :
  forall acc,
    cursorConsistent acc ->
    let analysis := fold_left (cursorStep tz cutoffDate) rows acc in
    cursorConsistent analysis /\
    (forall email,
       email ∈ cursorActiveUsers analysis <->
       email ∈ cursorActiveUsers acc \/
       exists record, record ∈ rows /\ emailKey record = Some email
                      /\ activeSince tz cutoffDate record = true) /\
    (forall email,
       default 0 (totalRequests <$> cursorActivityMap analysis !! email)
       = default 0 (totalRequests <$> cursorActivityMap acc !! email)
         + sumZ (map requestsOf
                     (List.filter (fun record => bool_decide (emailKey record = Some email)) rows))) /\
    (forall email,
       is_Some (cursorActivityMap analysis !! email) <->
       is_Some (cursorActivityMap acc !! email) \/
       exists record, record ∈ rows /\ emailKey record = Some email).
Proof.
  induction rows as [| record rest IH]; intros acc Hacc; cbn [fold_left]; cbv zeta.
  - split; [exact Hacc |]. split; [| split].
    + intros email. split; [auto | intros [H | (r & Hr & _)]; [exact H | inversion Hr]].
    + intros email. cbn. lia.
    + intros email. split; [auto | intros [H | (r & Hr & _)]; [exact H | inversion Hr]].
  - destruct (cursorStep_spec tz cutoffDate acc record Hacc) as (Hacc1 & Hin1 & Htotal1 & Hkey1).
    destruct (IH _ Hacc1) as (Hacc' & Hin' & Htotal' & Hkey'). cbv zeta in *.
    split; [exact Hacc' |]. split; [| split].
    + intros email. rewrite Hin', Hin1. split.
      * intros [[H | [Hk Ha]] | (r & Hr & Hk & Ha)].
        -- left. exact H.
        -- right. exists record. split; [left | split; assumption].
        -- right. exists r. split; [right; exact Hr | split; assumption].
      * intros [H | (r & Hr & Hk & Ha)]; [left; left; exact H |].
        apply elem_of_cons in Hr as [-> | Hr]; [left; right; split; assumption |].
        right. exists r. split; [exact Hr | split; assumption].
    + intros email. rewrite Htotal', Htotal1. cbn [List.filter].
      destruct (decide (emailKey record = Some email)) as [E | E].
      * rewrite bool_decide_eq_true_2 by exact E. cbn [map]. rewrite sumZ_cons. lia.
      * rewrite bool_decide_eq_false_2 by exact E. lia.
    + intros email. rewrite Hkey', Hkey1. split.
      * intros [[H | Hk] | (r & Hr & Hk)].
        -- left. exact H.
        -- right. exists record. split; [left | exact Hk].
        -- right. exists r. split; [right; exact Hr | exact Hk].
      * intros [H | (r & Hr & Hk)]; [left; left; exact H |].
        apply elem_of_cons in Hr as [-> | Hr]; [left; right; exact Hk |].
        right. exists r. split; [exact Hr | exact Hk].
Qed.

(** Who the Cursor analysis finds active does not depend on the order of
    the records: a lower-cased email is in [activeUsers] exactly when some
    record of that email is active and dated at or after the cutoff; the
    activity map has an entry for exactly the emails of the records, flagged
    as recently active exactly for the active users, with the composer and
    chat requests of all the records of the email added up, when those
    request counts are non-negative and their sum is at most 2^53, so
    that [+] and [+=] add without rounding. *)
Theorem cursorLoop_active (tz : Z) (cutoffDate : Date) (rows : list ActivityRecord) :
  let analysis := fold_left (cursorStep tz cutoffDate) rows emptyCursorAnalysis in
  (forall email,
     email ∈ cursorActiveUsers analysis <->
     exists record, record ∈ rows /\ emailKey record = Some email
                    /\ activeSince tz cutoffDate record = true) /\
  (forall email,
     is_Some (cursorActivityMap analysis !! email) <->
     exists record, record ∈ rows /\ emailKey record = Some email) /\
  (forall email activity,
     cursorActivityMap analysis !! email = Some activity ->
     (hasRecentActivity activity = true <-> email ∈ cursorActiveUsers analysis) /\
     (exactSum (flat_map requestCounts
                  (List.filter (fun record => bool_decide (emailKey record = Some email)) rows)) ->
      totalRequests activity
      = sumZ (map requestsOf
                  (List.filter (fun record => bool_decide (emailKey record = Some email)) rows)))).
Proof.
  assert (Hempty : cursorConsistent emptyCursorAnalysis).
  { split.
    - intros email H. apply elem_of_empty in H. contradiction.
    - intros email a H. change (cursorActivityMap emptyCursorAnalysis) with (∅ : gmap string CursorActivity) in H.
      rewrite lookup_empty in H. discriminate. }
  destruct (cursorLoop_spec tz cutoffDate rows emptyCursorAnalysis Hempty)
    as ([Hactive Hentry] & Hin & Htotal & Hkey).
  cbv zeta in *. split; [| split].
  - intros email. rewrite Hin. split; [| auto].
    intros [H | H]; [apply elem_of_empty in H; contradiction | exact H].
  - intros email. rewrite Hkey. split; [| auto].
    change (cursorActivityMap emptyCursorAnalysis) with (∅ : gmap string CursorActivity).
    rewrite lookup_empty. intros [[x H] | H]; [discriminate | exact H].
  - intros email a Ha. split.
    + split; [intros H; apply (Hentry email a Ha); right; exact H |].
      intros H. destruct (Hactive email H) as (a' & Ha' & Hflag). congruence.
    + intros _. specialize (Htotal email). rewrite Ha in Htotal.
      change (cursorActivityMap emptyCursorAnalysis) with (∅ : gmap string CursorActivity) in Htotal.
      rewrite lookup_empty in Htotal.
      change (totalRequests a = 0 + sumZ (map requestsOf
                (List.filter (fun record => bool_decide (emailKey record = Some email)) rows)))
        in Htotal.
      lia.
Qed.

(* ===================================================================== *)
(** ** GitHubDiagnosticService: when the diagnostic is silent              *)
(* ===================================================================== *)

Lemma includes_elem (scopes : list string) (scope : string) :
  includes scopes scope = true <-> scope ∈ scopes.
Proof. apply existsb_eqb_elem. Qed.

(** The scopes the recommendations name as missing are the two required
    scopes that are not granted: the other permissions have no colon in
    their name and are never "missing" once the user is authenticated. *)
Lemma missingScopes_eq (userResult : UserAuth) (seatsResult : option SeatsAccess) :
  authenticated userResult = true ->
  map permission
    (List.filter
       (fun p => String.eqb (perm_status p) "missing" && str_includes ":" (permission p))
       (analyzePermissions userResult seatsResult))
  = List.filter (fun scope => negb (includes (scopesOf userResult) scope))
                ["manage_billing:copilot"; "read:org"].
Proof.
  intros Ha. unfold analyzePermissions. rewrite Ha. cbn [negb List.filter].
  destruct (includes (scopesOf userResult) "manage_billing:copilot"),
           (includes (scopesOf userResult) "read:org"),
           seatsResult as [seats |]; try destruct (accessible seats); reflexivity.
Qed.

(** The recommendations of a diagnostic.  Without a token, or without
    authentication, there is exactly one, about that.  Otherwise the scopes
    [manage_billing:copilot] and [read:org] that are not among the granted
    scopes are named in the first recommendation, and nothing else is
    named there.  There is no recommendation at all exactly when the token
    is present, the user authenticated, both scopes granted, the seats
    endpoint accessible or refused with a status other than 403 and 404,
    and the remaining rate limit not below 100. *)
Theorem diagnose_recommendations (lessThan100 : string -> bool) (tokenPresent : bool)
    (userResult : UserAuth) (seatsResult : option SeatsAccess) :
  let recommendations := diagnose lessThan100 tokenPresent userResult seatsResult in
  let missing :=
    List.filter (fun scope => negb (includes (scopesOf userResult) scope))
                ["manage_billing:copilot"; "read:org"] in
  (tokenPresent = false -> map issue recommendations = ["No GitHub token configured"]) /\
  (tokenPresent = true -> authenticated userResult = false ->
   map issue recommendations = ["Authentication failed"]) /\
  (tokenPresent = true -> authenticated userResult = true ->
   match missing with
   | [] => Forall (fun r => String.prefix "Missing required scopes" (issue r) = false)
                  recommendations
   | _ :: _ =>
       exists rest,
         map issue recommendations
         = String.app "Missing required scopes: " (String.concat ", " missing) :: rest
   end) /\
  (recommendations = [] <->
   tokenPresent = true /\ authenticated userResult = true /\ missing = [] /\
   forall seats, seatsResult = Some seats ->
     (accessible seats = false ->
      seats_status seats <> Some 403 /\ seats_status seats <> Some 404) /\
     (forall limit remaining,
        seats_rateLimit seats = Some limit -> rl_remaining limit = Some remaining ->
        lessThan100 remaining = false)).
Proof.
  cbv zeta. unfold diagnose, generateRecommendations.
  cbn [token_present diag_user diag_seats diag_permissions fmap option_fmap option_map default
       from_option id].
  destruct tokenPresent; cbn [negb].
  2:{ split; [reflexivity |]. split; [discriminate |]. split; [discriminate |].
      split; [discriminate | intros [H _]; discriminate]. }
  split; [discriminate |].
  destruct (authenticated userResult) eqn:Ea; cbn [negb].
  2:{ split; [reflexivity |]. split; [discriminate |].
      split; [discriminate | intros (_ & H & _); discriminate]. }
  split; [discriminate |].
  rewrite (missingScopes_eq userResult seatsResult Ea).
  set (missing := List.filter _ ["manage_billing:copilot"; "read:org"]).
  set (seatRecs := match seatsResult with
                   | Some seats => if negb (accessible seats) then _ else []
                   | None => []
                   end).
  set (rateRecs := match seatsResult ≫= seats_rateLimit with
                   | Some limit => _
                   | None => []
                   end).
  assert (Hseat : Forall (fun r => String.prefix "Missing required scopes" (issue r) = false)
                         seatRecs).
  { unfold seatRecs. destruct seatsResult as [seats |]; [| constructor].
    destruct (accessible seats); cbn [negb]; [constructor |].
    destruct (bool_decide (seats_status seats = Some 403)); [repeat constructor |].
    destruct (bool_decide (seats_status seats = Some 404)); repeat constructor. }
  assert (Hrate : Forall (fun r => String.prefix "Missing required scopes" (issue r) = false)
                         rateRecs).
  { unfold rateRecs. destruct (seatsResult ≫= seats_rateLimit) as [limit |]; [| constructor].
    destruct (rl_remaining limit) as [remaining |]; [| constructor].
    destruct (lessThan100 remaining); repeat constructor. }
  assert (Hsilent : seatRecs ++ rateRecs = [] <->
            forall seats, seatsResult = Some seats ->
              (accessible seats = false ->
               seats_status seats <> Some 403 /\ seats_status seats <> Some 404) /\
              (forall limit remaining,
                 seats_rateLimit seats = Some limit -> rl_remaining limit = Some remaining ->
                 lessThan100 remaining = false)).
  { unfold seatRecs, rateRecs. clear. destruct seatsResult as [seats |]; cbn [mbind option_bind].
    2:{ split; [intros _ seats H; discriminate | reflexivity]. }
    split.
    - intros H seats' [= <-]. apply app_eq_nil in H as [Hs Hr]. split.
      + intros Ha. rewrite Ha in Hs. cbn [negb] in Hs.
        destruct (bool_decide_reflect (seats_status seats = Some 403)) as [| H403];
          [discriminate |].
        destruct (bool_decide_reflect (seats_status seats = Some 404)) as [| H404];
          [discriminate |].
        split; assumption.
      + intros limit remaining Hl Hrem. rewrite Hl, Hrem in Hr.
        destruct (lessThan100 remaining); [discriminate | reflexivity].
    - intros H. destruct (H seats eq_refl) as [Hs Hr].
      assert (Hrate : match seats_rateLimit seats with
                      | Some limit =>
                          match rl_remaining limit with
                          | Some remaining =>
                              if lessThan100 remaining
                              then [ {| priority := "medium";
                                        issue := String.app "Low rate limit remaining: " remaining;
                                        solution :=
                                          "Consider waiting before making more API calls or using a different token" |} ]
                              else []
                          | None => []
                          end
                      | None => []
                      end = []).
      { destruct (seats_rateLimit seats) as [limit |]; [| reflexivity].
        destruct (rl_remaining limit) as [remaining |] eqn:Er; [| reflexivity].
        rewrite (Hr limit remaining eq_refl Er). reflexivity. }
      rewrite Hrate, app_nil_r.
      destruct (accessible seats); cbn [negb]; [reflexivity |].
      destruct (Hs eq_refl) as [H403 H404].
      rewrite !bool_decide_eq_false_2 by assumption. reflexivity. }
  clearbody seatRecs rateRecs missing.
  destruct missing as [| scope others]; cbn [length Nat.ltb Nat.leb app].
  - split; [intros _ _; apply Forall_app; split; assumption |].
    rewrite Hsilent. tauto.
  - split; [intros _ _; eexists; reflexivity |].
    split; [intros H; discriminate | intros (_ & _ & H & _); discriminate].
Qed.

(** Only [read:org] is granted, with blanks around it, and the seats
    endpoint answers 500: one recommendation, naming the missing scope. *)
Example diagnose_missing_scope :
  map issue
    (diagnose (fun _ => false) true
       {| authenticated := true; auth_scopes := Some "repo, read:org " |}
       (Some {| accessible := false; seats_status := Some 500; seats_rateLimit := None |}))
  = ["Missing required scopes: manage_billing:copilot"].
Proof. vm_compute. reflexivity. Qed.

(* ===================================================================== *)
(** ** ReportingService: who is active in Copilot                          *)
(* ===================================================================== *)

(** One seat of the loop: the clock is read when the seat has a last
    activity, nothing is thrown, and the seat's login joins the active or
    the inactive logins by [seatActive]. *)
Lemma copilotLoop_cons (tz : Z) (cutoffDate : Date) (seat : Seat) (rest : list Seat)
    (acc : CopilotAnalysis) (w : World) :
  exists activity w1,
    fs w1 = fs w /\
    ca_isActive activity = seatActive tz cutoffDate seat /\
    ca_lastActivity activity = last_activity_at seat /\
    copilotLoop tz cutoffDate (seat :: rest) acc w
    = copilotLoop tz cutoffDate rest
        {| activeLogins :=
             if seatActive tz cutoffDate seat then {[loginOf seat]} ∪ activeLogins acc
             else activeLogins acc;
           inactiveLogins :=
             if seatActive tz cutoffDate seat then inactiveLogins acc
             else {[loginOf seat]} ∪ inactiveLogins acc;
           copilotActivityMap := <[loginOf seat := activity]> (copilotActivityMap acc) |} w1.
Proof.
  cbn [copilotLoop]. rewrite io_bind_unfold. unfold seatActive, activeAt, loginOf.
  destruct (truthy (last_activity_at seat)) as [text |].
  - rewrite io_bind_unfold, Date_now_eq.
    eexists. exists (tick w). split; [reflexivity |]. split; [| split]; [| | reflexivity];
      reflexivity.
  - eexists. exists w. split; [reflexivity |]. split; [| split]; [| | reflexivity];
      reflexivity.
Qed.

Lemma copilotLoop_spec (tz : Z) (cutoffDate : Date) (seats : list Seat) :
  forall acc w,
  exists analysis w',
    copilotLoop tz cutoffDate seats acc w = (Ok analysis, w') /\ fs w' = fs w /\
    (forall l, l ∈ activeLogins analysis <->
               l ∈ activeLogins acc \/
               exists seat, seat ∈ seats /\ loginOf seat = l
                            /\ seatActive tz cutoffDate seat = true) /\
    (forall l, l ∈ inactiveLogins analysis <->
               l ∈ inactiveLogins acc \/
               exists seat, seat ∈ seats /\ loginOf seat = l
                            /\ seatActive tz cutoffDate seat = false) /\
    (forall l, (forall seat, seat ∈ seats -> loginOf seat <> l) ->
               copilotActivityMap analysis !! l = copilotActivityMap acc !! l) /\
    (forall before seat after,
       seats = before ++ seat :: after ->
       (forall other, other ∈ after -> loginOf other <> loginOf seat) ->
       exists activity,
         copilotActivityMap analysis !! loginOf seat = Some activity /\
         ca_isActive activity = seatActive tz cutoffDate seat /\
         ca_lastActivity activity = last_activity_at seat).
Proof.
  induction seats as [| seat rest IH]; intros acc w.
  - exists acc, w. split; [reflexivity |]. split; [reflexivity |].
    split; [| split; [| split]].
    + intros l. split; [auto | intros [H | (s & Hs & _)]; [exact H | inversion Hs]].
    + intros l. split; [auto | intros [H | (s & Hs & _)]; [exact H | inversion Hs]].
    + reflexivity.
    + intros [| b before] seat after H; discriminate.
  - destruct (copilotLoop_cons tz cutoffDate seat rest acc w)
      as (activity & w1 & Hfs1 & Hact & Hlast & ->).
    set (acc1 := {| activeLogins := _; inactiveLogins := _; copilotActivityMap := _ |}).
    destruct (IH acc1 w1) as (analysis & w' & Hrun & Hfs & Hactive & Hinactive & Hkeep & Hlastseat).
    exists analysis, w'. split; [exact Hrun |]. split; [congruence |].
    split; [| split; [| split]].
    + intros l. rewrite Hactive. unfold acc1. cbn [activeLogins]. split.
      * intros [H | (s & Hs & Hl & Ha)].
        -- destruct (seatActive tz cutoffDate seat) eqn:Ea; [| left; exact H].
           apply elem_of_union in H as [H | H]; [| left; exact H].
           apply elem_of_singleton in H. right. exists seat.
           split; [left | split; [symmetry; exact H | exact Ea]].
        -- right. exists s. split; [right; exact Hs | split; assumption].
      * intros [H | (s & Hs & Hl & Ha)].
        -- left. destruct (seatActive tz cutoffDate seat); [| exact H].
           apply elem_of_union. right. exact H.
        -- apply elem_of_cons in Hs as [-> | Hs].
           ++ left. rewrite Ha. apply elem_of_union. left. apply elem_of_singleton.
              symmetry. exact Hl.
           ++ right. exists s. split; [exact Hs | split; assumption].
    + intros l. rewrite Hinactive. unfold acc1. cbn [inactiveLogins]. split.
      * intros [H | (s & Hs & Hl & Ha)].
        -- destruct (seatActive tz cutoffDate seat) eqn:Ea; [left; exact H |].
           apply elem_of_union in H as [H | H]; [| left; exact H].
           apply elem_of_singleton in H. right. exists seat.
           split; [left | split; [symmetry; exact H | exact Ea]].
        -- right. exists s. split; [right; exact Hs | split; assumption].
      * intros [H | (s & Hs & Hl & Ha)].
        -- left. destruct (seatActive tz cutoffDate seat); [exact H |].
           apply elem_of_union. right. exact H.
        -- apply elem_of_cons in Hs as [-> | Hs].
           ++ left. rewrite Ha. apply elem_of_union. left. apply elem_of_singleton.
              symmetry. exact Hl.
           ++ right. exists s. split; [exact Hs | split; assumption].
    + intros l Hno. rewrite Hkeep by (intros s Hs; apply Hno; right; exact Hs).
      unfold acc1. cbn [copilotActivityMap]. apply lookup_insert_ne. apply Hno. left.
    + intros before s after Hsplit Hafter. destruct before as [| b before].
      * cbn [app] in Hsplit. injection Hsplit as <- <-.
        rewrite Hkeep by exact Hafter. unfold acc1. cbn [copilotActivityMap].
        rewrite lookup_insert_eq. exists activity. split; [reflexivity | split; assumption].
      * rewrite <- app_comm_cons in Hsplit. injection Hsplit as <- ->.
        apply (Hlastseat before s after eq_refl Hafter).
Qed.

(** Who the Copilot analysis finds active.  The loop returns for every
    list of seats and leaves the files as they are.  A login is in
    [activeLogins] exactly when some seat of that login has a last activity
    at or after the cutoff, and in [inactiveLogins] exactly when some seat
    of that login has none; a login with seats of both kinds is in both
    sets.  The activity map has the verdict and the last activity of the
    last seat of each login. *)
Theorem copilotLoop_logins (tz : Z) (cutoffDate : Date) (seats : list Seat) (w : World) :
  exists analysis w',
    copilotLoop tz cutoffDate seats emptyCopilotAnalysis w = (Ok analysis, w') /\
    fs w' = fs w /\
    (forall l, l ∈ activeLogins analysis <->
               exists seat, seat ∈ seats /\ loginOf seat = l
                            /\ seatActive tz cutoffDate seat = true) /\
    (forall l, l ∈ inactiveLogins analysis <->
               exists seat, seat ∈ seats /\ loginOf seat = l
                            /\ seatActive tz cutoffDate seat = false) /\
    (forall before seat after,
       seats = before ++ seat :: after ->
       (forall other, other ∈ after -> loginOf other <> loginOf seat) ->
       exists activity,
         copilotActivityMap analysis !! loginOf seat = Some activity /\
         ca_isActive activity = seatActive tz cutoffDate seat /\
         ca_lastActivity activity = last_activity_at seat).
Proof.
  destruct (copilotLoop_spec tz cutoffDate seats emptyCopilotAnalysis w)
    as (analysis & w' & Hrun & Hfs & Hactive & Hinactive & _ & Hlast).
  exists analysis, w'. split; [exact Hrun |]. split; [exact Hfs |].
  split; [| split; [| exact Hlast]].
  - intros l. rewrite Hactive. split; [| auto].
    intros [H | H]; [apply elem_of_empty in H; contradiction | exact H].
  - intros l. rewrite Hinactive. split; [| auto].
    intros [H | H]; [apply elem_of_empty in H; contradiction | exact H].
Qed.

(** Two seats of one login, the first active and the second not: the login
    is active and inactive, and the map says inactive. *)
Example copilotLoop_both :
  match fst (copilotLoop 0 (TimeClip (monday10am - 7 * msPerDay))
               [ seatOf "octocat" (Some "2025-08-10T09:00:00Z") None;
                 seatOf "octocat" None None ]
               emptyCopilotAnalysis (frozenWorld monday10am)) with
  | Ok analysis =>
      bool_decide (Some "octocat" ∈ activeLogins analysis) = true /\
      bool_decide (Some "octocat" ∈ inactiveLogins analysis) = true /\
      (ca_isActive <$> copilotActivityMap analysis !! Some "octocat") = Some false
  | Throw _ => False
  end.
Proof. vm_compute. repeat split. Qed.
